(* ===== verification/_CoqProject ===== *)
-Q . S2P
Prelude.v
CString.v
Pool.v
Hashtable.v
Status.v
QueryMap.v
Options.v
TwoPhase.v
Wire.v
Forward.v
Clone.v
Trans.v
Cmd.v
SqlString.v
Net.v
Backend.v
BackendArrays.v
Complete.v
Query.v
Replicated.v
Server.v
Shutdown.v
Exec.v
Startup.v
Workers.v
Session.v
Proxy.v
Listen.v
Monitor.v
Threading.v
Slist.v
Argz.v
Lterror.v
SearchPath.v
Loaders.v
Modules.v
Dotla.v
Opening.v
Resolve.v
Preopen.v
LoaderApi.v
Dlopen.v
DldLink.v
ShlLoad.v
LoadAddOn.v
LoadLibrary.v
Dyld.v
Linux.v
Exit.v
Init.v
Deps.v
ForeachFile.v
Dirent.v
