(* ===== verification/Prelude.v ===== *)
(** * Verification of sfsql-proxy

    sfsql-proxy is a proxy between MySQL clients and one or more MySQL backends.
    It sends reads to one backend and writes to all of them, can run a two-phase
    commit over the backends, and can clone the machine of a backend with SnowFlock
    while queries run.  It loads the module that maps queries to backends with libltdl,
    whose sources are part of the repository.  This library models the C sources under
    src/src, src/map and src/libltdl, and proves what makes them
    correct; where the code does not do what it means to, a theorem states what it does
    instead.

    ** How C is modelled

    Integers are [Z]; the operations that wrap do so with [u32], [u64], [i32], [i64] of
    this file.  Bytes are [Z] between 0 and 255, strings are byte lists (CString.v
    has the functions of the C library the code uses: [strtok_r], [strtol],
    [strncasecmp], [printf] of numbers).  A function that can run into undefined
    behaviour returns an [outcome]: [Ret a], or [Undef] for an access outside
    an array, a null or dangling pointer, a signed overflow.  Arrays are lists
    with [aget] and [aset], which are [Undef] out of range; loops are [for_range]
    or structural recursion, with fuel where the source has none, and the theorems show
    the fuel is enough (the pool doubles at most 32 times; a scan of a packet or a
    string takes one byte at least in each round; the result rows take one
    packet each; draining a pool returns one item each time; a walk over a linked list
    gets more fuel than there are nodes; a long line of an archive grows its buffer while
    bytes are left, up to the size that fits an [int]; closing a module takes a handle out of the list; opening one needs
    fuel only for the libraries it depends on, where the build loads them; a round of
    [lt_dlexit] starts again only when the list of handles became shorter, which
    [round_fuel] bounds by a square, and there are two rounds at most for each time a module
    was opened).  Functions over
    pointers return a [run] (Slist.v), which tells undefined behaviour from lack of
    fuel.  Several threads are transition systems whose steps are single
    accesses of shared variables, with [rtc] as reachability.

    Code that is not in the repository is a parameter: the encodings of the MySQL
    protocol (class [Protocol] with [ProtocolLaws] in Wire.v, and an instance), the
    results of its network calls (a script in [MYSQL]), character sets
    ([charset]), the SnowFlock library ([snowflock]), the results of
    connection attempts, the file system and the environment, and the dynamic linkers
    of the systems the module loaders are for.  Memory allocation succeeds, except in the hash table and in libltdl,
    where it can fail for any size.

    ** Files and what they model

    - Prelude.v: outcomes, machine integers, arrays, loops, counting.
    - CString.v: strings and numbers of the C library.
    - Pool.v (proxy_pool.c): the lock pool [pool_t], its operations, and threads
      that get and return items ([sys_step]).
    - Hashtable.v (hashtable/hashtable.c): the chained hash table with its hash
      function, growth and allocation failures; the class [MapTable] is what
      the clients of the table rely on and [hashtable_MapTable] discharges it.
    - Status.v (proxy.h): the counters of a connection.
    - QueryMap.v (map/proxy_map_rowa.c): the read-one-write-all mapper.
    - Options.v (proxy_options.c): the command line.
    - TwoPhase.v (proxy_backend.c: proxy_backend_query, backend_query,
      backend_query_wait, backend_check_commit): the client thread, a thread for
      each backend and a cloning operation.
    - Wire.v (proxy_net.c, proxy_cmd.c): OK, error and end packets, result sets.
    - Forward.v (proxy_backend.c: backend_read_to_proxy, backend_read_rows): packets
      from a backend to the client.
    - Clone.v (proxy_clone.c): the state of cloning, over [MapTable].
    - Trans.v (proxy_trans.c, net_trans_result; Module [CloneCommit]: net_commit and
      backend_clone_query_wait): transactions that span a cloning operation.
    - Cmd.v and Exec.v (proxy_cmd.c): PROXY commands, parsed and executed.
    - SqlString.v (sql_string.c): character set conversion.
    - Net.v (proxy_net.c): the handshake and the commands of a client.
    - Backend.v, BackendArrays.v (proxy_backend.c): the file of backends; the arrays
      of hosts, connections, pools and threads.
    - Complete.v (proxy_backend.c: proxy_backend_clone_complete): telling the clones the decision,
      with the waits for a connection.
    - Query.v (proxy_backend.c: proxy_backend_query, backend_query,
      backend_check_commit): the choice of backends and what one thread
      does with a query.
    - Replicated.v: TwoPhase.v and Query.v together, a replicated query with its packets.
    - Server.v (proxy.c: server_run; proxy_net.c: proxy_net_new_thread;
      proxy_threading.c): the hand-over of clients to threads.
    - Shutdown.v (proxy_backend_close, proxy_threading_cleanup): the end of the
      backends, with freed pointers.
    - Startup.v (proxy.c: main; proxy_logging.c; proxy_backend_init): from the options to the exit
      code, over Options.v, BackendArrays.v and Shutdown.v; whether the other threads end
      is an input, and Listen.v tells when the accepting ones do.
    - Workers.v (proxy_backend_new_thread, proxy_backend_query, backend_new_threads):
      how client threads hand queries to the threads of the backends, with locks and signals.
    - Session.v (proxy_net.c: client_init, proxy_net_client_do_work, client_destroy,
      proxy_net_new_thread; cmd_admin_new_thread): one client from its
      connection to its end.
    - Proxy.v (proxy_backend_query as proxy_net_read_query calls it): Session.v and Query.v together,
      a session from the client to the backend and back.
    - Listen.v (proxy_net_bind_new_socket, server_run, proxy_cmd_admin_start, catch_sig):
      the sockets, and the two accepting threads when a signal comes; the client threads are
      a number of free ones.
    - Monitor.v (proxy_monitor.c): the message to the master and the statistics file.
    - Threading.v (proxy_threading.h, proxy_threading.c): mutexes and condition variables in release and
      debug builds, signals and buffers of threads.
    - Slist.v (libltdl/slist.c): linked lists in a heap.
    - Argz.v (libltdl/argz.c, lt__strl.c): vectors of strings in one block of memory.
    - Lterror.v (libltdl/lt_error.c): error messages.
    - SearchPath.v (libltdl/ltdl.c: canonicalize_path, foreach_dirinpath,
      lt_dladdsearchdir and others): search paths.
    - Loaders.v (libltdl/lt_dlloader.c): the list of loaders, over Slist.v.
    - Modules.v (libltdl/ltdl.c: tryall_dlopen, lt_dlclose, lt_dlsym, lt_dlcaller_set_data,
      lt_dlhandle_iterate and others): handles of open modules.
    - Dotla.v (libltdl/ltdl.c: parse_dotla_file, trim): the archives of libtool.
    - Opening.v (libltdl/ltdl.c: try_dlopen, lt_dlopenadvise and all between):
      how a module is found; Resolve.v: the specification of that, and how
      proxy_backend_init loads the mapper.
    - Preopen.v (libltdl/loaders/preopen.c): the loader of preloaded modules.
    - LoaderApi.v (libltdl/libltdl/lt_dlloader.h; lt_dlinterface_register): the functions of a
      loader as the class [ModuleLoader], and its laws ([OpenLaws], [SymLaws],
      [CloseLaws]): what a loader promises to libltdl about modules and errors.
    - Dlopen.v, DldLink.v, ShlLoad.v, LoadAddOn.v, LoadLibrary.v, Dyld.v (the files of these
      names under libltdl/loaders): the loaders for the dynamic linkers of several systems.
      Those of dlopen and load_add_on are instances of the class; of the
      others it is shown which law they break.
    - Linux.v: Opening.v and Resolve.v with the two loaders of a Linux system, dlopen and
      preopen.
    - Init.v and Exit.v (libltdl/ltdl.c: lt_dlinit, loader_init; lt_dlexit; the end of the
      mapper in proxy_backend_close): the start and the end of libltdl.
    - Deps.v: the graph of handles, with the libraries modules depend on.
    - ForeachFile.v (libltdl/ltdl.c: lt_dlforeachfile, lt_argz_insertdir and others) and
      Dirent.v (libltdl/lt__dirent.c): the lists of module files.

    ** How the parts interact

    [server_run] takes a thread of the client pool (Server.v over Pool.v); the
    thread takes a connection (BackendArrays.v), runs the handshake and reads
    commands (Net.v).  A query goes through [dispatch] (Query.v, with the
    mapper of QueryMap.v) to one connection ([backend_query], which forwards with
    Forward.v) or to the threads of all backends (TwoPhase.v, where
    [backend_check_commit] of Query.v is the decision: [decision_is] of Replicated.v).
    Net.v and Session.v take [proxy_backend_query] and [proxy_cmd] as arguments, with the state they
    change; Proxy.v passes the first one in.  A PROXY command is parsed by
    Cmd.v and executed by Exec.v, which changes the states of Clone.v, Trans.v and
    BackendArrays.v and tells the clones a decision with Complete.v.  Options.v is read by all of them.  Session.v and Workers.v are the
    client and backend threads around these parts; Listen.v and Monitor.v are the
    threads that accept connections and report.  At the start [load_mapper] (Resolve.v)
    adds directories to the search path (SearchPath.v over Argz.v), resolves the mapper
    through them (Opening.v with Dotla.v, Modules.v and the loaders of Loaders.v) and
    looks up its function; [mapper_loaded] of Linux.v ties it to [proxy_backend_init] of
    Startup.v, with the loaders [linux_life] of Init.v shows lt_dlinit to add.  The handles and
    loaders are freed at the end ([close_mapper] of Exit.v, called with the rest of Shutdown.v).

    ** What the theorems show

    - Agreement, termination, and the answer to the client of a two-phase commit; what
      breaks it (results on a stack that is gone, a reset flag); without two-phase commit a query
      for all backends hangs: TwoPhase.v.  While the client thread is in the query, the packets sent are
      COMMIT to every backend, or ROLLBACK to every backend: Replicated.v.
    - A whole session is transparent: a client gets the replies of the backend to its queries and nothing
      else; queries on an administrative connection are undefined: Proxy.v.
    - A proxied query is transparent, goes where the mapper says, carries its
      identifier, and its commit is answered with the right counts: Query.v, Forward.v.
    - Every client is served once, by an idle thread, and is counted: Server.v.
    - The hash table refines a finite map and the pool excludes two holders of an item;
      a wake-up of the pool may be lost: Hashtable.v, Pool.v.
    - The start leaves every backend connected, a client gets an open connection,
      adding and closing backends is broken: Backend.v, BackendArrays.v, Shutdown.v.
    - The results of clones are collected, the decision is sent to every clone unless the sender
      waits for a connection, and is executed there, up to races: Trans.v, Complete.v; cloning
      ends, unless the master refuses or a commit phase does not end: Clone.v, Exec.v.
    - The messages between proxies are understood, reports decode to the
      counters, the handshake reads nothing outside the packet, conversions stay in their
      buffers: Cmd.v, Exec.v, Net.v, SqlString.v.
    - Exactly which options are accepted and with which values; with which exit code and
      after which actions the program ends, or that it does not: Options.v, Startup.v.
    - A query runs once on every backend and no wake-up of a backend thread is lost:
      Workers.v; a client thread frees what it took and counts what it did: Session.v;
      a signal ends the program, unless it comes at the wrong moment: Listen.v.
    - The debugging build does what the release build does, wherever that is defined: Threading.v; the reports of
      the monitor decode: Monitor.v.
    - libltdl: merging of lists equals a reference, vectors and archives are
      read as they were written, a search visits the directories in order, loaders refine
      a list and open modules a table of counts, a name is resolved to the module the
      search paths tell, symbol names fit their buffers, preloaded modules are found:
      Slist.v, Argz.v, Dotla.v, SearchPath.v, Loaders.v, Modules.v, Resolve.v, Preopen.v.
    - On Linux the mapper is loaded by dlopen and found by dlsym, and its module is closed
      with all others at the end; the message of dlopen is lost on the way: Linux.v, Init.v,
      Exit.v.  No handle is used after it is freed when modules are closed one by one,
      whatever depends on what; lt_dlexit does use one: Deps.v.  A listing visits every module
      of the search path once, in order: ForeachFile.v, Dirent.v.
    - What the other loaders do wrong (modules loaded twice, symbols lost, a library
      taken for another): ShlLoad.v, LoadAddOn.v, DldLink.v, LoadLibrary.v, Dyld.v.

    ** What is not modelled

    The options of sockets, the text of messages to the log, the usage text,
    debugging output (lt_dlloader_dump), code that is disabled
    (backend_conns_free), and headers that only declare things (violite.h, a header of the
    MySQL client library; lt_system.h, macros for compilers).  In TwoPhase.v a cloning operation may
    start during a query but its end is left to Trans.v, and the query starts from idle backend
    threads and fresh commit data: a backend thread that is late with the query before is outside.
    Whether the client threads, the backend threads and the monitor end is an input of Startup.v.  Timeouts are an
    input of the wait in Clone.v. *)

From stdpp Require Export base tactics list gmap strings numbers relations.
From Stdlib Require Export ZArith Lia.

#[global] Set Default Goal Selector "!".

#[global] Arguments Z.pow : simpl never.
#[global] Arguments Z.modulo : simpl never.
#[global] Arguments Z.rem : simpl never.
#[global] Arguments Z.mul : simpl never.
#[global] Arguments Z.add : simpl never.
#[global] Arguments Z.sub : simpl never.
#[global] Arguments Z.of_nat : simpl never.
#[global] Arguments Z.to_nat : simpl never.

(** ** Outcomes

    [Ret a] is a run that returns [a]; [Undef] is a run that reaches undefined
    behaviour of C (an access outside an array, a null or dangling pointer, a
    signed overflow, a division by zero). *)

Inductive outcome (A : Type) : Type :=
| Ret (a : A)
| Undef.
Arguments Ret {A} a.
Arguments Undef {A}.

#[export] Instance outcome_ret : MRet outcome := fun A a => Ret a.
#[export] Instance outcome_bind : MBind outcome := fun A B f m =>
  match m with Ret a => f a | Undef => Undef end.
#[export] Instance outcome_eq_dec `{EqDecision A} : EqDecision (outcome A).
Proof. solve_decision. Defined.

Definition is_ret {A} (m : outcome A) : bool :=
  match m with Ret _ => true | Undef => false end.

Lemma bind_Ret {A B} (m : outcome A) (f : A -> outcome B) b :
  m ≫= f = Ret b <-> exists a, m = Ret a /\ f a = Ret b.
Proof.
  destruct m as [a|]; simpl; split.
  - eauto.
  - intros (a' & Ha & Hf). by simplify_eq.
  - discriminate.
  - intros (a' & Ha & _). discriminate.
Qed.

(** Destructs every bind of a hypothesis that returns. *)
Ltac inv_bind :=
  repeat match goal with
  | H : _ ≫= _ = Ret _ |- _ =>
      apply bind_Ret in H; destruct H as (? & ? & H)
  end.

(** ** Machine integers

    An [int], [uint32_t], [unsigned long] and so on is an integer of [Z]; the
    functions below are the conversions to a width (two's complement, LP64). *)

Section machine_integers.
Local Open Scope Z_scope.

Definition wrap (w z : Z) : Z := z mod 2 ^ w.
Definition u8 (z : Z) : Z := wrap 8 z.
Definition u16 (z : Z) : Z := wrap 16 z.
Definition u32 (z : Z) : Z := wrap 32 z.
Definition u64 (z : Z) : Z := wrap 64 z.
Definition i32 (z : Z) : Z := (z + 2 ^ 31) mod 2 ^ 32 - 2 ^ 31.
Definition i64 (z : Z) : Z := (z + 2 ^ 63) mod 2 ^ 64 - 2 ^ 63.

Definition INT_MAX : Z := 2 ^ 31 - 1.
Definition LONG_MAX : Z := 2 ^ 63 - 1.
Definition LONG_MIN : Z := - 2 ^ 63.

Lemma wrap_range w z : 0 <= w -> 0 <= wrap w z < 2 ^ w.
Proof. intros. apply Z.mod_pos_bound. lia. Qed.

Lemma wrap_small w z : 0 <= z < 2 ^ w -> wrap w z = z.
Proof. apply Z.mod_small. Qed.

Lemma wrap_idem w z : wrap w (wrap w z) = wrap w z.
Proof. apply Zmod_mod. Qed.

Lemma wrap_add_l w a b : wrap w (wrap w a + b) = wrap w (a + b).
Proof. apply Zplus_mod_idemp_l. Qed.

Lemma wrap_add_r w a b : wrap w (a + wrap w b) = wrap w (a + b).
Proof. apply Zplus_mod_idemp_r. Qed.

Lemma i32_range z : - 2 ^ 31 <= i32 z < 2 ^ 31.
Proof. unfold i32. pose proof (Z.mod_pos_bound (z + 2 ^ 31) (2 ^ 32)). lia. Qed.

(** One forward and one back. *)
Lemma i32_succ_pred z : - 2 ^ 31 <= z < 2 ^ 31 -> i32 (i32 (z + 1) - 1) = z.
Proof.
  intros Hz. unfold i32.
  replace ((z + 1 + 2 ^ 31) mod 2 ^ 32 - 2 ^ 31 - 1 + 2 ^ 31) with ((z + 1 + 2 ^ 31) mod 2 ^ 32 + (-1)) by lia.
  rewrite Zplus_mod_idemp_l. replace (z + 1 + 2 ^ 31 + -1) with (z + 2 ^ 31) by lia. rewrite Z.mod_small; lia.
Qed.

Lemma i32_small z : - 2 ^ 31 <= z < 2 ^ 31 -> i32 z = z.
Proof. intros. unfold i32. rewrite Z.mod_small; lia. Qed.

End machine_integers.

(** ** Arrays

    A C array is a list; an access with an index outside the list is
    undefined. *)

Section arrays.
Local Open Scope Z_scope.
Context {A : Type}.
Implicit Types (l : list A).

Definition zlength l : Z := Z.of_nat (length l).

Definition aget l (i : Z) : outcome A :=
  if 0 <=? i then match l !! Z.to_nat i with Some x => Ret x | None => Undef end
  else Undef.

Definition aset l (i : Z) (x : A) : outcome (list A) :=
  if (0 <=? i) && (i <? zlength l) then Ret (<[Z.to_nat i := x]> l) else Undef.

Lemma aget_Ret l i x : aget l i = Ret x <-> 0 <= i /\ l !! Z.to_nat i = Some x.
Proof.
  unfold aget. destruct (Z.leb_spec 0 i); [|by split; [|lia]].
  destruct (l !! Z.to_nat i); naive_solver.
Qed.

Lemma aget_is_Ret l i : 0 <= i < zlength l -> exists x, aget l i = Ret x.
Proof.
  unfold zlength. intros. destruct (lookup_lt_is_Some_2 l (Z.to_nat i)) as [x Hx]; [lia|].
  exists x. apply aget_Ret. split; [lia|done].
Qed.

Lemma aget_Undef l i : aget l i = Undef <-> ~ (0 <= i < zlength l).
Proof.
  split.
  - intros H Hi. destruct (aget_is_Ret l i Hi). congruence.
  - intros H. destruct (aget l i) as [x|] eqn:E; [|done].
    apply aget_Ret in E as [? E%lookup_lt_Some]. unfold zlength in H. lia.
Qed.

Lemma aset_Ret l i x l' :
  aset l i x = Ret l' <-> 0 <= i < zlength l /\ l' = <[Z.to_nat i := x]> l.
Proof.
  unfold aset. destruct (Z.leb_spec 0 i), (Z.ltb_spec i (zlength l)); simpl;
    naive_solver lia.
Qed.

Lemma aset_in l i x :
  0 <= i < zlength l -> aset l i x = Ret (<[Z.to_nat i := x]> l).
Proof. intros. by apply aset_Ret. Qed.

Lemma zlength_insert l i x : zlength (<[i := x]> l) = zlength l.
Proof. unfold zlength. by rewrite length_insert. Qed.

Lemma zlength_app l l' : zlength (l ++ l') = zlength l + zlength l'.
Proof. unfold zlength. by rewrite length_app, Nat2Z.inj_add. Qed.

Lemma zlength_cons (x : A) l : zlength (x :: l) = 1 + zlength l.
Proof. unfold zlength. simpl length. lia. Qed.

Lemma zlength_nonneg l : 0 <= zlength l.
Proof. apply Zle_0_nat. Qed.

Lemma to_nat_zlength l : Z.to_nat (zlength l) = length l.
Proof. apply Nat2Z.id. Qed.

Lemma zlength_repl n (x : A) : zlength (replicate n x) = Z.of_nat n.
Proof. unfold zlength. by rewrite length_replicate. Qed.

End arrays.

(** ** Loops

    [for_ n i body s] runs [body] for the indices [i], [i+1], ..., [i+n-1]. *)

Section loops.
Local Open Scope Z_scope.
Context {S : Type}.

Fixpoint for_ (n : nat) (i : Z) (body : Z -> S -> outcome S) (s : S) : outcome S :=
  match n with
  | O => Ret s
  | Datatypes.S n => s' ← body i s; for_ n (i + 1) body s'
  end.

(** [for (i = a; i < b; i++)] *)
Definition for_range (a b : Z) (body : Z -> S -> outcome S) (s : S) : outcome S :=
  for_ (Z.to_nat (b - a)) a body s.

(** The invariant rule: a loop whose body always returns and keeps [I] returns
    with [I] at its end. *)
Lemma for_inv (I : Z -> S -> Prop) body n i s :
  I i s ->
  (forall j t, i <= j < i + Z.of_nat n -> I j t -> exists t', body j t = Ret t' /\ I (j + 1) t') ->
  exists s', for_ n i body s = Ret s' /\ I (i + Z.of_nat n) s'.
Proof.
  revert i s. induction n as [|n IH]; intros i s H0 Hb.
  - exists s. rewrite Z.add_0_r. done.
  - destruct (Hb i s) as (t & Ht & HI); [lia|done|].
    simpl. rewrite Ht. simpl.
    destruct (IH (i + 1) t HI) as (s' & Hs' & HI').
    { intros. apply Hb; [lia|done]. }
    exists s'. split; [done|]. by replace (i + Z.of_nat (Datatypes.S n)) with (i + 1 + Z.of_nat n) by lia.
Qed.

Lemma for_range_inv (I : Z -> S -> Prop) body a b s :
  a <= b ->
  I a s ->
  (forall j t, a <= j < b -> I j t -> exists t', body j t = Ret t' /\ I (j + 1) t') ->
  exists s', for_range a b body s = Ret s' /\ I b s'.
Proof.
  intros Hab H0 Hb. destruct (for_inv I body (Z.to_nat (b - a)) a s H0) as (s' & Hs & HI).
  - intros j t Hj. apply Hb. lia.
  - exists s'. split; [done|]. by replace (a + Z.of_nat (Z.to_nat (b - a))) with b in HI by lia.
Qed.

End loops.

(** ** Tactics and hints *)

Create HintDb sfsql discriminated.
#[export] Hint Resolve wrap_range i32_range : sfsql.

(** Turns boolean comparisons of hypotheses and goals into propositions. *)
Ltac bprop :=
  repeat match goal with
  | H : (_ && _)%bool = true |- _ => apply andb_prop in H; destruct H
  | H : negb _ = true |- _ => apply negb_true_iff in H
  | H : negb _ = false |- _ => apply negb_false_iff in H
  | H : Z.leb _ _ = true |- _ => apply Z.leb_le in H
  | H : Z.leb _ _ = false |- _ => apply Z.leb_gt in H
  | H : Z.ltb _ _ = true |- _ => apply Z.ltb_lt in H
  | H : Z.ltb _ _ = false |- _ => apply Z.ltb_ge in H
  | H : Z.eqb _ _ = true |- _ => apply Z.eqb_eq in H
  | H : Z.eqb _ _ = false |- _ => apply Z.eqb_neq in H
  end.

(** Case analysis on the test of the first [if] or [match] of the goal. *)
Ltac case_test := case_match; simpl in *; bprop; simplify_eq/=.

(** ** Generic lemmas on lists *)

(** A list splits around a position. *)
Lemma lookup_middle {A} (l : list A) i x :
  l !! i = Some x -> exists l1 l2, l = l1 ++ x :: l2 /\ length l1 = i.
Proof.
  intros H. exists (take i l), (drop (S i) l). split; [by symmetry; apply take_drop_middle|].
  apply length_take_le. apply lookup_lt_Some in H. lia.
Qed.

Lemma alter_insert {A} (f : A -> A) (l : list A) i x :
  l !! i = Some x -> alter f i l = <[i := f x]> l.
Proof.
  intros (l1 & l2 & -> & <-)%lookup_middle.
  by rewrite alter_app_r_alt, insert_app_r_alt, Nat.sub_diag by lia.
Qed.

(** The number of elements of a list that satisfy a boolean test. *)
Definition count {A} (f : A -> bool) (l : list A) : Z :=
  Z.of_nat (length (List.filter f l)).

Section count.
Local Open Scope Z_scope.
Context {A : Type} (f : A -> bool).

Lemma count_nil : count f [] = 0.
Proof. done. Qed.

Lemma count_cons x l : count f (x :: l) = (if f x then 1 else 0) + count f l.
Proof. unfold count. simpl. destruct (f x); simpl; lia. Qed.

Lemma count_app l1 l2 : count f (l1 ++ l2) = count f l1 + count f l2.
Proof. unfold count. rewrite List.filter_app, length_app. lia. Qed.

Lemma count_bounds l : 0 <= count f l <= zlength l.
Proof. unfold count, zlength. pose proof (List.filter_length_le f l). lia. Qed.

Lemma count_insert l i x y :
  l !! i = Some x ->
  count f (<[i := y]> l) = count f l - (if f x then 1 else 0) + (if f y then 1 else 0).
Proof.
  intros (l1 & l2 & -> & <-)%lookup_middle.
  rewrite insert_app_r_alt, Nat.sub_diag by lia. simpl.
  rewrite !count_app, !count_cons. lia.
Qed.

Lemma count_zero l : count f l = 0 <-> forall x, x ∈ l -> f x = false.
Proof.
  induction l as [|a l IH].
  - rewrite count_nil. split; [|done]. intros _ x Hx. by apply elem_of_nil in Hx.
  - rewrite count_cons. pose proof (count_bounds l). split.
    + intros H0 x Hx. destruct (f a) eqn:E; [lia|].
      apply elem_of_cons in Hx as [->|Hx]; [done|]. apply IH; [lia|done].
    + intros Hall. rewrite (Hall a) by apply elem_of_cons, or_introl, eq_refl.
      apply IH. intros x Hx. apply Hall. apply elem_of_cons. by right.
Qed.

Lemma count_full l : count f l = zlength l -> forall x, x ∈ l -> f x = true.
Proof.
  induction l as [|a l IH]; intros Hc x Hx; [by apply elem_of_nil in Hx|].
  rewrite count_cons in Hc. pose proof (count_bounds l). unfold zlength in *. simpl in Hc.
  destruct (f a) eqn:E; [|lia].
  apply elem_of_cons in Hx as [->|Hx]; [done|]. apply IH; [lia|done].
Qed.

Lemma count_lt l i x : l !! i = Some x -> f x = false -> count f l < zlength l.
Proof.
  intros Hi Hf. destruct (Z.eq_dec (count f l) (zlength l)) as [E|].
  - rewrite (count_full l E x) in Hf; [done|]. apply list_elem_of_lookup. eauto.
  - pose proof (count_bounds l). lia.
Qed.

End count.

Lemma forallb_elem {A} (f : A -> bool) l :
  forallb f l = true <-> forall i x, l !! i = Some x -> f x = true.
Proof.
  rewrite forallb_forall. split.
  - intros H i x Hi. apply H. apply list_elem_of_In, list_elem_of_lookup. eauto.
  - intros H x Hx. apply list_elem_of_In, list_elem_of_lookup in Hx as [i Hi]. eauto.
Qed.
