(* ===== verification/CString.v ===== *)
(** * C strings

    The functions of the C library that the proxy uses on strings.  A byte is an
    integer between 0 and 255.  A string value is the list of its bytes without
    the terminating NUL; a buffer is the list of the bytes of its memory and a
    pointer into it an offset, bytes past the end of the list being NUL. *)

From S2P Require Import Prelude.
Local Open Scope Z_scope.

Definition byte_of (a : Ascii.ascii) : Z := Z.of_N (Ascii.N_of_ascii a).

(** The bytes of a string literal. *)
Fixpoint str (s : string) : list Z :=
  match s with
  | EmptyString => []
  | String a s => byte_of a :: str s
  end.

(** Normalises concatenations. *)
Ltac app_norm := cbn [str]; repeat progress (rewrite <-?app_assoc; cbn [app]).

(** The size of buffers for text (stdio.h). *)
Definition BUFSIZ : Z := 8192.

(** ** Characters *)

Definition NUL : Z := 0.
Definition isspace (c : Z) : bool := (c =? 32) || ((9 <=? c) && (c <=? 13)).
Definition isdigit (c : Z) : bool := (48 <=? c) && (c <=? 57).
Definition tolower (c : Z) : Z := if (65 <=? c) && (c <=? 90) then c + 32 else c.
#[global] Arguments tolower : simpl never.

(** ** Buffers *)

(** The longest prefix whose elements satisfy [f], and its length. *)
Fixpoint take_while (f : Z -> bool) (l : list Z) : list Z :=
  match l with
  | [] => []
  | c :: l => if f c then c :: take_while f l else []
  end.

Definition span (f : Z -> bool) (l : list Z) : nat := length (take_while f l).

(** The string at an offset of a buffer. *)
Definition cstr (buf : list Z) (off : nat) : list Z :=
  take_while (fun c => negb (c =? NUL)) (drop off buf).

(** The byte a pointer points to. *)
Definition hd0 (s : list Z) : Z := match s with [] => NUL | c :: _ => c end.

(** ** Comparison *)

(** [strncasecmp]: the end of a list is its NUL. *)
Fixpoint strncasecmp (s1 s2 : list Z) (n : nat) : Z :=
  match n with
  | O => 0
  | S n =>
      let c1 := hd0 s1 in
      let c2 := hd0 s2 in
      if negb (tolower c1 =? tolower c2) then tolower c1 - tolower c2
      else if c1 =? NUL then 0
      else strncasecmp (tail s1) (tail s2) n
  end.

(** The macro [strprefix(str, cmp, len)] of proxy_cmd.c and proxy_map_rowa.c. *)
Definition strprefix (s cmp : list Z) (len : Z) : bool :=
  if len <? zlength cmp then false
  else strncasecmp s cmp (length cmp) =? 0.

Definition strcasecmp_eq (s1 s2 : list Z) : bool :=
  strncasecmp s1 s2 (S (length s1 + length s2)) =? 0.

(** ** Numbers *)

(** The digits of [n] before [acc]; [fuel] digits at most. *)
Fixpoint digits (fuel : nat) (n : Z) (acc : list Z) : list Z :=
  match fuel with
  | O => acc
  | S fuel =>
      let acc := (48 + n mod 10) :: acc in
      if n <? 10 then acc else digits fuel (n / 10) acc
  end.

(** [printf("%lu", n)]; an [unsigned long] has at most 20 digits. *)
Definition fmt_lu (n : Z) : list Z := digits 20 (u64 n) [].

(** [printf("%d", n)] for an [int]. *)
Definition fmt_d (n : Z) : list Z :=
  if n <? 0 then 45 :: digits 20 (- n) [] else digits 20 n [].

Definition num_of (l : list Z) : Z := fold_left (fun a d => 10 * a + (d - 48)) l 0.

(** [strtol(s, NULL, 10)]: the value, and whether [errno] was set. *)
Definition strtol (s : list Z) : Z * bool :=
  let s := drop (span isspace s) s in
  let sign := hd0 s in
  let neg := sign =? 45 in
  let s := if neg || (sign =? 43) then tail s else s in
  let v := num_of (take_while isdigit s) in
  let v := if neg then - v else v in
  if LONG_MAX <? v then (LONG_MAX, true)
  else if v <? LONG_MIN then (LONG_MIN, true)
  else (v, false).

(** [atoi]: the [int] part of [strtol]. *)
Definition atoi (s : list Z) : Z := i32 (fst (strtol s)).

(** ** Search *)

(** The offset of the first [c] in a string. *)
Fixpoint strchr (s : list Z) (c : Z) : option nat :=
  match s with
  | [] => None
  | x :: s => if x =? c then Some O else S <$> strchr s c
  end.

(** The offset of the last [c]. *)
Fixpoint strrchr (s : list Z) (c : Z) : option nat :=
  match s with
  | [] => None
  | x :: s =>
      match strrchr s c with
      | Some i => Some (S i)
      | None => if x =? c then Some O else None
      end
  end.

(** [strtok_r] from offset [s]: the offset of the token, the buffer with the
    delimiter after it overwritten by NUL, and the saved pointer. *)
Definition strtok_r (buf : list Z) (s : nat) (delim : Z -> bool)
  : option nat * list Z * nat :=
  let tok := (s + span delim (drop s buf))%nat in
  let len := span (fun c => negb (delim c) && negb (c =? NUL)) (drop tok buf) in
  if (len =? 0)%nat then (None, buf, tok)
  else
    let e := (tok + len)%nat in
    match buf !! e with
    | Some c => if c =? NUL then (Some tok, buf, e)
                else (Some tok, <[e := NUL]> buf, S e)
    | None => (Some tok, buf, e)
    end.

Definition is_char (c : Z) : Z -> bool := fun x => x =? c.

(** ** Lemmas *)

Lemma take_while_all f l : Forall (fun c => f c = true) l -> take_while f l = l.
Proof. induction 1 as [|c l Hc _ IH]; simpl; [done|]. by rewrite Hc, IH. Qed.

Lemma take_while_app f l1 l2 :
  Forall (fun c => f c = true) l1 -> take_while f (l1 ++ l2) = l1 ++ take_while f l2.
Proof. induction 1 as [|c l Hc _ IH]; simpl; [done|]. by rewrite Hc, IH. Qed.

Lemma take_while_Forall f l : Forall (fun c => f c = true) (take_while f l).
Proof.
  induction l as [|c l IH]; simpl; [constructor|].
  destruct (f c) eqn:E; [by constructor|constructor].
Qed.

Lemma take_while_prefix f l : take_while f l = take (span f l) l.
Proof.
  unfold span. induction l as [|c l IH]; simpl; [done|].
  destruct (f c); simpl; [by rewrite <-IH|done].
Qed.

Lemma tolower_idem c : tolower (tolower c) = tolower c.
Proof.
  unfold tolower. destruct (Z.leb_spec 65 c), (Z.leb_spec c 90); simpl;
    repeat match goal with |- context [?a <=? ?b] => destruct (Z.leb_spec a b) end; simpl; lia.
Qed.

Lemma tolower_NUL c : tolower c = NUL -> c = NUL.
Proof.
  unfold tolower, NUL. destruct (Z.leb_spec 65 c), (Z.leb_spec c 90); simpl; lia.
Qed.

(** Two strings without NUL agree up to case on their first [n] bytes. *)
Lemma strncasecmp_eq s1 s2 n :
  NUL ∉ s1 -> NUL ∉ s2 ->
  strncasecmp s1 s2 n = 0 <-> take n (tolower <$> s1) = take n (tolower <$> s2).
Proof.
  revert s1 s2. induction n as [|n IH]; intros s1 s2 H1 H2; [done|].
  destruct s1 as [|c1 s1], s2 as [|c2 s2];
    cbn [strncasecmp hd0 tail fmap list_fmap take].
  - done.
  - apply not_elem_of_cons in H2 as [H2 _]. split; [|done].
    destruct (Z.eqb_spec (tolower NUL) (tolower c2)) as [E|E]; simpl; intros H.
    + destruct H2. symmetry. apply tolower_NUL. by rewrite <-E.
    + exfalso. apply E. lia.
  - apply not_elem_of_cons in H1 as [H1 _]. split; [|done].
    destruct (Z.eqb_spec (tolower c1) (tolower NUL)) as [E|E]; simpl; intros H.
    + destruct H1. symmetry. by apply tolower_NUL.
    + exfalso. apply E. lia.
  - apply not_elem_of_cons in H1 as [Hc1 H1], H2 as [Hc2 H2].
    destruct (Z.eqb_spec (tolower c1) (tolower c2)) as [E|E]; simpl.
    + destruct (Z.eqb_spec c1 NUL); [congruence|]. rewrite IH by done. rewrite E.
      split; [by intros ->|]. by intros [= ?].
    + split; [lia|]. by intros [= ?].
Qed.

(** [strprefix] of a string against an upper-case or lower-case keyword. *)
Lemma strprefix_spec s cmp len :
  NUL ∉ s -> NUL ∉ cmp -> zlength s <= len ->
  strprefix s cmp len = true <->
    exists rest, tolower <$> s = (tolower <$> cmp) ++ rest.
Proof.
  intros Hs Hc Hlen. unfold strprefix, zlength in *.
  assert (Ht : take (length cmp) (tolower <$> cmp) = tolower <$> cmp)
    by (rewrite take_ge; [done|by rewrite length_fmap]).
  destruct (Z.ltb_spec len (Z.of_nat (length cmp))) as [Hlt|Hge].
  - split; [done|]. intros [rest E]. apply (f_equal length) in E.
    rewrite length_app, !length_fmap in E. lia.
  - rewrite Z.eqb_eq, strncasecmp_eq, Ht by done. split.
    + intros E. exists (drop (length cmp) (tolower <$> s)). rewrite <-E. by rewrite take_drop.
    + intros [rest ->]. rewrite take_app_le, Ht; [done|]. by rewrite length_fmap.
Qed.

(** ** Printing and parsing numbers *)

Lemma num_of_app l1 l2 : num_of (l1 ++ l2) = num_of l1 * 10 ^ zlength l2 + num_of l2.
Proof.
  unfold num_of. rewrite fold_left_app. generalize (fold_left (fun a d => 10 * a + (d - 48)) l1 0).
  induction l2 as [|d l2 IH] using rev_ind; intros a.
  - unfold zlength. simpl. rewrite Z.pow_0_r. lia.
  - rewrite !fold_left_app. simpl. rewrite IH. unfold zlength. rewrite length_app. simpl.
    rewrite Nat2Z.inj_add, Z.pow_add_r by lia. change (10 ^ Z.of_nat 1) with 10. lia.
Qed.

Lemma num_of_cons d l : num_of (d :: l) = (d - 48) * 10 ^ zlength l + num_of l.
Proof.
  change (d :: l) with ([d] ++ l). rewrite num_of_app. by unfold num_of at 1.
Qed.

Lemma digits_spec fuel n acc :
  0 <= n < 10 ^ Z.of_nat fuel -> (0 < fuel)%nat ->
  exists l, digits fuel n acc = l ++ acc /\ l <> [] /\
    Forall (fun c => isdigit c = true) l /\ num_of l = n.
Proof.
  revert n acc. induction fuel as [|fuel IH]; intros n acc Hn Hf; [lia|]. simpl.
  pose proof (Z.mod_pos_bound n 10 ltac:(lia)) as Hm. pose proof (Z.div_mod n 10 ltac:(lia)) as Hd.
  assert (Hdig : isdigit (48 + n mod 10) = true).
  { unfold isdigit. destruct (Z.leb_spec 48 (48 + n mod 10)), (Z.leb_spec (48 + n mod 10) 57); simpl; lia. }
  destruct (Z.ltb_spec n 10).
  - exists [48 + n mod 10]. split_and!; [done..|by repeat constructor|].
    unfold num_of. simpl. rewrite Z.mod_small by lia. lia.
  - rewrite Nat2Z.inj_succ, Z.pow_succ_r in Hn by lia.
    destruct (IH (n / 10) ((48 + n mod 10) :: acc)) as (l & -> & Hne & Hall & Hv).
    + split; [apply Z.div_pos; lia|]. apply Z.div_lt_upper_bound; lia.
    + destruct fuel; [|lia]. change (10 ^ Z.of_nat 0) with 1 in Hn. lia.
    + exists (l ++ [48 + n mod 10]). split_and!.
      * by rewrite <-app_assoc.
      * by destruct l.
      * apply Forall_app. split; [done|by repeat constructor].
      * rewrite num_of_app, Hv. unfold zlength. simpl. change (10 ^ Z.of_nat 1) with 10.
        unfold num_of. simpl. lia.
Qed.

Lemma fmt_lu_spec n :
  0 <= n < 2 ^ 64 ->
  fmt_lu n <> [] /\ Forall (fun c => isdigit c = true) (fmt_lu n) /\ num_of (fmt_lu n) = n.
Proof.
  intros Hn. unfold fmt_lu, u64. rewrite wrap_small by done.
  destruct (digits_spec 20 n []) as (l & -> & ?); [|lia|by rewrite app_nil_r].
  change (10 ^ Z.of_nat 20) with 100000000000000000000. lia.
Qed.

Lemma digits_length fuel n acc : (length (digits fuel n acc) <= fuel + length acc)%nat.
Proof.
  revert n acc. induction fuel as [|fuel IH]; intros n acc; simpl; [done|].
  case_match; simpl; [lia|]. pose proof (IH (n / 10) ((48 + n mod 10) :: acc)) as H'. simpl in H'. lia.
Qed.

Lemma digits_length_small fuel n acc k :
  0 <= n < 10 ^ Z.of_nat k -> (0 < k)%nat -> (length (digits fuel n acc) <= k + length acc)%nat.
Proof.
  revert n acc k. induction fuel as [|fuel IH]; intros n acc k Hn Hk; simpl; [lia|].
  destruct (Z.ltb_spec n 10); simpl; [lia|]. destruct k as [|k]; [lia|].
  rewrite Nat2Z.inj_succ, Z.pow_succ_r in Hn by lia.
  assert (0 < k)%nat by (destruct k; [change (10 ^ Z.of_nat 0) with 1 in Hn; lia|lia]).
  pose proof (IH (n / 10) ((48 + n mod 10) :: acc) k) as H'. simpl in H'.
  assert (0 <= n / 10 < 10 ^ Z.of_nat k) by (split; [apply Z.div_pos; lia|apply Z.div_lt_upper_bound; lia]).
  specialize (H' ltac:(done) ltac:(done)). lia.
Qed.

(** A value below [10 ^ k] has at most [k] digits. *)
Lemma fmt_lu_small n k : 0 <= n < 10 ^ Z.of_nat k -> n < 2 ^ 64 -> (0 < k)%nat -> zlength (fmt_lu n) <= Z.of_nat k.
Proof.
  intros Hn Hn' Hk. unfold zlength, fmt_lu, u64. rewrite wrap_small by (split; [apply Hn|done]).
  pose proof (digits_length_small 20 n [] k Hn Hk) as Hd. cbn [length] in Hd. lia.
Qed.

Lemma fmt_lu_length n : zlength (fmt_lu n) <= 20.
Proof. unfold zlength, fmt_lu. pose proof (digits_length 20 (u64 n) []) as H. cbn [length] in H. lia. Qed.

(** Parsing what was printed, whatever follows that is no digit. *)
Lemma strtol_fmt_lu n pre post :
  0 <= n <= LONG_MAX -> Forall (fun c => isspace c = true) pre ->
  (forall c, head post = Some c -> isdigit c = false) ->
  strtol (pre ++ fmt_lu n ++ post) = (n, false).
Proof.
  intros Hn Hpre Hpost. unfold LONG_MAX in *.
  destruct (fmt_lu_spec n) as (Hne & Hdig & Hv); [lia|].
  assert (Hd : take_while isdigit (fmt_lu n ++ post) = fmt_lu n).
  { rewrite take_while_app by done. destruct post as [|c post]; simpl; [by rewrite app_nil_r|].
    rewrite (Hpost c) by done. by rewrite app_nil_r. }
  destruct (fmt_lu n) as [|d ds] eqn:E; [done|]. apply Forall_cons in Hdig as [Hdd Hds].
  assert (Hns : isspace d = false /\ d <> 45 /\ d <> 43).
  { unfold isdigit, isspace in *. bprop.
    destruct (Z.eqb_spec d 32), (Z.leb_spec d 13), (Z.leb_spec 9 d); simpl; split_and!; try done; lia. }
  destruct Hns as (Hns & H45 & H43).
  unfold strtol, span. rewrite take_while_app by done. simpl. rewrite Hns, app_nil_r.
  rewrite drop_app_length. simpl. destruct (Z.eqb_spec d 45), (Z.eqb_spec d 43); try done.
  simpl in *. rewrite Hd, Hv. unfold LONG_MAX, LONG_MIN.
  destruct (Z.ltb_spec (2 ^ 63 - 1) n), (Z.ltb_spec n (- 2 ^ 63)); lia || done.
Qed.

(** ** Tokens *)

Section strtok.
Context (delim : Z -> bool) (Hnul : delim NUL = false).
Implicit Types (pre sp tok rest : list Z).

(** A token: not empty, no delimiter and no NUL. *)
Definition token tok : Prop :=
  tok <> [] /\ Forall (fun c => negb (delim c) && negb (c =? NUL) = true) tok.

Lemma drop_pre pre sp tok rest : drop (length pre + length sp) (pre ++ sp ++ tok ++ rest) = tok ++ rest.
Proof. by rewrite <-drop_drop, drop_app_length, drop_app_length. Qed.

(** Skipping the delimiters and the token. *)
Lemma strtok_skip pre sp tok rest :
  Forall (fun c => delim c = true) sp -> token tok ->
  (length pre + span delim (drop (length pre) (pre ++ sp ++ tok ++ rest)) = length pre + length sp)%nat.
Proof.
  intros Hsp [Hne Htok]. rewrite drop_app_length. unfold span. rewrite take_while_app by done.
  destruct tok as [|c tok]; [done|]. apply Forall_cons in Htok as [Hc _].
  apply andb_prop in Hc as [Hc _]. apply negb_true_iff in Hc. simpl. rewrite Hc, app_nil_r. done.
Qed.

Lemma token_span tok rest :
  token tok -> (match rest with [] => true | c :: _ => delim c || (c =? NUL) end = true) ->
  span (fun c => negb (delim c) && negb (c =? NUL)) (tok ++ rest) = length tok.
Proof.
  intros [_ Htok] Hr. unfold span. rewrite take_while_app by done.
  destruct rest as [|c rest]; simpl; [by rewrite app_nil_r|].
  rewrite <-negb_orb, Hr. simpl. by rewrite app_nil_r.
Qed.

(** A token followed by a delimiter, which is overwritten. *)
Lemma strtok_mid pre sp tok d rest s :
  s = length pre -> Forall (fun c => delim c = true) sp -> token tok -> delim d = true ->
  strtok_r (pre ++ sp ++ tok ++ d :: rest) s delim =
  (Some (length pre + length sp)%nat, pre ++ sp ++ tok ++ NUL :: rest,
   (length pre + length sp + length tok + 1)%nat).
Proof.
  intros -> Hsp Htok Hd. unfold strtok_r. rewrite strtok_skip by done. rewrite drop_pre.
  rewrite token_span; [|done|by rewrite Hd].
  assert (length tok <> 0%nat) as Hl by (destruct Htok as [Hne _]; by destruct tok).
  rewrite (proj2 (Nat.eqb_neq _ _) Hl).
  replace (pre ++ sp ++ tok ++ d :: rest) with ((pre ++ sp ++ tok) ++ d :: rest) by (by rewrite <-!app_assoc).
  assert (Hlen : (length pre + length sp + length tok)%nat = length (pre ++ sp ++ tok)) by (rewrite !length_app; lia).
  rewrite Hlen, list_lookup_middle by done.
  destruct (Z.eqb_spec d NUL) as [->|]; [congruence|].
  rewrite insert_app_r_alt, Nat.sub_diag by done. simpl.
  rewrite <-!app_assoc, <-Hlen. repeat f_equal. lia.
Qed.

(** A token at the end of the string. *)
Lemma strtok_end pre sp tok rest s :
  s = length pre -> Forall (fun c => delim c = true) sp -> token tok ->
  (match rest with [] => true | c :: _ => c =? NUL end = true) ->
  strtok_r (pre ++ sp ++ tok ++ rest) s delim =
  (Some (length pre + length sp)%nat, pre ++ sp ++ tok ++ rest, (length pre + length sp + length tok)%nat).
Proof.
  intros -> Hsp Htok Hr. unfold strtok_r. rewrite strtok_skip by done. rewrite drop_pre.
  rewrite token_span; [|done|destruct rest; [done|]; by rewrite Hr, orb_true_r].
  assert (length tok <> 0%nat) as Hl by (destruct Htok as [Hne _]; by destruct tok).
  rewrite (proj2 (Nat.eqb_neq _ _) Hl).
  assert (Hlen : (length pre + length sp + length tok)%nat = length (pre ++ sp ++ tok)) by (rewrite !length_app; lia).
  replace (pre ++ sp ++ tok ++ rest) with ((pre ++ sp ++ tok) ++ rest) by (by rewrite <-!app_assoc).
  rewrite Hlen. destruct rest as [|c rest].
  - rewrite app_nil_r, lookup_ge_None_2 by lia. done.
  - rewrite list_lookup_middle by done. by rewrite Hr.
Qed.

(** No token is left. *)
Lemma strtok_none pre sp rest s :
  s = length pre -> Forall (fun c => delim c = true) sp ->
  (match rest with [] => true | c :: _ => c =? NUL end = true) ->
  fst (fst (strtok_r (pre ++ sp ++ rest) s delim)) = None.
Proof.
  intros -> Hsp Hr. unfold strtok_r. rewrite drop_app_length.
  assert (span delim (sp ++ rest) = length sp) as ->.
  { unfold span. rewrite take_while_app by done. destruct rest as [|c rest]; simpl; [by rewrite app_nil_r|].
    apply Z.eqb_eq in Hr as ->. by rewrite Hnul, app_nil_r. }
  rewrite <-drop_drop, drop_app_length, drop_app_length.
  destruct rest as [|c rest]; [done|]. unfold span. simpl. rewrite Hr. simpl.
  by rewrite andb_false_r.
Qed.

Lemma cstr_token pre tok rest :
  token tok -> (match rest with [] => true | c :: _ => c =? NUL end = true) ->
  cstr (pre ++ tok ++ rest) (length pre) = tok.
Proof.
  intros [_ Htok] Hr. unfold cstr. rewrite drop_app_length, take_while_app.
  - destruct rest as [|c rest]; simpl; [by rewrite app_nil_r|]. rewrite Hr. simpl. by rewrite app_nil_r.
  - eapply Forall_impl; [done|]. intros c Hc. by apply andb_prop in Hc as [_ ?].
Qed.

Lemma take_while_split f l :
  l = take_while f l ++ drop (span f l) l /\
  (match drop (span f l) l with [] => true | c :: _ => negb (f c) end = true).
Proof.
  unfold span. induction l as [|c l IH]; [done|]. simpl. destruct (f c) eqn:E; simpl.
  - destruct IH as [IH1 IH2]. split; [by f_equal|done].
  - by rewrite E.
Qed.

(** What the first token of a string is, and the buffer that is left. *)
Lemma strtok_inv (buf : list Z) (s i : nat) (buf' : list Z) (t : nat) :
  (s <= length buf)%nat -> strtok_r buf s delim = (Some i, buf', t) ->
  exists pre sp w rest rest', buf = pre ++ sp ++ w ++ rest /\ buf' = pre ++ sp ++ w ++ rest' /\
    length pre = s /\ i = (s + length sp)%nat /\
    Forall (fun c => delim c = true) sp /\ token w /\
    (match rest' with [] => true | c :: _ => c =? NUL end = true).
Proof.
  intros Hs. unfold strtok_r. set (k := span delim (drop s buf)).
  set (g := fun c => negb (delim c) && negb (c =? NUL)).
  destruct (take_while_split delim (drop s buf)) as [Hd _]. fold k in Hd. rewrite drop_drop in Hd.
  destruct (take_while_split g (drop (s + k) buf)) as [Hw Hr].
  set (len := span g (drop (s + k) buf)) in *. rewrite drop_drop in Hw, Hr.
  destruct (Nat.eqb_spec len 0) as [|Hlen]; [done|].
  assert (Hpre : length (take s buf) = s) by (rewrite length_take; lia).
  set (sp := take_while delim (drop s buf)) in *. set (w := take_while g (drop (s + k) buf)) in *.
  set (rest := drop (s + k + len) buf) in *.
  assert (Hbuf : buf = take s buf ++ sp ++ w ++ rest).
  { rewrite <-Hw, <-Hd. by rewrite take_drop. }
  assert (Hsp : length sp = k) by done. assert (Hwl : length w = len) by done.
  assert (Hlk : buf !! (s + k + len)%nat = head rest).
  { rewrite Hbuf at 1. rewrite lookup_app_r by lia. rewrite lookup_app_r by lia. rewrite lookup_app_r by lia.
    rewrite Hpre, Hsp, Hwl. replace (s + k + len - s - k - len)%nat with 0%nat by lia. by destruct rest. }
  assert (Htok : token w).
  { split; [by destruct w|]. apply take_while_Forall. }
  rewrite Hlk. destruct rest as [|c rest'] eqn:Er; simpl.
  - intros [= <- <- <-]. exists (take s buf), sp, w, [], []. rewrite Hsp.
    split_and!; try done. apply take_while_Forall.
  - simpl in Hr. destruct (Z.eqb_spec c NUL) as [->|Hc]; intros [= <- <- <-].
    + exists (take s buf), sp, w, (NUL :: rest'), (NUL :: rest'). rewrite Hsp.
      split_and!; try done. apply take_while_Forall.
    + exists (take s buf), sp, w, (c :: rest'), (NUL :: rest'). rewrite Hsp.
      split_and!; try done; [|apply take_while_Forall].
      rewrite Hbuf at 1. rewrite insert_app_r_alt by lia. rewrite insert_app_r_alt by lia.
      rewrite insert_app_r_alt by lia. rewrite Hpre, Hsp, Hwl.
      by replace (s + k + len - s - k - len)%nat with 0%nat by lia.
Qed.

Lemma cstr_token_at buf pos pre tok rest :
  buf = pre ++ tok ++ rest -> pos = length pre -> token tok ->
  (match rest with [] => true | c :: _ => c =? NUL end = true) -> cstr buf pos = tok.
Proof. intros -> ->. apply cstr_token. Qed.

End strtok.

(** *** The last occurrence of a character *)

Lemma strrchr_app s1 s2 c :
  strrchr (s1 ++ s2) c =
  match strrchr s2 c with Some i => Some (length s1 + i)%nat | None => strrchr s1 c end.
Proof.
  induction s1 as [|x s1 IH]; simpl.
  - by destruct (strrchr s2 c).
  - rewrite IH. by destruct (strrchr s2 c).
Qed.

Lemma strrchr_notin s c : c ∉ s -> strrchr s c = None.
Proof.
  induction s as [|x s IH]; [done|]. intros [Hne Hs]%not_elem_of_cons. simpl. rewrite IH by done.
  by destruct (Z.eqb_spec x c).
Qed.

(** A closed check that a string has no NUL. *)
Lemma no_NUL s : forallb (fun c => negb (c =? NUL)) s = true -> NUL ∉ s.
Proof.
  intros H Hin. apply list_elem_of_In in Hin. rewrite forallb_forall in H. by apply H in Hin.
Qed.
