(* ===== verification/Pool.v ===== *)
(** * Lock pools (src/src/proxy_pool.c)

    The pool of locks that hands out connections and threads.  The first part
    translates every operation of the file on the [pool_t] record; each runs
    under [pool->lock], so it is one function on the record.  The second part is
    a transition system of threads that call [proxy_pool_get] and
    [proxy_pool_return], at the granularity of the mutexes of the code. *)

From S2P Require Import Prelude.
Local Open Scope Z_scope.

(** ** Data *)

(** A recursive pthread mutex: its owner and how often it locked it. *)
Record rmutex := RMutex { owner : option nat; depth : Z }.

Record pool_t := Pool {
  psize : Z;             (* size *)
  palloc : Z;            (* __alloc *)
  plocked : Z;           (* locked *)
  pavail : list bool;    (* avail *)
  plock : rmutex         (* lock *)
}.

Definition set_psize (s : Z) (p : pool_t) : pool_t :=
  Pool s (palloc p) (plocked p) (pavail p) (plock p).
Definition set_avail (av : list bool) (p : pool_t) : pool_t :=
  Pool (psize p) (palloc p) (plocked p) av (plock p).
Definition set_locked (n : Z) (p : pool_t) : pool_t :=
  Pool (psize p) (palloc p) n (pavail p) (plock p).
Definition set_lock (m : rmutex) (p : pool_t) : pool_t :=
  Pool (psize p) (palloc p) (plocked p) (pavail p) m.

(** ** Operations *)

(** [while (alloc < size) alloc <<= 1]: the shift of an [int] past [INT_MAX] is
    undefined.  [alloc] doubles, so 32 rounds are enough for every [int]. *)
Fixpoint nearest_pow2 (fuel : nat) (alloc size : Z) : outcome Z :=
  if alloc <? size then
    match fuel with
    | O => Undef
    | S fuel => if INT_MAX <? 2 * alloc then Undef else nearest_pow2 fuel (2 * alloc) size
    end
  else Ret alloc.

Definition proxy_pool_new (size : Z) : outcome (option pool_t) :=
  if size <=? 0 then Ret None else
  alloc ← nearest_pow2 32 1 size;
  avail ← for_range 0 alloc (fun i av => aset av i true)
            (replicate (Z.to_nat alloc) false);
  Ret (Some (Pool size alloc 0 avail (RMutex None 0))).

(** [None]: the caller blocks. *)
Definition proxy_pool_lock (tid : nat) (p : pool_t) : option pool_t :=
  match owner (plock p) with
  | None => Some (set_lock (RMutex (Some tid) 1) p)
  | Some o => if (o =? tid)%nat
              then Some (set_lock (RMutex (Some tid) (depth (plock p) + 1)) p)
              else None
  end.

Definition proxy_pool_unlock (tid : nat) (p : pool_t) : pool_t :=
  match owner (plock p) with
  | None => p
  | Some o =>
      if (o =? tid)%nat then
        if depth (plock p) =? 1 then set_lock (RMutex None 0) p
        else set_lock (RMutex (Some tid) (depth (plock p) - 1)) p
      else p
  end.

(** The new array of [proxy_pool_set_size] when the allocation changes. *)
Definition pool_realloc (p : pool_t) (alloc : Z) : outcome pool_t :=
  let avail := replicate (Z.to_nat alloc) false in
  let p := if alloc <? psize p then set_psize alloc p else p in
  avail ← for_range 0 (psize p) (fun i av => b ← aget (pavail p) i; aset av i b) avail;
  avail ← for_range (psize p) alloc (fun i av => aset av i true) avail;
  Ret (Pool (psize p) alloc (plocked p) avail (plock p)).

Definition proxy_pool_set_size (p : pool_t) (size : Z) : outcome pool_t :=
  if size =? psize p then Ret p else
  alloc ← nearest_pow2 32 1 size;
  p ← (if alloc =? palloc p then Ret p else pool_realloc p alloc);
  Ret (set_psize size p).

Definition proxy_pool_remove (p : pool_t) (idx : Z) : outcome pool_t :=
  if psize p <=? idx then Ret p else
  p ← proxy_pool_set_size p (psize p - 1);
  avail ← for_range idx (psize p - 1)
            (fun i av => b ← aget av (i + 1); aset av i b) (pavail p);
  Ret (set_avail avail p).

(** The scan of [pool_try_locks]: [n] rounds are left and [pi] was looked at
    last. *)
Fixpoint try_loop (n : nat) (p : pool_t) (pi : Z) : outcome (Z * pool_t) :=
  match n with
  | O => Ret (-1, p)
  | S n =>
      let pi := (pi + 1) mod psize p in
      free ← aget (pavail p) pi;
      if (free : bool) then
        av ← aset (pavail p) pi false;
        Ret (pi, set_locked (plocked p + 1) (set_avail av p))
      else try_loop n p pi
  end.

(** [r] is the value of [rand()]. *)
Definition pool_try_locks (p : pool_t) (r : Z) : outcome (Z * pool_t) :=
  if psize p =? 0 then Undef
  else try_loop (Z.to_nat (psize p)) p (Z.rem r (psize p)).

Definition proxy_pool_is_free (p : pool_t) (idx : Z) : outcome bool :=
  if psize p <? idx then Ret false else aget (pavail p) idx.

Fixpoint get_locked_loop (n : nat) (i : Z) (av : list bool) : outcome Z :=
  match n with
  | O => Ret (-1)
  | S n => free ← aget av i;
           if (free : bool) then get_locked_loop n (i + 1) av else Ret i
  end.

Definition proxy_pool_get_locked (p : pool_t) : outcome Z :=
  get_locked_loop (Z.to_nat (psize p)) 0 (pavail p).

(** The part of [proxy_pool_return] under [pool->lock]; the signal that follows
    is a step of its own below. *)
Definition proxy_pool_return (p : pool_t) (idx : Z) : outcome pool_t :=
  free ← aget (pavail p) idx;
  if (free : bool) then Ret p
  else
    av ← aset (pavail p) idx true;
    Ret (set_avail av (set_locked (plocked p - 1) p)).

(** ** Invariant and abstraction *)

(** Item [i] of the pool can be taken. *)
Definition free (p : pool_t) (i : Z) : Prop :=
  0 <= i < psize p /\ pavail p !! Z.to_nat i = Some true.

(** Item [i] of the pool is taken. *)
Definition taken (p : pool_t) (i : Z) : Prop :=
  0 <= i < psize p /\ pavail p !! Z.to_nat i = Some false.

Record pool_ok (p : pool_t) : Prop := {
  ok_size : 1 <= psize p <= palloc p;
  ok_alloc : zlength (pavail p) = palloc p;
  ok_tail : forall i, psize p <= i -> pavail p !! Z.to_nat i <> Some false;
  ok_locked : plocked p = count negb (pavail p)
}.

Lemma ok_cell p i : pool_ok p -> 0 <= i < psize p -> free p i \/ taken p i.
Proof.
  intros [Hs Ha _ _] Hi.
  destruct (aget_is_Ret (pavail p) i) as [b [_ Hb]%aget_Ret]; [lia|].
  destruct b; [left|right]; done.
Qed.

Lemma free_not_taken p i : free p i -> taken p i -> False.
Proof. intros [_ H1] [_ H2]. congruence. Qed.

Lemma aget_free p i : free p i -> aget (pavail p) i = Ret true.
Proof. intros [? ?]. apply aget_Ret. split; [lia|done]. Qed.

Lemma aget_taken p i : taken p i -> aget (pavail p) i = Ret false.
Proof. intros [? ?]. apply aget_Ret. split; [lia|done]. Qed.

#[export] Hint Resolve aget_free aget_taken : sfsql.

(** Setting one cell. *)
Lemma cell_update p i j (b : bool) :
  pool_ok p -> 0 <= i < psize p -> 0 <= j ->
  <[Z.to_nat i := b]> (pavail p) !! Z.to_nat j =
    if decide (i = j) then Some b else pavail p !! Z.to_nat j.
Proof.
  intros [Hs Ha _ _] Hi Hj. unfold zlength in Ha. case_decide as E.
  - subst. apply list_lookup_insert_eq. lia.
  - apply list_lookup_insert_ne. intros E'. apply E. lia.
Qed.

(** ** The power of two above a size *)

Lemma nearest_pow2_spec fuel m size :
  0 <= m <= 30 -> size <= 2 ^ 30 -> 30 <= m + Z.of_nat fuel ->
  exists k, m <= k <= 30 /\ nearest_pow2 fuel (2 ^ m) size = Ret (2 ^ k) /\
    size <= 2 ^ k /\ (m < k -> 2 ^ k < 2 * size).
Proof.
  revert m. induction fuel as [|fuel IH]; intros m Hm Hs Hf; simpl.
  - assert (m = 30) as -> by lia. destruct (Z.ltb_spec (2 ^ 30) size); [lia|].
    exists 30. repeat split; lia || done.
  - destruct (Z.ltb_spec (2 ^ m) size) as [Hlt|]; [|exists m; repeat split; lia || done].
    assert (m < 30) by (destruct (Z.eq_dec m 30); subst; lia).
    assert (2 ^ (m + 1) <= 2 ^ 30) by (apply Z.pow_le_mono_r; lia).
    replace (2 * 2 ^ m) with (2 ^ (m + 1)) by (rewrite Z.pow_add_r; lia).
    unfold INT_MAX. destruct (Z.ltb_spec (2 ^ 31 - 1) (2 ^ (m + 1))); [lia|].
    destruct (IH (m + 1)) as (k & Hk & Heq & Hb & Hl); try lia.
    exists k. repeat split; try lia; try done.
    intros _. destruct (Z.eq_dec k (m + 1)) as [->|]; [|apply Hl; lia].
    rewrite Z.pow_add_r; lia.
Qed.

Lemma nearest_pow2_Ret size :
  size <= 2 ^ 30 ->
  exists k, 0 <= k <= 30 /\ nearest_pow2 32 1 size = Ret (2 ^ k) /\
    size <= 2 ^ k /\ (0 < k -> 2 ^ k < 2 * size).
Proof. intros H. apply (nearest_pow2_spec 32 0 size); lia. Qed.

(** Filling an array. *)
Lemma fill_spec (n : Z) (a : Z) (av : list bool) :
  0 <= a <= n -> zlength av = n ->
  exists av', for_range a n (fun i av => aset av i true) av = Ret av' /\
    zlength av' = n /\
    forall j, 0 <= j < n -> av' !! Z.to_nat j = if a <=? j then Some true else av !! Z.to_nat j.
Proof.
  intros Ha Hn.
  destruct (for_range_inv
    (fun i l => zlength l = n /\
       forall j, 0 <= j < n -> l !! Z.to_nat j =
         if (a <=? j) && (j <? i) then Some true else av !! Z.to_nat j)
    (fun i av => aset av i true) a n av) as (av' & Hav & Hlen & Hcell).
  - lia.
  - split; [done|]. intros j _. destruct (Z.leb_spec a j), (Z.ltb_spec j a); simpl; lia || done.
  - intros j l Hj [Hl Hc]. rewrite aset_in by lia. eexists. split; [done|].
    rewrite zlength_insert. split; [done|]. intros i Hi. unfold zlength in *.
    destruct (Z.eq_dec i j) as [->|Hne].
    + rewrite list_lookup_insert_eq by lia.
      destruct (Z.leb_spec a j), (Z.ltb_spec j (j + 1)); simpl; lia || done.
    + rewrite list_lookup_insert_ne by lia. rewrite Hc by done.
      destruct (Z.leb_spec a i), (Z.ltb_spec i j), (Z.ltb_spec i (j + 1)); simpl; lia || done.
  - exists av'. split; [done|]. split; [done|]. intros j Hj. rewrite Hcell by done.
    destruct (Z.leb_spec a j), (Z.ltb_spec j n); simpl; lia || done.
Qed.

(** Copying a prefix. *)
Lemma copy_spec (src av : list bool) (n : Z) :
  0 <= n -> n <= zlength src -> n <= zlength av ->
  exists av', for_range 0 n (fun i av => b ← aget src i; aset av i b) av = Ret av' /\
    zlength av' = zlength av /\
    forall j, 0 <= j -> av' !! Z.to_nat j =
      if j <? n then src !! Z.to_nat j else av !! Z.to_nat j.
Proof.
  intros H0 Hs Ha.
  destruct (for_range_inv
    (fun i l => zlength l = zlength av /\
       forall j, 0 <= j -> l !! Z.to_nat j =
         if j <? i then src !! Z.to_nat j else av !! Z.to_nat j)
    (fun i av => b ← aget src i; aset av i b) 0 n av) as (av' & Hav & Hlen & Hcell).
  - lia.
  - split; [done|]. intros j Hj. by destruct (Z.ltb_spec j 0); [lia|].
  - intros j l Hj [Hl Hc]. destruct (aget_is_Ret src j) as [b Hb]; [lia|].
    rewrite Hb. simpl. rewrite aset_in by lia. eexists. split; [done|].
    rewrite zlength_insert. split; [done|]. intros i Hi.
    apply aget_Ret in Hb as [_ Hb]. unfold zlength in *.
    destruct (Z.eq_dec i j) as [->|Hne].
    + rewrite list_lookup_insert_eq by lia. by destruct (Z.ltb_spec j (j + 1)); [|lia].
    + rewrite list_lookup_insert_ne by lia. rewrite Hc by done.
      destruct (Z.ltb_spec i j), (Z.ltb_spec i (j + 1)); lia || done.
  - exists av'. eauto.
Qed.

(** ** Creation *)

Lemma count_all_true (l : list bool) :
  (forall i b, l !! i = Some b -> b = true) -> count negb l = 0.
Proof.
  intros H. apply count_zero. intros x [i Hi]%list_elem_of_lookup.
  by rewrite (H i x Hi).
Qed.

Lemma new_spec size :
  1 <= size <= 2 ^ 30 ->
  exists p, proxy_pool_new size = Ret (Some p) /\ pool_ok p /\ psize p = size /\
    plocked p = 0 /\ (forall i, 0 <= i < size -> free p i) /\
    (1 < size -> palloc p < 2 * size).
Proof.
  intros Hs. unfold proxy_pool_new. destruct (Z.leb_spec size 0); [lia|].
  destruct (nearest_pow2_Ret size) as (k & Hk & -> & Hle & Hlt); [lia|]. simpl.
  destruct (fill_spec (2 ^ k) 0 (replicate (Z.to_nat (2 ^ k)) false)) as (av & -> & Hl & Hc);
    [lia|unfold zlength; rewrite length_replicate; lia|].
  simpl. assert (Hall : forall i b, av !! i = Some b -> b = true).
  { intros i b Hi. pose proof (lookup_lt_Some _ _ _ Hi) as Hi'. unfold zlength in Hl.
    specialize (Hc (Z.of_nat i)). rewrite Nat2Z.id, Hi in Hc.
    destruct (Z.leb_spec 0 (Z.of_nat i)) in Hc; [|lia].
    specialize (Hc ltac:(lia)). congruence. }
  eexists. split; [done|]. repeat split; simpl; try done; try lia.
  - intros i _ Hi. by specialize (Hall _ _ Hi).
  - by rewrite count_all_true.
  - rewrite Hc by lia. by destruct (Z.leb_spec 0 i); [|lia].
  - intros ?. apply Hlt. destruct (Z.eq_dec k 0) as [->|]; [|lia].
    change (2 ^ 0) with 1 in Hle. lia.
Qed.

(** ** Taking an item *)

(** The round of [try_loop] that looks at [j]. *)
Lemma scan_reaches (sz r0 j : Z) :
  0 < sz -> 0 <= r0 -> 0 <= j < sz -> exists k, 0 < k <= sz /\ (r0 + k) mod sz = j.
Proof.
  intros Hs Hr Hj. set (k0 := (j - r0) mod sz).
  assert (0 <= k0 < sz) by (apply Z.mod_pos_bound; lia).
  assert ((r0 + k0) mod sz = j) as Hk0.
  { unfold k0. rewrite Zplus_mod_idemp_r. replace (r0 + (j - r0)) with j by ring.
    by apply Z.mod_small. }
  destruct (Z.eq_dec k0 0) as [E|E].
  - exists sz. split; [lia|]. rewrite E, Z.add_0_r in Hk0.
    rewrite <-Hk0. rewrite <-(Z.mul_1_l sz) at 1. by rewrite Z.mod_add by lia.
  - exists k0. split; [lia|done].
Qed.

(** What [try_loop] returns: the first free item of the cyclic scan, or -1. *)
Lemma try_loop_spec p n r0 d :
  pool_ok p -> 0 <= r0 -> 0 <= d ->
  (forall k, 0 < k <= d -> ~ free p ((r0 + k) mod psize p)) ->
  (exists i, free p i /\
     try_loop n p ((r0 + d) mod psize p) =
       Ret (i, set_locked (plocked p + 1) (set_avail (<[Z.to_nat i := false]> (pavail p)) p))) \/
  (try_loop n p ((r0 + d) mod psize p) = Ret (-1, p) /\
   forall k, 0 < k <= d + Z.of_nat n -> ~ free p ((r0 + k) mod psize p)).
Proof.
  intros Hok Hr. pose proof (ok_size p Hok) as Hs. revert d.
  induction n as [|n IH]; intros d Hd Hbefore.
  { right. split; [done|]. intros k Hk. apply Hbefore. lia. }
  simpl. rewrite Zplus_mod_idemp_l. rewrite <-Z.add_assoc.
  set (pi := (r0 + (d + 1)) mod psize p).
  assert (0 <= pi < psize p) as Hpi by (apply Z.mod_pos_bound; lia).
  destruct (ok_cell p pi Hok Hpi) as [Hf|Ht].
  - left. exists pi. split; [done|]. rewrite (aget_free _ _ Hf). simpl.
    rewrite aset_in; [done|]. pose proof (ok_alloc p Hok). lia.
  - rewrite (aget_taken _ _ Ht). simpl. unfold pi.
    replace (d + Z.of_nat (S n)) with (d + 1 + Z.of_nat n) by lia.
    apply IH; [lia|]. intros k Hk Hfree. destruct (Z.eq_dec k (d + 1)) as [->|].
    + by eapply free_not_taken.
    + apply (Hbefore k); [lia|done].
Qed.

(** The pool after item [i] was taken. *)
Definition take_item (p : pool_t) (i : Z) : pool_t :=
  set_locked (plocked p + 1) (set_avail (<[Z.to_nat i := false]> (pavail p)) p).

(** The pool after item [i] was given back. *)
Definition give_item (p : pool_t) (i : Z) : pool_t :=
  set_avail (<[Z.to_nat i := true]> (pavail p)) (set_locked (plocked p - 1) p).

Lemma try_locks_cases p r :
  pool_ok p -> 0 <= r ->
  (exists i, free p i /\ pool_try_locks p r = Ret (i, take_item p i)) \/
  (pool_try_locks p r = Ret (-1, p) /\ forall i, ~ free p i).
Proof.
  intros Hok Hr. pose proof (ok_size p Hok) as Hs. unfold pool_try_locks.
  destruct (Z.eqb_spec (psize p) 0); [lia|].
  rewrite Z.rem_mod_nonneg by lia.
  destruct (try_loop_spec p (Z.to_nat (psize p)) (r mod psize p) 0) as [(i & Hf & He)|[He Hn]].
  - done.
  - pose proof (Z.mod_pos_bound r (psize p)). lia.
  - lia.
  - intros k Hk. lia.
  - left. exists i. split; [done|]. by rewrite Z.add_0_r, Zmod_mod in He.
  - right. rewrite Z.add_0_r, Zmod_mod in He. split; [done|]. intros i Hf.
    destruct (scan_reaches (psize p) (r mod psize p) i) as (k & Hk & E).
    + lia.
    + pose proof (Z.mod_pos_bound r (psize p)). lia.
    + apply Hf.
    + apply (Hn k); [lia|]. by rewrite E.
Qed.

Lemma take_item_ok p i : pool_ok p -> free p i -> pool_ok (take_item p i).
Proof.
  intros Hok [Hi Hc]. destruct Hok as [Hs Ha Ht Hl]. split; simpl.
  - done.
  - by rewrite zlength_insert.
  - intros j Hj. rewrite list_lookup_insert_ne by lia. by apply Ht.
  - rewrite (count_insert _ _ _ true) by done. simpl. lia.
Qed.

Lemma take_item_cell p i j :
  pool_ok p -> free p i -> 0 <= j ->
  pavail (take_item p i) !! Z.to_nat j =
    if decide (i = j) then Some false else pavail p !! Z.to_nat j.
Proof. intros Hok [Hi _] Hj. by apply cell_update. Qed.

Lemma take_item_free p i j :
  pool_ok p -> free p i -> (free (take_item p i) j <-> free p j /\ j <> i).
Proof.
  intros Hok Hf. unfold free at 1 2. simpl. split.
  - intros [Hj Hc]. rewrite (cell_update p i j) in Hc by (done || apply Hf || lia).
    case_decide; [done|]. naive_solver.
  - intros [[Hj Hc] Hne]. rewrite (cell_update p i j) by (done || apply Hf || lia).
    rewrite decide_False by congruence. done.
Qed.

(** ** Giving an item back *)

Lemma return_taken p i :
  pool_ok p -> taken p i -> proxy_pool_return p i = Ret (give_item p i).
Proof.
  intros Hok Ht. unfold proxy_pool_return. rewrite (aget_taken _ _ Ht). simpl.
  rewrite aset_in; [done|]. destruct Ht. pose proof (ok_size p Hok). pose proof (ok_alloc p Hok). lia.
Qed.

Lemma give_item_ok p i : pool_ok p -> taken p i -> pool_ok (give_item p i).
Proof.
  intros Hok [Hi Hc]. destruct Hok as [Hs Ha Ht Hl]. split; simpl.
  - done.
  - by rewrite zlength_insert.
  - intros j Hj. rewrite list_lookup_insert_ne by lia. by apply Ht.
  - rewrite (count_insert _ _ _ false) by done. simpl. lia.
Qed.

Lemma give_item_free p i j :
  pool_ok p -> taken p i -> (free (give_item p i) j <-> free p j \/ j = i).
Proof.
  intros Hok Ht. unfold free at 1. simpl. split.
  - intros [Hj Hc]. rewrite (cell_update p i j) in Hc by (done || apply Ht || lia).
    case_decide; [by right|]. by left.
  - intros [[Hj Hc]| ->].
    + split; [done|]. rewrite (cell_update p i j) by (done || apply Ht || lia). by case_decide.
    + split; [apply Ht|]. rewrite (cell_update p i i) by (done || apply Ht || (destruct Ht; lia)).
      by rewrite decide_True.
Qed.

(** ** Searching for a taken item *)

Lemma get_locked_loop_spec n i av :
  0 <= i -> i + Z.of_nat n <= zlength av ->
  (exists j, i <= j < i + Z.of_nat n /\ get_locked_loop n i av = Ret j /\
     av !! Z.to_nat j = Some false /\ forall k, i <= k < j -> av !! Z.to_nat k = Some true) \/
  (get_locked_loop n i av = Ret (-1) /\
     forall k, i <= k < i + Z.of_nat n -> av !! Z.to_nat k = Some true).
Proof.
  revert i. induction n as [|n IH]; intros i Hi Hn; simpl.
  { right. split; [done|]. intros k Hk. lia. }
  destruct (aget_is_Ret av i) as [b Hb]; [lia|]. rewrite Hb. simpl.
  apply aget_Ret in Hb as [_ Hb]. destruct b.
  - destruct (IH (i + 1)) as [(j & Hj & He & Hf & Hk)|[He Hk]]; try lia.
    + left. exists j. repeat split; try lia; try done. intros k Hk'.
      destruct (Z.eq_dec k i) as [->|]; [done|]. apply Hk. lia.
    + right. split; [done|]. intros k Hk'.
      destruct (Z.eq_dec k i) as [->|]; [done|]. apply Hk. lia.
  - left. exists i. repeat split; lia || done.
Qed.

Lemma get_locked_cases p :
  pool_ok p ->
  (exists i, proxy_pool_get_locked p = Ret i /\ taken p i /\
     forall k, 0 <= k < i -> free p k) \/
  (proxy_pool_get_locked p = Ret (-1) /\ forall i, ~ taken p i).
Proof.
  intros Hok. pose proof (ok_size p Hok). pose proof (ok_alloc p Hok).
  unfold proxy_pool_get_locked.
  destruct (get_locked_loop_spec (Z.to_nat (psize p)) 0 (pavail p))
    as [(j & Hj & He & Hf & Hk)|[He Hk]]; try lia.
  - left. exists j. repeat split; try lia; try done.
    apply Hk. lia.
  - right. split; [done|]. intros i [Hi Hf]. rewrite Hk in Hf by lia. done.
Qed.

(** ** Resizing *)

(** [proxy_pool_set_size] in one step: the new size and allocation, and every
    item that exists before and after keeps its availability. *)
Lemma set_size_spec p size :
  pool_ok p -> 1 <= size <= 2 ^ 30 ->
  exists p', proxy_pool_set_size p size = Ret p' /\ psize p' = size /\
    plocked p' = plocked p /\ size <= palloc p' /\ zlength (pavail p') = palloc p' /\
    (forall j, 0 <= j < palloc p' -> j < psize p -> pavail p' !! Z.to_nat j = pavail p !! Z.to_nat j) /\
    (forall j, psize p <= j < palloc p' -> pavail p' !! Z.to_nat j = Some true).
Proof.
  intros [Hs Ha Htl _] Hsz. unfold proxy_pool_set_size.
  assert (Hold : forall j, psize p <= j < palloc p -> pavail p !! Z.to_nat j = Some true).
  { intros j Hj. destruct (aget_is_Ret (pavail p) j) as [b [_ Hb]%aget_Ret]; [lia|].
    destruct b; [done|]. destruct (Htl j); [lia|done]. }
  destruct (Z.eqb_spec size (psize p)) as [->|Hne]; [exists p; repeat split; lia || auto|].
  destruct (nearest_pow2_Ret size) as (k & Hk & -> & Hle & _); [lia|]. simpl.
  destruct (Z.eqb_spec (2 ^ k) (palloc p)) as [E|Hna]; simpl.
  { eexists. split; [done|]. simpl. repeat split; lia || auto. }
  unfold pool_realloc. set (q := if 2 ^ k <? psize p then set_psize (2 ^ k) p else p).
  assert (Hq : psize q = Z.min (2 ^ k) (psize p) /\ pavail q = pavail p /\ plocked q = plocked p /\ 0 < 2 ^ k).
  { split_and!; [unfold q; destruct (Z.ltb_spec (2 ^ k) (psize p)); simpl; lia| | |lia];
      unfold q; by destruct (2 ^ k <? psize p). }
  destruct Hq as (Hq1 & Hq2 & Hq3 & Hpos). rewrite Hq2.
  destruct (copy_spec (pavail p) (replicate (Z.to_nat (2 ^ k)) false) (psize q))
    as (av1 & -> & Hl1 & Hc1); [lia|lia|unfold zlength; rewrite length_replicate; lia|].
  assert (zlength av1 = 2 ^ k) as Hl1' by (rewrite Hl1; unfold zlength; rewrite length_replicate; lia).
  simpl. destruct (fill_spec (2 ^ k) (psize q) av1) as (av2 & -> & Hl2 & Hc2); [lia|done|].
  simpl. eexists. split; [done|]. simpl. repeat split; try lia; try done.
  - intros j Hj Hjs. rewrite Hc2 by lia. destruct (Z.leb_spec (psize q) j); [lia|].
    rewrite Hc1 by lia. by destruct (Z.ltb_spec j (psize q)); [|lia].
  - intros j Hj. rewrite Hc2 by lia. by destruct (Z.leb_spec (psize q) j); [|lia].
Qed.

(** Two arrays that agree below [n] and are free above it have the same number
    of taken items. *)
Lemma count_agree (n : nat) (l1 l2 : list bool) :
  (n <= length l1)%nat -> (n <= length l2)%nat -> take n l1 = take n l2 ->
  (forall j, (n <= j)%nat -> l1 !! j <> Some false) ->
  (forall j, (n <= j)%nat -> l2 !! j <> Some false) ->
  count negb l1 = count negb l2.
Proof.
  intros H1 H2 Htk F1 F2. rewrite <-(take_drop n l1), <-(take_drop n l2), !count_app, Htk.
  f_equal. rewrite !count_all_true; [done| |];
    intros i b; rewrite lookup_drop; intros Hi; destruct b; try done;
    [destruct (F2 (n + i)%nat)|destruct (F1 (n + i)%nat)]; lia || done.
Qed.

(** Growing keeps the invariant; shrinking does when the dropped items are
    free. *)
Lemma set_size_ok p size p' :
  pool_ok p -> 1 <= size <= 2 ^ 30 ->
  (forall i, size <= i < psize p -> free p i) ->
  proxy_pool_set_size p size = Ret p' -> pool_ok p'.
Proof.
  intros Hok Hsz Hdrop He. pose proof Hok as [Hs Ha Htl Hl].
  destruct (set_size_spec p size Hok Hsz) as (q & Hq & Hq1 & Hq2 & Hq3 & Hq4 & Hkeep & Hnew).
  rewrite He in Hq. injection Hq as <-. split.
  - lia.
  - lia.
  - intros i Hi Hf. pose proof (lookup_lt_Some _ _ _ Hf) as Hlt. unfold zlength in Hq4.
    destruct (Z.le_gt_cases (psize p) i).
    + rewrite Hnew in Hf by lia. done.
    + rewrite Hkeep in Hf by lia. destruct (Hdrop i) as [_ Hc]; [lia|]. congruence.
  - rewrite Hq2, Hl. unfold zlength in *.
    apply (count_agree (Z.to_nat (Z.min size (psize p)))); try lia.
    + apply list_eq. intros i. destruct (Nat.lt_ge_cases i (Z.to_nat (Z.min size (psize p)))).
      * rewrite !lookup_take_lt by lia. specialize (Hkeep (Z.of_nat i)).
        rewrite Nat2Z.id in Hkeep. symmetry. apply Hkeep; lia.
      * by rewrite !lookup_take_ge by lia.
    + intros j Hj Hf. destruct (Z.le_gt_cases (psize p) (Z.of_nat j)).
      * apply (Htl (Z.of_nat j)); [done|]. by rewrite Nat2Z.id.
      * destruct (Hdrop (Z.of_nat j)) as [_ Hc]; [lia|]. rewrite Nat2Z.id in Hc. congruence.
    + intros j Hj Hf. pose proof (lookup_lt_Some _ _ _ Hf) as Hlt.
      destruct (Z.le_gt_cases (psize p) (Z.of_nat j)).
      * specialize (Hnew (Z.of_nat j)). rewrite Nat2Z.id, Hf in Hnew.
        specialize (Hnew ltac:(lia)). done.
      * specialize (Hkeep (Z.of_nat j)). rewrite Nat2Z.id, Hf in Hkeep.
        destruct (Hdrop (Z.of_nat j)) as [_ Hc]; [lia|]. rewrite Nat2Z.id in Hc.
        specialize (Hkeep ltac:(lia) ltac:(lia)). congruence.
Qed.

(** The shift of [proxy_pool_remove]. *)
Lemma shift_spec (av : list bool) (a n : Z) :
  0 <= a -> a <= n -> n < zlength av ->
  exists av', for_range a n (fun i av => b ← aget av (i + 1); aset av i b) av = Ret av' /\
    zlength av' = zlength av /\
    forall j, 0 <= j -> av' !! Z.to_nat j =
      if (a <=? j) && (j <? n) then av !! Z.to_nat (j + 1) else av !! Z.to_nat j.
Proof.
  intros H0 Han Hn.
  destruct (for_range_inv
    (fun i l => zlength l = zlength av /\
       forall j, 0 <= j -> l !! Z.to_nat j =
         if (a <=? j) && (j <? i) then av !! Z.to_nat (j + 1) else av !! Z.to_nat j)
    (fun i av => b ← aget av (i + 1); aset av i b) a n av) as (av' & Hav & Hlen & Hcell).
  - lia.
  - split; [done|]. intros j Hj. destruct (Z.leb_spec a j), (Z.ltb_spec j a); simpl; lia || done.
  - intros j l Hj [Hl Hc]. destruct (aget_is_Ret l (j + 1)) as [b Hb]; [lia|].
    rewrite Hb. simpl. rewrite aset_in by lia. eexists. split; [done|].
    rewrite zlength_insert. split; [done|]. intros i Hi.
    apply aget_Ret in Hb as [_ Hb]. rewrite Hc in Hb by lia.
    destruct (Z.ltb_spec (j + 1) j) in Hb; [lia|]. rewrite andb_false_r in Hb.
    unfold zlength in *. destruct (Z.eq_dec i j) as [->|Hne].
    + rewrite list_lookup_insert_eq by lia.
      by destruct (Z.leb_spec a j), (Z.ltb_spec j (j + 1)); simpl; try lia.
    + rewrite list_lookup_insert_ne by lia. rewrite Hc by done.
      destruct (Z.leb_spec a i), (Z.ltb_spec i j), (Z.ltb_spec i (j + 1)); simpl; lia || done.
  - exists av'. eauto.
Qed.

Lemma pool_remove_spec p idx :
  pool_ok p -> 2 <= psize p <= 2 ^ 30 -> 0 <= idx < psize p ->
  exists p', proxy_pool_remove p idx = Ret p' /\ psize p' = psize p - 1 /\
    plocked p' = plocked p /\
    forall j, 0 <= j < psize p - 1 -> pavail p' !! Z.to_nat j =
      if (idx <=? j) && (j <? psize p - 2) then pavail p !! Z.to_nat (j + 1)
      else pavail p !! Z.to_nat j.
Proof.
  intros Hok Hs Hi. unfold proxy_pool_remove. destruct (Z.leb_spec (psize p) idx); [lia|].
  destruct (set_size_spec p (psize p - 1) Hok) as (q & -> & Hq1 & Hq2 & Hq3 & Hq4 & Hkeep & _); [lia|].
  simpl. rewrite Hq1. destruct (Z.le_gt_cases idx (psize p - 1 - 1)) as [Hle|Hgt].
  - destruct (shift_spec (pavail q) idx (psize p - 1 - 1)) as (av & -> & Hl & Hc); [lia..|].
    simpl. eexists. split; [done|]. simpl. split_and!; [lia|done|]. intros j Hj.
    rewrite Hc by lia. replace (psize p - 1 - 1) with (psize p - 2) by lia.
    destruct ((idx <=? j) && (j <? psize p - 2)) eqn:E; bprop; apply Hkeep; lia.
  - unfold for_range. replace (Z.to_nat (psize p - 1 - 1 - idx)) with O by lia.
    simpl. eexists. split; [done|]. simpl. split_and!; [lia|done|]. intros j Hj.
    destruct (Z.leb_spec idx j); [lia|]. simpl. apply Hkeep; lia.
Qed.

(** ** Threads that share a pool

    A thread is outside the pool ([TIdle]), has failed to find an item and is
    about to wait ([TTried]), sleeps in [proxy_cond_wait] ([TAsleep]), was woken
    and looks again ([TWoken]), holds item [i] ([THeld i]), or has put its item
    back and is about to signal ([TReturned]). *)

Inductive tstate :=
| TIdle
| TTried
| TAsleep
| TWoken
| THeld (i : Z)
| TReturned.

#[export] Instance tstate_eq_dec : EqDecision tstate.
Proof. solve_decision. Defined.

Record sys := Sys { spool : pool_t; sthreads : list tstate }.

(** One step of one thread inside [proxy_pool_get] or [proxy_pool_return]. *)
Inductive sys_step : sys -> sys -> Prop :=
| step_get p ts t st r i p' :
    ts !! t = Some st -> st = TIdle \/ st = TWoken -> 0 <= r ->
    pool_try_locks p r = Ret (i, p') -> 0 <= i ->
    sys_step (Sys p ts) (Sys p' (<[t := THeld i]> ts))
| step_get_fail p ts t st r i p' :
    ts !! t = Some st -> st = TIdle \/ st = TWoken -> 0 <= r ->
    pool_try_locks p r = Ret (i, p') -> i < 0 ->
    sys_step (Sys p ts) (Sys p' (<[t := TTried]> ts))
| step_sleep p ts t :
    ts !! t = Some TTried ->
    sys_step (Sys p ts) (Sys p (<[t := TAsleep]> ts))
| step_spurious p ts t :
    ts !! t = Some TAsleep ->
    sys_step (Sys p ts) (Sys p (<[t := TWoken]> ts))
| step_return p ts t i p' :
    ts !! t = Some (THeld i) -> proxy_pool_return p i = Ret p' ->
    sys_step (Sys p ts) (Sys p' (<[t := TReturned]> ts))
| step_signal p ts t u :
    ts !! t = Some TReturned -> ts !! u = Some TAsleep ->
    sys_step (Sys p ts) (Sys p (<[u := TWoken]> (<[t := TIdle]> ts)))
| step_signal_none p ts t :
    ts !! t = Some TReturned -> TAsleep ∉ ts ->
    sys_step (Sys p ts) (Sys p (<[t := TIdle]> ts)).

Definition sys_init (size : Z) (n : nat) : outcome sys :=
  p ← proxy_pool_new size;
  match p with Some p => Ret (Sys p (replicate n TIdle)) | None => Undef end.

Definition reachable (size : Z) (n : nat) (s : sys) : Prop :=
  exists s0, sys_init size n = Ret s0 /\ rtc sys_step s0 s.

(** Who holds what is what the pool records. *)
Record sys_ok (s : sys) : Prop := {
  sys_pool : pool_ok (spool s);
  sys_held : forall t i, sthreads s !! t = Some (THeld i) -> taken (spool s) i;
  sys_owner : forall i, taken (spool s) i -> exists t, sthreads s !! t = Some (THeld i);
  sys_excl : forall t u i, sthreads s !! t = Some (THeld i) -> sthreads s !! u = Some (THeld i) -> t = u
}.

(** A change of one thread that neither takes nor gives an item. *)
Lemma sys_ok_other p ts t st st' :
  sys_ok (Sys p ts) -> ts !! t = Some st ->
  (forall i, st <> THeld i) -> (forall i, st' <> THeld i) ->
  sys_ok (Sys p (<[t := st']> ts)).
Proof.
  intros [Hp Hh Ho He] Ht Hst Hst'. simpl in *.
  assert (Hsame : forall u i, <[t := st']> ts !! u = Some (THeld i) <-> ts !! u = Some (THeld i)).
  { intros u i. destruct (decide (t = u)) as [->|Hne].
    - rewrite list_lookup_insert_eq by eauto using lookup_lt_Some. naive_solver.
    - by rewrite list_lookup_insert_ne. }
  split; simpl; [done|..].
  - intros u i Hu%Hsame. eauto.
  - intros i Hi. destruct (Ho i Hi) as [u Hu]. exists u. by apply Hsame.
  - intros u v i Hu%Hsame Hv%Hsame. eauto.
Qed.

Lemma sys_ok_take p ts t st i :
  sys_ok (Sys p ts) -> ts !! t = Some st -> (forall j, st <> THeld j) -> free p i ->
  sys_ok (Sys (take_item p i) (<[t := THeld i]> ts)).
Proof.
  intros [Hp Hh Ho He] Ht Hst Hf. simpl in *.
  assert (Htk : forall j, taken (take_item p i) j <-> taken p j \/ j = i).
  { intros j. unfold taken. simpl. split.
    - intros [Hj Hc]. rewrite (cell_update p i j) in Hc by (done || apply Hf || lia).
      case_decide; naive_solver.
    - intros [[Hj Hc]| ->].
      + split; [done|]. rewrite (cell_update p i j) by (done || apply Hf || lia). by case_decide.
      + split; [apply Hf|]. rewrite (cell_update p i i) by (done || (destruct Hf; lia)).
        by rewrite decide_True. }
  assert (Hlk : forall u j, <[t := THeld i]> ts !! u = Some (THeld j) ->
     (u = t /\ j = i) \/ (u <> t /\ ts !! u = Some (THeld j))).
  { intros u j. destruct (decide (t = u)) as [->|Hne].
    - rewrite list_lookup_insert_eq by eauto using lookup_lt_Some. naive_solver.
    - rewrite list_lookup_insert_ne by done. naive_solver. }
  split; simpl.
  - by apply take_item_ok.
  - intros u j [[-> ->]|[Hne Hu]]%Hlk; apply Htk; eauto.
  - intros j [Hj| ->]%Htk.
    + destruct (Ho j Hj) as [u Hu]. exists u. rewrite list_lookup_insert_ne; [done|].
      intros ->. rewrite Ht in Hu. simplify_eq. by eapply Hst.
    + exists t. apply list_lookup_insert_eq. eauto using lookup_lt_Some.
  - intros u v j [[-> ->]|[Hu Hu']]%Hlk [[-> Hv]|[Hv Hv']]%Hlk; subst; try done.
    + by destruct (free_not_taken p i Hf); eauto.
    + by destruct (free_not_taken p i Hf); eauto.
    + eauto.
Qed.

Lemma sys_ok_give p ts t i :
  sys_ok (Sys p ts) -> ts !! t = Some (THeld i) ->
  sys_ok (Sys (give_item p i) (<[t := TReturned]> ts)).
Proof.
  intros [Hp Hh Ho He] Ht. simpl in *. pose proof (Hh _ _ Ht) as Hi.
  assert (Htk : forall j, taken (give_item p i) j <-> taken p j /\ j <> i).
  { intros j. unfold taken. simpl. split.
    - intros [Hj Hc]. rewrite (cell_update p i j) in Hc by (done || apply Hi || lia).
      case_decide; naive_solver.
    - intros [[Hj Hc] Hne]. split; [done|].
      rewrite (cell_update p i j) by (done || apply Hi || lia). by rewrite decide_False by congruence. }
  assert (Hlk : forall u j, <[t := TReturned]> ts !! u = Some (THeld j) ->
     u <> t /\ ts !! u = Some (THeld j)).
  { intros u j. destruct (decide (t = u)) as [->|Hne].
    - by rewrite list_lookup_insert_eq by eauto using lookup_lt_Some.
    - by rewrite list_lookup_insert_ne. }
  split; simpl.
  - by apply give_item_ok.
  - intros u j [Hne Hu]%Hlk. apply Htk. split; [eauto|]. intros ->. eauto.
  - intros j [Hj Hne]%Htk. destruct (Ho j Hj) as [u Hu]. exists u.
    rewrite list_lookup_insert_ne; [done|]. intros ->. congruence.
  - intros u v j [_ Hu]%Hlk [_ Hv]%Hlk. eauto.
Qed.

Lemma sys_step_ok s s' : sys_step s s' -> sys_ok s -> sys_ok s'.
Proof.
  intros Hstep Hok. pose proof (sys_pool _ Hok) as Hp. destruct Hstep; simpl in Hp.
  - destruct (try_locks_cases p r) as [(j & Hf & E)|[E _]]; [done..| |]; rewrite E in *;
      simplify_eq; [|lia].
    eapply sys_ok_take; [done..| |done]. naive_solver.
  - destruct (try_locks_cases p r) as [(j & Hf & E)|[E _]]; [done..| |]; rewrite E in *; simplify_eq.
    + destruct Hf. lia.
    + eapply sys_ok_other; [done..| |]; naive_solver.
  - eapply sys_ok_other; done.
  - eapply sys_ok_other; done.
  - pose proof (sys_held _ Hok t i) as Ht. simpl in Ht.
    rewrite return_taken in * by eauto. simplify_eq. by apply sys_ok_give.
  - destruct (decide (t = u)) as [->|Hne]; [congruence|].
    apply (sys_ok_other _ _ u TAsleep); [|by rewrite list_lookup_insert_ne|done..].
    by apply (sys_ok_other _ _ t TReturned).
  - eapply sys_ok_other; done.
Qed.

Lemma reachable_ok size n s : 1 <= size <= 2 ^ 30 -> reachable size n s -> sys_ok s.
Proof.
  intros Hs (s0 & Hi & Hr). unfold sys_init in Hi.
  destruct (new_spec size Hs) as (p & Hp & Hok & Hsz & _ & Hfree & _).
  rewrite Hp in Hi. simpl in Hi. simplify_eq.
  assert (sys_ok (Sys p (replicate n TIdle))) as H0.
  { split; simpl; [done|..].
    - intros t i Ht. by apply lookup_replicate in Ht as [? _].
    - intros i Hi. destruct (free_not_taken p i); [apply Hfree, Hi|done].
    - intros t u i Ht. by apply lookup_replicate in Ht as [? _]. }
  clear Hp Hok. induction Hr; [done|]. eauto using sys_step_ok.
Qed.

(** ** Properties *)

(** [proxy_pool_new] of a size up to 2^30 returns a pool that satisfies the
    invariant, has exactly that many items, all of them free, and allocates
    less than twice the size. *)
Theorem pool_new_ok (size : Z) :
  1 <= size <= 2 ^ 30 ->
  exists p, proxy_pool_new size = Ret (Some p) /\ pool_ok p /\ psize p = size /\
    plocked p = 0 /\ (forall i, 0 <= i < size -> free p i) /\
    (1 < size -> palloc p < 2 * size).
Proof. apply new_spec. Qed.

Lemma pool_new_ok_witness :
  exists p, proxy_pool_new 10 = Ret (Some p) /\ pool_ok p /\ psize p = 10 /\
    plocked p = 0 /\ (forall i, 0 <= i < 10 -> free p i) /\ (1 < 10 -> palloc p < 2 * 10).
Proof. apply (pool_new_ok 10). lia. Defined.

(** Whatever [rand()] returns, [pool_try_locks] hands out a free item,
    which then is the only one that stopped being free, and counts it; it
    returns -1 and changes nothing exactly when no item is free.  In both cases
    the invariant holds afterwards. *)
Theorem pool_try_locks_spec (p : pool_t) (r : Z) :
  pool_ok p -> 0 <= r ->
  exists i p', pool_try_locks p r = Ret (i, p') /\ pool_ok p' /\
    ((0 <= i /\ free p i /\ plocked p' = plocked p + 1 /\
      forall j, free p' j <-> free p j /\ j <> i) \/
     (i = -1 /\ p' = p /\ forall j, ~ free p j)).
Proof.
  intros Hok Hr. destruct (try_locks_cases p r Hok Hr) as [(i & Hf & E)|[E Hn]].
  - exists i, (take_item p i). split; [done|]. split; [by apply take_item_ok|]. left.
    split; [destruct Hf; lia|]. split; [done|]. split; [done|].
    intros j. by apply take_item_free.
  - exists (-1), p. split; [done|]. split; [done|]. by right.
Qed.

(** A pool of two items of which the first is taken. *)
Definition pool_1of2 : pool_t := Pool 2 2 1 [false; true] (RMutex None 0).

Lemma pool_1of2_ok : pool_ok pool_1of2.
Proof.
  split; simpl; try done.
  intros i Hi. assert (Hn : (2 <= Z.to_nat i)%nat) by lia.
  by rewrite (lookup_ge_None_2 [false; true]).
Qed.

Lemma pool_try_locks_spec_witness :
  exists i p', pool_try_locks pool_1of2 7 = Ret (i, p') /\ pool_ok p' /\
    ((0 <= i /\ free pool_1of2 i /\ plocked p' = plocked pool_1of2 + 1 /\
      forall j, free p' j <-> free pool_1of2 j /\ j <> i) \/
     (i = -1 /\ p' = pool_1of2 /\ forall j, ~ free pool_1of2 j)).
Proof. apply (pool_try_locks_spec pool_1of2 7); [apply pool_1of2_ok|lia]. Defined.

(** [proxy_pool_return] of a taken item makes exactly that item free again
    and counts one taken item less; of a free item it only logs.  The invariant
    holds afterwards. *)
Theorem pool_return_spec (p : pool_t) (i : Z) :
  pool_ok p -> 0 <= i < psize p ->
  exists p', proxy_pool_return p i = Ret p' /\ pool_ok p' /\
    (forall j, free p' j <-> free p j \/ j = i) /\
    (free p i -> p' = p) /\ (taken p i -> plocked p' = plocked p - 1).
Proof.
  intros Hok Hi. destruct (ok_cell p i Hok Hi) as [Hf|Ht].
  - exists p. unfold proxy_pool_return. rewrite (aget_free _ _ Hf). simpl.
    split_and!; try done.
    + intros j. split; [by left|]. by intros [Hj| ->].
    + intros Ht. by destruct (free_not_taken p i).
  - exists (give_item p i). rewrite return_taken by done. split_and!; try done.
    + by apply give_item_ok.
    + intros j. by apply give_item_free.
    + intros Hf. by destruct (free_not_taken p i).
Qed.

Lemma pool_return_spec_witness :
  exists p', proxy_pool_return pool_1of2 0 = Ret p' /\ pool_ok p' /\
    (forall j, free p' j <-> free pool_1of2 j \/ j = 0) /\
    (free pool_1of2 0 -> p' = pool_1of2) /\ (taken pool_1of2 0 -> plocked p' = plocked pool_1of2 - 1).
Proof. apply (pool_return_spec pool_1of2 0); [apply pool_1of2_ok|simpl; lia]. Defined.

(** [proxy_pool_set_size] of a well-formed pool returns, sets the size, keeps the
    availability of every item that remains, makes new items free, and keeps
    the invariant provided that no taken item is cut off. *)
Theorem pool_set_size_spec (p : pool_t) (size : Z) :
  pool_ok p -> 1 <= size <= 2 ^ 30 ->
  exists p', proxy_pool_set_size p size = Ret p' /\ psize p' = size /\
    (forall j, 0 <= j < size -> free p' j <-> free p j \/ psize p <= j) /\
    ((forall i, size <= i < psize p -> free p i) -> pool_ok p').
Proof.
  intros Hok Hsz.
  destruct (set_size_spec p size Hok Hsz) as (p' & He & H1 & H2 & H3 & H4 & Hk & Hn).
  exists p'. split_and!; [done..| |by intros; eapply set_size_ok].
  intros j Hj. unfold free. rewrite H1. destruct (Z.le_gt_cases (psize p) j).
  - rewrite Hn by lia. naive_solver lia.
  - rewrite Hk by lia. naive_solver lia.
Qed.

Lemma pool_set_size_spec_witness :
  exists p', proxy_pool_set_size pool_1of2 5 = Ret p' /\ psize p' = 5 /\
    (forall j, 0 <= j < 5 -> free p' j <-> free pool_1of2 j \/ psize pool_1of2 <= j) /\
    ((forall i, 5 <= i < psize pool_1of2 -> free pool_1of2 i) -> pool_ok p').
Proof. apply (pool_set_size_spec pool_1of2 5); [apply pool_1of2_ok|lia]. Defined.

(** [proxy_pool_remove] returns and drops the size by one, but its shift ends one item
    early: item [idx] takes the availability of its successor and so on up to
    the last but one, and the last item that remains keeps the availability of
    the item that was there before, so the availability of the last item of the
    old pool is lost unless the last item itself is removed. *)
Theorem pool_remove_loses_last (p : pool_t) (idx : Z) :
  pool_ok p -> 2 <= psize p <= 2 ^ 30 -> 0 <= idx < psize p - 1 ->
  exists p', proxy_pool_remove p idx = Ret p' /\ psize p' = psize p - 1 /\
    (forall j, 0 <= j < idx -> pavail p' !! Z.to_nat j = pavail p !! Z.to_nat j) /\
    (forall j, idx <= j < psize p - 2 -> pavail p' !! Z.to_nat j = pavail p !! Z.to_nat (j + 1)) /\
    pavail p' !! Z.to_nat (psize p - 2) = pavail p !! Z.to_nat (psize p - 2).
Proof.
  intros Hok Hs Hi.
  destruct (pool_remove_spec p idx Hok Hs) as (p' & He & H1 & _ & Hc); [lia|].
  exists p'. split_and!; [done..| | |].
  - intros j Hj. rewrite Hc by lia. by destruct (Z.leb_spec idx j); [lia|].
  - intros j Hj. rewrite Hc by lia.
    by destruct (Z.leb_spec idx j), (Z.ltb_spec j (psize p - 2)); try lia.
  - rewrite Hc by lia. destruct (Z.ltb_spec (psize p - 2) (psize p - 2)); [lia|].
    by rewrite andb_false_r.
Qed.

(** Removing item 0 of three items of which only the last is taken leaves two
    free items: a taken item has become free. *)
Definition pool_3 : pool_t := Pool 3 4 1 [true; true; false; true] (RMutex None 0).

Lemma pool_3_ok : pool_ok pool_3.
Proof.
  split; simpl; try done.
  intros i Hi. destruct (Z.eq_dec i 3) as [->|]; [done|].
  rewrite (lookup_ge_None_2 [true; true; false; true]); [done|simpl; lia].
Qed.

Lemma pool_remove_loses_last_witness :
  (exists p', proxy_pool_remove pool_3 0 = Ret p' /\ psize p' = psize pool_3 - 1 /\
    (forall j, 0 <= j < 0 -> pavail p' !! Z.to_nat j = pavail pool_3 !! Z.to_nat j) /\
    (forall j, 0 <= j < psize pool_3 - 2 -> pavail p' !! Z.to_nat j = pavail pool_3 !! Z.to_nat (j + 1)) /\
    pavail p' !! Z.to_nat (psize pool_3 - 2) = pavail pool_3 !! Z.to_nat (psize pool_3 - 2)) /\
  (forall p', proxy_pool_remove pool_3 0 = Ret p' -> ~ taken p' 0 /\ ~ taken p' 1).
Proof.
  split.
  - apply (pool_remove_loses_last pool_3 0); [apply pool_3_ok|simpl; lia..].
  - intros p' H. vm_compute in H. injection H as <-. split; intros [_ H]; discriminate H.
Defined.

(** [proxy_pool_is_free] answers for every item of the pool, but lets the
    index [size] through its guard and then reads [avail[size]], which is outside
    the array when the size is a power of two that fills it. *)
Theorem pool_is_free_spec (p : pool_t) (idx : Z) :
  pool_ok p -> 0 <= idx ->
  (idx < psize p -> exists b, proxy_pool_is_free p idx = Ret b /\ (b = true <-> free p idx)) /\
  (psize p < idx -> proxy_pool_is_free p idx = Ret false) /\
  (idx = psize p -> psize p = palloc p -> proxy_pool_is_free p idx = Undef).
Proof.
  intros Hok Hi. unfold proxy_pool_is_free. split_and!.
  - intros Hlt. destruct (Z.ltb_spec (psize p) idx); [lia|].
    destruct (ok_cell p idx Hok) as [Hf|Ht]; [lia|..].
    + exists true. split; [by apply aget_free|done].
    + exists false. split; [by apply aget_taken|]. split; [done|].
      intros Hf. by destruct (free_not_taken p idx).
  - intros Hlt. by destruct (Z.ltb_spec (psize p) idx); [|lia].
  - intros -> Hfull. destruct (Z.ltb_spec (psize p) (psize p)); [lia|].
    apply aget_Undef. pose proof (ok_alloc p Hok). lia.
Qed.

Lemma pool_is_free_spec_witness :
  (2 < psize pool_1of2 -> exists b, proxy_pool_is_free pool_1of2 2 = Ret b /\ (b = true <-> free pool_1of2 2)) /\
  (psize pool_1of2 < 2 -> proxy_pool_is_free pool_1of2 2 = Ret false) /\
  (2 = psize pool_1of2 -> psize pool_1of2 = palloc pool_1of2 -> proxy_pool_is_free pool_1of2 2 = Undef).
Proof. apply (pool_is_free_spec pool_1of2 2); [apply pool_1of2_ok|lia]. Defined.

(** C11: in every state that threads calling [proxy_pool_get] and
    [proxy_pool_return] can reach, no item is held by two threads, an item is
    recorded as taken exactly when some thread holds it, and [locked] is the
    number of taken items. *)
Theorem pool_mutual_exclusion (size : Z) (n : nat) (s : sys) :
  1 <= size <= 2 ^ 30 -> reachable size n s ->
  (forall t u i, sthreads s !! t = Some (THeld i) -> sthreads s !! u = Some (THeld i) -> t = u) /\
  (forall i, taken (spool s) i <-> exists t, sthreads s !! t = Some (THeld i)) /\
  plocked (spool s) = count negb (pavail (spool s)).
Proof.
  intros Hs Hr. pose proof (reachable_ok size n s Hs Hr) as [Hp Hh Ho He].
  split_and!; [done| |apply Hp]. intros i. split; [apply Ho|]. intros [t Ht]. eauto.
Qed.

(** Two threads compete for one item; the steps of a run. *)
Definition pool_1 (av : bool) : pool_t := Pool 1 1 (if av then 0 else 1) [av] (RMutex None 0).

Lemma one_item_run :
  reachable 1 2 (Sys (pool_1 false) [THeld 0; TTried]) /\
  reachable 1 2 (Sys (pool_1 true) [TIdle; TAsleep]).
Proof.
  assert (H : reachable 1 2 (Sys (pool_1 false) [THeld 0; TTried])).
  { exists (Sys (pool_1 true) [TIdle; TIdle]). split; [done|].
    eapply rtc_l; [eapply (step_get _ _ 0%nat TIdle 0 0 (pool_1 false)); [done|by left|done..]|].
    eapply rtc_l; [eapply (step_get_fail _ _ 1%nat TIdle 0 (-1) (pool_1 false)); [done|by left|done..]|].
    apply rtc_refl. }
  split; [done|]. destruct H as (s0 & Hi & Hr). exists s0. split; [done|].
  etrans; [exact Hr|].
  eapply rtc_l; [eapply (step_return _ _ 0%nat 0 (pool_1 true)); done|].
  eapply rtc_l; [eapply (step_signal_none _ _ 0%nat); [done|]|].
  { simpl. intros [?|[?|?%elem_of_nil]%elem_of_cons]%elem_of_cons; done. }
  eapply rtc_l; [eapply (step_sleep _ _ 1%nat); done|]. apply rtc_refl.
Qed.

Lemma pool_mutual_exclusion_witness :
  let s := Sys (pool_1 false) [THeld 0; TTried] in
  (forall t u i, sthreads s !! t = Some (THeld i) -> sthreads s !! u = Some (THeld i) -> t = u) /\
  (forall i, taken (spool s) i <-> exists t, sthreads s !! t = Some (THeld i)) /\
  plocked (spool s) = count negb (pavail (spool s)).
Proof. apply (pool_mutual_exclusion 1 2); [lia|apply one_item_run]. Defined.

(** A wake-up can be lost: [proxy_pool_get] looks for an item before it takes
    [avail_mutex], so an item returned in between is signalled to nobody, and
    the thread goes to sleep although the item is free and no thread is left
    that would signal it. *)
Theorem pool_lost_wakeup :
  exists s, reachable 1 2 s /\ free (spool s) 0 /\ sthreads s = [TIdle; TAsleep].
Proof.
  exists (Sys (pool_1 true) [TIdle; TAsleep]). split; [apply one_item_run|].
  by split; [split; simpl; [lia|]|].
Qed.
