(* ===== verification/Hashtable.v ===== *)
(** * Hash table (src/src/hashtable/hashtable.c, hashtable_private.h)

    The chained hash table that stores transactions and clones, with Paul
    Hsieh's SuperFastHash.  A chain is a list of entries, the table a list of
    chains; memory allocation is an argument of the operations that allocate.
    The abstraction of a table is the finite map of its entries, and the
    operations are shown to be the operations of finite maps. *)

From S2P Require Import Prelude.
Local Open Scope Z_scope.

(** ** The hash function *)

(** The bytes of an [n]-byte little-endian integer. *)
Fixpoint le_bytes (n : nat) (z : Z) : list Z :=
  match n with
  | O => []
  | S n => z mod 256 :: le_bytes n (z / 256)
  end.

(** A byte as a [char], which is signed. *)
Definition schar (b : Z) : Z := if b <? 128 then b else b - 256.

Definition get16bits (b0 b1 : Z) : Z := Z.shiftl b1 8 + b0.

(** The main loop: [n] rounds of four bytes. *)
Fixpoint sfh_loop (n : nat) (data : list Z) (hash : Z) : outcome (Z * list Z) :=
  match n with
  | O => Ret (hash, data)
  | S n =>
      match data with
      | b0 :: b1 :: b2 :: b3 :: data =>
          let hash := u32 (hash + get16bits b0 b1) in
          let tmp := Z.lxor (u32 (Z.shiftl (get16bits b2 b3) 11)) hash in
          let hash := Z.lxor (u32 (Z.shiftl hash 16)) tmp in
          let hash := u32 (hash + Z.shiftr hash 11) in
          sfh_loop n data hash
      | _ => Undef
      end
  end.

(** The end cases, for [rem] bytes left. *)
Definition sfh_end (rem : Z) (data : list Z) (hash : Z) : outcome Z :=
  if rem =? 3 then
    match data with
    | b0 :: b1 :: b2 :: _ =>
        let hash := u32 (hash + get16bits b0 b1) in
        let hash := Z.lxor hash (u32 (Z.shiftl hash 16)) in
        let hash := Z.lxor hash (u32 (schar b2 * 2 ^ 18)) in
        Ret (u32 (hash + Z.shiftr hash 11))
    | _ => Undef
    end
  else if rem =? 2 then
    match data with
    | b0 :: b1 :: _ =>
        let hash := u32 (hash + get16bits b0 b1) in
        let hash := Z.lxor hash (u32 (Z.shiftl hash 11)) in
        Ret (u32 (hash + Z.shiftr hash 17))
    | _ => Undef
    end
  else if rem =? 1 then
    match data with
    | b0 :: _ =>
        let hash := u32 (hash + schar b0) in
        let hash := Z.lxor hash (u32 (Z.shiftl hash 10)) in
        Ret (u32 (hash + Z.shiftr hash 1))
    | _ => Undef
    end
  else Ret hash.

Definition sfh_avalanche (hash : Z) : Z :=
  let hash := Z.lxor hash (u32 (Z.shiftl hash 3)) in
  let hash := u32 (hash + Z.shiftr hash 5) in
  let hash := Z.lxor hash (u32 (Z.shiftl hash 4)) in
  let hash := u32 (hash + Z.shiftr hash 17) in
  let hash := Z.lxor hash (u32 (Z.shiftl hash 25)) in
  u32 (hash + Z.shiftr hash 6).

Definition SuperFastHash (data : list Z) (len : Z) : outcome Z :=
  if len <=? 0 then Ret 0 else
  '(hash, data) ← sfh_loop (Z.to_nat (Z.shiftr len 2)) data (u32 len);
  hash ← sfh_end (Z.land len 3) data hash;
  Ret (sfh_avalanche hash).

(** [sizeof(unsigned long)] is 8; the eight bytes of the key are all there, so
    the hash of a key is always defined. *)
Definition hash (k : Z) : Z :=
  match SuperFastHash (le_bytes 8 k) 8 with Ret h => h | Undef => 0 end.

(** ** Data *)

Definition primes : list Z :=
  [53; 97; 193; 389; 769; 1543; 3079; 6151; 12289; 24593; 49157; 98317;
   196613; 393241; 786433; 1572869; 3145739; 6291469; 12582917; 25165843;
   50331653; 100663319; 201326611; 402653189; 805306457; 1610612741].

Definition prime_table_length : Z := zlength primes.

(** Rounding a positive integer to the 24 bits of a [float] mantissa, ties to
    even. *)
Definition round24 (m : Z) : Z :=
  let s := Z.log2 m + 1 - 24 in
  if s <=? 0 then m
  else
    let q := Z.shiftr m s in
    let r := m mod 2 ^ s in
    let up := (2 ^ (s - 1) <? r) || ((r =? 2 ^ (s - 1)) && Z.odd q) in
    Z.shiftl (if up then q + 1 else q) s.

(** [(unsigned int) ceil(size * max_load_factor)]: 0.65 as a [float] is
    10905190 / 2^24, and the product is a [float]. *)
Definition load_limit (size : Z) : Z :=
  u32 ((round24 (round24 size * 10905190) + (2 ^ 24 - 1)) / 2 ^ 24).

Definition indexFor (tablelength hashvalue : Z) : Z := hashvalue mod tablelength.

Record entry (V : Type) := Entry { ek : Z; ev : V; eh : Z }.
Arguments Entry {V} _ _ _.
Arguments ek {V} _.
Arguments ev {V} _.
Arguments eh {V} _.

Record hashtable (V : Type) := HT {
  tablelength : Z;
  table : list (list (entry V));
  entrycount : Z;
  loadlimit : Z;
  primeindex : Z
}.
Arguments HT {V} _ _ _ _ _.
Arguments tablelength {V} _.
Arguments table {V} _.
Arguments entrycount {V} _.
Arguments loadlimit {V} _.
Arguments primeindex {V} _.

(** Which allocations of an operation succeed. *)
Record allocs := Allocs {
  malloc_table : bool;
  realloc_table : bool;
  malloc_entry : bool
}.
Definition alloc_ok : allocs := Allocs true true true.

(** ** Operations *)

Section operations.
Context {V : Type}.
Implicit Types (h : hashtable V) (e : entry V) (k : Z) (v : V).

(** The first prime above [minsize], and its index. *)
Fixpoint pick_prime (ps : list Z) (pindex minsize : Z) : Z * Z :=
  match ps with
  | [] => (53, pindex)
  | p :: ps => if minsize <? p then (p, pindex) else pick_prime ps (pindex + 1) minsize
  end.

(** [ah] and [at]: whether the two [malloc]s succeed. *)
Definition create_hashtable (ah at_ : bool) (minsize : Z) : option (hashtable V) :=
  if 2 ^ 30 <? minsize then None else
  let '(size, pindex) := pick_prime primes 0 minsize in
  if negb ah then None else
  if negb at_ then None else
  Some (HT size (replicate (Z.to_nat size) []) 0 (load_limit size) pindex).

(** [e->next = newtable[index]; newtable[index] = e] *)
Definition push_entry (newsize : Z) (newtable : list (list (entry V))) (e : entry V) :=
  alter (cons e) (Z.to_nat (indexFor newsize (eh e))) newtable.

(** The two loops that move every entry, chain by chain. *)
Definition move_chain (newsize : Z) (newtable : list (list (entry V))) (chain : list (entry V)) :=
  fold_left (push_entry newsize) chain newtable.
Definition move_table (newsize : Z) (newtable tbl : list (list (entry V))) :=
  fold_left (move_chain newsize) tbl newtable.

(** When [malloc] fails and [realloc] does not, the code clears the memory that
    the uninitialised [newtable[h->tablelength]] points to, which is undefined. *)
Definition hashtable_expand (a : allocs) (h : hashtable V) : outcome (Z * hashtable V) :=
  if primeindex h =? prime_table_length - 1 then Ret (0, h) else
  let pindex := primeindex h + 1 in
  newsize ← aget primes pindex;
  if malloc_table a then
    let newtable := move_table newsize (replicate (Z.to_nat newsize) []) (table h) in
    Ret (-1, HT newsize newtable (entrycount h) (load_limit newsize) pindex)
  else if realloc_table a then Undef
  else Ret (0, h).

Definition hashtable_count (h : hashtable V) : Z := entrycount h.

(** [entrycount += d], an [unsigned int]. *)
Definition add_count (d : Z) (h : hashtable V) : hashtable V :=
  HT (tablelength h) (table h) (u32 (entrycount h + d)) (loadlimit h) (primeindex h).

Definition hashtable_insert (a : allocs) (h : hashtable V) (k : Z) (v : V)
  : outcome (Z * hashtable V) :=
  let h := add_count 1 h in
  '(_, h) ← (if loadlimit h <? entrycount h then hashtable_expand a h else Ret (-1, h));
  if negb (malloc_entry a) then
    Ret (0, add_count (-1) h)
  else
    let e := Entry k v (hash k) in
    Ret (-1, HT (tablelength h) (push_entry (tablelength h) (table h) e)
                (entrycount h) (loadlimit h) (primeindex h)).

Fixpoint search_chain (hashvalue k : Z) (chain : list (entry V)) : option V :=
  match chain with
  | [] => None
  | e :: chain =>
      if (hashvalue =? eh e) && (k =? ek e) then Some (ev e) else search_chain hashvalue k chain
  end.

(** The chain of a key; the index is in range by the remainder. *)
Definition chain_of (h : hashtable V) (k : Z) : list (entry V) :=
  default [] (table h !! Z.to_nat (indexFor (tablelength h) (hash k))).

Definition hashtable_search (h : hashtable V) (k : Z) : option V :=
  search_chain (hash k) k (chain_of h k).

Fixpoint remove_chain (hashvalue k : Z) (chain : list (entry V)) : option (V * list (entry V)) :=
  match chain with
  | [] => None
  | e :: chain =>
      if (hashvalue =? eh e) && (k =? ek e) then Some (ev e, chain)
      else '(v, chain) ← remove_chain hashvalue k chain; Some (v, e :: chain)
  end.

Definition hashtable_remove (h : hashtable V) (k : Z) : option V * hashtable V :=
  match remove_chain (hash k) k (chain_of h k) with
  | None => (None, h)
  | Some (v, chain) =>
      (Some v, HT (tablelength h)
                  (<[Z.to_nat (indexFor (tablelength h) (hash k)) := chain]> (table h))
                  (u32 (entrycount h - 1)) (loadlimit h) (primeindex h))
  end.

(** The values that [hashtable_destroy] frees, in order. *)
Definition hashtable_destroy (h : hashtable V) (free_values : bool) : list V :=
  if free_values then List.flat_map (fun chain => map ev chain) (table h) else [].

End operations.

(** ** Facts about the hash function *)

Lemma le_bytes_length n z : length (le_bytes n z) = n.
Proof. revert z. induction n as [|n IH]; intros z; simpl; [done|]. by rewrite IH. Qed.

Lemma sfh_loop_defined n data (h : Z) :
  (4 * n <= length data)%nat ->
  exists h', sfh_loop n data h = Ret (h', drop (4 * n) data).
Proof.
  revert data h. induction n as [|n IH]; intros data h Hl; [by exists h|].
  destruct data as [|b0 [|b1 [|b2 [|b3 data]]]]; simpl in Hl; try lia.
  cbn [sfh_loop]. edestruct IH as [h' ->]; [|exists h'].
  - lia.
  - by replace (4 * S n)%nat with (4 + 4 * n)%nat by lia.
Qed.

Lemma sfh_end_defined rem data (h : Z) :
  rem <= zlength data -> exists h', sfh_end rem data h = Ret h'.
Proof.
  unfold sfh_end, zlength. intros Hr.
  destruct (Z.eqb_spec rem 3); [destruct data as [|? [|? [|? ?]]]; simpl in Hr; lia || eauto|].
  destruct (Z.eqb_spec rem 2); [destruct data as [|? [|? ?]]; simpl in Hr; lia || eauto|].
  destruct (Z.eqb_spec rem 1); [destruct data as [|? ?]; simpl in Hr; lia || eauto|].
  eauto.
Qed.

(** The function reads nothing outside the [len] bytes it is given. *)
Lemma SuperFastHash_spec data len :
  len <= zlength data ->
  exists h : Z, SuperFastHash data len = Ret h /\ 0 <= h < 2 ^ 32.
Proof.
  intros Hl. unfold SuperFastHash. destruct (Z.leb_spec len 0); [exists 0; split; [done|lia]|].
  assert (Hq : Z.shiftr len 2 = len / 4) by (by rewrite Z.shiftr_div_pow2).
  assert (Hr : Z.land len 3 = len mod 4) by (by apply (Z.land_ones len 2)).
  pose proof (Z.div_mod len 4). pose proof (Z.mod_pos_bound len 4). unfold zlength in Hl.
  destruct (sfh_loop_defined (Z.to_nat (Z.shiftr len 2)) data (u32 len)) as [h1 ->]; [lia|]. simpl.
  edestruct sfh_end_defined as [h2 ->].
  - unfold zlength. rewrite length_drop. rewrite Hr, Hq. lia.
  - simpl. eexists. split; [done|]. unfold sfh_avalanche. by apply wrap_range.
Qed.

Lemma hash_bounds k : 0 <= hash k < 2 ^ 32.
Proof.
  unfold hash. destruct (SuperFastHash_spec (le_bytes 8 k) 8) as (h & -> & ?); [|done].
  unfold zlength. by rewrite le_bytes_length.
Qed.

Lemma indexFor_bounds n x : 0 < n -> 0 <= indexFor n x < n.
Proof. apply Z.mod_pos_bound. Qed.

#[global] Opaque hash.

(** ** Invariant and abstraction *)

Section invariant.
Context {V : Type}.
Implicit Types (h : hashtable V) (e : entry V) (k : Z) (v : V) (t : list (list (entry V))).

Definition entries h : list (entry V) := concat (table h).

Definition kv e : Z * V := (ek e, ev e).

(** The finite map that a table stands for. *)
Definition to_map h : gmap Z V := list_to_map (kv <$> entries h).

(** Every entry carries the hash of its key and is in the chain of its hash. *)
Definition chained (n : Z) t : Prop :=
  forall i chain e, t !! i = Some chain -> e ∈ chain ->
    eh e = hash (ek e) /\ i = Z.to_nat (indexFor n (eh e)).

Record ht_ok h : Prop := {
  ok_len : zlength (table h) = tablelength h;
  ok_pos : 0 < tablelength h;
  ok_chained : chained (tablelength h) (table h);
  ok_count : entrycount h = zlength (entries h);
  ok_unique : NoDup (ek <$> entries h);
  ok_prime : primes !! Z.to_nat (primeindex h) = Some (tablelength h) /\ 0 <= primeindex h;
  ok_limit : loadlimit h = load_limit (tablelength h)
}.

(** ** Chains *)

Lemma search_chain_None hv k (chain : list (entry V)) :
  (forall e, e ∈ chain -> eh e = hash (ek e)) -> hv = hash k ->
  search_chain hv k chain = None <-> k ∉ ek <$> chain.
Proof.
  intros Hh ->. induction chain as [|e chain IH]; simpl; [set_solver|].
  rewrite not_elem_of_cons. rewrite (Hh e) by set_solver.
  destruct (Z.eqb_spec k (ek e)) as [->|Hne].
  - rewrite Z.eqb_refl. simpl. naive_solver.
  - rewrite andb_false_r. rewrite IH by set_solver. naive_solver.
Qed.

Lemma search_chain_Some hv k (chain : list (entry V)) v :
  search_chain hv k chain = Some v -> exists e, e ∈ chain /\ ek e = k /\ ev e = v.
Proof.
  induction chain as [|e chain IH]; simpl; [done|]. case_match eqn:E; intros H.
  - bprop. simplify_eq. exists e. set_solver.
  - destruct (IH H) as (e' & He & ?). exists e'. set_solver.
Qed.

Lemma remove_chain_search hv k (chain : list (entry V)) :
  remove_chain hv k chain = None <-> search_chain hv k chain = None.
Proof.
  induction chain as [|e chain IH]; simpl; [done|]. case_match; [done|].
  destruct (remove_chain hv k chain) as [[v c]|]; naive_solver.
Qed.

Lemma remove_chain_Some hv k (chain : list (entry V)) v chain' :
  remove_chain hv k chain = Some (v, chain') ->
  search_chain hv k chain = Some v /\
  exists e, ek e = k /\ ev e = v /\ chain ≡ₚ e :: chain' /\ chain' ⊆ chain.
Proof.
  revert chain'. induction chain as [|e chain IH]; intros chain' H; simpl in *; [done|].
  case_match eqn:E.
  - simplify_eq. bprop. split; [done|]. exists e. set_solver.
  - destruct (remove_chain hv k chain) as [[v' c]|] eqn:Er; [|done]. simplify_eq/=.
    destruct (IH c eq_refl) as [Hs (e' & Hk & Hv & Hp & Hsub)]. split; [done|].
    exists e'. split_and!; [done..| |set_solver]. rewrite Hp. by constructor.
Qed.

(** ** Tables *)

Lemma concat_insert_perm (t : list (list (entry V))) i old new :
  t !! i = Some old -> concat (<[i := new]> t) ++ old ≡ₚ concat t ++ new.
Proof.
  intros (t1 & t2 & -> & <-)%lookup_middle.
  rewrite insert_app_r_alt, Nat.sub_diag by lia. simpl. rewrite !concat_app. simpl.
  solve_Permutation.
Qed.

Lemma push_entry_perm n t e :
  0 < n -> zlength t = n -> concat (push_entry n t e) ≡ₚ e :: concat t.
Proof.
  intros Hn Hl. unfold push_entry. pose proof (indexFor_bounds n (eh e) Hn).
  destruct (lookup_lt_is_Some_2 t (Z.to_nat (indexFor n (eh e)))) as [c Hc];
    [unfold zlength in Hl; lia|].
  rewrite (alter_insert _ _ _ c Hc).
  pose proof (concat_insert_perm t _ c (e :: c) Hc) as Hp.
  apply (Permutation_app_inv_r c). rewrite Hp. simpl. solve_Permutation.
Qed.

Lemma push_entry_length n t e : length (push_entry n t e) = length t.
Proof. apply length_alter. Qed.

Lemma push_entry_chained n t e :
  chained n t -> eh e = hash (ek e) -> chained n (push_entry n t e).
Proof.
  intros Hc He i chain e' Hi Hin. unfold push_entry in Hi.
  destruct (decide (Z.to_nat (indexFor n (eh e)) = i)) as [<-|Hne].
  - rewrite list_lookup_alter_eq in Hi. apply fmap_Some in Hi as (c & Hc' & ->).
    apply elem_of_cons in Hin as [->|Hin]; [done|]. by eapply Hc.
  - rewrite list_lookup_alter_ne in Hi by done. by eapply Hc.
Qed.

Lemma move_chain_spec n t chain :
  0 < n -> zlength t = n -> chained n t -> (forall e, e ∈ chain -> eh e = hash (ek e)) ->
  zlength (move_chain n t chain) = n /\ chained n (move_chain n t chain) /\
  concat (move_chain n t chain) ≡ₚ chain ++ concat t.
Proof.
  intros Hn. revert t. induction chain as [|e chain IH]; intros t Hl Hc Hh; [done|].
  simpl. destruct (IH (push_entry n t e)) as (H1 & H2 & H3).
  - unfold zlength in *. by rewrite push_entry_length.
  - apply push_entry_chained; [done|]. apply Hh. set_solver.
  - intros e' He'. apply Hh. set_solver.
  - split_and!; [done..|]. rewrite H3, push_entry_perm by done. solve_Permutation.
Qed.

Lemma move_table_spec n t0 t :
  0 < n -> zlength t0 = n -> chained n t0 -> (forall e, e ∈ concat t -> eh e = hash (ek e)) ->
  zlength (move_table n t0 t) = n /\ chained n (move_table n t0 t) /\
  concat (move_table n t0 t) ≡ₚ concat t ++ concat t0.
Proof.
  intros Hn. revert t0. induction t as [|chain t IH]; intros t0 Hl Hc Hh; [done|].
  simpl. destruct (move_chain_spec n t0 chain Hn Hl Hc) as (H1 & H2 & H3).
  { intros e He. apply Hh. simpl. set_solver. }
  destruct (IH (move_chain n t0 chain) H1 H2) as (H4 & H5 & H6).
  { intros e He. apply Hh. simpl. set_solver. }
  split_and!; [done..|]. rewrite H6, H3. solve_Permutation.
Qed.

Lemma concat_replicate_nil n : concat (replicate n (@nil (entry V))) = [].
Proof. induction n; simpl; done. Qed.

Lemma chained_empty n m : chained n (replicate m (@nil (entry V))).
Proof. intros i chain e [-> _]%lookup_replicate He. by apply elem_of_nil in He. Qed.

Lemma chained_hash n t e : chained n t -> e ∈ concat t -> eh e = hash (ek e).
Proof.
  intros Hc He. apply list_elem_of_In, in_concat in He as (c & Hin & He).
  apply list_elem_of_In, list_elem_of_lookup in Hin as [i Hi].
  apply list_elem_of_In in He. by apply (Hc i c e).
Qed.

(** Every entry of a key is in the chain of the key. *)
Lemma entry_in_chain h e : ht_ok h -> e ∈ entries h -> e ∈ chain_of h (ek e).
Proof.
  intros Hok He. pose proof (ok_chained h Hok) as Hc.
  apply list_elem_of_In, in_concat in He as (c & Hin & He).
  apply list_elem_of_In, list_elem_of_lookup in Hin as [i Hi]. apply list_elem_of_In in He.
  destruct (Hc i c e Hi He) as [Hh ->]. unfold chain_of. rewrite <-Hh, Hi. done.
Qed.

Lemma chain_lookup h k :
  ht_ok h -> table h !! Z.to_nat (indexFor (tablelength h) (hash k)) = Some (chain_of h k).
Proof.
  intros Hok. unfold chain_of. pose proof (indexFor_bounds (tablelength h) (hash k) (ok_pos h Hok)).
  destruct (lookup_lt_is_Some_2 (table h) (Z.to_nat (indexFor (tablelength h) (hash k)))) as [c Hc].
  - pose proof (ok_len h Hok) as Hl. unfold zlength in Hl. lia.
  - by rewrite Hc.
Qed.

Lemma chain_in_entries h k e : ht_ok h -> e ∈ chain_of h k -> e ∈ entries h.
Proof.
  intros Hok He. pose proof (chain_lookup h k Hok) as Hc.
  apply list_elem_of_In, in_concat. exists (chain_of h k).
  split; apply list_elem_of_In; [|done]. apply list_elem_of_lookup. eauto.
Qed.

Lemma keys_kv (l : list (entry V)) : (kv <$> l).*1 = ek <$> l.
Proof. by rewrite <-list_fmap_compose. Qed.

Lemma to_map_lookup h k v :
  ht_ok h -> to_map h !! k = Some v <-> exists e, e ∈ entries h /\ ek e = k /\ ev e = v.
Proof.
  intros Hok. unfold to_map. rewrite <-elem_of_list_to_map by (rewrite keys_kv; apply Hok).
  rewrite list_elem_of_fmap. unfold kv. naive_solver.
Qed.

Lemma to_map_None h k : ht_ok h -> to_map h !! k = None <-> k ∉ ek <$> entries h.
Proof. intros Hok. unfold to_map. by rewrite <-not_elem_of_list_to_map, keys_kv. Qed.

Lemma search_to_map h k : ht_ok h -> hashtable_search h k = to_map h !! k.
Proof.
  intros Hok. unfold hashtable_search. destruct (search_chain _ _ _) as [v|] eqn:E; symmetry.
  - apply to_map_lookup; [done|]. apply search_chain_Some in E as (e & He & Hk & Hv).
    exists e. eauto using chain_in_entries.
  - apply to_map_None; [done|]. apply search_chain_None in E; [|..|done].
    + intros (e & -> & He)%list_elem_of_fmap. apply E. apply list_elem_of_fmap.
      exists e. split; [done|]. by apply entry_in_chain.
    + intros e He. apply (chained_hash (tablelength h) (table h)); [apply Hok|].
      by eapply chain_in_entries.
Qed.

(** Tables with the same entries stand for the same map. *)
Lemma to_map_perm h h' :
  NoDup (ek <$> entries h) -> entries h ≡ₚ entries h' -> to_map h = to_map h'.
Proof.
  intros Hn Hp. apply list_to_map_proper; [by rewrite keys_kv|]. by apply fmap_Permutation.
Qed.

(** [hashtable_expand] keeps the entries. *)
Lemma expand_spec a h :
  ht_ok h -> (malloc_table a = true \/ realloc_table a = false) ->
  exists r h', hashtable_expand a h = Ret (r, h') /\ ht_ok h' /\ entries h' ≡ₚ entries h.
Proof.
  intros Hok Ha. unfold hashtable_expand. pose proof (ok_prime h Hok) as [Hp Hp0].
  pose proof (lookup_lt_Some _ _ _ Hp) as Hlt.
  destruct (Z.eqb_spec (primeindex h) (prime_table_length - 1)) as [|Hne]; [by exists 0, h|].
  destruct (aget_is_Ret primes (primeindex h + 1)) as [n Hn].
  { unfold prime_table_length, zlength in *. lia. }
  rewrite Hn. simpl. destruct (malloc_table a) eqn:Em; [|destruct Ha as [|Ha]; [done|]; rewrite Ha; by exists 0, h].
  apply aget_Ret in Hn as [Hi Hn].
  assert (0 < n) as Hpos.
  { assert (Forall (fun p => 0 < p) primes) as Hall by (repeat constructor).
    by apply (Forall_lookup_1 _ _ _ _ Hall Hn). }
  destruct (move_table_spec n (replicate (Z.to_nat n) []) (table h)) as (H1 & H2 & H3).
  - done.
  - unfold zlength. rewrite length_replicate. lia.
  - apply chained_empty.
  - intros e He. by apply (chained_hash (tablelength h) (table h)); [apply Hok|].
  - rewrite concat_replicate_nil, app_nil_r in H3.
    eexists _, _. split; [done|]. unfold entries. simpl. split; [|done].
    split; unfold entries; simpl; try done.
    + unfold zlength. rewrite H3. apply Hok.
    + rewrite H3. apply Hok.
Qed.

(** Counting one entry more. *)
Lemma recount_expand a h :
  ht_ok h -> zlength (entries h) + 1 < 2 ^ 32 ->
  (malloc_table a = true \/ realloc_table a = false) ->
  exists r h', 
    (if loadlimit (add_count 1 h) <? entrycount (add_count 1 h)
     then hashtable_expand a (add_count 1 h) else Ret (-1, add_count 1 h)) = Ret (r, h') /\
    entrycount h' = entrycount h + 1 /\ entries h' ≡ₚ entries h /\
    ht_ok (HT (tablelength h') (table h') (entrycount h) (loadlimit h') (primeindex h')).
Proof.
  intros Hok Hb Ha. pose proof (ok_count h Hok) as Hc. unfold add_count. simpl.
  assert (0 <= zlength (entries h)) by (unfold zlength; lia).
  assert (u32 (entrycount h + 1) = entrycount h + 1) as -> by (apply wrap_small; lia).
  destruct (loadlimit h <? entrycount h + 1) eqn:E.
  - destruct (expand_spec a h Hok Ha) as (r & h' & He & Hok' & Hp).
    assert (Hh : HT (tablelength h) (table h) (entrycount h) (loadlimit h) (primeindex h) = h)
      by (by destruct h).
    unfold hashtable_expand in *. simpl in *. destruct (primeindex h =? _) eqn:Ei.
    + eexists _, _. split; [done|]. simpl. by rewrite Hh.
    + destruct (aget primes (primeindex h + 1)) as [n|]; [|done]. simpl in *.
      destruct (malloc_table a), (realloc_table a); try done; injection He as <- <-;
        eexists _, _; (split; [done|]); unfold entries in *; simpl in *; split_and!; done || by rewrite Hh.
  - eexists _, _. split; [done|]. simpl. split; [done|]. split; [done|]. by destruct h.
Qed.

Lemma insert_spec a h k v :
  ht_ok h -> to_map h !! k = None -> zlength (entries h) + 1 < 2 ^ 32 ->
  (malloc_table a = true \/ realloc_table a = false) -> malloc_entry a = true ->
  exists h', hashtable_insert a h k v = Ret (-1, h') /\ ht_ok h' /\
    to_map h' = <[k := v]> (to_map h) /\ entries h' ≡ₚ Entry k v (hash k) :: entries h.
Proof.
  intros Hok Hk Hb Ha He. unfold hashtable_insert. cbv zeta.
  destruct (recount_expand a h Hok Hb Ha) as (r & h' & -> & Hcnt & Hp & Hok'). simpl.
  rewrite He. simpl. set (e := Entry k v (hash k)). eexists. split; [done|].
  pose proof (ok_len _ Hok') as Hl. pose proof (ok_pos _ Hok') as Hpos. simpl in Hl, Hpos.
  assert (entries (HT (tablelength h') (push_entry (tablelength h') (table h') e)
            (entrycount h') (loadlimit h') (primeindex h')) ≡ₚ e :: entries h) as Hpe.
  { unfold entries at 1. simpl. rewrite push_entry_perm by done. by rewrite <-Hp. }
  assert (NoDup (ek <$> e :: entries h)) as Hnd.
  { rewrite fmap_cons. constructor; [|apply Hok]. by apply to_map_None. }
  split_and!; [|..|done].
  - split; simpl.
    + unfold zlength in *. by rewrite push_entry_length.
    + done.
    + apply push_entry_chained; [apply (ok_chained _ Hok')|done].
    + unfold zlength. rewrite Hpe, Hcnt, (ok_count h Hok). unfold zlength. simpl. lia.
    + by rewrite Hpe.
    + apply (ok_prime _ Hok').
    + apply (ok_limit _ Hok').
  - unfold to_map at 1. rewrite (list_to_map_proper _ (kv <$> e :: entries h)).
    + done.
    + rewrite keys_kv. by rewrite Hpe.
    + by rewrite Hpe.
Qed.

Lemma remove_spec h k v :
  ht_ok h -> zlength (entries h) < 2 ^ 32 -> to_map h !! k = Some v ->
  exists h', hashtable_remove h k = (Some v, h') /\ ht_ok h' /\
    to_map h' = delete k (to_map h) /\ entrycount h' = entrycount h - 1.
Proof.
  intros Hok Hb Hk. unfold hashtable_remove. rewrite <-search_to_map in Hk by done.
  unfold hashtable_search in Hk.
  destruct (remove_chain (hash k) k (chain_of h k)) as [[v' c]|] eqn:Er.
  2: { apply remove_chain_search in Er. congruence. }
  apply remove_chain_Some in Er as [Hs (e & He & Hv & Hp & Hsub)]. simplify_eq.
  eexists. split; [done|].
  pose proof (chain_lookup h (ek e) Hok) as Hci.
  pose proof (concat_insert_perm (table h) _ _ c Hci) as Hperm.
  rewrite Hp in Hperm. fold (entries h) in Hperm.
  set (t' := <[_ := c]> (table h)) in *.
  assert (entries h ≡ₚ e :: concat t') as Hpe.
  { apply (Permutation_app_inv_r c). rewrite <-Hperm. solve_Permutation. }
  pose proof (ok_unique h Hok) as Hnd. rewrite Hpe in Hnd. rewrite fmap_cons in Hnd.
  apply NoDup_cons in Hnd as [Hnot Hnd].
  pose proof (ok_count h Hok) as Hcnt. unfold zlength in Hcnt, Hb. rewrite Hpe in Hcnt, Hb. simpl in Hcnt, Hb.
  assert (u32 (entrycount h - 1) = entrycount h - 1) as Hu by (apply wrap_small; lia).
  split_and!.
  - split; unfold entries; simpl; try apply Hok.
    + unfold t'. rewrite zlength_insert. apply Hok.
    + intros i chain e' Hi Hin. destruct (decide (Z.to_nat (indexFor (tablelength h) (hash (ek e))) = i)) as [<-|Hne].
      * unfold t' in Hi. rewrite list_lookup_insert_eq in Hi by eauto using lookup_lt_Some.
        simplify_eq. eapply (ok_chained h Hok); [done|set_solver].
      * unfold t' in Hi. rewrite list_lookup_insert_ne in Hi by done. by eapply (ok_chained h Hok).
    + rewrite Hu. unfold zlength. lia.
    + done.
  - unfold to_map. rewrite (list_to_map_proper (kv <$> entries h) (kv <$> e :: concat t')).
    + rewrite fmap_cons. simpl. rewrite delete_insert_id; [done|].
      apply not_elem_of_list_to_map. by rewrite keys_kv.
    + rewrite keys_kv. apply Hok.
    + by rewrite Hpe.
  - done.
Qed.

Lemma remove_None h k :
  ht_ok h -> to_map h !! k = None -> hashtable_remove h k = (None, h).
Proof.
  intros Hok Hk. rewrite <-search_to_map in Hk by done. unfold hashtable_remove.
  by rewrite (proj2 (remove_chain_search (hash k) k (chain_of h k)) Hk).
Qed.

End invariant.

(** ** Sequences of operations

    A client that uses the table as its header asks (never inserting a key that
    is there) gets the answers of a finite map. *)

Inductive ht_op (V : Type) :=
| OInsert (k : Z) (v : V)
| OSearch (k : Z)
| ORemove (k : Z).
Arguments OInsert {V} k v.
Arguments OSearch {V} k.
Arguments ORemove {V} k.

Section sequences.
Context {V : Type}.
Implicit Types (h : hashtable V) (m : gmap Z V) (ops : list (ht_op V)).

(** One operation on the table, with its answer. *)
Definition ht_do (h : hashtable V) (o : ht_op V) : outcome (option V * hashtable V) :=
  match o with
  | OInsert k v => '(_, h) ← hashtable_insert alloc_ok h k v; Ret (None, h)
  | OSearch k => Ret (hashtable_search h k, h)
  | ORemove k => Ret (hashtable_remove h k)
  end.

Fixpoint ht_run (h : hashtable V) (ops : list (ht_op V)) : outcome (list (option V) * hashtable V) :=
  match ops with
  | [] => Ret ([], h)
  | o :: ops =>
      '(x, h) ← ht_do h o;
      '(xs, h) ← ht_run h ops;
      Ret (x :: xs, h)
  end.

(** The same on a finite map; [None] when a key is inserted twice. *)
Definition map_do (m : gmap Z V) (o : ht_op V) : option (option V * gmap Z V) :=
  match o with
  | OInsert k v => match m !! k with Some _ => None | None => Some (None, <[k := v]> m) end
  | OSearch k => Some (m !! k, m)
  | ORemove k => Some (m !! k, delete k m)
  end.

Fixpoint map_run (m : gmap Z V) (ops : list (ht_op V)) : option (list (option V) * gmap Z V) :=
  match ops with
  | [] => Some ([], m)
  | o :: ops =>
      '(x, m) ← map_do m o;
      '(xs, m) ← map_run m ops;
      Some (x :: xs, m)
  end.

Lemma entries_size h : ht_ok h -> zlength (entries h) = Z.of_nat (size (to_map h)).
Proof.
  intros Hok. unfold to_map, zlength. rewrite map_size_list_to_map.
  - by rewrite length_fmap.
  - rewrite keys_kv. apply Hok.
Qed.

Lemma ht_do_spec h o x m :
  ht_ok h -> zlength (entries h) + 1 < 2 ^ 32 -> map_do (to_map h) o = Some (x, m) ->
  exists h', ht_do h o = Ret (x, h') /\ ht_ok h' /\ to_map h' = m /\
    zlength (entries h') <= zlength (entries h) + 1.
Proof.
  intros Hok Hb Hm. destruct o as [k v|k|k]; simpl in *.
  - destruct (to_map h !! k) eqn:Ek; [done|]. simplify_eq.
    destruct (insert_spec alloc_ok h k v) as (h' & -> & Hok' & Hmap & Hp); [by auto..|].
    exists h'. split_and!; [done..|]. unfold zlength. rewrite Hp. simpl. lia.
  - simplify_eq. exists h. rewrite search_to_map by done. split_and!; done || lia.
  - destruct (to_map h !! k) as [v|] eqn:Ek; simplify_eq.
    + destruct (remove_spec h k v) as (h' & Hr & Hok' & Hmap & Hc); [done|lia|done|].
      rewrite Hr. exists h'. split_and!; [done..|].
      rewrite <-(ok_count h' Hok'), <-(ok_count h Hok). lia.
    + rewrite remove_None by done. exists h. split_and!; [done..| |lia].
      by rewrite delete_id.
Qed.

Lemma ht_run_spec h ops xs m :
  ht_ok h -> zlength (entries h) + zlength ops < 2 ^ 32 -> map_run (to_map h) ops = Some (xs, m) ->
  exists h', ht_run h ops = Ret (xs, h') /\ ht_ok h' /\ to_map h' = m.
Proof.
  revert h xs m. induction ops as [|o ops IH]; intros h xs m Hok Hb Hm; simpl in *.
  { simplify_eq. exists h. done. }
  unfold zlength in Hb. simpl in Hb.
  destruct (map_do (to_map h) o) as [[x m1]|] eqn:Ed; [|done]. simpl in Hm.
  destruct (map_run m1 ops) as [[xs' m2]|] eqn:Er; [|done]. simplify_eq/=.
  destruct (ht_do_spec h o x m1 Hok) as (h1 & -> & Hok1 & Hmap & Hl); [unfold zlength; lia|done|].
  subst m1. simpl. destruct (IH h1 xs' m Hok1) as (h2 & -> & Hok2 & Hmap2); [|done|].
  - unfold zlength in *. lia.
  - simpl. exists h2. done.
Qed.

(** ** Creation and load *)

Lemma pick_prime_spec ps i minsize :
  (exists p, p ∈ ps /\ minsize < p) -> 0 <= i ->
  exists p j, pick_prime ps i minsize = (p, i + Z.of_nat j) /\ ps !! j = Some p /\ minsize < p.
Proof.
  revert i. induction ps as [|p ps IH]; intros i (q & Hq & Hlt) Hi; [by apply elem_of_nil in Hq|].
  simpl. destruct (Z.ltb_spec minsize p).
  - exists p, O. split; [f_equal; lia|done].
  - destruct (IH (i + 1)) as (p' & j & -> & Hj & Hp').
    + exists q. split; [|done]. apply elem_of_cons in Hq as [->|]; [lia|done].
    + lia.
    + exists p', (S j). split; [f_equal; lia|done].
Qed.

Lemma primes_pos i p : primes !! i = Some p -> 0 < p.
Proof.
  assert (Forall (fun p => 0 < p) primes) as Hall by (repeat constructor).
  apply (Forall_lookup_1 _ _ _ _ Hall).
Qed.

Lemma create_spec minsize :
  minsize <= 2 ^ 30 ->
  exists h : hashtable V, create_hashtable true true minsize = Some h /\ ht_ok h /\
    to_map h = ∅ /\ entrycount h = 0 /\ minsize < tablelength h /\ entries h = [].
Proof.
  intros Hm. unfold create_hashtable. destruct (Z.ltb_spec (2 ^ 30) minsize); [lia|].
  destruct (pick_prime_spec primes 0 minsize) as (p & j & -> & Hj & Hp).
  - exists 1610612741. split; [|lia]. apply list_elem_of_In. simpl. tauto.
  - done.
  - simpl. pose proof (primes_pos j p Hj). eexists. split; [done|].
    assert (concat (replicate (Z.to_nat p) (@nil (entry V))) = []) as Hnil
      by apply concat_replicate_nil.
    split_and!; [|unfold to_map, entries; simpl; by rewrite Hnil|done|done|by unfold entries].
    split; unfold entries; simpl; rewrite ?Hnil; try done.
    + unfold zlength. rewrite length_replicate. lia.
    + apply chained_empty.
    + constructor.
    + split; [|lia]. by rewrite Z.add_0_l, Nat2Z.id.
Qed.

(** Each prime gives room for more entries than the one before. *)
Lemma load_limit_grows i p q :
  primes !! i = Some p -> primes !! S i = Some q -> load_limit p + 1 <= load_limit q.
Proof.
  assert (Hall : forallb (fun i => match primes !! i, primes !! S i with
     | Some p, Some q => load_limit p + 1 <=? load_limit q | _, _ => true end) (seq 0 25) = true)
    by (vm_compute; reflexivity).
  intros Hp Hq. pose proof (lookup_lt_Some _ _ _ Hq) as Hi. simpl in Hi.
  rewrite forallb_forall in Hall. specialize (Hall i). rewrite Hp, Hq in Hall.
  apply Z.leb_le, Hall. apply in_seq. lia.
Qed.

Lemma insert_load h k v h' :
  ht_ok h -> zlength (entries h) + 1 < 2 ^ 32 -> entrycount h <= loadlimit h ->
  primeindex h < prime_table_length - 1 ->
  hashtable_insert alloc_ok h k v = Ret (-1, h') -> entrycount h' <= loadlimit h'.
Proof.
  intros Hok Hb Hl Hi. unfold hashtable_insert, add_count. simpl.
  pose proof (ok_count h Hok) as Hc. assert (0 <= zlength (entries h)) by (unfold zlength; lia).
  assert (u32 (entrycount h + 1) = entrycount h + 1) as -> by (apply wrap_small; lia).
  destruct (Z.ltb_spec (loadlimit h) (entrycount h + 1)); simpl.
  2: { intros E. simplify_eq. simpl. lia. }
  unfold hashtable_expand. simpl. destruct (Z.eqb_spec (primeindex h) (prime_table_length - 1)) as [|_]; [lia|].
  destruct (aget primes (primeindex h + 1)) as [n|] eqn:En; [|done]. simpl. intros E. simplify_eq. simpl.
  apply aget_Ret in En as [_ En]. pose proof (ok_prime h Hok) as [Hp Hp0].
  rewrite (ok_limit h Hok) in Hl. enough (load_limit (tablelength h) + 1 <= load_limit n) by lia.
  eapply load_limit_grows; [exact Hp|].
  by replace (S (Z.to_nat (primeindex h))) with (Z.to_nat (primeindex h + 1)) by lia.
Qed.

(** The chains after an entry was pushed. *)
Lemma search_push (h : hashtable V) e k :
  zlength (table h) = tablelength h -> 0 < tablelength h -> eh e = hash (ek e) ->
  hashtable_search (HT (tablelength h) (push_entry (tablelength h) (table h) e)
     (entrycount h) (loadlimit h) (primeindex h)) k =
  if k =? ek e then Some (ev e) else hashtable_search h k.
Proof.
  intros Hl Hpos He. unfold hashtable_search, chain_of, push_entry. simpl.
  pose proof (indexFor_bounds (tablelength h) (eh e) Hpos).
  destruct (decide (Z.to_nat (indexFor (tablelength h) (eh e)) =
                    Z.to_nat (indexFor (tablelength h) (hash k)))) as [E|Hne].
  - rewrite <-E, list_lookup_alter_eq.
    destruct (lookup_lt_is_Some_2 (table h) (Z.to_nat (indexFor (tablelength h) (eh e)))) as [c Hc];
      [unfold zlength in Hl; lia|].
    rewrite Hc. simpl. destruct (Z.eqb_spec k (ek e)) as [->|].
    + by rewrite He, Z.eqb_refl.
    + by rewrite andb_false_r.
  - rewrite list_lookup_alter_ne by done. destruct (Z.eqb_spec k (ek e)) as [->|]; [|done].
    by rewrite He in Hne.
Qed.

End sequences.

(** Every value of the table is freed once. *)
Lemma destroy_to_map {V} (h : hashtable V) : ht_ok h -> hashtable_destroy h true ≡ₚ (map_to_list (to_map h)).*2.
Proof.
  intros Hok. unfold to_map. rewrite map_to_list_to_map by (rewrite keys_kv; apply Hok).
  rewrite <-list_fmap_compose. unfold hashtable_destroy, entries. induction (table h) as [|c t IH]; [done|].
  cbn [List.flat_map concat]. rewrite fmap_app, IH. done.
Qed.

(** Tables that may have several entries for a key, after insertions of keys that are present. *)
Record ht_wf {V} (h : hashtable V) : Prop := {
  wf_len : zlength (table h) = tablelength h;
  wf_pos : 0 < tablelength h;
  wf_prime : 0 <= primeindex h < prime_table_length
}.

Lemma ok_wf {V} (h : hashtable V) : ht_ok h -> ht_wf h.
Proof.
  intros Hok. destruct (ok_prime h Hok) as [Hp ?]. apply lookup_lt_Some in Hp. split; [apply Hok|apply Hok|].
  unfold prime_table_length, zlength. lia.
Qed.

Lemma move_table_length {V} n (t t0 : list (list (entry V))) : length (move_table n t0 t) = length t0.
Proof.
  assert (Hc : forall chain (t0 : list (list (entry V))), length (move_chain n t0 chain) = length t0).
  { induction chain as [|e chain IH]; intros t1; [done|]. cbn. rewrite <-(push_entry_length n t1 e). apply IH. }
  revert t0. induction t as [|chain t IH]; intros t0; [done|]. cbn. rewrite <-(Hc chain t0). apply IH.
Qed.

(** An insertion of any key succeeds and is found. *)
Lemma insert_wf {V} (h : hashtable V) k v :
  ht_wf h -> exists h', hashtable_insert alloc_ok h k v = Ret (-1, h') /\ ht_wf h' /\ hashtable_search h' k = Some v.
Proof.
  intros Hwf. unfold hashtable_insert. cbv zeta.
  assert (Hex : exists r h1, (if loadlimit (add_count 1 h) <? entrycount (add_count 1 h)
    then hashtable_expand alloc_ok (add_count 1 h) else Ret (-1, add_count 1 h)) = Ret (r, h1) /\ ht_wf h1).
  { destruct (_ <? _); [|eexists _, _; split; [done|]; by destruct Hwf]. unfold hashtable_expand, add_count. cbn.
    destruct (Z.eqb_spec (primeindex h) (prime_table_length - 1)); [eexists _, _; split; [done|]; by destruct Hwf|].
    pose proof (wf_prime h Hwf). destruct (aget_is_Ret primes (primeindex h + 1)) as [q Hn];
      [unfold prime_table_length, zlength in *; lia|]. rewrite Hn. cbn [mbind outcome_bind malloc_table alloc_ok]. eexists _, _. split; [reflexivity|].
    apply aget_Ret in Hn as [_ Hn]. pose proof (primes_pos _ _ Hn).
    split; cbn [table tablelength primeindex]; [|done|lia]. unfold zlength.
    pose proof (move_table_length q (table h) (replicate (Z.to_nat q) [])) as Hml. unfold move_table in Hml.
    rewrite Hml, length_replicate. lia. }
  destruct Hex as (r & h1 & -> & Hwf1). cbn. eexists. split; [done|]. split.
  - split; cbn; [|apply Hwf1|apply Hwf1]. unfold zlength. rewrite push_entry_length. apply Hwf1.
  - rewrite (search_push h1 (Entry k v (hash k))); [|apply Hwf1|apply Hwf1|done]. cbn. by rewrite Z.eqb_refl.
Qed.

(** ** The interface of a table

    What the transaction and clone tables rely on: a table stands for a finite
    map from [unsigned long] keys, a key that is absent can be inserted, and a
    search and a removal are those of the map.  An insertion of a key that is present leaves a
    table with two entries, of which the next search finds the new one ([mt_wf]). *)

Class MapTable (T : Type -> Type) := {
  mt_ok : forall {V}, T V -> Prop;
  mt_wf : forall {V}, T V -> Prop;
  mt_map : forall {V}, T V -> gmap Z V;
  mt_create : forall {V}, Z -> option (T V);
  mt_insert : forall {V}, T V -> Z -> V -> outcome (Z * T V);
  mt_search : forall {V}, T V -> Z -> option V;
  mt_remove : forall {V}, T V -> Z -> option V * T V;
  mt_destroy : forall {V}, T V -> list V;
  mt_create_ok : forall {V} minsize, minsize <= 2 ^ 30 ->
    exists t : T V, mt_create minsize = Some t /\ mt_ok t /\ mt_map t = ∅;
  mt_search_ok : forall {V} (t : T V) k, mt_ok t -> mt_search t k = mt_map t !! k;
  mt_insert_ok : forall {V} (t : T V) k v,
    mt_ok t -> mt_map t !! k = None -> Z.of_nat (size (mt_map t)) + 1 < 2 ^ 32 ->
    exists t', mt_insert t k v = Ret (-1, t') /\ mt_ok t' /\ mt_map t' = <[k := v]> (mt_map t);
  mt_remove_ok : forall {V} (t : T V) k,
    mt_ok t -> Z.of_nat (size (mt_map t)) < 2 ^ 32 ->
    exists t', mt_remove t k = (mt_map t !! k, t') /\ mt_ok t' /\ mt_map t' = delete k (mt_map t);
  mt_ok_wf : forall {V} (t : T V), mt_ok t -> mt_wf t;
  mt_insert_wf : forall {V} (t : T V) k v, mt_wf t ->
    exists t', mt_insert t k v = Ret (-1, t') /\ mt_wf t' /\ mt_search t' k = Some v;
  mt_destroy_ok : forall {V} (t : T V), mt_ok t -> mt_destroy t ≡ₚ (map_to_list (mt_map t)).*2
}.

#[export] Instance hashtable_MapTable : MapTable hashtable.
Proof.
  refine {|
    mt_ok := fun V h => ht_ok h;
    mt_wf := fun V h => ht_wf h;
    mt_map := fun V h => to_map h;
    mt_create := fun V => create_hashtable true true;
    mt_insert := fun V => hashtable_insert alloc_ok;
    mt_search := fun V => hashtable_search;
    mt_remove := fun V => hashtable_remove;
    mt_destroy := fun V h => hashtable_destroy h true
  |}.
  - intros V minsize Hm. destruct (create_spec (V:=V) minsize Hm) as (h & ? & ? & ? & _). eauto.
  - intros V t k Hok. by apply search_to_map.
  - intros V t k v Hok Hk Hb. rewrite <-entries_size in Hb by done.
    destruct (insert_spec alloc_ok t k v) as (h' & ? & ? & ? & _); [by auto..|]. eauto.
  - intros V t k Hok Hb. rewrite <-entries_size in Hb by done.
    destruct (to_map t !! k) as [v|] eqn:Ek.
    + destruct (remove_spec t k v Hok Hb Ek) as (h' & ? & ? & ? & _). eauto.
    + exists t. split; [by apply remove_None|]. split; [done|]. by rewrite delete_id.
  - intros V t. apply ok_wf.
  - intros V t k v. apply insert_wf.
  - intros V t. apply destroy_to_map.
Defined.

(** ** Properties *)

(** SuperFastHash reads only the [len] bytes it is given and returns a
    32-bit value, for every buffer and length. *)
Theorem SuperFastHash_defined (data : list Z) (len : Z) :
  len <= zlength data -> exists h : Z, SuperFastHash data len = Ret h /\ 0 <= h < 2 ^ 32.
Proof. apply SuperFastHash_spec. Qed.

Lemma SuperFastHash_defined_witness :
  exists h : Z, SuperFastHash [1; 200; 255] 3 = Ret h /\ 0 <= h < 2 ^ 32.
Proof. apply (SuperFastHash_defined [1; 200; 255] 3). vm_compute. discriminate. Defined.

(** C9: the hash table refines a finite map: from a new table, every sequence
    of insertions of absent keys, searches and removals (fewer than 2^32 of
    them, with memory available) runs and gives exactly the answers of the
    finite map, across every growth of the table. *)
Theorem hashtable_refines_map {V : Type} (minsize : Z) (ops : list (ht_op V)) xs m :
  minsize <= 2 ^ 30 -> zlength ops < 2 ^ 32 -> map_run ∅ ops = Some (xs, m) ->
  exists h h', create_hashtable true true minsize = Some h /\
    ht_run h ops = Ret (xs, h') /\ ht_ok h' /\ to_map h' = m.
Proof.
  intros Hm Hn Hr. destruct (create_spec (V:=V) minsize Hm) as (h & Hc & Hok & Hmap & _ & _ & Hnil).
  exists h. destruct (ht_run_spec h ops xs m Hok) as (h' & ?); [|by rewrite Hmap|eauto].
  rewrite Hnil. unfold zlength at 1. simpl. lia.
Qed.

Lemma hashtable_refines_map_witness :
  exists h h', create_hashtable true true 16 = Some h /\
    ht_run h [OInsert 7 70; OSearch 7; OInsert 8 80; ORemove 7; OSearch 7; OSearch 8]
      = Ret ([None; Some 70; None; Some 70; None; Some 80], h') /\
    ht_ok h' /\ to_map h' = <[8 := 80]> ∅.
Proof.
  apply (hashtable_refines_map 16 [OInsert 7 70; OSearch 7; OInsert 8 80; ORemove 7; OSearch 7; OSearch 8]);
    [lia|unfold zlength; simpl; lia|reflexivity].
Defined.

(** An insertion returns non-zero and is found by the next search of its
    key, also when the key was there before (the newest value wins); the search
    of any other key is not affected. *)
Theorem hashtable_insert_search {V : Type} (h : hashtable V) (k : Z) (v : V) (k' : Z) :
  ht_ok h -> zlength (entries h) + 1 < 2 ^ 32 ->
  exists r h', hashtable_insert alloc_ok h k v = Ret (r, h') /\ r <> 0 /\
    hashtable_search h' k' = if k' =? k then Some v else hashtable_search h k'.
Proof.
  intros Hok Hb. unfold hashtable_insert. cbv zeta.
  destruct (recount_expand alloc_ok h Hok Hb) as (r & h' & -> & Hcnt & Hp & Hok'); [by left|].
  simpl. eexists _, _. split; [done|]. split; [done|].
  pose proof (ok_len _ Hok') as Hl. pose proof (ok_pos _ Hok') as Hpos. simpl in Hl, Hpos.
  rewrite search_push by done. simpl. destruct (Z.eqb_spec k' k); [done|].
  transitivity (hashtable_search
    (HT (tablelength h') (table h') (entrycount h) (loadlimit h') (primeindex h')) k'); [done|].
  rewrite !search_to_map by done. f_equal. apply to_map_perm; [apply Hok'|done].
Qed.

(** A table with three entries. *)
Definition small_table : hashtable Z :=
  match ht_run (HT 53 (replicate 53 []) 0 35 0) [OInsert 1 10; OInsert 2 20; OInsert 3 30] with
  | Ret (_, h) => h
  | Undef => HT 0 [] 0 0 0
  end.

Lemma small_table_ok : ht_ok small_table /\ zlength (entries small_table) + 1 < 2 ^ 32.
Proof.
  destruct (hashtable_MapTable.(mt_create_ok) (V:=Z) 16) as (h & Hc & Hok & Hm); [lia|].
  assert (h = HT 53 (replicate 53 []) 0 35 0) as -> by (vm_compute in Hc; by injection Hc as <-).
  destruct (ht_run_spec (HT 53 (replicate 53 []) 0 35 0) [OInsert 1 10; OInsert 2 20; OInsert 3 30]
    [None; None; None] (<[3 := 30]> (<[2 := 20]> (<[1 := 10]> ∅)))) as (h' & Hr & Hok' & Hmap).
  - done.
  - by vm_compute.
  - reflexivity.
  - assert (small_table = h') as -> by (unfold small_table; by rewrite Hr).
    split; [done|]. rewrite entries_size, Hmap by done. by vm_compute.
Qed.

Lemma hashtable_insert_search_witness :
  exists r h', hashtable_insert alloc_ok small_table 2 21 = Ret (r, h') /\ r <> 0 /\
    hashtable_search h' 2 = if 2 =? 2 then Some 21 else hashtable_search small_table 2.
Proof. apply (hashtable_insert_search small_table 2 21 2); apply small_table_ok. Defined.

(** The table keeps its load limit: while there is a larger prime, an
    insertion into a table that is within its limit leaves a table that is
    within its limit. *)
Theorem hashtable_load {V : Type} (h : hashtable V) (k : Z) (v : V) (h' : hashtable V) :
  ht_ok h -> zlength (entries h) + 1 < 2 ^ 32 -> entrycount h <= loadlimit h ->
  primeindex h < prime_table_length - 1 ->
  hashtable_insert alloc_ok h k v = Ret (-1, h') -> entrycount h' <= loadlimit h'.
Proof. apply insert_load. Qed.

Lemma hashtable_load_witness :
  forall h', hashtable_insert alloc_ok small_table 4 40 = Ret (-1, h') -> entrycount h' <= loadlimit h'.
Proof.
  intros h'. apply (hashtable_load small_table 4 40 h'); try apply small_table_ok;
    vm_compute; try reflexivity; discriminate.
Defined.

(** Growing the table when [malloc] fails but [realloc] succeeds is
    undefined: the fallback clears memory through an uninitialised element of the
    new table instead of clearing the new elements. *)
Theorem expand_fallback_undefined {V : Type} (h : hashtable V) (me : bool) :
  ht_ok h -> primeindex h <> prime_table_length - 1 ->
  hashtable_expand (Allocs false true me) h = Undef.
Proof.
  intros Hok Hi. unfold hashtable_expand. pose proof (ok_prime h Hok) as [Hp Hp0].
  apply lookup_lt_Some in Hp. destruct (Z.eqb_spec (primeindex h) (prime_table_length - 1)); [done|].
  destruct (aget_is_Ret primes (primeindex h + 1)) as [q ->]; [|done].
  unfold prime_table_length, zlength in *. lia.
Qed.

Lemma expand_fallback_undefined_witness :
  hashtable_expand (Allocs false true true) small_table = Undef.
Proof. apply (expand_fallback_undefined small_table true); [apply small_table_ok|by vm_compute]. Defined.
