(* ===== verification/Status.v ===== *)
(** * Connection statistics (src/src/proxy.h)

    The counters of a connection and how they are accumulated.  The counters
    are [unsigned long]s and wrap. *)

From S2P Require Import Prelude.
Local Open Scope Z_scope.

Record status_t := Status {
  bytes_recv : Z;
  bytes_sent : Z;
  queries : Z;
  queries_any : Z;
  queries_all : Z
}.

#[export] Instance status_eq_dec : EqDecision status_t.
Proof. solve_decision. Defined.

Definition proxy_status_reset (status : status_t) : status_t := Status 0 0 0 0 0.

(** [dst] after the five atomic additions of [src]. *)
Definition proxy_status_add (src dst : status_t) : status_t :=
  Status (u64 (bytes_recv dst + bytes_recv src))
         (u64 (bytes_sent dst + bytes_sent src))
         (u64 (queries dst + queries src))
         (u64 (queries_any dst + queries_any src))
         (u64 (queries_all dst + queries_all src)).

(** The counters are 64 bits wide. *)
Definition status_ok (s : status_t) : Prop :=
  0 <= bytes_recv s < 2 ^ 64 /\ 0 <= bytes_sent s < 2 ^ 64 /\ 0 <= queries s < 2 ^ 64 /\
  0 <= queries_any s < 2 ^ 64 /\ 0 <= queries_all s < 2 ^ 64.

(** Updates of one counter. *)
Definition add_recv (n : Z) (s : status_t) : status_t :=
  Status (u64 (bytes_recv s + n)) (bytes_sent s) (queries s) (queries_any s) (queries_all s).
Definition add_sent (n : Z) (s : status_t) : status_t :=
  Status (bytes_recv s) (u64 (bytes_sent s + n)) (queries s) (queries_any s) (queries_all s).
Definition inc_queries (s : status_t) : status_t :=
  Status (bytes_recv s) (bytes_sent s) (u64 (queries s + 1)) (queries_any s) (queries_all s).
Definition inc_any (s : status_t) : status_t :=
  Status (bytes_recv s) (bytes_sent s) (queries s) (u64 (queries_any s + 1)) (queries_all s).
Definition inc_all (s : status_t) : status_t :=
  Status (bytes_recv s) (bytes_sent s) (queries s) (queries_any s) (u64 (queries_all s + 1)).

(** The global totals after the connections of a list were merged. *)
Definition merge_all (l : list status_t) (g : status_t) : status_t :=
  fold_left (fun g s => proxy_status_add s g) l g.

Lemma status_add_ok src dst : status_ok (proxy_status_add src dst).
Proof. repeat split; by apply wrap_range. Qed.

Lemma status_add_comm3 a b g :
  proxy_status_add a (proxy_status_add b g) = proxy_status_add b (proxy_status_add a g).
Proof.
  unfold proxy_status_add, u64. simpl. rewrite !wrap_add_l.
  f_equal; f_equal; lia.
Qed.

Lemma merge_all_perm l1 l2 g : l1 ≡ₚ l2 -> merge_all l1 g = merge_all l2 g.
Proof.
  intros Hp. revert g. induction Hp as [|x l1 l2 _ IH|x y l|l1 l2 l3 _ IH1 _ IH2]; intros g.
  - done.
  - simpl. apply IH.
  - simpl. by rewrite status_add_comm3.
  - by rewrite IH1.
Qed.

(** The exact totals, without wrap-around. *)
Definition total (f : status_t -> Z) (l : list status_t) : Z := fold_right (fun s a => f s + a) 0 l.

Lemma merge_all_queries l g :
  queries (merge_all l g) = match l with [] => queries g | _ => u64 (queries g + total queries l) end.
Proof.
  revert g. induction l as [|s l IH]; intros g; [done|]. simpl. rewrite IH. destruct l as [|s' l].
  - simpl. f_equal. lia.
  - simpl. unfold u64. rewrite wrap_add_l. f_equal. lia.
Qed.
