(* ===== verification/QueryMap.v ===== *)
(** * Query mapping (map/proxy_map.h, map/proxy_map_rowa.c)

    The read-one-write-all mapper decides from the first keyword of a query
    whether one backend or all backends get it. *)

From S2P Require Import Prelude CString.
Local Open Scope Z_scope.

Inductive proxy_query_map_t :=
| QUERY_MAP_ANY
| QUERY_MAP_ALL.

#[export] Instance query_map_eq_dec : EqDecision proxy_query_map_t.
Proof. solve_decision. Defined.

(** A mapper gets the query and its length and returns the mapping, the new
    length and the replaced query, if any. *)
Definition proxy_map_query_t : Type :=
  list Z -> Z -> proxy_query_map_t * Z * option (list Z).

Definition read_keywords : list (list Z) :=
  [str "SELECT"; str "SHOW"; str "DESCRIBE"; str "EXPLAIN"].

Definition proxy_map_query : proxy_map_query_t := fun query query_len =>
  (if strprefix query (str "SELECT") query_len
      || strprefix query (str "SHOW") query_len
      || strprefix query (str "DESCRIBE") query_len
      || strprefix query (str "EXPLAIN") query_len
   then QUERY_MAP_ANY else QUERY_MAP_ALL, query_len, None).

Lemma keywords_no_NUL kw : kw ∈ read_keywords -> NUL ∉ kw.
Proof.
  intros H. assert (Forall (fun kw => ~ NUL ∈ kw) read_keywords) as Hall.
  { repeat constructor; vm_compute; intros Hin; apply list_elem_of_In in Hin; simpl in Hin;
      repeat destruct Hin as [?|Hin]; done. }
  by apply (proj1 (Forall_forall _ _) Hall).
Qed.

(** The query begins with a read keyword, up to case. *)
Definition is_read (query : list Z) : bool :=
  existsb (fun kw => bool_decide (take (length kw) (tolower <$> query) = tolower <$> kw)) read_keywords.

Lemma keyword_prefix query kw :
  NUL ∉ query -> kw ∈ read_keywords ->
  strprefix query kw (zlength query) = bool_decide (take (length kw) (tolower <$> query) = tolower <$> kw).
Proof.
  intros Hq Hkw. apply eq_true_iff_eq. rewrite bool_decide_eq_true.
  rewrite (strprefix_spec query kw (zlength query)) by (done || by apply keywords_no_NUL). split.
  - intros [rest E]. rewrite E. rewrite take_app_length'; [done|]. by rewrite length_fmap.
  - intros E. exists (drop (length kw) (tolower <$> query)). rewrite <-E. by rewrite take_drop.
Qed.

Lemma rowa_map query :
  NUL ∉ query ->
  proxy_map_query query (zlength query) = (if is_read query then QUERY_MAP_ANY else QUERY_MAP_ALL, zlength query, None).
Proof.
  intros Hq. unfold proxy_map_query.
  rewrite !keyword_prefix by (done || (unfold read_keywords; rewrite !elem_of_cons; tauto)).
  unfold is_read, read_keywords. cbn [existsb]. by rewrite orb_false_r, !orb_assoc.
Qed.

(** A query goes to any single backend exactly when it begins, up to case,
    with one of the four read keywords; the mapper never rewrites the query. *)
Theorem rowa_reads_only (query : list Z) :
  NUL ∉ query ->
  exists m, proxy_map_query query (zlength query) = (m, zlength query, None) /\
    (m = QUERY_MAP_ANY <->
     exists kw rest, kw ∈ read_keywords /\ tolower <$> query = (tolower <$> kw) ++ rest).
Proof.
  intros Hq. unfold proxy_map_query. eexists. split; [done|].
  assert (Hs : forall kw, kw ∈ read_keywords ->
     (strprefix query kw (zlength query) = true <-> exists rest, tolower <$> query = (tolower <$> kw) ++ rest)).
  { intros kw Hkw. apply strprefix_spec; [done|by apply keywords_no_NUL|done]. }
  assert (Hin : str "SELECT" ∈ read_keywords /\ str "SHOW" ∈ read_keywords /\
                str "DESCRIBE" ∈ read_keywords /\ str "EXPLAIN" ∈ read_keywords).
  { unfold read_keywords. rewrite !elem_of_cons. tauto. }
  destruct Hin as (Hk1 & Hk2 & Hk3 & Hk4). split.
  - intros H.
    destruct (strprefix query (str "SELECT") _) eqn:E1;
      [|destruct (strprefix query (str "SHOW") _) eqn:E2;
      [|destruct (strprefix query (str "DESCRIBE") _) eqn:E3;
      [|destruct (strprefix query (str "EXPLAIN") _) eqn:E4; [|done]]]];
    [apply (Hs _ Hk1) in E1 as [r E]|apply (Hs _ Hk2) in E2 as [r E]
    |apply (Hs _ Hk3) in E3 as [r E]|apply (Hs _ Hk4) in E4 as [r E]]; eauto.
  - intros (kw & rest & Hkw & E). specialize (proj2 (Hs kw Hkw) (ex_intro _ rest E)) as Hp.
    unfold read_keywords in Hkw. rewrite !elem_of_cons in Hkw.
    destruct Hkw as [->|[->|[->|[->|Hkw]]]]; [..|by apply elem_of_nil in Hkw];
      rewrite Hp, ?orb_true_r; done.
Qed.

Lemma rowa_reads_only_witness :
  exists m, proxy_map_query (str "select 1") (zlength (str "select 1")) = (m, zlength (str "select 1"), None) /\
    (m = QUERY_MAP_ANY <->
     exists kw rest, kw ∈ read_keywords /\ tolower <$> str "select 1" = (tolower <$> kw) ++ rest).
Proof.
  apply (rowa_reads_only (str "select 1")). intros Hin. apply list_elem_of_In in Hin.
  simpl in Hin. repeat destruct Hin as [?|Hin]; done.
Defined.
