(* ===== verification/Options.v ===== *)
(** * Command-line options (src/src/proxy_options.c, proxy_options.h)

    The option structure, its defaults, and [proxy_options_parse] from the
    sequence of option characters and arguments that [getopt_long] returns to the
    rules that combine them. *)

From Stdlib Require Import Ascii.
From S2P Require Import Prelude CString.
Local Open Scope Z_scope.

(** ** Constants *)

Definition BACKEND_HOST : list Z := str "127.0.0.1".
Definition BACKEND_PORT : Z := 3306.
Definition BACKEND_USER : list Z := str "root".
Definition BACKEND_PASS : list Z := str "root".
Definition BACKEND_DB : list Z := str "test".
Definition BACKEND_THREADS : Z := 10.
Definition NUM_CONNS : Z := 10.
Definition PROXY_IFACE : list Z := str "eth0".
Definition PROXY_PORT : Z := 4040.
Definition ADMIN_PORT : Z := 4041.
Definition CLIENT_THREADS : Z := 10.
Definition CLIENT_TIMEOUT : Z := 5 * 60.

(** [INET6_ADDRSTRLEN], and the exit codes of sysexits.h. *)
Definition INET6_ADDRSTRLEN : Z := 46.
Definition EXIT_SUCCESS : Z := 0.
Definition EX_USAGE : Z := 64.
Definition EX_NOINPUT : Z := 66.

(** ** The option structure

    A pointer to a string is an optional string; [phost] is the array of
    [INET6_ADDRSTRLEN] bytes. *)

Record options_t := Options {
  verbose : Z;
  daemonize : bool;
  coordinator : bool;
  cloneable : bool;
  stat_file : option (list Z);
  admin_port : Z;
  query_wait : bool;
  num_conns : Z;
  add_ids : bool;
  two_pc : bool;
  autocommit : bool;
  backend_host : option (list Z);
  backend_port : Z;
  bypass_port : Z;
  socket_file : option (list Z);
  user : option (list Z);
  pass : option (list Z);
  db : option (list Z);
  backend_file : option (list Z);
  phost : list Z;
  iface : option (list Z);
  pport : Z;
  timeout : Z;
  mapper : option (list Z);
  client_threads : Z;
  backend_threads : Z
}.

Definition set_verbose (v : Z) (o : options_t) : options_t :=
  Options v (daemonize o) (coordinator o) (cloneable o) (stat_file o) (admin_port o)
    (query_wait o) (num_conns o) (add_ids o) (two_pc o) (autocommit o) (backend_host o)
    (backend_port o) (bypass_port o) (socket_file o) (user o) (pass o) (db o) (backend_file
    o) (phost o) (iface o) (pport o) (timeout o) (mapper o) (client_threads o)
    (backend_threads o).
Definition set_daemonize (v : bool) (o : options_t) : options_t :=
  Options (verbose o) v (coordinator o) (cloneable o) (stat_file o) (admin_port o)
    (query_wait o) (num_conns o) (add_ids o) (two_pc o) (autocommit o) (backend_host o)
    (backend_port o) (bypass_port o) (socket_file o) (user o) (pass o) (db o) (backend_file
    o) (phost o) (iface o) (pport o) (timeout o) (mapper o) (client_threads o)
    (backend_threads o).
Definition set_coordinator (v : bool) (o : options_t) : options_t :=
  Options (verbose o) (daemonize o) v (cloneable o) (stat_file o) (admin_port o) (query_wait
    o) (num_conns o) (add_ids o) (two_pc o) (autocommit o) (backend_host o) (backend_port o)
    (bypass_port o) (socket_file o) (user o) (pass o) (db o) (backend_file o) (phost o)
    (iface o) (pport o) (timeout o) (mapper o) (client_threads o) (backend_threads o).
Definition set_cloneable (v : bool) (o : options_t) : options_t :=
  Options (verbose o) (daemonize o) (coordinator o) v (stat_file o) (admin_port o)
    (query_wait o) (num_conns o) (add_ids o) (two_pc o) (autocommit o) (backend_host o)
    (backend_port o) (bypass_port o) (socket_file o) (user o) (pass o) (db o) (backend_file
    o) (phost o) (iface o) (pport o) (timeout o) (mapper o) (client_threads o)
    (backend_threads o).
Definition set_stat_file (v : option (list Z)) (o : options_t) : options_t :=
  Options (verbose o) (daemonize o) (coordinator o) (cloneable o) v (admin_port o)
    (query_wait o) (num_conns o) (add_ids o) (two_pc o) (autocommit o) (backend_host o)
    (backend_port o) (bypass_port o) (socket_file o) (user o) (pass o) (db o) (backend_file
    o) (phost o) (iface o) (pport o) (timeout o) (mapper o) (client_threads o)
    (backend_threads o).
Definition set_admin_port (v : Z) (o : options_t) : options_t :=
  Options (verbose o) (daemonize o) (coordinator o) (cloneable o) (stat_file o) v
    (query_wait o) (num_conns o) (add_ids o) (two_pc o) (autocommit o) (backend_host o)
    (backend_port o) (bypass_port o) (socket_file o) (user o) (pass o) (db o) (backend_file
    o) (phost o) (iface o) (pport o) (timeout o) (mapper o) (client_threads o)
    (backend_threads o).
Definition set_query_wait (v : bool) (o : options_t) : options_t :=
  Options (verbose o) (daemonize o) (coordinator o) (cloneable o) (stat_file o) (admin_port
    o) v (num_conns o) (add_ids o) (two_pc o) (autocommit o) (backend_host o) (backend_port
    o) (bypass_port o) (socket_file o) (user o) (pass o) (db o) (backend_file o) (phost o)
    (iface o) (pport o) (timeout o) (mapper o) (client_threads o) (backend_threads o).
Definition set_num_conns (v : Z) (o : options_t) : options_t :=
  Options (verbose o) (daemonize o) (coordinator o) (cloneable o) (stat_file o) (admin_port
    o) (query_wait o) v (add_ids o) (two_pc o) (autocommit o) (backend_host o) (backend_port
    o) (bypass_port o) (socket_file o) (user o) (pass o) (db o) (backend_file o) (phost o)
    (iface o) (pport o) (timeout o) (mapper o) (client_threads o) (backend_threads o).
Definition set_add_ids (v : bool) (o : options_t) : options_t :=
  Options (verbose o) (daemonize o) (coordinator o) (cloneable o) (stat_file o) (admin_port
    o) (query_wait o) (num_conns o) v (two_pc o) (autocommit o) (backend_host o)
    (backend_port o) (bypass_port o) (socket_file o) (user o) (pass o) (db o) (backend_file
    o) (phost o) (iface o) (pport o) (timeout o) (mapper o) (client_threads o)
    (backend_threads o).
Definition set_two_pc (v : bool) (o : options_t) : options_t :=
  Options (verbose o) (daemonize o) (coordinator o) (cloneable o) (stat_file o) (admin_port
    o) (query_wait o) (num_conns o) (add_ids o) v (autocommit o) (backend_host o)
    (backend_port o) (bypass_port o) (socket_file o) (user o) (pass o) (db o) (backend_file
    o) (phost o) (iface o) (pport o) (timeout o) (mapper o) (client_threads o)
    (backend_threads o).
Definition set_autocommit (v : bool) (o : options_t) : options_t :=
  Options (verbose o) (daemonize o) (coordinator o) (cloneable o) (stat_file o) (admin_port
    o) (query_wait o) (num_conns o) (add_ids o) (two_pc o) v (backend_host o) (backend_port
    o) (bypass_port o) (socket_file o) (user o) (pass o) (db o) (backend_file o) (phost o)
    (iface o) (pport o) (timeout o) (mapper o) (client_threads o) (backend_threads o).
Definition set_backend_host (v : option (list Z)) (o : options_t) : options_t :=
  Options (verbose o) (daemonize o) (coordinator o) (cloneable o) (stat_file o) (admin_port
    o) (query_wait o) (num_conns o) (add_ids o) (two_pc o) (autocommit o) v (backend_port o)
    (bypass_port o) (socket_file o) (user o) (pass o) (db o) (backend_file o) (phost o)
    (iface o) (pport o) (timeout o) (mapper o) (client_threads o) (backend_threads o).
Definition set_backend_port (v : Z) (o : options_t) : options_t :=
  Options (verbose o) (daemonize o) (coordinator o) (cloneable o) (stat_file o) (admin_port
    o) (query_wait o) (num_conns o) (add_ids o) (two_pc o) (autocommit o) (backend_host o) v
    (bypass_port o) (socket_file o) (user o) (pass o) (db o) (backend_file o) (phost o)
    (iface o) (pport o) (timeout o) (mapper o) (client_threads o) (backend_threads o).
Definition set_bypass_port (v : Z) (o : options_t) : options_t :=
  Options (verbose o) (daemonize o) (coordinator o) (cloneable o) (stat_file o) (admin_port
    o) (query_wait o) (num_conns o) (add_ids o) (two_pc o) (autocommit o) (backend_host o)
    (backend_port o) v (socket_file o) (user o) (pass o) (db o) (backend_file o) (phost o)
    (iface o) (pport o) (timeout o) (mapper o) (client_threads o) (backend_threads o).
Definition set_socket_file (v : option (list Z)) (o : options_t) : options_t :=
  Options (verbose o) (daemonize o) (coordinator o) (cloneable o) (stat_file o) (admin_port
    o) (query_wait o) (num_conns o) (add_ids o) (two_pc o) (autocommit o) (backend_host o)
    (backend_port o) (bypass_port o) v (user o) (pass o) (db o) (backend_file o) (phost o)
    (iface o) (pport o) (timeout o) (mapper o) (client_threads o) (backend_threads o).
Definition set_user (v : option (list Z)) (o : options_t) : options_t :=
  Options (verbose o) (daemonize o) (coordinator o) (cloneable o) (stat_file o) (admin_port
    o) (query_wait o) (num_conns o) (add_ids o) (two_pc o) (autocommit o) (backend_host o)
    (backend_port o) (bypass_port o) (socket_file o) v (pass o) (db o) (backend_file o)
    (phost o) (iface o) (pport o) (timeout o) (mapper o) (client_threads o) (backend_threads
    o).
Definition set_pass (v : option (list Z)) (o : options_t) : options_t :=
  Options (verbose o) (daemonize o) (coordinator o) (cloneable o) (stat_file o) (admin_port
    o) (query_wait o) (num_conns o) (add_ids o) (two_pc o) (autocommit o) (backend_host o)
    (backend_port o) (bypass_port o) (socket_file o) (user o) v (db o) (backend_file o)
    (phost o) (iface o) (pport o) (timeout o) (mapper o) (client_threads o) (backend_threads
    o).
Definition set_db (v : option (list Z)) (o : options_t) : options_t :=
  Options (verbose o) (daemonize o) (coordinator o) (cloneable o) (stat_file o) (admin_port
    o) (query_wait o) (num_conns o) (add_ids o) (two_pc o) (autocommit o) (backend_host o)
    (backend_port o) (bypass_port o) (socket_file o) (user o) (pass o) v (backend_file o)
    (phost o) (iface o) (pport o) (timeout o) (mapper o) (client_threads o) (backend_threads
    o).
Definition set_backend_file (v : option (list Z)) (o : options_t) : options_t :=
  Options (verbose o) (daemonize o) (coordinator o) (cloneable o) (stat_file o) (admin_port
    o) (query_wait o) (num_conns o) (add_ids o) (two_pc o) (autocommit o) (backend_host o)
    (backend_port o) (bypass_port o) (socket_file o) (user o) (pass o) (db o) v (phost o)
    (iface o) (pport o) (timeout o) (mapper o) (client_threads o) (backend_threads o).
Definition set_phost (v : list Z) (o : options_t) : options_t :=
  Options (verbose o) (daemonize o) (coordinator o) (cloneable o) (stat_file o) (admin_port
    o) (query_wait o) (num_conns o) (add_ids o) (two_pc o) (autocommit o) (backend_host o)
    (backend_port o) (bypass_port o) (socket_file o) (user o) (pass o) (db o) (backend_file
    o) v (iface o) (pport o) (timeout o) (mapper o) (client_threads o) (backend_threads o).
Definition set_iface (v : option (list Z)) (o : options_t) : options_t :=
  Options (verbose o) (daemonize o) (coordinator o) (cloneable o) (stat_file o) (admin_port
    o) (query_wait o) (num_conns o) (add_ids o) (two_pc o) (autocommit o) (backend_host o)
    (backend_port o) (bypass_port o) (socket_file o) (user o) (pass o) (db o) (backend_file
    o) (phost o) v (pport o) (timeout o) (mapper o) (client_threads o) (backend_threads o).
Definition set_pport (v : Z) (o : options_t) : options_t :=
  Options (verbose o) (daemonize o) (coordinator o) (cloneable o) (stat_file o) (admin_port
    o) (query_wait o) (num_conns o) (add_ids o) (two_pc o) (autocommit o) (backend_host o)
    (backend_port o) (bypass_port o) (socket_file o) (user o) (pass o) (db o) (backend_file
    o) (phost o) (iface o) v (timeout o) (mapper o) (client_threads o) (backend_threads o).
Definition set_timeout (v : Z) (o : options_t) : options_t :=
  Options (verbose o) (daemonize o) (coordinator o) (cloneable o) (stat_file o) (admin_port
    o) (query_wait o) (num_conns o) (add_ids o) (two_pc o) (autocommit o) (backend_host o)
    (backend_port o) (bypass_port o) (socket_file o) (user o) (pass o) (db o) (backend_file
    o) (phost o) (iface o) (pport o) v (mapper o) (client_threads o) (backend_threads o).
Definition set_mapper (v : option (list Z)) (o : options_t) : options_t :=
  Options (verbose o) (daemonize o) (coordinator o) (cloneable o) (stat_file o) (admin_port
    o) (query_wait o) (num_conns o) (add_ids o) (two_pc o) (autocommit o) (backend_host o)
    (backend_port o) (bypass_port o) (socket_file o) (user o) (pass o) (db o) (backend_file
    o) (phost o) (iface o) (pport o) (timeout o) v (client_threads o) (backend_threads o).
Definition set_client_threads (v : Z) (o : options_t) : options_t :=
  Options (verbose o) (daemonize o) (coordinator o) (cloneable o) (stat_file o) (admin_port
    o) (query_wait o) (num_conns o) (add_ids o) (two_pc o) (autocommit o) (backend_host o)
    (backend_port o) (bypass_port o) (socket_file o) (user o) (pass o) (db o) (backend_file
    o) (phost o) (iface o) (pport o) (timeout o) (mapper o) v (backend_threads o).
Definition set_backend_threads (v : Z) (o : options_t) : options_t :=
  Options (verbose o) (daemonize o) (coordinator o) (cloneable o) (stat_file o) (admin_port
    o) (query_wait o) (num_conns o) (add_ids o) (two_pc o) (autocommit o) (backend_host o)
    (backend_port o) (bypass_port o) (socket_file o) (user o) (pass o) (db o) (backend_file
    o) (phost o) (iface o) (pport o) (timeout o) (mapper o) (client_threads o) v.

(** [strncpy(dst, src, n)]: the [n] bytes of [dst] afterwards. *)
Definition strncpy (src : list Z) (n : Z) : list Z :=
  take (Z.to_nat n) (src ++ replicate (Z.to_nat n) NUL).

(** A value stored in a [my_bool], which is a signed byte. *)
Definition schar8 (z : Z) : Z := (z + 128) mod 256 - 128.

(** [set_option_defaults]; [phost] keeps what follows its first byte, which is
    zero for the global [options]. *)
Definition set_option_defaults : options_t :=
  Options 0 false false false None ADMIN_PORT false (-1) false false true None 0 (-1)
    None None None None None (replicate (Z.to_nat INET6_ADDRSTRLEN) NUL) None
    PROXY_PORT CLIENT_TIMEOUT None CLIENT_THREADS (-1).

Section parse.
(** [MYSQL_UNIX_ADDR] of the MySQL headers; [iface_ip], the address the kernel
    reports for an interface; [readable], whether [access(file, R_OK)]
    succeeds. *)
Variable MYSQL_UNIX_ADDR : list Z.
Variable iface_ip : list Z -> list Z.
Variable readable : list Z -> bool.

(** [ioctl] gets the first 15 bytes of the name ([IFNAMSIZ-1]). *)
Definition proxy_options_update_host (o : options_t) : options_t :=
  set_phost (strncpy (iface_ip (take 15 (default [] (iface o)))) INET6_ADDRSTRLEN) o.

(** The [switch] on the option character; [None] is [usage()] with
    [EX_USAGE].  [getopt_long] passes an argument to every option that requires
    one, so a missing argument is never read. *)
Definition parse_opt (o : options_t) (c : Ascii.ascii) (optarg : option (list Z)) : option options_t :=
  let arg := default [] optarg in
  match c with
  | "?"%char => None
  | "v"%char => Some (set_verbose (schar8 (verbose o + 1)) o)
  | "d"%char => Some (set_daemonize true o)
  | "C"%char => Some (set_coordinator true o)
  | "c"%char => Some (set_cloneable true o)
  | "q"%char => Some (set_stat_file optarg o)
  | "A"%char => Some (set_admin_port (atoi arg) o)
  | "w"%char => Some (set_query_wait true o)
  | "h"%char => Some (set_backend_host optarg o)
  | "P"%char => Some (set_backend_port (atoi arg) o)
  | "y"%char => Some (set_bypass_port (atoi arg) o)
  | "s"%char => Some (set_socket_file (match optarg with Some a => Some a | None => Some MYSQL_UNIX_ADDR end) o)
  | "n"%char => Some (set_timeout (atoi arg) o)
  | "D"%char => Some (set_db optarg o)
  | "u"%char => Some (set_user optarg o)
  | "p"%char => Some (set_pass optarg o)
  | "f"%char => Some (set_backend_file optarg o)
  | "N"%char => Some (set_num_conns (atoi arg) o)
  | "i"%char => Some (set_add_ids true o)
  | "2"%char => Some (set_two_pc true o)
  | "a"%char => Some (set_autocommit false o)
  | "b"%char => Some (set_phost (strncpy arg INET6_ADDRSTRLEN) o)
  | "I"%char => Some (set_iface optarg o)
  | "L"%char => Some (set_pport (atoi arg) o)
  | "m"%char => Some (set_mapper optarg o)
  | "t"%char => Some (set_client_threads (atoi arg) o)
  | "T"%char => Some (set_backend_threads (atoi arg) o)
  | _ => None
  end.

Fixpoint parse_opts (o : options_t) (l : list (Ascii.ascii * option (list Z))) : Z * options_t :=
  match l with
  | [] => (EXIT_SUCCESS, o)
  | (c, optarg) :: l =>
      match parse_opt o c optarg with
      | None => (EX_USAGE, o)
      | Some o => parse_opts o l
      end
  end.

(** [options.x = options.x ?: d] *)
Definition or_default (x : option (list Z)) (d : list Z) : option (list Z) :=
  match x with Some s => Some s | None => Some d end.

Definition is_some {A} (x : option A) : bool := match x with Some _ => true | None => false end.

(** The rules after the loop, up to the backend options. *)
Definition parse_common (o : options_t) : Z * options_t :=
  if is_some (iface o) && negb (hd0 (phost o) =? NUL) then (EX_USAGE, o) else
  let o := if is_some (iface o) then o else set_iface (Some PROXY_IFACE) o in
  let o := if (hd0 (phost o) =? NUL) && negb (strcasecmp_eq (str "any") (default [] (iface o)))
              && negb (cloneable o)
           then proxy_options_update_host o else o in
  let o := set_user (or_default (user o) BACKEND_USER) o in
  let o := set_pass (or_default (pass o) BACKEND_PASS) o in
  let o := set_db (or_default (db o) BACKEND_DB) o in
  if negb (is_some (mapper o)) && (0 <? backend_threads o) then (EX_USAGE, o)
  else (EXIT_SUCCESS, o).

(** The backends are listed in a file. *)
Definition parse_backend_file (o : options_t) (file : list Z) : Z * options_t :=
  if is_some (backend_host o) || negb (backend_port o =? 0) || is_some (socket_file o)
  then (EX_USAGE, o)
  else if negb (readable file) then (EX_NOINPUT, o)
  else
    let o := set_backend_threads (if 0 <? backend_threads o then backend_threads o else BACKEND_THREADS) o in
    let o := set_num_conns (if 0 <? num_conns o then num_conns o else NUM_CONNS) o in
    (EXIT_SUCCESS, o).

(** There is a single backend. *)
Definition parse_backend (o : options_t) : Z * options_t :=
  if ((0 <? backend_threads o) || (0 <? num_conns o)) && negb (coordinator o) then (EX_USAGE, o)
  else if (is_some (backend_host o) || negb (backend_port o =? 0) || coordinator o)
          && is_some (socket_file o) then (EX_USAGE, o)
  else
    let o := set_backend_host (or_default (backend_host o) BACKEND_HOST) o in
    let o := set_backend_port (if backend_port o =? 0 then BACKEND_PORT else backend_port o) o in
    let o := set_backend_threads (if 0 <? backend_threads o then backend_threads o else BACKEND_THREADS) o in
    let o := set_num_conns (if 0 <? num_conns o then num_conns o
                            else if coordinator o then NUM_CONNS else client_threads o) o in
    (EXIT_SUCCESS, o).

(** The exit code and the options, from what [getopt_long] returns. *)
Definition proxy_options_parse (l : list (Ascii.ascii * option (list Z))) : Z * options_t :=
  let '(ret, o) := parse_opts set_option_defaults l in
  if negb (ret =? EXIT_SUCCESS) then (ret, o) else
  let '(ret, o) := parse_common o in
  if negb (ret =? EXIT_SUCCESS) then (ret, o) else
  match backend_file o with
  | Some file => parse_backend_file o file
  | None => parse_backend o
  end.

End parse.

(** ** Properties *)

Section properties.
Variable MYSQL_UNIX_ADDR : list Z.
Variable iface_ip : list Z -> list Z.
Variable readable : list Z -> bool.

(** Which combinations of given options are allowed. *)
Record acceptable (g : options_t) : Prop := {
  ok_bind : iface g = None \/ hd0 (phost g) = NUL;
  ok_mapper : mapper g <> None \/ backend_threads g <= 0;
  ok_file : forall f, backend_file g = Some f ->
    readable f = true /\ backend_host g = None /\ backend_port g = 0 /\ socket_file g = None;
  ok_single : backend_file g = None -> coordinator g = true \/ (backend_threads g <= 0 /\ num_conns g <= 0);
  ok_socket : backend_file g = None -> socket_file g = None \/
    (backend_host g = None /\ backend_port g = 0 /\ coordinator g = false)
}.

Definition positive (x d : Z) : Z := if 0 <? x then x else d.

(** The options with the values that were not given. *)
Definition completed (g : options_t) : options_t :=
  let interface := default PROXY_IFACE (iface g) in
  let single := negb (is_some (backend_file g)) in
  Options (verbose g) (daemonize g) (coordinator g) (cloneable g) (stat_file g) (admin_port g) (query_wait g)
    (positive (num_conns g) (if single && negb (coordinator g) then client_threads g else NUM_CONNS))
    (add_ids g) (two_pc g) (autocommit g)
    (if single then Some (default BACKEND_HOST (backend_host g)) else None)
    (if single && (backend_port g =? 0) then BACKEND_PORT else backend_port g)
    (bypass_port g) (socket_file g)
    (Some (default BACKEND_USER (user g))) (Some (default BACKEND_PASS (pass g))) (Some (default BACKEND_DB (db g)))
    (backend_file g)
    (if (hd0 (phost g) =? NUL) && negb (strcasecmp_eq (str "any") interface) && negb (cloneable g)
     then strncpy (iface_ip (take 15 interface)) INET6_ADDRSTRLEN else phost g)
    (Some interface) (pport g) (timeout g) (mapper g) (client_threads g) (positive (backend_threads g) BACKEND_THREADS).

(** The options after the rules that do not depend on the backends. *)
Definition common (g : options_t) : options_t :=
  let interface := default PROXY_IFACE (iface g) in
  set_db (Some (default BACKEND_DB (db g))) (set_pass (Some (default BACKEND_PASS (pass g))) (set_user (Some (default BACKEND_USER (user g)))
    (set_phost (if (hd0 (phost g) =? NUL) && negb (strcasecmp_eq (str "any") interface) && negb (cloneable g)
      then strncpy (iface_ip (take 15 interface)) INET6_ADDRSTRLEN else phost g) (set_iface (Some interface) g)))).

Lemma or_default_eq x d : or_default x d = Some (default d x).
Proof. by destruct x. Qed.

Lemma parse_common_spec g :
  ((iface g = None \/ hd0 (phost g) = NUL) /\ (mapper g <> None \/ backend_threads g <= 0) /\
   parse_common iface_ip g = (EXIT_SUCCESS, common g)) \/
  (~ ((iface g = None \/ hd0 (phost g) = NUL) /\ (mapper g <> None \/ backend_threads g <= 0)) /\
   exists o, parse_common iface_ip g = (EX_USAGE, o)).
Proof.
  unfold parse_common, common. rewrite !or_default_eq.
  destruct (is_some (iface g) && negb (hd0 (phost g) =? NUL)) eqn:Eb.
  { right. split; [|by eexists]. apply andb_prop in Eb as [Hi Hp]. apply negb_true_iff, Z.eqb_neq in Hp.
    destruct (iface g); [|done]. naive_solver. }
  assert (Hb : iface g = None \/ hd0 (phost g) = NUL).
  { destruct (iface g); [|by left]. right. cbn in Eb. apply negb_false_iff in Eb. by apply Z.eqb_eq. }
  assert (Ei : (if is_some (iface g) then g else set_iface (Some PROXY_IFACE) g) = set_iface (Some (default PROXY_IFACE (iface g))) g)
    by (destruct g as [? ? ? ? ? ? ? ? ? ? ? ? ? ? ? ? ? ? ? ? [] ? ? ? ? ?]; done).
  rewrite Ei. set (g1 := set_iface _ g). cbn zeta.
  assert (Ep : (if (hd0 (phost g1) =? NUL) && negb (strcasecmp_eq (str "any") (default [] (iface g1))) && negb (cloneable g1)
    then proxy_options_update_host iface_ip g1 else g1) =
    set_phost (if (hd0 (phost g) =? NUL) && negb (strcasecmp_eq (str "any") (default PROXY_IFACE (iface g))) && negb (cloneable g)
      then strncpy (iface_ip (take 15 (default PROXY_IFACE (iface g)))) INET6_ADDRSTRLEN else phost g) g1).
  { unfold g1. cbn [phost iface cloneable set_iface default from_option]. by destruct (_ && _ && _). }
  rewrite Ep.
  cbn [mapper backend_threads set_db set_pass set_user set_phost set_iface g1 user pass db].
  destruct (mapper g) eqn:Em, (Z.ltb_spec 0 (backend_threads g)); cbn [is_some negb andb].
  1,2,4: left; split; [done|]; split; [solve [by left | right; lia]|done].
  right. split; [|by eexists]. intros [_ [?|?]]; [done|lia].
Qed.

(** What the two kinds of backends add is [completed]. *)
Lemma completed_file g f :
  backend_file g = Some f -> backend_host g = None -> socket_file g = None ->
  set_num_conns (positive (num_conns g) NUM_CONNS) (set_backend_threads (positive (backend_threads g) BACKEND_THREADS) (common g)) = completed g.
Proof. destruct g; cbn [backend_file backend_host socket_file]. intros -> -> ->. reflexivity. Qed.

Lemma completed_single g :
  backend_file g = None ->
  set_num_conns (positive (num_conns g) (if coordinator g then NUM_CONNS else client_threads g))
    (set_backend_threads (positive (backend_threads g) BACKEND_THREADS)
      (set_backend_port (if backend_port g =? 0 then BACKEND_PORT else backend_port g)
        (set_backend_host (Some (default BACKEND_HOST (backend_host g))) (common g)))) = completed g.
Proof. destruct g as [? ? co]; cbn [backend_file]. intros ->. destruct co; reflexivity. Qed.

(** The backend options after the first rules are those that were given. *)
Lemma common_backend g :
  backend_file (common g) = backend_file g /\ backend_host (common g) = backend_host g /\ backend_port (common g) = backend_port g /\
  socket_file (common g) = socket_file g /\ backend_threads (common g) = backend_threads g /\ num_conns (common g) = num_conns g /\
  coordinator (common g) = coordinator g /\ client_threads (common g) = client_threads g.
Proof. by destruct g. Qed.

Lemma file_rules g f :
  backend_file g = Some f ->
  parse_backend_file readable (common g) f =
    if is_some (backend_host g) || negb (backend_port g =? 0) || is_some (socket_file g) then (EX_USAGE, common g)
    else if negb (readable f) then (EX_NOINPUT, common g) else (EXIT_SUCCESS, completed g).
Proof.
  intros Hf. unfold parse_backend_file. destruct (common_backend g) as (_ & -> & -> & -> & -> & _).
  destruct (is_some (backend_host g) || negb (backend_port g =? 0) || is_some (socket_file g)) eqn:E; [done|].
  destruct (readable f); [|done]. cbn [negb]. f_equal. rewrite <-(completed_file g f); [by destruct g|done|..].
  - apply orb_false_iff in E as [[E _]%orb_false_iff _]. by destruct (backend_host g).
  - apply orb_false_iff in E as [_ E]. by destruct (socket_file g).
Qed.

Lemma single_rules g :
  backend_file g = None ->
  parse_backend (common g) =
    if ((0 <? backend_threads g) || (0 <? num_conns g)) && negb (coordinator g) then (EX_USAGE, common g)
    else if (is_some (backend_host g) || negb (backend_port g =? 0) || coordinator g) && is_some (socket_file g) then (EX_USAGE, common g)
    else (EXIT_SUCCESS, completed g).
Proof.
  intros Hf. unfold parse_backend. destruct (common_backend g) as (_ & Hh & Hp & Hs & Ht & Hn & Hco & Hct). rewrite Hh, Hp, Hs, Ht, Hn, Hco.
  destruct (_ && negb _); [done|]. destruct (_ && is_some _); [done|]. f_equal. rewrite <-(completed_single g Hf), or_default_eq. by destruct g.
Qed.

(** The rules accept exactly the acceptable options, and complete them. *)
Lemma rules_spec g o :
  (let '(ret, o1) := parse_common iface_ip g in
   if negb (ret =? EXIT_SUCCESS) then (ret, o1) else
   match backend_file o1 with Some file => parse_backend_file readable o1 file | None => parse_backend o1 end) = (EXIT_SUCCESS, o) <->
  acceptable g /\ o = completed g.
Proof.
  destruct (parse_common_spec g) as [(Hb & Hm & ->)|(Hn & o1 & ->)].
  2: { split; [done|]. intros [[? ? _ _ _] _]. naive_solver. }
  rewrite Z.eqb_refl. cbn [negb]. rewrite (proj1 (common_backend g)).
  assert (Hyes : acceptable g -> (EXIT_SUCCESS, completed g) = (EXIT_SUCCESS, o) <-> acceptable g /\ o = completed g).
  { intros Ha. split; [intros E; injection E as <-; done|intros [_ ->]; done]. }
  assert (Hno : forall r o', r <> EXIT_SUCCESS -> ~ acceptable g -> (r, o') = (EXIT_SUCCESS, o) <-> acceptable g /\ o = completed g).
  { intros r o' Hr Ha. split; [intros E; by injection E as ? _|tauto]. }
  destruct (backend_file g) as [f|] eqn:Ef.
  - rewrite file_rules by done.
    destruct (backend_host g) eqn:Eh, (Z.eqb_spec (backend_port g) 0), (socket_file g) eqn:Es, (readable f) eqn:Er; cbn [is_some negb orb];
      try (apply Hno; [done|]; intros [? ? H1 ? ?]; destruct (H1 f Ef) as (? & ? & ? & ?); congruence).
    apply Hyes. split; [done|done| |congruence|congruence]. intros f' Hf'. rewrite Ef in Hf'. injection Hf' as <-. done.
  - rewrite single_rules by done.
    destruct (((0 <? backend_threads g) || (0 <? num_conns g)) && negb (coordinator g)) eqn:E1.
    { apply Hno; [done|]. intros [? ? ? H1 ?]. apply andb_prop in E1 as [E1 E2]. apply negb_true_iff in E2. apply orb_prop in E1.
      destruct (H1 Ef) as [?|[? ?]]; [congruence|]. destruct E1 as [?%Z.ltb_lt|?%Z.ltb_lt]; lia. }
    destruct ((is_some (backend_host g) || negb (backend_port g =? 0) || coordinator g) && is_some (socket_file g)) eqn:E2.
    { apply Hno; [done|]. intros [? ? ? ? H1]. apply andb_prop in E2 as [E2 E3]. destruct (H1 Ef) as [H2|(H2 & H3 & H4)].
      - by rewrite H2 in E3.
      - by rewrite H2, H3, H4 in E2. }
    apply Hyes. split; [done|done|congruence|intros _..].
    + destruct (coordinator g); [by left|]. rewrite andb_true_r in E1. apply orb_false_iff in E1 as [?%Z.ltb_ge ?%Z.ltb_ge]. auto.
    + destruct (socket_file g); [|by left]. right. rewrite andb_true_r in E2. apply orb_false_iff in E2 as [E2 ->].
      apply orb_false_iff in E2 as [E2 E3]. apply negb_false_iff, Z.eqb_eq in E3. by destruct (backend_host g).
Qed.

(** C35: which options are accepted, and with what values.  [proxy_options_parse] succeeds exactly if [getopt_long]
    gave no unknown option and the options given are compatible: no interface together with an address to bind to; backend threads only with a
    mapper; a backend file only if it is readable and neither host nor port nor socket is given; without a file, numbers of
    threads or connections only for a coordinator, and a UNIX socket only without host and port and not
    for a coordinator.  Then the options are the given ones completed with the defaults: the address of the interface,
    user, password and database, host and port of a single backend, a positive number of backend
    threads, and the number of connections, which without a file and the coordinator role is that of the client threads.  (The number of
    client threads is taken as it is given.) *)
Theorem options_parse_ok l o :
  let '(ret, g) := parse_opts MYSQL_UNIX_ADDR set_option_defaults l in
  proxy_options_parse MYSQL_UNIX_ADDR iface_ip readable l = (EXIT_SUCCESS, o) <->
  ret = EXIT_SUCCESS /\ acceptable g /\ o = completed g.
Proof.
  unfold proxy_options_parse. destruct (parse_opts _ _ l) as [r1 g].
  destruct (Z.eqb_spec r1 EXIT_SUCCESS) as [->|Hne]; cbn [negb].
  - rewrite rules_spec. tauto.
  - split; [intros [= ? _]; done|tauto].
Qed.

End properties.

(** Concrete arguments: a coordinator with a mapper. *)
Definition demo_args : list (Ascii.ascii * option (list Z)) :=
  [("C"%char, None); ("m"%char, Some (str "rowa")); ("2"%char, None); ("T"%char, Some (str "4"))].
Definition demo_parse : Z * options_t :=
  proxy_options_parse (str "/tmp/mysql.sock") (fun _ => str "10.0.0.1") (fun _ => true) demo_args.


(** A coordinator with a mapper is accepted; a socket with a host is not. *)
Lemma options_parse_ok_witness :
  acceptable (fun _ => true) (snd (parse_opts (str "/tmp/mysql.sock") set_option_defaults demo_args)) /\
  fst (proxy_options_parse (str "/tmp/mysql.sock") (fun _ => str "10.0.0.1") (fun _ => true)
    [("h"%char, Some (str "db")); ("s"%char, None)]) = EX_USAGE.
Proof.
  split; [|vm_compute; reflexivity].
  pose proof (options_parse_ok (str "/tmp/mysql.sock") (fun _ => str "10.0.0.1") (fun _ => true) demo_args (snd demo_parse)) as H.
  destruct (parse_opts (str "/tmp/mysql.sock") set_option_defaults demo_args) as [r g]. apply H. vm_compute. reflexivity.
Defined.

(** Without arguments the proxy runs with one backend at 127.0.0.1:3306,
    one connection for each of ten client threads, no mapper at all, and a client
    timeout of 300 seconds. *)
Theorem options_default (addr : list Z) (iface_ip : list Z -> list Z) (readable : list Z -> bool) :
  exists o, proxy_options_parse addr iface_ip readable [] = (EXIT_SUCCESS, o) /\
    backend_host o = Some (str "127.0.0.1") /\ backend_port o = 3306 /\
    num_conns o = 10 /\ client_threads o = 10 /\ mapper o = None /\ timeout o = 300 /\
    phost o = strncpy (iface_ip (str "eth0")) INET6_ADDRSTRLEN.
Proof.
  exists (snd (proxy_options_parse addr iface_ip readable [])).
  split_and!; vm_compute; reflexivity.
Qed.
