(* ===== verification/TwoPhase.v ===== *)
(** * Dispatch and two-phase commit of a replicated query
      (src/src/proxy_backend.c: [proxy_backend_query], [backend_query],
      [backend_query_wait], [backend_check_commit])

    A query that goes to all backends is run by one backend thread for each of
    the [n] backends.  The threads and the client thread that dispatches them
    share the barrier, the bit set of results and the spin lock of [commitdata_t]
    and the global counter [committing]; a cloning operation runs beside them.
    The model is a transition system in which a step is one access of a shared
    variable.  A cloning operation may start during the query but not end in it:
    clone generations and server identifiers are constant.  The query starts with idle
    backend threads and with the commit data just initialised: a backend thread that is late with the
    query before it, and uses the commit data of that one after its end (see
    [dangling_results_disagree]), is not in the model of the next query. *)

From S2P Require Import Prelude.
Local Open Scope Z_scope.

(** ** The bit set of results

    [bi == 0 ? 1 : 2 << (bi-1)] and [(2 << (commit->backends-1))-1] are [int]
    expressions: a shift out of the [int] range is undefined. *)

Definition int_shl (a k : Z) : outcome Z :=
  if (0 <=? k) && (a * 2 ^ k <=? INT_MAX) then Ret (a * 2 ^ k) else Undef.

Definition result_bit (bi : Z) : outcome Z :=
  if bi =? 0 then Ret 1 else int_shl 2 (bi - 1).

Definition full_mask (backends : Z) : outcome Z :=
  m ← int_shl 2 (backends - 1); Ret (m - 1).

(** ** Program counters *)

(** What the backend answers: no connection object, a read error, an error
    packet (first byte 0xFF) or success. *)
Inductive reply :=
| RNoMysql
| RPacketError
| RFailure
| RSuccess.

(** A backend thread in [backend_query].  [ok] is [success], [d] the decision
    to commit. *)
Inductive wpc :=
| WIdle                       (* waits for work *)
| WRun                        (* query sent, reads the result header *)
| WErrBarrier                 (* read error, about to wait on the barrier *)
| WErrWait                    (* in that wait *)
| WCheck (ok : bool)          (* tests commit->committing *)
| WOuter (ok : bool)          (* head of the loop that waits for cloning *)
| WInner (ok : bool)          (* head of the loop on committing *)
| WCont (ok : bool)           (* in that loop, tests commit->committing *)
| WGo (ok : bool)             (* the wait is over *)
| WMark (ok : bool)           (* counted in committing *)
| WLock (ok : bool)           (* before the committed spin lock *)
| WRecord (ok : bool)         (* in backend_query_wait, records success *)
| WBarrier (ok : bool)        (* about to wait on the barrier *)
| WWait (ok : bool)           (* in that wait *)
| WDecide (ok : bool)         (* evaluates the results *)
| WReply (ok d : bool)        (* answers the client *)
| WFinish (ok d : bool)       (* ends the transaction *)
| WUnlock (ok d : bool)       (* releases the spin lock *)
| WOut (ok d : bool)          (* label out *)
| WPlain (ok : bool)          (* forwards results without two-phase commit *)
| WDoneNoMysql
| WDoneError
| WDonePlain (ok : bool)
| WDone (ok d : bool).

(** The client thread in [proxy_backend_query]. *)
Inductive dpc :=
| DDispatch (i : nat)         (* next iteration of the dispatch loop *)
| DWait                       (* in the barrier *)
| DSpin                       (* waits for the committed lock *)
| DCheck                      (* looks at the results *)
| DDone (error : bool).

(** A cloning operation of the coordinator ([net_clone] in src/src/proxy_cmd.c):
    [cloning] is set from [CWait] on.  Its end changes the clone generation and
    is outside the model. *)
Inductive cpc :=
| CIdle
| CWait                       (* waits until committing is zero *)
| CRun.

Definition cloning (c : cpc) : bool := match c with CIdle => false | _ => true end.

#[export] Instance wpc_eq_dec : EqDecision wpc.
Proof. solve_decision. Defined.

(** ** Shared state *)

Record shared := Shared {
  results : Z;
  arrived : Z;
  barrier : bool;
  commit_committing : bool;
  committed : bool;
  committing : Z;
  clone : cpc;
  client : option bool;
  actions : list (option bool)
}.

Definition set_results (v : Z) (o : shared) : shared :=
  Shared v (arrived o) (barrier o) (commit_committing o) (committed o) (committing o) (clone
    o) (client o) (actions o).
Definition set_arrived (v : Z) (o : shared) : shared :=
  Shared (results o) v (barrier o) (commit_committing o) (committed o) (committing o) (clone
    o) (client o) (actions o).
Definition set_barrier (v : bool) (o : shared) : shared :=
  Shared (results o) (arrived o) v (commit_committing o) (committed o) (committing o) (clone
    o) (client o) (actions o).
Definition set_commit_committing (v : bool) (o : shared) : shared :=
  Shared (results o) (arrived o) (barrier o) v (committed o) (committing o) (clone o)
    (client o) (actions o).
Definition set_committed (v : bool) (o : shared) : shared :=
  Shared (results o) (arrived o) (barrier o) (commit_committing o) v (committing o) (clone
    o) (client o) (actions o).
Definition set_committing (v : Z) (o : shared) : shared :=
  Shared (results o) (arrived o) (barrier o) (commit_committing o) (committed o) v (clone o)
    (client o) (actions o).
Definition set_clone (v : cpc) (o : shared) : shared :=
  Shared (results o) (arrived o) (barrier o) (commit_committing o) (committed o) (committing
    o) v (client o) (actions o).
Definition set_client (v : option bool) (o : shared) : shared :=
  Shared (results o) (arrived o) (barrier o) (commit_committing o) (committed o) (committing
    o) (clone o) v (actions o).
Definition set_actions (v : list (option bool)) (o : shared) : shared :=
  Shared (results o) (arrived o) (barrier o) (commit_committing o) (committed o) (committing
    o) (clone o) (client o) v.

Record state := State { sh : shared; disp : dpc; wk : list wpc }.

Section system.
(** [n] backends; [sync] is [options.two_pc && (!options.cloneable || server_id != 0)];
    [start] is [rand() % backend_num]. *)
Variable n : nat.
Variable sync : bool.
Variable start : nat.

(** The backend of iteration [i]; the first one gets the client connection. *)
Definition target (i : nat) : nat := ((start + 1 + i) mod n)%nat.
Definition proxy_backend : nat := target 0.
Definition has_proxy (i : nat) : bool := (i =? proxy_backend)%nat.

(** The targets of the [n] iterations are the [n] backends. *)
Lemma target_range i : (1 <= n)%nat -> (target i < n)%nat.
Proof. intros Hn. apply Nat.mod_upper_bound. lia. Qed.

Lemma target_inj i j : (1 <= n)%nat -> (i < n)%nat -> (j < n)%nat -> target i = target j -> i = j.
Proof.
  unfold target. intros Hn Hi Hj He. set (a := (start + 1)%nat) in *.
  pose proof (Nat.div_mod (a + i) n ltac:(lia)) as D1.
  pose proof (Nat.div_mod (a + j) n ltac:(lia)) as D2.
  rewrite He in D1. set (q1 := ((a + i) / n)%nat) in *. set (q2 := ((a + j) / n)%nat) in *.
  assert (q1 = q2) by nia. nia.
Qed.

Lemma target_surj k : (1 <= n)%nat -> (k < n)%nat -> exists j, (j < n)%nat /\ target j = k.
Proof.
  intros Hn Hk. set (a := ((start + 1) mod n)%nat).
  assert (a < n)%nat as Ha by (apply Nat.mod_upper_bound; lia).
  exists ((k + n - a) mod n)%nat. split; [apply Nat.mod_upper_bound; lia|].
  unfold target. rewrite Nat.Div0.add_mod_idemp_r.
  rewrite (Nat.Div0.add_mod (start + 1)). fold a. rewrite Nat.Div0.add_mod_idemp_r.
  replace (a + (k + n - a))%nat with (k + 1 * n)%nat by lia.
  rewrite Nat.Div0.mod_add. by apply Nat.mod_small.
Qed.

(** The barrier is initialised for [backend_num + 1] threads. *)
Definition released (s : shared) : bool := arrived s =? Z.of_nat n + 1.

Definition arrive (s : shared) : shared := set_arrived (arrived s + 1) s.

(** ** Backend threads: [backend_query] on backend [i] *)

(** [live] tells if the stack variable [results] of the dispatcher exists; the
    pointer to it outlives it, and a read through it then gives anything. *)

Inductive wstep (live : bool) (i : nat) : wpc -> shared -> wpc -> shared -> Prop :=
| w_no_mysql s : wstep live i WRun s WDoneNoMysql s
| w_read_error s : wstep live i WRun s WErrBarrier s
| w_read s ok : wstep live i WRun s (WCheck ok) s
| w_err_wait s : barrier s = true -> wstep live i WErrBarrier s WErrWait (arrive s)
| w_err_skip s : barrier s = false -> wstep live i WErrBarrier s WDoneError s
| w_err_done s : released s = true -> wstep live i WErrWait s WDoneError s
| w_check_go s ok : commit_committing s = true -> wstep live i (WCheck ok) s (WGo ok) s
| w_check s ok : commit_committing s = false -> wstep live i (WCheck ok) s (WOuter ok) s
| w_outer_go s ok : cloning (clone s) = false -> wstep live i (WOuter ok) s (WGo ok) s
| w_outer s ok : cloning (clone s) = true -> wstep live i (WOuter ok) s (WInner ok) s
| w_inner_end s ok : committing s = 0 -> wstep live i (WInner ok) s (WOuter ok) s
| w_inner s ok : committing s <> 0 -> wstep live i (WInner ok) s (WCont ok) s
| w_cont_go s ok : commit_committing s = true -> wstep live i (WCont ok) s (WGo ok) s
| w_cont s ok : commit_committing s = false -> wstep live i (WCont ok) s (WInner ok) s
| w_go s ok : wstep live i (WGo ok) s (WMark ok) (set_committing (committing s + 1) s)
| w_mark s ok :
    wstep live i (WMark ok) s (if sync then WLock ok else WPlain ok) (set_commit_committing true s)
| w_lock s ok :
    has_proxy i = true -> committed s = false ->
    wstep live i (WLock ok) s (WRecord ok) (set_committed true s)
| w_no_lock s ok : has_proxy i = false -> wstep live i (WLock ok) s (WRecord ok) s
| w_record s (ok : bool) b :
    result_bit (Z.of_nat i) = Ret b ->
    wstep live i (WRecord ok) s (WBarrier ok) (if ok then set_results (Z.lor (results s) b) s else s)
| w_wait s ok : barrier s = true -> wstep live i (WBarrier ok) s (WWait ok) (arrive s)
| w_skip s ok : barrier s = false -> wstep live i (WBarrier ok) s (WDecide ok) s
| w_released s ok : released s = true -> wstep live i (WWait ok) s (WDecide ok) (set_barrier false s)
| w_decide s ok m :
    live = true -> full_mask (Z.of_nat n) = Ret m ->
    wstep live i (WDecide ok) s (WReply ok (ok && (results s =? m))) s
| w_decide_dangling s ok any :
    live = false -> wstep live i (WDecide ok) s (WReply ok (ok && any)) s
| w_reply s ok d :
    wstep live i (WReply ok d) s (WFinish ok d) (if has_proxy i then set_client (Some d) s else s)
| w_finish s ok d :
    wstep live i (WFinish ok d) s (WUnlock ok d) (set_actions (<[i := Some d]> (actions s)) s)
| w_unlock s ok d :
    wstep live i (WUnlock ok d) s (WOut ok d) (if has_proxy i then set_committed false s else s)
| w_out s ok d :
    wstep live i (WOut ok d) s (WDone ok d) (set_committing (committing s - 1) s)
| w_plain s ok :
    wstep live i (WPlain ok) s (WDonePlain ok) (set_committing (committing s - 1) s).

(** The check after the barrier: some bit of a backend is missing. *)
Definition missing_result (r : Z) : bool :=
  existsb (fun i => match result_bit (Z.of_nat i) with
                    | Ret b => Z.land r b =? 0
                    | Undef => true
                    end) (seq 0 n).

(** ** The whole system *)

Definition live (d : dpc) : bool := match d with DDone _ => false | _ => true end.

Inductive step : state -> state -> Prop :=
| s_worker s d w i pc pc' s' :
    w !! i = Some pc -> wstep (live d) i pc s pc' s' ->
    step (State s d w) (State s' d (<[i := pc']> w))
| s_dispatch s w i :
    (i < n)%nat -> w !! target i = Some WIdle ->
    step (State s (DDispatch i) w)
         (State (set_commit_committing false (set_barrier true s)) (DDispatch (S i))
                (<[target i := WRun]> w))
| s_arrive s w : step (State s (DDispatch n) w) (State (arrive s) DWait w)
| s_released s w : released s = true -> step (State s DWait w) (State s DSpin w)
| s_spin s w : committed s = false -> step (State s DSpin w) (State s DCheck w)
| s_check s w : step (State s DCheck w) (State s (DDone (missing_result (results s))) w)
| s_clone_start s d w :
    clone s = CIdle -> step (State s d w) (State (set_clone CWait s) d w)
| s_clone_run s d w :
    clone s = CWait -> committing s = 0 -> step (State s d w) (State (set_clone CRun s) d w).

(** A query begins when no cloning runs, with idle threads. *)
Definition init : state :=
  State (Shared 0 0 false false false 0 CIdle None (replicate n None)) (DDispatch 0) (replicate n WIdle).

Definition reachable (s : state) : Prop := rtc step init s.

(** ** The steps as a function

    A move names the thread that goes on and resolves what the model leaves open:
    the reply of the backend and the value read through the dangling pointer. *)

Inductive move :=
| MWorker (i : nat) (r : reply) (any : bool)
| MDispatcher
| MCloneStart
| MCloneRun.

Definition wexec (live : bool) (i : nat) (r : reply) (any : bool) (p : wpc) (s : shared) : option (wpc * shared) :=
  match p with
  | WRun => Some (match r with
                  | RNoMysql => WDoneNoMysql
                  | RPacketError => WErrBarrier
                  | RFailure => WCheck false
                  | RSuccess => WCheck true
                  end, s)
  | WErrBarrier => Some (if barrier s then (WErrWait, arrive s) else (WDoneError, s))
  | WErrWait => if released s then Some (WDoneError, s) else None
  | WCheck ok => Some (if commit_committing s then WGo ok else WOuter ok, s)
  | WOuter ok => Some (if cloning (clone s) then WInner ok else WGo ok, s)
  | WInner ok => Some (if committing s =? 0 then WOuter ok else WCont ok, s)
  | WCont ok => Some (if commit_committing s then WGo ok else WInner ok, s)
  | WGo ok => Some (WMark ok, set_committing (committing s + 1) s)
  | WMark ok => Some (if sync then WLock ok else WPlain ok, set_commit_committing true s)
  | WLock ok =>
      if has_proxy i then if committed s then None else Some (WRecord ok, set_committed true s)
      else Some (WRecord ok, s)
  | WRecord ok =>
      match result_bit (Z.of_nat i) with
      | Ret b => Some (WBarrier ok, if ok then set_results (Z.lor (results s) b) s else s)
      | Undef => None
      end
  | WBarrier ok => Some (if barrier s then (WWait ok, arrive s) else (WDecide ok, s))
  | WWait ok => if released s then Some (WDecide ok, set_barrier false s) else None
  | WDecide ok =>
      if live then
        match full_mask (Z.of_nat n) with
        | Ret m => Some (WReply ok (ok && (results s =? m)), s)
        | Undef => None
        end
      else Some (WReply ok (ok && any), s)
  | WReply ok d => Some (WFinish ok d, if has_proxy i then set_client (Some d) s else s)
  | WFinish ok d => Some (WUnlock ok d, set_actions (<[i := Some d]> (actions s)) s)
  | WUnlock ok d => Some (WOut ok d, if has_proxy i then set_committed false s else s)
  | WOut ok d => Some (WDone ok d, set_committing (committing s - 1) s)
  | WPlain ok => Some (WDonePlain ok, set_committing (committing s - 1) s)
  | WIdle | WDoneNoMysql | WDoneError | WDonePlain _ | WDone _ _ => None
  end.

Definition exec (m : move) (st : state) : option state :=
  let '(State s d w) := st in
  match m with
  | MWorker i r any =>
      p ← w !! i; '(p', s') ← wexec (live d) i r any p s; Some (State s' d (<[i := p']> w))
  | MDispatcher =>
      match d with
      | DDispatch i =>
          if (i <? n)%nat then
            if decide (w !! target i = Some WIdle)
            then Some (State (set_commit_committing false (set_barrier true s)) (DDispatch (S i))
                        (<[target i := WRun]> w))
            else None
          else if (i =? n)%nat then Some (State (arrive s) DWait w) else None
      | DWait => if released s then Some (State s DSpin w) else None
      | DSpin => if committed s then None else Some (State s DCheck w)
      | DCheck => Some (State s (DDone (missing_result (results s))) w)
      | DDone _ => None
      end
  | MCloneStart => match clone s with CIdle => Some (State (set_clone CWait s) d w) | _ => None end
  | MCloneRun =>
      match clone s with
      | CWait => if committing s =? 0 then Some (State (set_clone CRun s) d w) else None
      | _ => None
      end
  end.

Lemma wexec_sound lv i r any p s p' s' :
  wexec lv i r any p s = Some (p', s') -> wstep lv i p s p' s'.
Proof.
  intros H. destruct p; simpl in H; try by (repeat case_match; bprop; simplify_eq; by econstructor).
  - injection H as <- <-. constructor.
  - destruct (result_bit _) eqn:E; [|done]. injection H as <- <-. by constructor.
  - injection H as <- <-. constructor.
  - injection H as <- <-. constructor.
Qed.

Lemma wexec_complete lv i p s p' s' :
  wstep lv i p s p' s' -> exists r any, wexec lv i r any p s = Some (p', s').
Proof.
  intros H. destruct H; simpl;
    repeat match goal with
    | H : ?x = true |- context [?x] => rewrite H
    | H : ?x = false |- context [?x] => rewrite H
    | H : ?x = Ret _ |- context [?x] => rewrite H
    end; try by exists RSuccess, true.
  - by exists RNoMysql, true.
  - by exists RPacketError, true.
  - exists (if ok then RSuccess else RFailure), true. by destruct ok.
  - exists RSuccess, true. by destruct (Z.eqb_spec (committing s) 0).
  - exists RSuccess, true. by destruct (Z.eqb_spec (committing s) 0).
  - by exists RSuccess, any.
Qed.

(** The function computes the step relation. *)
Lemma exec_step s s' : step s s' <-> exists m, exec m s = Some s'.
Proof.
  split.
  - intros H. destruct H.
    + apply wexec_complete in H0 as (r & any & E). exists (MWorker i r any). simpl.
      rewrite H. simpl. by rewrite E.
    + exists MDispatcher. simpl. rewrite (proj2 (Nat.ltb_lt i n)) by done. by rewrite decide_True.
    + exists MDispatcher. simpl. by rewrite Nat.ltb_irrefl, Nat.eqb_refl.
    + exists MDispatcher. simpl. by rewrite H.
    + exists MDispatcher. simpl. by rewrite H.
    + by exists MDispatcher.
    + exists MCloneStart. simpl. by rewrite H.
    + exists MCloneRun. simpl. by rewrite H, H0.
  - intros [m E]. destruct s as [s d w]. destruct m; simpl in E.
    + destruct (w !! i) as [p|] eqn:Ep; [|done]. simpl in E.
      destruct (wexec _ _ _ _ _ _) as [[p' s1]|] eqn:Ew; [|done]. simplify_eq/=.
      econstructor; [done|]. by eapply wexec_sound.
    + destruct d as [i| | | |]; repeat case_match; simplify_eq; try by constructor.
      * constructor; [by apply Nat.ltb_lt|done].
      * rename select ((_ =? _)%nat = true) into He. apply Nat.eqb_eq in He as ->. constructor.
    + case_match; simplify_eq. by constructor.
    + repeat case_match; bprop; simplify_eq. by constructor.
Qed.

Definition execs (l : list move) (s : state) : option state :=
  foldl (fun o m => o ≫= exec m) (Some s) l.

Lemma execs_steps l s s' : execs l s = Some s' -> rtc step s s'.
Proof.
  revert s. induction l as [|m l IH]; intros s H.
  - injection H as <-. done.
  - unfold execs in H. simpl in H. destruct (exec m s) as [s1|] eqn:E.
    + eapply rtc_l; [apply exec_step; eauto|]. by apply IH.
    + exfalso. clear -H. by induction l.
Qed.

(** ** Observations on program counters *)

Definition has_arrived (p : wpc) : bool :=
  match p with
  | WErrWait | WWait _ | WDecide _ | WReply _ _ | WFinish _ _ | WUnlock _ _ | WOut _ _ | WDoneError | WDone _ _ => true
  | _ => false
  end.

(** Success was recorded in the results. *)
Definition rec_ok (p : wpc) : bool :=
  match p with
  | WBarrier ok | WWait ok | WDecide ok | WReply ok _ | WFinish ok _ | WUnlock ok _ | WOut ok _ | WDone ok _ => ok
  | _ => false
  end.

Definition in_commit (p : wpc) : bool :=
  match p with
  | WMark _ | WLock _ | WRecord _ | WBarrier _ | WWait _ | WDecide _ | WReply _ _ | WFinish _ _ | WUnlock _ _ | WOut _ _ | WPlain _ => true
  | _ => false
  end.

Definition holds_lock (p : wpc) : bool :=
  match p with
  | WRecord _ | WBarrier _ | WWait _ | WDecide _ | WReply _ _ | WFinish _ _ | WUnlock _ _ => true
  | _ => false
  end.

Definition decided (p : wpc) : option bool :=
  match p with
  | WReply _ d | WFinish _ d | WUnlock _ d | WOut _ d | WDone _ d => Some d
  | _ => None
  end.

(** Past the barrier. *)
Definition past (p : wpc) : bool :=
  match p with
  | WDecide _ | WReply _ _ | WFinish _ _ | WUnlock _ _ | WOut _ _ | WDoneError | WDone _ _ => true
  | _ => false
  end.

(** In the branch with two-phase commit, or in the one without. *)
Definition sync_pc (p : wpc) : bool :=
  match p with
  | WLock _ | WRecord _ | WBarrier _ | WWait _ | WDecide _ | WReply _ _ | WFinish _ _ | WUnlock _ _ | WOut _ _ | WDone _ _ => true
  | _ => false
  end.
Definition plain_pc (p : wpc) : bool :=
  match p with WPlain _ | WDonePlain _ => true | _ => false end.

Definition d_arrived (d : dpc) : bool := match d with DDispatch _ => false | _ => true end.
Definition d_past (d : dpc) : bool := match d with DSpin | DCheck | DDone _ => true | _ => false end.
Definition d_unlocked (d : dpc) : bool := match d with DCheck | DDone _ => true | _ => false end.
Definition b2z (b : bool) : Z := if b then 1 else 0.

(** ** Results as bits *)

Lemma result_bit_pow i : 0 <= i <= 30 -> result_bit i = Ret (2 ^ i).
Proof.
  intros Hi. unfold result_bit. destruct (Z.eqb_spec i 0) as [->|]; [done|].
  unfold int_shl, INT_MAX. replace (2 * 2 ^ (i - 1)) with (2 ^ i).
  - assert (2 ^ i <= 2 ^ 30) by (apply Z.pow_le_mono_r; lia).
    destruct (Z.leb_spec 0 (i - 1)), (Z.leb_spec (2 ^ i) (2 ^ 31 - 1)); simpl; lia || done.
  - rewrite <-Z.pow_succ_r by lia. f_equal. lia.
Qed.

Lemma full_mask_ones k : 1 <= k <= 30 -> full_mask k = Ret (Z.ones k).
Proof.
  intros Hk. unfold full_mask. pose proof (result_bit_pow k ltac:(lia)) as H.
  unfold result_bit in H. destruct (Z.eqb_spec k 0); [lia|]. rewrite H. simpl.
  by rewrite Z.ones_equiv, <-Z.sub_1_r.
Qed.

(** The bit set describes the threads. *)
Definition bits_ok (r : Z) (w : list wpc) : Prop :=
  0 <= r /\ forall i, Z.testbit r (Z.of_nat i) = match w !! i with Some p => rec_ok p | None => false end.

Lemma full_iff r w :
  length w = n -> bits_ok r w -> (r =? Z.ones (Z.of_nat n)) = forallb rec_ok w.
Proof.
  intros Hl [Hr Hb]. apply eq_true_iff_eq. rewrite Z.eqb_eq, forallb_elem. split.
  - intros -> i p Hi. pose proof (lookup_lt_Some _ _ _ Hi). specialize (Hb i).
    rewrite Hi, Z.ones_spec_low in Hb by lia. done.
  - intros Hall. apply Z.bits_inj'. intros k Hk. specialize (Hb (Z.to_nat k)).
    rewrite Z2Nat.id in Hb by lia. rewrite Hb, Z.testbit_ones_nonneg by lia.
    destruct (Z.ltb_spec k (Z.of_nat n)).
    + destruct (lookup_lt_is_Some_2 w (Z.to_nat k)) as [p Hp]; [lia|]. rewrite Hp. eauto.
    + by rewrite lookup_ge_None_2 by lia.
Qed.

(** ** The invariant *)

Record inv (s : state) : Prop := {
  i_len : length (wk s) = n;
  i_bits : bits_ok (results (sh s)) (wk s);
  i_arr : arrived (sh s) = count has_arrived (wk s) + b2z (d_arrived (disp s));
  i_past : forall i p, wk s !! i = Some p -> past p = true -> released (sh s) = true;
  i_dpast : d_past (disp s) = true -> released (sh s) = true;
  i_bar : barrier (sh s) = false ->
    released (sh s) = true \/ forall i p, wk s !! i = Some p -> p = WIdle;
  i_dec : forall i p d, wk s !! i = Some p -> decided p = Some d ->
    live (disp s) = true \/ i = proxy_backend -> d = forallb rec_ok (wk s);
  i_fin : d_unlocked (disp s) = true ->
    forall p, wk s !! proxy_backend = Some p -> holds_lock p = false;
  i_com : committing (sh s) = count in_commit (wk s);
  i_lock : committed (sh s) = match wk s !! proxy_backend with Some p => holds_lock p | None => false end;
  i_mode : forall i p, wk s !! i = Some p -> (if sync then plain_pc p else sync_pc p) = false;
  i_client : forall d, client (sh s) = Some d ->
    exists p, wk s !! proxy_backend = Some p /\ decided p = Some d;
  i_act : length (actions (sh s)) = n /\ forall i d, actions (sh s) !! i = Some (Some d) ->
    exists p, wk s !! i = Some p /\ decided p = Some d
}.

(** When the barrier is open, every thread has arrived. *)
Lemma released_all s :
  inv s -> released (sh s) = true ->
  (forall i p, wk s !! i = Some p -> has_arrived p = true) /\ d_arrived (disp s) = true.
Proof.
  intros Hi Hr. unfold released in Hr. bprop. rewrite (i_arr s Hi) in Hr.
  pose proof (count_bounds has_arrived (wk s)) as Hc. pose proof (i_len s Hi) as Hl.
  unfold zlength in Hc. rewrite Hl in Hc.
  destruct (d_arrived (disp s)) eqn:Ed; simpl in Hr; [|lia]. split; [|done].
  intros i p Hp. apply (count_full has_arrived (wk s)).
  - unfold zlength. lia.
  - apply list_elem_of_lookup. eauto.
Qed.

(** ** Effects of one step of a backend thread *)

Section effects.
Context (lv : bool) (i : nat) (p : wpc) (s : shared) (p' : wpc) (s' : shared).
Hypothesis Hstep : wstep lv i p s p' s'.

Lemma eff_arrived :
  (p = WErrBarrier \/ (exists ok, p = WBarrier ok) -> barrier s = true) ->
  arrived s' = arrived s + b2z (has_arrived p') - b2z (has_arrived p).
Proof.
  intros Hb. destruct Hstep; simpl; try (by rewrite Hb in * by eauto);
    repeat (case_match; simpl); lia.
Qed.

Lemma eff_past :
  (p = WErrBarrier \/ (exists ok, p = WBarrier ok) -> barrier s = true) ->
  past p' = true -> past p = true \/ released s = true.
Proof.
  intros Hb. destruct Hstep; simpl; auto; try (by rewrite Hb in * by eauto).
  by destruct sync.
Qed.

Lemma eff_committing : committing s' = committing s + b2z (in_commit p') - b2z (in_commit p).
Proof. destruct Hstep; simpl; repeat (case_match; simpl); lia. Qed.

Lemma eff_rec : rec_ok p' = rec_ok p \/ (exists ok, p = WRecord ok).
Proof. destruct Hstep; simpl; eauto. by destruct sync; left. Qed.

Lemma eff_bits :
  (i < n)%nat -> (n <= 30)%nat -> Z.testbit (results s) (Z.of_nat i) = rec_ok p -> 0 <= results s ->
  0 <= results s' /\
  forall j, 0 <= j -> Z.testbit (results s') j = if decide (j = Z.of_nat i) then rec_ok p' else Z.testbit (results s) j.
Proof.
  intros Hi Hn Hbit Hr.
  assert (Hsame : rec_ok p' = rec_ok p -> results s' = results s -> 0 <= results s' /\
    forall j, 0 <= j -> Z.testbit (results s') j = if decide (j = Z.of_nat i) then rec_ok p' else Z.testbit (results s) j).
  { intros E1 E2. rewrite E1, E2. split; [done|]. intros j Hj. case_decide as E; [|done]. by rewrite E. }
  destruct Hstep; simpl in *; try (by apply Hsame; repeat case_match).
  rewrite result_bit_pow in H by lia. injection H as <-. destruct ok; simpl; [|by apply Hsame].
  split; [apply Z.lor_nonneg; split; [done|apply Z.pow_nonneg; lia]|].
  intros j Hj. rewrite Z.lor_spec, Z.pow2_bits_eqb by lia. case_decide as E.
  - subst j. by rewrite Z.eqb_refl, orb_true_r.
  - destruct (Z.eqb_spec (Z.of_nat i) j); [lia|]. by rewrite orb_false_r.
Qed.

Lemma eff_lock :
  (has_proxy i = true -> committed s = holds_lock p) ->
  committed s' = if has_proxy i then holds_lock p' else committed s.
Proof.
  intros Hl. destruct Hstep; simpl in *; destruct (has_proxy i) eqn:Ep; simpl; try done; auto;
    rewrite ?Hl by done; try done; repeat case_match; simpl; rewrite ?Hl by done; try done.
Qed.

Lemma eff_decided d :
  decided p' = Some d ->
  decided p = Some d \/
  exists ok, p = WDecide ok /\
    (lv = true -> exists m, full_mask (Z.of_nat n) = Ret m /\ d = ok && (results s =? m)).
Proof.
  destruct Hstep; simpl; intros Hd; simplify_eq; eauto.
  - by destruct sync.
  - right. eauto 10.
  - right. exists ok. done.
Qed.

Lemma eff_decided_stable d : decided p = Some d -> decided p' = Some d.
Proof. by destruct Hstep; simpl. Qed.

Lemma eff_client d : client s' = Some d -> client s = Some d \/ (has_proxy i = true /\ decided p' = Some d).
Proof. destruct Hstep; simpl; repeat (case_match; simpl); auto. Qed.

Lemma eff_actions :
  actions s' = actions s \/ exists d, decided p' = Some d /\ actions s' = <[i := Some d]> (actions s).
Proof. destruct Hstep; simpl; repeat (case_match; simpl); eauto. Qed.

Lemma eff_barrier : barrier s' = false -> barrier s = false \/ released s = true.
Proof. destruct Hstep; simpl; repeat (case_match; simpl); auto. Qed.

Lemma eff_mode : (if sync then plain_pc p else sync_pc p) = false -> (if sync then plain_pc p' else sync_pc p') = false.
Proof. destruct Hstep, sync eqn:E; simpl; done. Qed.

Lemma eff_not_idle : p <> WIdle /\ p' <> WIdle.
Proof. destruct Hstep; simpl; try done. by destruct sync. Qed.

End effects.

(** ** The invariant is preserved *)

Section invariant.
Hypothesis Hn : (1 <= n <= 30)%nat.

Lemma target_lt i : (target i < n)%nat.
Proof. apply target_range. lia. Qed.

Lemma inv_init : inv init.
Proof.
  assert (Hw : forall i p, replicate n WIdle !! i = Some p -> p = WIdle).
  { intros i p [? _]%lookup_replicate. done. }
  assert (Hc : forall f, f WIdle = false -> count f (replicate n WIdle) = 0).
  { intros f Hf. apply count_zero. intros x Hx. apply elem_of_replicate in Hx as [-> _]. done. }
  unfold init. split; simpl; try done.
  - apply length_replicate.
  - split; [done|]. intros i. rewrite Z.testbit_0_l.
    destruct (replicate n WIdle !! i) eqn:E; [|done]. by rewrite (Hw _ _ E).
  - by rewrite Hc.
  - intros i p Hp. by rewrite (Hw _ _ Hp).
  - intros _. right. done.
  - intros i p d Hp. by rewrite (Hw _ _ Hp).
  - by rewrite Hc.
  - destruct (replicate n WIdle !! proxy_backend) eqn:E; [|done]. by rewrite (Hw _ _ E).
  - intros i p Hp. rewrite (Hw _ _ Hp). by destruct sync.
  - split; [apply length_replicate|]. intros i d Hd. by apply lookup_replicate in Hd as [? _].
Qed.

(** Before the barrier opens its pointer is set. *)
Lemma barrier_set s d w i p :
  inv (State s d w) -> w !! i = Some p -> p = WErrBarrier \/ (exists ok, p = WBarrier ok) ->
  barrier s = true.
Proof.
  intros Hi Hp Hpc. destruct (barrier s) eqn:E; [done|].
  assert (has_arrived p = false /\ p <> WIdle) as [Ha Hne] by naive_solver.
  destruct (i_bar _ Hi) as [Hr|Hidle]; [done|..]; simpl in *.
  - destruct (released_all _ Hi Hr) as [Hall _]. simpl in Hall. specialize (Hall i p Hp). congruence.
  - by destruct Hne, (Hidle i p Hp).
Qed.

Lemma released_count s d w i p :
  inv (State s d w) -> w !! i = Some p -> has_arrived p = false -> released s = false.
Proof.
  intros Hi Hp Ha. destruct (released s) eqn:E; [|done].
  destruct (released_all _ Hi E) as [Hall _]. simpl in Hall. specialize (Hall i p Hp). congruence.
Qed.

(** The barrier does not close again. *)
Lemma released_stable s d w i p p' s' :
  inv (State s d w) -> w !! i = Some p -> wstep (live d) i p s p' s' ->
  released s = true -> released s' = true.
Proof.
  intros Hi Hp Hw Hr. destruct (released_all _ Hi Hr) as [Hall _]. simpl in Hall.
  pose proof (Hall i p Hp) as Ha.
  assert (Hb : p = WErrBarrier \/ (exists ok, p = WBarrier ok) -> barrier s = true)
    by (intros [->|[ok ->]]; done).
  pose proof (eff_arrived _ _ _ _ _ _ Hw Hb) as E. rewrite Ha in E.
  assert (has_arrived p' = true) as Ha'.
  { destruct Hw; simpl in *; try done. }
  rewrite Ha' in E. unfold released in *. bprop. apply Z.eqb_eq. lia.
Qed.

Lemma forallb_rec w i p p' :
  w !! i = Some p -> rec_ok p' = rec_ok p -> forallb rec_ok (<[i := p']> w) = forallb rec_ok w.
Proof.
  intros (w1 & w2 & -> & <-)%lookup_middle E.
  rewrite insert_app_r_alt, Nat.sub_diag by lia. simpl. rewrite !forallb_app. simpl. by rewrite E.
Qed.

(** ** One step of a backend thread keeps the invariant *)

Section worker.
Context (s : shared) (d : dpc) (w : list wpc) (i : nat) (p p' : wpc) (s' : shared).
Hypothesis Hi : inv (State s d w).
Hypothesis Hp : w !! i = Some p.
Hypothesis Hw : wstep (live d) i p s p' s'.

Lemma worker_length : length w = n.
Proof. exact (i_len _ Hi). Qed.

Lemma worker_lt : (i < length w)%nat.
Proof. by eapply lookup_lt_Some. Qed.

Lemma worker_here : <[i := p']> w !! i = Some p'.
Proof. apply list_lookup_insert_eq, worker_lt. Qed.

(** A thread is the one that made the step, or is where it was. *)
Lemma worker_lookup j q : <[i := p']> w !! j = Some q -> (j = i /\ q = p') \/ (j <> i /\ w !! j = Some q).
Proof.
  intros Hj. destruct (decide (i = j)) as [<-|Hne].
  - rewrite worker_here in Hj. left. naive_solver.
  - rewrite list_lookup_insert_ne in Hj by done. right. naive_solver.
Qed.

Lemma worker_at_barrier : p = WErrBarrier \/ (exists ok, p = WBarrier ok) -> barrier s = true.
Proof. intros. by eapply barrier_set. Qed.

Lemma worker_released : released s = true -> released s' = true.
Proof. intros. by apply (released_stable s d w i p p' s'). Qed.

(** Decisions stay decisions. *)
Lemma worker_decided j d' :
  (exists q, w !! j = Some q /\ decided q = Some d') -> exists q, <[i := p']> w !! j = Some q /\ decided q = Some d'.
Proof.
  intros (q & Hq & Hd). destruct (decide (i = j)) as [<-|Hne].
  - exists p'. rewrite worker_here. simplify_eq. split; [done|]. by eapply eff_decided_stable.
  - exists q. by rewrite list_lookup_insert_ne.
Qed.

Lemma worker_bits : bits_ok (results s') (<[i := p']> w).
Proof.
  pose proof worker_length as Hlen. pose proof worker_lt as Hlt. destruct (i_bits _ Hi) as [Hr Hbit]. simpl in *.
  destruct (eff_bits _ _ _ _ _ _ Hw) as [Hr' Hbit']; [lia|lia|by rewrite Hbit, Hp|done|].
  split; [done|]. intros j. rewrite Hbit' by lia. case_decide as E.
  - assert (j = i) as -> by lia. by rewrite worker_here.
  - rewrite list_lookup_insert_ne by (intros ->; by destruct E). apply Hbit.
Qed.

(** A decision of the past is about all results, since none is recorded any more. *)
Lemma worker_kept_decision j q d' :
  w !! j = Some q -> decided q = Some d' -> live d = true \/ j = proxy_backend -> d' = forallb rec_ok (<[i := p']> w).
Proof.
  intros Hj Hd' Hlv. rewrite (i_dec _ Hi j q d') by done. simpl.
  destruct (eff_rec _ _ _ _ _ _ Hw) as [E|[ok ->]]; [by erewrite forallb_rec|].
  assert (released s = false) by by eapply (released_count _ _ _ i).
  assert (past q = true) by by destruct q.
  pose proof (i_past _ Hi j q Hj) as Hpq. simpl in Hpq. rewrite Hpq in *; done.
Qed.

Lemma worker_decision j q d' :
  <[i := p']> w !! j = Some q -> decided q = Some d' -> live d = true \/ j = proxy_backend -> d' = forallb rec_ok (<[i := p']> w).
Proof.
  pose proof worker_length as Hlen. intros [[-> ->]|[Hne Hj]]%worker_lookup Hd' Hlv; [|by eapply worker_kept_decision].
  destruct (eff_decided _ _ _ _ _ _ Hw d' Hd') as [Hd|(ok & -> & Hm)]; [by eapply worker_kept_decision|].
  destruct Hm as (m & Hm & ->).
  { destruct Hlv as [?| ->]; [done|]. destruct (live d) eqn:El; [done|].
    assert (d_unlocked d = true) as Hu by by destruct d. by pose proof (i_fin _ Hi Hu _ Hp). }
  rewrite full_mask_ones in Hm by lia. injection Hm as <-.
  rewrite (full_iff (results s) w Hlen (i_bits _ Hi)).
  destruct (eff_rec _ _ _ _ _ _ Hw) as [E|[ok' ?]]; [|done].
  rewrite (forallb_rec _ _ _ _ Hp E). destruct ok; [done|]. simpl.
  destruct (forallb rec_ok w) eqn:Ef; [|done].
  apply (proj1 (forallb_elem _ _) Ef) in Hp. done.
Qed.

Lemma worker_lock : committed s' = match <[i := p']> w !! proxy_backend with Some q => holds_lock q | None => false end.
Proof.
  pose proof (i_lock _ Hi) as Hl. simpl in Hl. rewrite (eff_lock _ _ _ _ _ _ Hw).
  - unfold has_proxy. destruct (Nat.eqb_spec i proxy_backend) as [<-|Hne]; [by rewrite worker_here|by rewrite list_lookup_insert_ne].
  - unfold has_proxy. intros ->%Nat.eqb_eq. by rewrite Hl, Hp.
Qed.

Lemma worker_client d' : client s' = Some d' -> exists q, <[i := p']> w !! proxy_backend = Some q /\ decided q = Some d'.
Proof.
  intros Hc. destruct (eff_client _ _ _ _ _ _ Hw d' Hc) as [Hc'|[Hpx Hd']].
  - apply worker_decided. exact (i_client _ Hi d' Hc').
  - unfold has_proxy in Hpx. apply Nat.eqb_eq in Hpx as <-. exists p'. by rewrite worker_here.
Qed.

Lemma worker_actions :
  length (actions s') = n /\ forall j d', actions s' !! j = Some (Some d') -> exists q, <[i := p']> w !! j = Some q /\ decided q = Some d'.
Proof.
  pose proof worker_length as Hlen. pose proof worker_lt as Hlt. destruct (i_act _ Hi) as [Hla Hact]. simpl in Hla, Hact.
  assert (Hkeep := fun j d' Hj => worker_decided j d' (Hact j d' Hj)).
  destruct (eff_actions _ _ _ _ _ _ Hw) as [->|(d' & Hd' & ->)]; [done|].
  rewrite length_insert. split; [done|]. intros j d'' Hj. destruct (decide (i = j)) as [<-|Hne].
  - rewrite list_lookup_insert_eq in Hj by lia. simplify_eq. exists p'. by rewrite worker_here.
  - rewrite list_lookup_insert_ne in Hj by done. by apply Hkeep.
Qed.

Lemma worker_inv : inv (State s' d (<[i := p']> w)).
Proof.
  split; simpl.
  - rewrite length_insert. exact worker_length.
  - exact worker_bits.
  - rewrite (eff_arrived _ _ _ _ _ _ Hw worker_at_barrier), (count_insert _ _ _ p) by done.
    pose proof (i_arr _ Hi) as Ha. simpl in Ha. unfold b2z in *. lia.
  - intros j q [[-> ->]|[Hne Hj]]%worker_lookup Hq; apply worker_released; [|by apply (i_past _ Hi j q)].
    destruct (eff_past _ _ _ _ _ _ Hw worker_at_barrier Hq) as [Hpast|Hr]; [|done]. by apply (i_past _ Hi i p).
  - intros Hd. apply worker_released. by apply (i_dpast _ Hi).
  - intros Hbf. left. apply worker_released. destruct (eff_barrier _ _ _ _ _ _ Hw Hbf) as [E|Hr]; [|done].
    destruct (i_bar _ Hi E) as [Hr|Hidle]; [done|]. simpl in Hidle.
    destruct (eff_not_idle _ _ _ _ _ _ Hw) as [Hni _]. by destruct Hni, (Hidle i p Hp).
  - exact worker_decision.
  - intros Hu q [[Ei ->]|[Hne Hj]]%worker_lookup; [|by apply (i_fin _ Hi Hu)].
    pose proof (i_fin _ Hi Hu p) as Hnl. rewrite Ei in Hnl. specialize (Hnl Hp).
    assert (has_arrived p = true) as Ha.
    { apply (proj1 (released_all _ Hi (i_dpast _ Hi ltac:(by destruct d))) i p Hp). }
    by destruct Hw.
  - rewrite (eff_committing _ _ _ _ _ _ Hw), (count_insert _ _ _ p) by done.
    pose proof (i_com _ Hi) as Hc. simpl in Hc. unfold b2z. lia.
  - exact worker_lock.
  - intros j q [[-> ->]|[Hne Hj]]%worker_lookup; [|by apply (i_mode _ Hi j)].
    eapply eff_mode; [done|]. by apply (i_mode _ Hi i).
  - exact worker_client.
  - exact worker_actions.
Qed.

End worker.

(** Dispatch of a query to an idle thread. *)
Lemma dispatch_inv s w i :
  (i < n)%nat -> w !! target i = Some WIdle -> inv (State s (DDispatch i) w) ->
  inv (State (set_commit_committing false (set_barrier true s)) (DDispatch (S i)) (<[target i := WRun]> w)).
Proof.
  intros Hlt Hidle Hi. pose proof (lookup_lt_Some _ _ _ Hidle) as Ht.
  set (t := target i) in *. clearbody t.
  assert (Hlk : forall j q, <[t := WRun]> w !! j = Some q -> q = WRun \/ w !! j = Some q).
  { intros j q Hj. destruct (decide (t = j)) as [->|Hne].
    - rewrite list_lookup_insert_eq in Hj by lia. left. naive_solver.
    - rewrite list_lookup_insert_ne in Hj by done. naive_solver. }
  assert (Hback : forall j p, p <> WIdle -> w !! j = Some p -> <[t := WRun]> w !! j = Some p).
  { intros j p Hne Hj. rewrite list_lookup_insert_ne; [done|]. congruence. }
  assert (Hcount : forall f, f WIdle = f WRun -> count f (<[t := WRun]> w) = count f w).
  { intros f Hf. rewrite (count_insert _ _ _ WIdle), Hf by done. lia. }
  split; simpl.
  - rewrite length_insert. apply (i_len _ Hi).
  - destruct (i_bits _ Hi) as [Hr Hb]. split; [done|]. intros j. simpl in *. rewrite Hb.
    destruct (decide (t = j)) as [<-|Hne].
    + by rewrite list_lookup_insert_eq, Hidle by lia.
    + by rewrite list_lookup_insert_ne.
  - rewrite Hcount by done. apply (i_arr _ Hi).
  - intros j q [->|Hj]%Hlk Hq; [done|]. by apply (i_past _ Hi j q).
  - done.
  - done.
  - rewrite (forallb_rec _ _ WIdle) by done.
    intros j q d [->|Hj]%Hlk Hd Hlv; [done|]. by apply (i_dec _ Hi j q d).
  - done.
  - rewrite Hcount by done. apply (i_com _ Hi).
  - pose proof (i_lock _ Hi) as Hl. simpl in Hl. rewrite Hl.
    destruct (decide (t = proxy_backend)) as [E|Hne].
    + by rewrite <-E, list_lookup_insert_eq, Hidle by lia.
    + by rewrite list_lookup_insert_ne.
  - intros j q [->|Hj]%Hlk; [by destruct sync|]. by apply (i_mode _ Hi j).
  - intros d Hc. destruct (i_client _ Hi d Hc) as (q & Hq & Hd). exists q. split; [|done].
    apply Hback; [by intros ->|done].
  - destruct (i_act _ Hi) as [Hla Hact]. split; [done|]. intros j d Hj.
    destruct (Hact j d Hj) as (q & Hq & Hd). exists q. split; [|done].
    apply Hback; [by intros ->|done].
Qed.

(** A step of the dispatcher after the loop, or of a cloning operation, leaves
    the backend threads alone. *)
Lemma frame_inv s d w s' d' :
  inv (State s d w) ->
  results s' = results s -> committing s' = committing s -> committed s' = committed s ->
  barrier s' = barrier s -> client s' = client s -> actions s' = actions s ->
  arrived s' = arrived s + b2z (d_arrived d') - b2z (d_arrived d) ->
  (released s = true -> arrived s' = arrived s) ->
  (d_past d' = true -> released s = true) ->
  (live d' = true -> live d = true) ->
  (d_unlocked d' = true -> d_unlocked d = true \/ committed s = false) ->
  inv (State s' d' w).
Proof.
  intros Hi Er Ecm Ect Eb Ecl Ea Harr Hrel Hpast Hlive Hunl.
  assert (Hst : released s = true -> released s' = true).
  { intros Hr. unfold released in *. by rewrite Hrel. }
  split; simpl; rewrite ?Er, ?Ecm, ?Ect, ?Eb, ?Ecl, ?Ea; try apply Hi.
  - pose proof (i_arr _ Hi) as H. simpl in H. lia.
  - intros i p Hp Hq. apply Hst. by apply (i_past _ Hi i p).
  - intros Hd. by apply Hst, Hpast.
  - intros Hf. destruct (i_bar _ Hi Hf); auto.
  - intros i p dd Hp Hd Hlv. apply (i_dec _ Hi i p dd Hp Hd). naive_solver.
  - intros Hu p Hp. destruct (Hunl Hu) as [?|Hc]; [by apply (i_fin _ Hi)|].
    pose proof (i_lock _ Hi) as Hl. simpl in Hl. rewrite Hp in Hl. congruence.
Qed.

Lemma step_inv s s' : inv s -> step s s' -> inv s'.
Proof.
  intros Hi Hs. destruct Hs.
  - by eapply worker_inv.
  - by apply dispatch_inv.
  - eapply (frame_inv _ _ _ _ _ Hi); simpl; try done; [lia|].
    intros Hr. pose proof (released_all _ Hi Hr) as [_ Hd]. done.
  - eapply (frame_inv _ _ _ _ _ Hi); simpl; try done; lia.
  - eapply (frame_inv _ _ _ _ _ Hi); simpl; try done; [lia|..]; intros _; [by apply (i_dpast _ Hi)|by right].
  - eapply (frame_inv _ _ _ _ _ Hi); simpl; try done; [lia|..]; intros _; [by apply (i_dpast _ Hi)|by left].
  - eapply (frame_inv _ _ _ _ _ Hi); simpl; try done; [lia|apply (i_dpast _ Hi)|by left].
  - eapply (frame_inv _ _ _ _ _ Hi); simpl; try done; [lia|apply (i_dpast _ Hi)|by left].
Qed.

Lemma reachable_inv s : reachable s -> inv s.
Proof.
  intros Hr. unfold reachable in Hr. revert Hr. generalize inv_init. generalize init.
  intros s0 H0 Hr. induction Hr as [|s0 s1 s2 Hs _ IH]; [done|]. apply IH. by eapply step_inv.
Qed.

(** The client was answered once the thread with its connection went past the reply. *)
Definition replied (p : wpc) : bool :=
  match p with WFinish _ _ | WUnlock _ _ | WOut _ _ | WDone _ _ => true | _ => false end.

Definition client_ok (s : state) : Prop :=
  forall p d, wk s !! proxy_backend = Some p -> replied p = true -> decided p = Some d ->
    client (sh s) = Some d.

Lemma eff_replied lv i p s p' s' :
  wstep lv i p s p' s' -> has_proxy i = true -> replied p' = true ->
  (replied p = true /\ client s' = client s) \/ client s' = decided p'.
Proof.
  intros Hw Hp. destruct Hw; simpl; rewrite ?Hp; auto; try done. by destruct sync.
Qed.

Lemma eff_client_frame lv i p s p' s' :
  wstep lv i p s p' s' -> has_proxy i = false -> client s' = client s.
Proof. intros Hw Hp. destruct Hw; simpl; rewrite ?Hp; try done. by destruct ok. Qed.

Lemma client_ok_step s s' : client_ok s -> step s s' -> client_ok s'.
Proof.
  intros Hc Hs. destruct Hs; try done.
  - intros q d' Hq Hr Hd. simpl in *. pose proof (lookup_lt_Some _ _ _ H) as Hlt.
    destruct (has_proxy i) eqn:Ep.
    + assert (i = proxy_backend) as -> by by apply Nat.eqb_eq in Ep.
      rewrite list_lookup_insert_eq in Hq by done. injection Hq as <-.
      destruct (eff_replied _ _ _ _ _ _ H0 Ep Hr) as [[Hr' ->]| ->]; [|done].
      apply (Hc pc d' H Hr'). destruct (eff_decided _ _ _ _ _ _ H0 d' Hd) as [?|(ok & -> & _)]; done.
    + rewrite (eff_client_frame _ _ _ _ _ _ H0 Ep). apply (Hc q d'); try done.
      rewrite list_lookup_insert_ne in Hq; [done|]. intros ->. unfold has_proxy in Ep.
      by rewrite Nat.eqb_refl in Ep.
  - intros q d' Hq Hr Hd. simpl in *. apply (Hc q d'); try done.
    destruct (decide (target i = proxy_backend)) as [E|Hne].
    + rewrite E, list_lookup_insert_eq in Hq; [by injection Hq as <-|].
      rewrite <-E. by eapply lookup_lt_Some.
    + by rewrite list_lookup_insert_ne in Hq.
Qed.

Lemma client_reachable s : reachable s -> client_ok s.
Proof.
  unfold reachable. intros Hr. revert s Hr. refine (rtc_ind_r client_ok init _ _).
  - intros p d Hp. unfold init in Hp. simpl in Hp. by apply lookup_replicate in Hp as [-> _].
  - intros y z _ Hs Hy. by eapply client_ok_step.
Qed.

(** C1: agreement and validity of the two-phase commit.  As long as the client
    thread is still in [proxy_backend_query], all backend threads that have
    decided decided the same, and they commit exactly when every backend
    recorded success. *)
Theorem commit_agreement s i p d :
  reachable s -> live (disp s) = true ->
  wk s !! i = Some p -> decided p = Some d ->
  d = forallb rec_ok (wk s) /\
  (forall j q e, wk s !! j = Some q -> decided q = Some e -> e = d) /\
  (forall j e, actions (sh s) !! j = Some (Some e) -> e = d).
Proof.
  intros Hr Hl Hp Hd. pose proof (reachable_inv s Hr) as Hi.
  assert (Hall : forall j q e, wk s !! j = Some q -> decided q = Some e -> e = forallb rec_ok (wk s)).
  { intros j q e Hq He. apply (i_dec _ Hi j q e Hq He). by left. }
  rewrite (Hall i p d Hp Hd). split_and!; [done..|].
  intros j e Hj. destruct (proj2 (i_act _ Hi) j e Hj) as (q & Hq & He). eauto.
Qed.

(** C5: what the client is told.  The answer sent to the client is OK exactly
    when every backend recorded success, also after the client thread has left;
    once that thread is out of [proxy_backend_query] the client has an answer,
    unless the backend thread with the client connection had a read error: then
    the client is never answered. *)
Theorem client_answer s d :
  reachable s -> sync = true ->
  (client (sh s) = Some d -> d = forallb rec_ok (wk s)) /\
  (d_unlocked (disp s) = true ->
     client (sh s) <> None \/
     (client (sh s) = None /\
      (wk s !! proxy_backend = Some WErrWait \/ wk s !! proxy_backend = Some WDoneError))).
Proof.
  intros Hr Hsync. pose proof (reachable_inv s Hr) as Hi. split.
  - intros Hc. destruct (i_client _ Hi d Hc) as (p & Hp & Hd).
    apply (i_dec _ Hi _ p d Hp Hd). by right.
  - intros Hu. destruct (client (sh s)) eqn:Ec; [by left|]. right. split; [done|].
    destruct (lookup_lt_is_Some_2 (wk s) proxy_backend) as [p Hp].
    { rewrite (i_len _ Hi). apply target_lt. }
    pose proof (i_fin _ Hi Hu p Hp) as Hnl.
    assert (has_arrived p = true) as Ha.
    { eapply (proj1 (released_all _ Hi (i_dpast _ Hi ltac:(by destruct (disp s))))). done. }
    rewrite Hp. destruct (replied p) eqn:Erep.
    + assert (exists d', decided p = Some d') as [d' Hd'] by (destruct p; naive_solver).
      by rewrite (client_reachable s Hr p d' Hp Erep Hd') in Ec.
    + destruct p; simpl in *; auto; done.
Qed.

(** The cloning counter.  [committing] is at every moment the number of
    backend threads between the increment and the decrement, so it is zero
    again when all of them have ended. *)
Theorem committing_counts s :
  reachable s ->
  committing (sh s) = count in_commit (wk s) /\
  ((forall i p, wk s !! i = Some p -> in_commit p = false) -> committing (sh s) = 0).
Proof.
  intros Hr. pose proof (i_com _ (reachable_inv s Hr)) as Hc. split; [done|]. intros Hz.
  rewrite Hc. apply count_zero. intros p (i & Hp)%list_elem_of_lookup. eauto.
Qed.

(** The client thread passes the barrier only after every backend thread
    arrived at it.  So it never returns when a backend thread has no connection
    object, and without two-phase commit it returns only if every backend
    thread had a read error. *)
Theorem barrier_waits_for_all s i p :
  reachable s -> d_past (disp s) = true -> wk s !! i = Some p ->
  has_arrived p = true /\ p <> WDoneNoMysql /\
  (sync = false -> p = WErrWait \/ p = WDoneError).
Proof.
  intros Hr Hd Hp. pose proof (reachable_inv s Hr) as Hi.
  assert (has_arrived p = true) as Ha by by eapply (proj1 (released_all _ Hi (i_dpast _ Hi Hd))).
  split_and!; [done|by intros ->|]. intros Hs. pose proof (i_mode _ Hi i p Hp) as Hm.
  rewrite Hs in Hm. by destruct p; auto.
Qed.

(** The reply of its backend was read. *)
Definition heard (p : wpc) : option bool :=
  match p with
  | WIdle | WRun | WErrBarrier | WErrWait | WDoneNoMysql | WDoneError => None
  | WCheck ok | WOuter ok | WInner ok | WCont ok | WGo ok | WMark ok | WLock ok | WRecord ok | WBarrier ok
  | WWait ok | WDecide ok | WReply ok _ | WFinish ok _ | WUnlock ok _ | WOut ok _ | WPlain ok | WDonePlain ok | WDone ok _ => Some ok
  end.

Lemma eff_heard lv i p s p' s' ok : wstep lv i p s p' s' -> heard p = Some ok -> heard p' = Some ok.
Proof. intros Hw. destruct Hw; simpl; try done. by destruct sync. Qed.

Lemma heard_step s s' i ok :
  step s s' -> (exists p, wk s !! i = Some p /\ heard p = Some ok) -> exists p, wk s' !! i = Some p /\ heard p = Some ok.
Proof.
  intros Hs (p & Hp & Ho). destruct Hs; simpl in *; try by exists p.
  - destruct (decide (i0 = i)) as [->|Hne]; [|exists p; by rewrite list_lookup_insert_ne].
    exists pc'. rewrite list_lookup_insert_eq by (by eapply lookup_lt_Some). split; [done|]. simplify_eq. by eapply eff_heard.
  - destruct (decide (target i0 = i)) as [<-|Hne]; [by simplify_eq|]. exists p. by rewrite list_lookup_insert_ne.
Qed.

(** C39: a query for all backends hangs unless two-phase commit is switched on, which it is
    not by default.  The backend threads then go on without the barrier that the client
    thread waits at: once one backend has answered, the client thread never gets past
    it, whatever happens. *)
Theorem plain_query_hangs s s' i p ok :
  sync = false -> reachable s -> wk s !! i = Some p -> heard p = Some ok -> rtc step s s' -> d_past (disp s') = false.
Proof.
  intros Hs Hr Hp Ho Hrun. destruct (d_past (disp s')) eqn:Hd; [exfalso|done].
  assert (exists q, wk s' !! i = Some q /\ heard q = Some ok) as (q & Hq & Hoq).
  { assert (exists q, wk s !! i = Some q /\ heard q = Some ok) as H by (by exists p). clear Hp Ho Hr Hd. revert H.
    induction Hrun as [|s s1 s2 Hstep _ IH]; [done|]. intros H. apply IH. by eapply heard_step. }
  destruct (barrier_waits_for_all s' i q) as (_ & _ & [->| ->]); try done. unfold reachable in *. by etrans.
Qed.

(** ** Termination without cloning

    A quiet step starts no cloning operation and finds every connection object
    valid. *)

Definition quiet (s s' : state) : Prop :=
  step s s' /\ clone (sh s') = CIdle /\ forall i, wk s' !! i <> Some WDoneNoMysql.

Definition finished (p : wpc) : bool :=
  match p with WDoneNoMysql | WDoneError | WDonePlain _ | WDone _ _ => true | _ => false end.

Definition final (s : state) : Prop :=
  (exists e, disp s = DDone e) /\ forall i p, wk s !! i = Some p -> finished p = true.

(** The number of steps a thread still takes at most. *)
Definition rank (p : wpc) : nat :=
  match p with
  | WIdle => 16 | WRun => 15 | WErrBarrier => 2 | WErrWait => 1
  | WCheck _ => 14 | WOuter _ => 13 | WInner _ => 13 | WCont _ => 13
  | WGo _ => 12 | WMark _ => 11 | WLock _ => 10 | WRecord _ => 9 | WBarrier _ => 8
  | WWait _ => 7 | WDecide _ => 6 | WReply _ _ => 5 | WFinish _ _ => 4 | WUnlock _ _ => 3
  | WOut _ _ => 2 | WPlain _ => 1
  | WDoneNoMysql | WDoneError | WDonePlain _ | WDone _ _ => 0
  end.

Definition d_rank (d : dpc) : nat :=
  match d with DDispatch i => 4 + (n - i) | DWait => 3 | DSpin => 2 | DCheck => 1 | DDone _ => 0 end.

Definition measure (s : state) : nat := d_rank (disp s) + sum_list_with rank (wk s).

Definition waits_clone (p : wpc) : bool := match p with WInner _ | WCont _ => true | _ => false end.

(** What a quiet run keeps: no thread waits for a cloning operation, and the
    idle threads are those the loop has not reached. *)
Record quiet_inv (s : state) : Prop := {
  q_clone : clone (sh s) = CIdle;
  q_mysql : forall i, wk s !! i <> Some WDoneNoMysql;
  q_wait : forall i p, wk s !! i = Some p -> waits_clone p = false;
  q_idle : match disp s with
           | DDispatch i => (i <= n)%nat /\ forall j, (j < n)%nat -> wk s !! target j = Some WIdle <-> (i <= j)%nat
           | _ => forall k, wk s !! k <> Some WIdle
           end
}.

Lemma sum_insert (f : wpc -> nat) w i p p' :
  w !! i = Some p -> (sum_list_with f (<[i := p']> w) + f p = sum_list_with f w + f p')%nat.
Proof.
  intros (w1 & w2 & -> & <-)%lookup_middle.
  rewrite insert_app_r_alt, Nat.sub_diag by lia. simpl. rewrite !sum_list_with_app. simpl. lia.
Qed.

Lemma eff_rank lv i p s p' s' :
  wstep lv i p s p' s' -> cloning (clone s) = false -> waits_clone p = false ->
  (rank p' < rank p)%nat /\ waits_clone p' = false.
Proof.
  intros Hw Hc Hp. destruct Hw; simpl in *; try done; try (split; [lia|done]); try congruence.
  destruct sync; simpl; split; try done; lia.
Qed.

Lemma eff_clone lv i p s p' s' : wstep lv i p s p' s' -> clone s' = clone s.
Proof. intros Hw. destruct Hw; simpl; try done; by repeat case_match. Qed.

Lemma quiet_step s s' : length (wk s) = n -> quiet_inv s -> quiet s s' -> quiet_inv s' /\ (measure s' < measure s)%nat.
Proof.
  intros Hlen [Hc Hm Hw Hidle] (Hs & Hc' & Hm'). unfold measure.
  destruct Hs; simpl in *; try congruence.
  - destruct (eff_not_idle _ _ _ _ _ _ H0) as [Hn1 Hn2]. pose proof (lookup_lt_Some _ _ _ H) as Hlt.
    destruct (eff_rank _ _ _ _ _ _ H0) as [Hrk Hwc]; [by rewrite Hc|by apply (Hw i)|].
    assert (Hsame : forall k, <[i := pc']> w !! k = Some WIdle <-> w !! k = Some WIdle).
    { intros k. destruct (decide (i = k)) as [<-|Hne].
      - rewrite list_lookup_insert_eq by done. naive_solver.
      - by rewrite list_lookup_insert_ne. }
    split; [|pose proof (sum_insert rank _ _ _ pc' H); lia]. split; simpl; try done.
    + intros k q Hk. destruct (decide (i = k)) as [<-|Hne].
      * rewrite list_lookup_insert_eq in Hk by done. by simplify_eq.
      * rewrite list_lookup_insert_ne in Hk by done. by apply (Hw k).
    + destruct d; [|intros k; rewrite Hsame; apply Hidle..].
      destruct Hidle as [? Hj]. split; [done|]. intros j Hjn. rewrite Hsame. by apply Hj.
  - destruct Hidle as [Hin Hj]. pose proof (lookup_lt_Some _ _ _ H0) as Hlt.
    split; [|pose proof (sum_insert rank _ _ _ WRun H0); simpl in *; lia]. split; simpl; try done.
    + intros k q Hk. destruct (decide (target i = k)) as [<-|Hne].
      * rewrite list_lookup_insert_eq in Hk by done. by simplify_eq.
      * rewrite list_lookup_insert_ne in Hk by done. by apply (Hw k).
    + split; [lia|]. intros j Hjn. destruct (decide (j = i)) as [->|Hne].
      * rewrite list_lookup_insert_eq by done. split; [done|lia].
      * rewrite list_lookup_insert_ne; [|intros E%target_inj; [by destruct Hne|lia|done..]].
        rewrite Hj by done. lia.
  - split; [|lia]. split; simpl; try done. intros k Hk.
    destruct Hidle as [_ Hj]. destruct (target_surj k ltac:(lia)) as (j & Hjn & <-).
    { rewrite <-Hlen. by eapply lookup_lt_Some. }
    apply Hj in Hk; lia.
  - split; [|lia]. by split.
  - split; [|lia]. by split.
  - split; [|lia]. by split.
Qed.

(** The program counters from which a thread can always go on. *)
Definition ready (p : wpc) : bool :=
  match p with WIdle | WErrWait | WWait _ => false | _ => negb (finished p) end.

Lemma worker_ready s d w i p :
  inv (State s d w) -> w !! i = Some p ->
  ready p = true \/ (released s = true /\ p <> WIdle /\ finished p = false) ->
  exists p' s', wstep (live d) i p s p' s' /\ p' <> WDoneNoMysql.
Proof.
  intros Hi Hp Hr. pose proof (lookup_lt_Some _ _ _ Hp) as Hlt.
  pose proof (i_len _ Hi) as Hl. simpl in Hl.
  assert (exists p' s', wexec (live d) i RSuccess true p s = Some (p', s') /\ p' <> WDoneNoMysql)
    as (p' & s' & E & Hne); [|exists p', s'; split; [by eapply wexec_sound|done]].
  destruct p; simpl in *; try (destruct Hr as [?|(->&?&?)]; done || (by eexists _, _));
    try (by repeat case_match; eexists _, _);
    try (by destruct Hr as [?|(_ & ? & ?)]).
  - destruct (has_proxy i) eqn:Ep; [|by eexists _, _].
    pose proof (i_lock _ Hi) as Hc. simpl in Hc. apply Nat.eqb_eq in Ep. rewrite <-Ep, Hp in Hc.
    rewrite Hc. by eexists _, _.
  - rewrite result_bit_pow by lia. by eexists _, _.
  - rewrite full_mask_ones by lia. by case_match; eexists _, _.
Qed.

Lemma quiet_worker s d w i p :
  inv (State s d w) -> quiet_inv (State s d w) -> w !! i = Some p ->
  ready p = true \/ (released s = true /\ p <> WIdle /\ finished p = false) ->
  exists s', quiet (State s d w) s'.
Proof.
  intros Hi Hq Hp Hr. destruct (worker_ready s d w i p Hi Hp Hr) as (p' & s' & Hw & Hne).
  exists (State s' d (<[i := p']> w)). split_and!; simpl.
  - by econstructor.
  - rewrite (eff_clone _ _ _ _ _ _ Hw). apply (q_clone _ Hq).
  - intros k Hk. destruct (decide (i = k)) as [<-|Hn'].
    + rewrite list_lookup_insert_eq in Hk by (by eapply lookup_lt_Some). naive_solver.
    + rewrite list_lookup_insert_ne in Hk by done. by apply (q_mysql _ Hq k).
Qed.

(** Some thread that is not finished exists, or all are. *)
Lemma find_worker (f : wpc -> bool) (w : list wpc) :
  (forall i p, w !! i = Some p -> f p = true) \/ exists i p, w !! i = Some p /\ f p = false.
Proof.
  destruct (forallb f w) eqn:E.
  - left. by apply forallb_elem.
  - right. apply not_true_iff_false in E. rewrite forallb_elem in E.
    destruct (decide (Exists (fun p => f p = false) w)) as [He|Hne].
    + apply Exists_exists in He as (p & (i & Hp)%list_elem_of_lookup & Hf). eauto.
    + exfalso. apply E. intros i p Hp. destruct (f p) eqn:Ef; [done|]. exfalso. apply Hne.
      apply Exists_exists. exists p. split; [|done]. apply list_elem_of_lookup. eauto.
Qed.

(** A query that is not over can go on. *)
Lemma quiet_progress s :
  sync = true -> inv s -> quiet_inv s -> final s \/ exists s', quiet s s'.
Proof.
  intros Hs Hi Hq. destruct s as [s d w].
  assert (Hd : forall s' d', step (State s d w) (State s' d' w) -> clone s' = clone s ->
    exists x, quiet (State s d w) x).
  { intros s' d' Hst Hc. eexists. split_and!; [done| |apply (q_mysql _ Hq)].
    simpl. rewrite Hc. apply (q_clone _ Hq). }
  destruct (find_worker (fun p => negb (ready p)) w) as [Hnr|(i & p & Hp & Hf)].
  2: { right. apply negb_false_iff in Hf. by eapply (quiet_worker s d w i p); auto. }
  assert (Hrel : released s = true -> (forall k, w !! k <> Some WIdle) ->
    (exists x, quiet (State s d w) x) \/ forall i p, w !! i = Some p -> finished p = true).
  { intros Hr Hni. destruct (find_worker finished w) as [?|(i & p & Hp & Hf)]; [by right|]. left.
    eapply (quiet_worker s d w i p); auto. right. split_and!; [done| |done]. intros ->. by eapply Hni. }
  pose proof (q_idle _ Hq) as Hidle. pose proof (q_wait _ Hq) as Hw. simpl in Hidle, Hw.
  destruct d as [i| | | |e].
  - right. destruct Hidle as [Hin Hj]. destruct (decide (i = n)) as [->|Hne].
    + by eapply Hd; [constructor|].
    + eexists. split_and!; [apply s_dispatch; [lia|apply Hj; lia]|apply (q_clone _ Hq)|].
      intros k Hk. simpl in Hk. destruct (decide (target i = k)) as [<-|?].
      * rewrite list_lookup_insert_eq in Hk; [done|]. eapply lookup_lt_Some. by apply Hj; [lia|].
      * rewrite list_lookup_insert_ne in Hk by done. by apply (q_mysql _ Hq k).
  - right. eapply Hd; [apply s_released|done]. unfold released. apply Z.eqb_eq.
    pose proof (i_arr _ Hi) as Ha. simpl in Ha. rewrite Ha. f_equal.
    pose proof (i_len _ Hi) as Hl. simpl in Hl.
    assert (Hall : forall i p, w !! i = Some p -> has_arrived p = true).
    { intros i p Hp. pose proof (Hnr i p Hp) as Hf. pose proof (Hidle i) as Hni.
      pose proof (q_mysql _ Hq i) as Hm. simpl in Hm.
      pose proof (i_mode _ Hi i p Hp) as Hmd. rewrite Hs in Hmd.
      destruct p; simpl in *; congruence || done. }
    rewrite <-Hl. unfold count. f_equal.
    rewrite (List.forallb_filter_id has_arrived w); [done|]. by apply forallb_elem.
  - destruct (Hrel (i_dpast _ Hi eq_refl) Hidle) as [?|Hf]; [by right|]. right.
    eapply Hd; [apply s_spin|done]. pose proof (i_lock _ Hi) as Hl. simpl in Hl. rewrite Hl.
    destruct (w !! proxy_backend) as [p|] eqn:Ep; [|done]. apply Hf in Ep. by destruct p.
  - right. eapply Hd; [apply s_check|done].
  - destruct (Hrel (i_dpast _ Hi eq_refl) Hidle) as [?|Hf]; [by right|]. left. split; [by exists e|done].
Qed.

Lemma quiet_init : quiet_inv init.
Proof.
  split; simpl; [done|..].
  - intros i Hi. by apply lookup_replicate in Hi as [? _].
  - intros i p Hi. by apply lookup_replicate in Hi as [-> _].
  - split; [lia|]. intros j Hj. split; [lia|]. intros _. apply lookup_replicate. split; [done|apply target_lt].
Qed.

Lemma quiet_reachable s : rtc quiet init s -> inv s /\ quiet_inv s.
Proof.
  revert s. refine (rtc_ind_r (fun s => inv s /\ quiet_inv s) init _ _).
  - split; [apply inv_init|apply quiet_init].
  - intros x y _ Hxy [Hi Hq]. split; [by eapply step_inv; [|apply Hxy]|].
    by apply (quiet_step x y (i_len _ Hi) Hq Hxy).
Qed.

(** C2: termination of the two-phase commit.  Without cloning operations and
    with valid connection objects, every run of a query on up to 30 backends,
    whatever the backends reply and however the threads are scheduled, is
    finite, and when nothing more can run the client thread and all backend
    threads have ended. *)
Theorem query_terminates s :
  sync = true -> rtc quiet init s -> sn quiet s /\ (nf quiet s -> final s).
Proof.
  intros Hs Hr. split.
  - remember (measure s) as m eqn:Em. revert s Hr Em.
    induction (lt_wf m) as [m _ IH]. intros s Hr ->. constructor. intros s' Hq.
    destruct (quiet_reachable s Hr) as [Hi Hqi].
    apply (IH (measure s')); [by apply (quiet_step s s' (i_len _ Hi) Hqi Hq)|by eapply rtc_r|done].
  - intros Hnf. destruct (quiet_reachable s Hr) as [Hi Hqi].
    destruct (quiet_progress s Hs Hi Hqi) as [?|[s' ?]]; [done|]. destruct Hnf. by exists s'.
Qed.

End invariant.
End system.

(** ** Runs of two backends

    Backend 1 gets the client connection ([start] is 0). *)

Definition w_ok (i : nat) : move := MWorker i RSuccess true.
Definition run2 (sync : bool) (l : list move) : option state := execs 2 sync 0 l (init 2).

(** Both threads succeed and wait on the barrier. *)
Definition both_wait : list move :=
  [MDispatcher; MDispatcher] ++ replicate 8 (w_ok 1) ++ replicate 7 (w_ok 0) ++ [MDispatcher].

(** A run to the end: commit, then the client thread returns. *)
Definition both_commit : list move :=
  both_wait ++ replicate 6 (w_ok 1) ++ replicate 6 (w_ok 0) ++ replicate 3 MDispatcher.

Lemma run2_reachable sync l s : run2 sync l = Some s -> reachable 2 sync 0 s.
Proof. apply execs_steps. Qed.

(** The state at the end of a run that is known to exist. *)
Definition end_of (sync : bool) (l : list move) : state := default (init 2) (run2 sync l).

Lemma end_reachable sync l : is_Some (run2 sync l) -> reachable 2 sync 0 (end_of sync l).
Proof. intros [s Hs]. apply run2_reachable with l. unfold end_of. by rewrite Hs. Qed.

Lemma commit_agreement_witness :
  let s := end_of true (both_wait ++ replicate 5 (w_ok 1)) in
  forallb rec_ok (wk s) = true /\ actions (sh s) !! 1%nat = Some (Some true).
Proof.
  simpl. destruct (commit_agreement 2 true 0 ltac:(lia) (end_of true (both_wait ++ replicate 5 (w_ok 1)))
    1 (WOut true true) true) as [H _].
  - apply end_reachable. vm_compute. eauto.
  - vm_compute. reflexivity.
  - vm_compute. reflexivity.
  - vm_compute. reflexivity.
  - split; [symmetry; exact H|vm_compute; reflexivity].
Defined.

Lemma client_answer_witness :
  client (sh (end_of true both_commit)) = Some true /\ disp (end_of true both_commit) = DDone false.
Proof.
  destruct (client_answer 2 true 0 ltac:(lia) (end_of true both_commit) true) as [_ H].
  - apply end_reachable. vm_compute. eauto.
  - reflexivity.
  - split; vm_compute; reflexivity.
Defined.

Lemma committing_counts_witness : committing (sh (end_of true both_wait)) = 2.
Proof.
  destruct (committing_counts 2 true 0 ltac:(lia) (end_of true both_wait)) as [H _].
  - apply end_reachable. vm_compute. eauto.
  - rewrite H. vm_compute. reflexivity.
Defined.

Lemma barrier_waits_for_all_witness : has_arrived (WDone true true) = true.
Proof.
  refine (proj1 (barrier_waits_for_all 2 true 0 ltac:(lia) (end_of true both_commit) 0 (WDone true true) _ _ _)).
  - apply end_reachable. vm_compute. eauto.
  - vm_compute. reflexivity.
  - vm_compute. reflexivity.
Defined.

(** Both backends answer, their threads end, and the client thread waits. *)
Definition plain_run : list move := replicate 6 (w_ok 0) ++ replicate 4 (w_ok 1) ++ [MDispatcher].

Lemma plain_query_hangs_witness :
  let s := end_of false [MDispatcher; MDispatcher; w_ok 1] in
  let s' := default s (execs 2 false 0 plain_run s) in
  disp s' = DWait /\ wk s' = [WDonePlain true; WDonePlain true] /\ d_past (disp s') = false.
Proof.
  cbv zeta. split; [vm_compute; reflexivity|]. split; [vm_compute; reflexivity|].
  apply (plain_query_hangs 2 false 0 ltac:(lia) (end_of false [MDispatcher; MDispatcher; w_ok 1]) _ 1 (WCheck true) true).
  - reflexivity.
  - apply end_reachable. vm_compute. eauto.
  - vm_compute. reflexivity.
  - reflexivity.
  - apply (execs_steps 2 false 0 plain_run). vm_compute. reflexivity.
Defined.

(** C38: a backend may do the opposite of what the client was told.  The client
    thread waits only for the thread with the client connection; the results
    live on its stack, and the other backend thread may read them after that
    thread returned.  In a run with two successful backends the client is
    answered OK and one backend commits while the other rolls back. *)
Theorem dangling_results_disagree :
  exists s, reachable 2 true 0 s /\ disp s = DDone false /\ client (sh s) = Some true /\
    actions (sh s) = [Some false; Some true].
Proof.
  exists (end_of true (both_wait ++ replicate 5 (w_ok 1) ++ replicate 3 MDispatcher
                ++ replicate 4 (MWorker 0 RSuccess false))).
  split; [apply end_reachable; vm_compute; eauto|]. vm_compute. done.
Qed.

(** A cloning operation may run while a query is in its commit phase: a
    thread that saw [cloning] unset increments [committing] only after the
    cloning operation saw it zero. *)
Theorem cloning_during_commit :
  exists s, reachable 2 true 0 s /\ clone (sh s) = CRun /\ 0 < committing (sh s).
Proof.
  exists (end_of true ([MDispatcher] ++ replicate 3 (w_ok 1) ++ [MCloneStart; MCloneRun; w_ok 1])).
  split; [apply end_reachable; vm_compute; eauto|]. vm_compute. done.
Qed.

(** One thread waits on the barrier, the other for the end of the cloning. *)
Definition jammed (s : state) : Prop :=
  disp s = DWait /\ clone (sh s) = CWait /\ committing (sh s) = 1 /\ arrived (sh s) = 2 /\
  commit_committing (sh s) = false /\
  exists p, wk s = [p; WWait true] /\ (p = WCheck true \/ p = WOuter true \/ p = WInner true \/ p = WCont true).

Lemma jammed_step s s' : jammed s -> step 2 true 0 s s' -> jammed s'.
Proof.
  intros (Hd & Hc & Hcm & Ha & Hcc & p & Hw & Hp) Hs.
  destruct Hs; simpl in *; simplify_eq/=; try congruence.
  - destruct i as [|[|i]]; simpl in *; simplify_eq.
    + assert (s' = s /\ (pc' = WCheck true \/ pc' = WOuter true \/ pc' = WInner true \/ pc' = WCont true))
        as [-> Hpc'].
      { destruct Hp as [-> | [-> | [-> | ->]]]; inversion H0; subst; try congruence; auto.
        by rewrite Hc in *. }
      unfold jammed. simpl. eauto 10.
    + inversion H0; subst. unfold released in *. rewrite Ha in *. done.
  - unfold released in *. rewrite Ha in *. done.
Qed.

(** A cloning operation can hang together with a query.  The dispatch loop
    clears [commit->committing] once more for each backend; if the first
    thread is already in its commit phase when the second is dispatched and a
    cloning operation starts, the cloning operation waits for the first thread, the
    first for the second, and the second for the end of the cloning: none of
    them ever goes on. *)
Theorem committing_reset_deadlock :
  exists s, reachable 2 true 0 s /\
    forall s', rtc (step 2 true 0) s s' -> disp s' = DWait /\ clone (sh s') = CWait /\ client (sh s') = None.
Proof.
  set (l := [MDispatcher] ++ replicate 8 (w_ok 1) ++ [MDispatcher; MCloneStart; MDispatcher; w_ok 0]).
  exists (end_of true l).
  assert (Hr : reachable 2 true 0 (end_of true l)) by (apply end_reachable; vm_compute; eauto).
  split; [done|]. intros s' Hs'.
  assert (Hj : jammed s').
  { clear Hr. revert s' Hs'. refine (rtc_ind_r jammed _ _ _).
    - unfold jammed. vm_compute. eauto 20.
    - intros x y _ Hxy Hx. by eapply jammed_step. }
  split_and!; [apply Hj|apply Hj|]. destruct (client (sh s')) as [d|] eqn:Ec; [|done].
  assert (Hi : inv 2 true 0 s').
  { apply reachable_inv; [lia|]. unfold reachable in *. by etrans. }
  destruct (i_client _ _ _ _ Hi d Ec) as (q & Hq & Hd).
  destruct Hj as (_ & _ & _ & _ & _ & p & Hw & _). rewrite Hw in Hq. by simplify_eq/=.
Qed.

Lemma query_terminates_witness : sn (quiet 2 true 0) (init 2).
Proof. apply (query_terminates 2 true 0 ltac:(lia) (init 2)); reflexivity. Defined.

(** The limit of the bit set.  The expressions that compute a backend's bit
    and the full set are defined for up to 30 backends, and shift out of the
    range of [int] from 31 backends on. *)
Theorem result_mask_limit k :
  1 <= k -> if k <=? 30 then full_mask k = Ret (2 ^ k - 1) /\ forall i, 0 <= i < k -> result_bit i = Ret (2 ^ i)
            else full_mask k = Undef.
Proof.
  intros Hk. destruct (Z.leb_spec k 30).
  - split; [|intros i Hi; by apply result_bit_pow; lia].
    rewrite full_mask_ones by lia. by rewrite Z.ones_equiv, <-Z.sub_1_r.
  - unfold full_mask, int_shl. destruct (Z.leb_spec 0 (k - 1)); [|done]. simpl.
    assert (2 ^ 30 <= 2 ^ (k - 1)) by (apply Z.pow_le_mono_r; lia).
    destruct (Z.leb_spec (2 * 2 ^ (k - 1)) INT_MAX); [|done]. unfold INT_MAX in *. lia.
Qed.

Lemma result_mask_limit_witness : full_mask 3 = Ret 7 /\ full_mask 31 = Undef.
Proof.
  split.
  - apply (result_mask_limit 3). lia.
  - apply (result_mask_limit 31). lia.
Defined.
