(* ===== verification/Wire.v ===== *)
(** * Packets sent to a client
      (src/src/proxy_net.c, src/src/proxy_net.h, src/src/proxy_cmd.c)

    The encodings of the MySQL protocol (the length-encoded integers and the
    two-byte and four-byte integers) and the functions that write a packet belong
    to the MySQL client library: the former are the parameters of the class
    [Protocol], with the documented laws the proxy relies on in [ProtocolLaws];
    of the latter a connection records every call and takes the result from a
    script. *)

From S2P Require Import Prelude CString Status.
Local Open Scope Z_scope.

(** ** Encodings of the client library

    A decoder gets the bytes from the current position on and is undefined when
    it reads past them. *)

Class Protocol := {
  net_store_length : Z -> list Z;
  net_field_length : list Z -> outcome (Z * list Z);
  net_field_length_ll : list Z -> outcome (Z * list Z);
  int2store : Z -> list Z;
  int4store : Z -> list Z;
  uint2korr : list Z -> outcome Z
}.

Class ProtocolLaws `{Protocol} := {
  store_length_small n : 0 <= n < 251 -> net_store_length n = [n];
  field_length_store n rest :
    0 <= n < 2 ^ 32 -> net_field_length (net_store_length n ++ rest) = Ret (n, rest);
  field_length_ll_store n rest :
    0 <= n < 2 ^ 64 -> net_field_length_ll (net_store_length n ++ rest) = Ret (n, rest);
  uint2korr_store v rest : uint2korr (int2store v ++ rest) = Ret (v mod 2 ^ 16);
  int2store_length v : length (int2store v) = 2%nat
}.

(** Constants of the MySQL headers. *)
Definition NULL_LENGTH : Z := 2 ^ 64 - 1.
Definition MYSQL_ERRMSG_SIZE : Z := 512.
Definition FIELD_TYPE_VAR_STRING : Z := 253.
Definition NOT_NULL_FLAG : Z := 1.

(** [LONG_LEN] on a machine with 64-bit [long]s. *)
Definition LONG_LEN : Z := 20.

(** ** Connections *)

(** The calls of the client library that write to a connection. *)
Inductive net_call :=
| CWrite (packet : list Z)                (* my_net_write *)
| CCommand (command : Z) (data : list Z)  (* net_write_command with an empty header *)
| CFlush.                                 (* net_flush *)

(** [results] are the results of the calls to come, [true] for an error; calls
    past its end succeed. *)
Record MYSQL := Mysql {
  vio : bool;
  server_status : Z;
  results : list bool;
  calls : list (net_call * bool)
}.

Definition net_do (c : net_call) (m : MYSQL) : bool * MYSQL :=
  let r := match results m with [] => false | r :: _ => r end in
  (r, Mysql (vio m) (server_status m) (tail (results m)) (calls m ++ [(c, r)])).

(** The packet a call sends. *)
Definition payload (c : net_call) : list (list Z) :=
  match c with CWrite p => [p] | CCommand k p => [k :: p] | CFlush => [] end.

(** The packets that were written, in order. *)
Definition written (m : MYSQL) : list (list Z) :=
  mjoin ((fun x : net_call * bool => if snd x then [] else payload (fst x)) <$> calls m).

(** A connection on which every call succeeds. *)
Definition good (m : MYSQL) : Prop := results m = [].

Lemma good_do c m : good m -> good (snd (net_do c m)) /\ fst (net_do c m) = false.
Proof. unfold good, net_do. simpl. by intros ->. Qed.

Lemma calls_do c m : calls (snd (net_do c m)) = calls m ++ [(c, fst (net_do c m))].
Proof. done. Qed.

Lemma written_do c m :
  written (snd (net_do c m)) = written m ++ if fst (net_do c m) then [] else payload c.
Proof.
  unfold written. rewrite calls_do, fmap_app, join_app. simpl. by rewrite app_nil_r.
Qed.

(** A call has failed. *)
Definition failed (m : MYSQL) : bool := existsb snd (calls m).

(** What calls on a good connection keep. *)
Definition serves (m m' : MYSQL) : Prop := good m' /\ vio m' = vio m /\ failed m' = failed m.

Lemma serves_do c m : good m -> serves m (snd (net_do c m)).
Proof.
  intros Hg. unfold serves, failed. rewrite calls_do, existsb_app, (proj2 (good_do c m Hg)). simpl.
  rewrite !orb_false_r. split; [by apply good_do|done].
Qed.

Lemma serves_trans m1 m2 m3 : serves m1 m2 -> serves m2 m3 -> serves m1 m3.
Proof. intros (_ & V1 & F1) (? & V2 & F2). split_and!; [done|congruence..]. Qed.

Lemma serves_refl m : good m -> serves m m.
Proof. intros Hg. by split. Qed.

#[global] Opaque net_do.

(** [proxy_net_flush]: the object may be NULL. *)
Definition proxy_net_flush (proxy : option MYSQL) : bool * option MYSQL :=
  match proxy with
  | Some m => let '(r, m) := net_do CFlush m in (r, Some m)
  | None => (false, None)
  end.

(** The same on an object that is not NULL. *)
Definition net_flush (m : MYSQL) : bool * MYSQL := net_do CFlush m.

Section packets.
Context `{Protocol}.

(** ** OK, error and EOF packets *)

Definition ok_packet (m : MYSQL) (warnings affected_rows last_insert_id : Z) : list Z :=
  [0] ++ net_store_length affected_rows ++ net_store_length last_insert_id
  ++ int2store (server_status m) ++ int2store (Z.min warnings 65535).

Definition proxy_net_send_ok (m : MYSQL) (warnings affected_rows last_insert_id : Z) : bool * MYSQL :=
  let '(e, m1) := net_do (CWrite (ok_packet m warnings affected_rows last_insert_id)) m in
  if e then (true, m1) else net_flush m1.

(** With [PROTOCOL_VERSION] 10 the error number precedes the message, which
    [strmake] cuts. *)
Definition error_packet (sql_errno : Z) (err : list Z) : list Z :=
  int2store sql_errno ++ take (Z.to_nat (MYSQL_ERRMSG_SIZE - 1)) err.

Definition proxy_net_send_error (m : MYSQL) (sql_errno : Z) (err : list Z) : bool * MYSQL :=
  if negb (vio m) then (false, m)
  else net_do (CCommand 255 (error_packet sql_errno err)) m.

Definition eof_packet : list Z := [254] ++ int2store 0 ++ int2store 0.

Definition proxy_net_send_eof (m : MYSQL) (status : status_t) : MYSQL * status_t :=
  let m := snd (net_do (CWrite eof_packet) m) in
  (snd (net_flush m), add_sent (zlength eof_packet) status).

(** ** Result sets of PROXY commands *)

Definition net_store_data (from : list Z) : list Z := net_store_length (zlength from) ++ from.

(** [system_charset_info->number] *)
Variable charset_number : Z.

Definition field_packet (name org_name : list Z) : list Z :=
  net_store_data (str "def") ++ net_store_data [] ++ net_store_data (str "STATUS") ++ net_store_data []
  ++ net_store_data name ++ net_store_data org_name
  ++ [12] ++ int2store charset_number ++ int4store 1024 ++ [FIELD_TYPE_VAR_STRING]
  ++ int2store NOT_NULL_FLAG ++ [0] ++ int2store 0.

Definition send_status_field (m : MYSQL) (name org_name : list Z) (status : status_t) : MYSQL * status_t :=
  let p := field_packet name org_name in
  let m := snd (net_do (CWrite p) m) in
  (snd (net_flush m), add_sent (zlength p) status).

(** The buffer [val] after [snprintf(val, LONG_LEN, "%lu", value)], and the value
    returned: the length before the cut. *)
Definition snprintf_lu (size value : Z) : list Z * Z :=
  let s := fmt_lu value in
  (take (Z.to_nat (size - 1)) s ++ [NUL], zlength s).

Definition row_packet (name : list Z) (value : Z) : list Z :=
  let '(val, len) := snprintf_lu LONG_LEN value in
  net_store_data name ++ net_store_length len ++ take (Z.to_nat len) val.

Definition add_row (m : MYSQL) (name : list Z) (value : Z) (status : status_t) : MYSQL * status_t :=
  let p := row_packet name value in
  (snd (net_do (CWrite p) m), add_sent (zlength p) status).

Definition net_result_header (m : MYSQL) (nfields : Z) (status : status_t) : MYSQL * status_t :=
  let p := net_store_length nfields ++ net_store_length 0 in
  (snd (net_do (CWrite p) m), add_sent (zlength p) status).

(** ** Reading an OK packet

    What [backend_query] saves from the reply of a backend for the answer to the
    client: field count, affected rows, insert id, server status, warnings. *)

Definition read_ok_header (read_pos : list Z) : outcome (Z * Z * Z * Z * Z) :=
  '(field_count, pos) ← net_field_length_ll read_pos;
  '(affected_rows, pos) ← net_field_length_ll pos;
  '(insert_id, pos) ← net_field_length_ll pos;
  server_status ← uint2korr pos;
  warnings ← uint2korr (drop 2 pos);
  Ret (field_count, affected_rows, insert_id, server_status, warnings).

Context `{!ProtocolLaws}.

Lemma read_ok_packet m warnings rows id :
  0 <= warnings -> 0 <= rows < 2 ^ 64 -> 0 <= id < 2 ^ 64 ->
  read_ok_header (ok_packet m warnings rows id) =
  Ret (0, rows, id, server_status m mod 2 ^ 16, Z.min warnings 65535).
Proof.
  intros Hw Hr Hi. unfold read_ok_header, ok_packet.
  rewrite <-(store_length_small 0) by lia. rewrite field_length_ll_store by lia. simpl.
  rewrite field_length_ll_store by lia. simpl. rewrite field_length_ll_store by lia. simpl.
  rewrite uint2korr_store. simpl. rewrite drop_app_length' by (by rewrite int2store_length).
  rewrite <-(app_nil_r (int2store (Z.min _ _))), uint2korr_store. simpl.
  rewrite (Z.mod_small (Z.min warnings 65535)); [done|]. lia.
Qed.

(** On a good connection the packet is written. *)
Lemma send_ok_good m warnings rows id :
  good m -> exists m', proxy_net_send_ok m warnings rows id = (false, m') /\ serves m m' /\
    written m' = written m ++ [ok_packet m warnings rows id].
Proof.
  intros Hg. unfold proxy_net_send_ok, net_flush. set (p := ok_packet m warnings rows id).
  pose proof (good_do (CWrite p) m Hg) as [Hg1 Hok]. pose proof (written_do (CWrite p) m) as Hw. pose proof (serves_do (CWrite p) m Hg) as Hv.
  destruct (net_do (CWrite p) m) as [e m1]. simpl in *. subst e.
  pose proof (good_do CFlush m1 Hg1) as [Hg2 Hok2]. pose proof (written_do CFlush m1) as Hw2.
  pose proof (serves_do CFlush m1 Hg1) as Hv2.
  destruct (net_do CFlush m1) as [e m2]. simpl in *. subst e. exists m2. rewrite Hw2, app_nil_r. split_and!; [done| |done]. by eapply serves_trans.
Qed.

Lemma send_error_good m code err :
  good m -> vio m = true -> exists m', proxy_net_send_error m code err = (false, m') /\ good m' /\
    written m' = written m ++ [255 :: error_packet code err].
Proof.
  intros Hg Hv. unfold proxy_net_send_error. rewrite Hv. simpl. set (c := CCommand 255 _).
  pose proof (good_do c m Hg) as [Hg1 Hok]. pose proof (written_do c m) as Hw.
  destruct (net_do c m) as [e m1]. simpl in *. subst e. eauto.
Qed.

(** An encoded length is not empty. *)
Lemma store_length_nonempty n : 0 <= n < 2 ^ 32 -> (1 <= length (net_store_length n))%nat.
Proof.
  intros Hn. destruct (net_store_length n) as [|b l] eqn:E; [|simpl; lia]. exfalso.
  pose proof (field_length_store n [0] Hn) as H1. rewrite E in H1.
  pose proof (field_length_store 0 [] ltac:(lia)) as H2. rewrite store_length_small in H2 by lia.
  simpl in *. congruence.
Qed.

(** Decoding a row of two columns: a length and that many bytes, twice. *)
Definition read_column (p : list Z) : outcome (list Z * list Z) :=
  '(len, p) ← net_field_length p;
  if len <=? zlength p then Ret (take (Z.to_nat len) p, drop (Z.to_nat len) p) else Undef.

Definition read_row (p : list Z) : outcome (list Z * list Z * list Z) :=
  '(name, p) ← read_column p; '(value, p) ← read_column p; Ret (name, value, p).

Lemma read_column_data s rest :
  zlength s < 2 ^ 32 -> read_column (net_store_data s ++ rest) = Ret (s, rest).
Proof.
  intros Hs. unfold read_column, net_store_data. rewrite <-app_assoc.
  rewrite field_length_store by (unfold zlength in *; lia). simpl.
  unfold zlength in *. rewrite length_app.
  destruct (Z.leb_spec (Z.of_nat (length s)) (Z.of_nat (length s + length rest))); [|lia].
  rewrite Nat2Z.id, take_app_length, drop_app_length. done.
Qed.

(** The OK packet round trip.  What [backend_query] reads from an OK packet
    that [proxy_net_send_ok] wrote are the values it was given (the two-byte
    fields reduced to their width, the warnings capped at 65535): a proxy in front of
    another proxy passes the right counts on to the client. *)
Theorem ok_packet_roundtrip m warnings rows id :
  good m -> 0 <= warnings -> 0 <= rows < 2 ^ 64 -> 0 <= id < 2 ^ 64 ->
  exists p, fst (proxy_net_send_ok m warnings rows id) = false /\
    written (snd (proxy_net_send_ok m warnings rows id)) = written m ++ [p] /\
    read_ok_header p = Ret (0, rows, id, server_status m mod 2 ^ 16, Z.min warnings 65535).
Proof.
  intros Hg Hw Hr Hi. destruct (send_ok_good m warnings rows id Hg) as (m' & -> & _ & Hw').
  exists (ok_packet m warnings rows id). split_and!; [done..|by apply read_ok_packet].
Qed.

(** A row of PROXY STATUS: a client that decodes the row gets the name and
    the decimal digits of the value, for every value of at most 19 digits; the
    last digit of a value of 20 digits is replaced by a NUL byte. *)
Lemma status_row_decodes name value :
  zlength name < 2 ^ 32 -> 0 <= value < 2 ^ 64 ->
  read_row (row_packet name value) =
  Ret (name, if zlength (fmt_lu value) <=? 19 then fmt_lu value else take 19 (fmt_lu value) ++ [NUL], []).
Proof.
  intros Hn Hv. unfold read_row, row_packet, snprintf_lu.
  pose proof (fmt_lu_length value) as Hl. revert Hl. generalize (fmt_lu value). intros s Hl.
  rewrite read_column_data by done. simpl. change (Z.to_nat (LONG_LEN - 1)) with 19%nat.
  assert (Ed : take (Z.to_nat (zlength s)) (take 19 s ++ [NUL]) =
    if zlength s <=? 19 then s else take 19 s ++ [NUL]).
  { unfold zlength in *. rewrite Nat2Z.id. destruct (Z.leb_spec (Z.of_nat (length s)) 19).
    - rewrite (take_ge s 19) by lia. by rewrite take_app_length.
    - rewrite take_ge; [done|]. rewrite length_app, length_take. cbn [length]. lia. }
  rewrite Ed. clear Ed.
  assert (El : zlength (if zlength s <=? 19 then s else take 19 s ++ [NUL]) = zlength s).
  { unfold zlength in *. destruct (Z.leb_spec (Z.of_nat (length s)) 19); [done|].
    rewrite length_app, length_take. cbn [length]. lia. }
  set (d := if zlength s <=? 19 then s else take 19 s ++ [NUL]) in *.
  rewrite <-El. fold (net_store_data d). rewrite <-(app_nil_r (net_store_data d)).
  rewrite read_column_data by lia. done.
Qed.

End packets.

(** ** An encoding that satisfies the laws *)

Module Encoding.

Fixpoint le_enc (k : nat) (n : Z) : list Z :=
  match k with O => [] | S k => n mod 256 :: le_enc k (n / 256) end.

Definition le_val (l : list Z) : Z := foldr (fun b a => b + 256 * a) 0 l.

Definition read_le (k used : nat) (p : list Z) : outcome (Z * list Z) :=
  if (used <=? length p)%nat then Ret (le_val (take k p), drop used p) else Undef.

Definition field_length (wide : nat) (p : list Z) : outcome (Z * list Z) :=
  match p with
  | [] => Undef
  | b :: p =>
      if b <? 251 then Ret (b, p)
      else if b =? 251 then Ret (NULL_LENGTH, p)
      else if b =? 252 then read_le 2 2 p
      else if b =? 253 then read_le 3 3 p
      else read_le wide 8 p
  end.

#[export] Instance mysql : Protocol := {
  net_store_length n :=
    if n <? 251 then [n] else if n <? 2 ^ 16 then 252 :: le_enc 2 n
    else if n <? 2 ^ 24 then 253 :: le_enc 3 n else 254 :: le_enc 8 n;
  net_field_length := field_length 4;
  net_field_length_ll := field_length 8;
  int2store := le_enc 2;
  int4store := le_enc 4;
  uint2korr p := '(v, _) ← read_le 2 2 p; Ret v
}.

Lemma le_enc_length k n : length (le_enc k n) = k.
Proof. revert n. induction k as [|k IH]; intros n; simpl; by rewrite ?IH. Qed.

Lemma le_val_enc k n : le_val (le_enc k n) = n mod 256 ^ Z.of_nat k.
Proof.
  revert n. induction k as [|k IH]; intros n; simpl.
  - by rewrite Z.mod_1_r.
  - rewrite IH, Nat2Z.inj_succ, Z.pow_succ_r by lia.
    rewrite Z.rem_mul_r by lia. done.
Qed.

Lemma take_le_enc j k n : (j <= k)%nat -> take j (le_enc k n) = le_enc j n.
Proof.
  revert j n. induction k as [|k IH]; intros j n Hj; [by destruct j; [|lia]|].
  destruct j as [|j]; [done|]. simpl. rewrite IH by lia. done.
Qed.

Lemma read_le_enc j k n rest :
  (j <= k)%nat -> read_le j k (le_enc k n ++ rest) = Ret (n mod 256 ^ Z.of_nat j, rest).
Proof.
  intros Hj. unfold read_le. rewrite length_app, le_enc_length.
  destruct (Nat.leb_spec k (k + length rest)); [|lia].
  rewrite take_app_le by (by rewrite le_enc_length). rewrite take_le_enc by done.
  rewrite le_val_enc, drop_app_length' by (by rewrite le_enc_length). done.
Qed.

Lemma field_store wide n rest :
  (wide <= 8)%nat -> 0 <= n < 2 ^ 64 -> 2 ^ 24 <= n -> n < 256 ^ Z.of_nat wide ->
  field_length wide (net_store_length n ++ rest) = Ret (n, rest).
Proof.
  intros Hw Hn Hbig Hm. unfold net_store_length, mysql.
  destruct (Z.ltb_spec n 251), (Z.ltb_spec n (2 ^ 16)), (Z.ltb_spec n (2 ^ 24)); try lia.
  cbn [field_length app]. change (254 <? 251) with false. cbn [Z.eqb Pos.eqb].
  rewrite read_le_enc by done. rewrite Z.mod_small by lia. done.
Qed.

Lemma field_store_small wide n rest :
  0 <= n < 2 ^ 24 -> field_length wide (net_store_length n ++ rest) = Ret (n, rest).
Proof.
  intros Hn. unfold net_store_length, mysql.
  destruct (Z.ltb_spec n 251); [|destruct (Z.ltb_spec n (2 ^ 16)); [|destruct (Z.ltb_spec n (2 ^ 24)); [|lia]]].
  - cbn [field_length app]. destruct (Z.ltb_spec n 251); [done|lia].
  - cbn [field_length app]. change (252 <? 251) with false. cbn [Z.eqb Pos.eqb].
    rewrite read_le_enc by done. rewrite Z.mod_small by lia. done.
  - cbn [field_length app]. change (253 <? 251) with false. cbn [Z.eqb Pos.eqb].
    rewrite read_le_enc by done. rewrite Z.mod_small by lia. done.
Qed.

#[export] Instance mysql_laws : ProtocolLaws.
Proof.
  split.
  - intros n Hn. unfold net_store_length, mysql. by destruct (Z.ltb_spec n 251); [|lia].
  - intros n rest Hn. change net_field_length with (field_length 4).
    destruct (Z.lt_ge_cases n (2 ^ 24)); [apply field_store_small; lia|apply field_store; lia].
  - intros n rest Hn. change net_field_length_ll with (field_length 8).
    destruct (Z.lt_ge_cases n (2 ^ 24)); [apply field_store_small; lia|apply field_store; lia].
  - intros v rest. change (uint2korr ?p) with ('(v, _) ← read_le 2 2 p; Ret v).
    change (int2store v) with (le_enc 2 v). rewrite read_le_enc by done. done.
  - intros v. apply le_enc_length.
Qed.

End Encoding.

Import Encoding.

(** A fresh connection. *)
Definition fresh : MYSQL := Mysql true 2 [] [].

Lemma ok_packet_roundtrip_witness :
  exists p, written (snd (proxy_net_send_ok fresh 1 5 300)) = [p] /\
    read_ok_header p = Ret (0, 5, 300, 2, 1).
Proof.
  destruct (ok_packet_roundtrip fresh 1 5 300) as (p & _ & Hw & Hp).
  - reflexivity.
  - lia.
  - lia.
  - lia.
  - exists p. split; [exact Hw|exact Hp].
Defined.

Lemma status_row_decodes_witness :
  read_row (row_packet (str "Queries") 42) = Ret (str "Queries", str "42", []).
Proof. apply (status_row_decodes (str "Queries") 42); vm_compute; done. Defined.
