(* ===== verification/Forward.v ===== *)
(** * Forwarding results of a backend to the client
      (src/src/proxy_backend.c: [backend_proxy_write], [backend_read_to_proxy],
      [backend_read_rows])

    The packets a backend sends are a list; a read error is [None], and so is every
    read past the end of the list. *)

From S2P Require Import Prelude CString Status Wire.
Local Open Scope Z_scope.

(** [packet_error] is [~(unsigned long) 0]. *)
Definition packet_error : Z := 2 ^ 64 - 1.
Definition MAX_PACKET_LENGTH : Z := 256 * 256 * 256 - 1.

(** The object of a connection to a backend. *)
Record backend := Backend {
  b_vio : bool;
  reads : list (option (list Z));
  read_pos : list Z
}.

(** A backend, the client (or NULL) and the counters of the connection. *)
Record fwd := Fwd {
  be : backend;
  px : option MYSQL;
  st : status_t
}.

(** [my_net_read]: the length of the packet, which is then at [read_pos]. *)
Definition my_net_read (b : backend) : Z * backend :=
  match reads b with
  | Some p :: l => (zlength p, Backend (b_vio b) l p)
  | None :: l => (packet_error, Backend (b_vio b) l (read_pos b))
  | [] => (packet_error, b)
  end.

Definition backend_proxy_write (s : fwd) (pkt_len : Z) : bool * fwd :=
  match px s with
  | None => (false, s)
  | Some m =>
      let '(e, m) := net_do (CWrite (take (Z.to_nat pkt_len) (read_pos (be s)))) m in
      if e then (true, Fwd (be s) (Some m) (st s))
      else (false, Fwd (be s) (Some m) (add_sent pkt_len (st s)))
  end.

Definition backend_read_to_proxy (s : fwd) : Z * fwd :=
  if negb (b_vio (be s)) then (packet_error, s)
  else
    let '(pkt_len, b) := my_net_read (be s) in
    let s := Fwd b (px s) (st s) in
    if (pkt_len =? packet_error) || (pkt_len =? 0) then (packet_error, s)
    else if (hd0 (read_pos b) =? 255) && (pkt_len <=? 3) then (packet_error, s)
    else (pkt_len, snd (backend_proxy_write s pkt_len)).

Section rows.
Context `{Protocol}.

(** The loop over the fields of a row: TRUE for a malformed packet. *)
Fixpoint check_fields (fields : nat) (pkt_len : Z) (cp : list Z) : outcome bool :=
  match fields with
  | O => Ret false
  | S fields =>
      '(len, cp) ← net_field_length cp;
      let cp := if negb (len =? NULL_LENGTH) then drop (Z.to_nat len) cp else cp in
      if u64 (pkt_len - 1) <? len then Ret true
      else check_fields fields pkt_len cp
  end.

Definition flush (s : fwd) : fwd := Fwd (be s) (snd (proxy_net_flush (px s))) (st s).

Fixpoint rows_loop (fuel : nat) (fields : nat) (pkt_len total_len : Z) (s : fwd) : outcome (bool * fwd) :=
  match fuel with
  | O => Undef
  | S fuel =>
      c ← aget (read_pos (be s)) 0;
      if negb (c =? 254) || (8 <=? pkt_len) then
        malformed ← check_fields fields pkt_len (read_pos (be s));
        if (malformed : bool) then Ret (true, s)
        else
          let '(pkt_len, s) := backend_read_to_proxy s in
          if pkt_len =? packet_error then Ret (true, s)
          else
            let total_len := u64 (total_len + pkt_len) in
            if MAX_PACKET_LENGTH <=? total_len then rows_loop fuel fields pkt_len 0 (flush s)
            else rows_loop fuel fields pkt_len total_len s
      else Ret (false, flush s)
  end.

(** Each iteration reads a packet, so one iteration more than there are packets
    is enough. *)
Definition backend_read_rows (s : fwd) (fields : nat) : outcome (bool * fwd) :=
  let '(pkt_len, s) := backend_read_to_proxy s in
  if pkt_len =? packet_error then Ret (true, s)
  else rows_loop (S (length (reads (be s)))) fields pkt_len 0 s.

(** ** Packets *)

(** A packet [backend_read_to_proxy] accepts. *)
Definition accepted (p : list Z) : bool :=
  (0 <? zlength p) && (zlength p <? packet_error) && negb ((hd0 p =? 255) && (zlength p <=? 3)).

Definition is_eof (p : list Z) : bool := (hd0 p =? 254) && (zlength p <? 8).

(** A row packet: accepted, not an end marker, with well-formed fields. *)
Definition row_ok (fields : nat) (p : list Z) : Prop :=
  accepted p = true /\ is_eof p = false /\ check_fields fields (zlength p) p = Ret false.

Definition sent_by (ps : list (list Z)) (s : status_t) : status_t :=
  fold_left (fun s p => add_sent (zlength p) s) ps s.

(** The effect of forwarding packets on a good connection, flushes aside. *)
Record forwarded (ps : list (list Z)) (s s' : fwd) : Prop := {
  f_reads : b_vio (be s') = b_vio (be s) /\ reads (be s) = (Some <$> ps) ++ reads (be s');
  f_st : st s' = sent_by ps (st s);
  f_px : match px s, px s' with
         | Some m, Some m' => serves m m' /\ written m' = written m ++ ps
         | None, None => True
         | _, _ => False
         end
}.

Definition px_good (s : fwd) : Prop := match px s with Some m => good m | None => True end.

Lemma forwarded_trans ps qs s s1 s2 :
  forwarded ps s s1 -> forwarded qs s1 s2 -> forwarded (ps ++ qs) s s2.
Proof.
  intros [[Hv1 Hr1] Hs1 Hp1] [[Hv2 Hr2] Hs2 Hp2]. split.
  - split; [congruence|]. by rewrite Hr1, Hr2, fmap_app, app_assoc.
  - rewrite Hs2, Hs1. unfold sent_by. by rewrite fold_left_app.
  - destruct (px s), (px s1), (px s2); try done. destruct Hp1 as [V1 E1], Hp2 as [V2 E2].
    split; [by eapply serves_trans|]. by rewrite E2, E1, app_assoc.
Qed.

Lemma forwarded_good ps s s' : forwarded ps s s' -> px_good s'.
Proof. intros [_ _ Hp]. unfold px_good. destruct (px s), (px s'); try done. by destruct Hp as [[? _] _]. Qed.

Lemma forwarded_px ps s s' : forwarded ps s s' -> px s = None <-> px s' = None.
Proof. intros [_ _ Hp]. by destruct (px s), (px s'). Qed.

Lemma flush_forwarded s : px_good s -> forwarded [] s (flush s).
Proof.
  intros Hg. unfold px_good in Hg. split; [done|done|]. unfold flush, proxy_net_flush. simpl.
  destruct (px s) as [m|]; [|done].
  pose proof (good_do CFlush m Hg) as [Hg1 Hok]. pose proof (written_do CFlush m) as Hw. pose proof (serves_do CFlush m Hg) as Hvm.
  destruct (net_do CFlush m) as [e m1]. simpl in *. by subst e.
Qed.

(** Reading an accepted packet forwards it; without a client it is dropped and
    not counted. *)
Lemma read_forward s p l :
  px_good s -> b_vio (be s) = true -> reads (be s) = Some p :: l -> accepted p = true ->
  fst (backend_read_to_proxy s) = zlength p /\
  read_pos (be (snd (backend_read_to_proxy s))) = p /\
  (px s <> None -> forwarded [p] s (snd (backend_read_to_proxy s))).
Proof.
  intros Hg Hv Hr Ha. unfold accepted in Ha.
  apply andb_prop in Ha as [Ha Hne]. apply negb_true_iff in Hne. bprop.
  unfold backend_read_to_proxy, my_net_read. rewrite Hv, Hr. simpl.
  destruct (Z.eqb_spec (zlength p) packet_error); [lia|].
  destruct (Z.eqb_spec (zlength p) 0); [lia|]. simpl. rewrite Hne. simpl.
  unfold backend_proxy_write, px_good in *. simpl. destruct (px s) as [m|] eqn:Ep; [|done].
  unfold zlength. rewrite Nat2Z.id, take_ge by done.
  pose proof (good_do (CWrite p) m Hg) as [Hg1 Hok]. pose proof (written_do (CWrite p) m) as Hw. pose proof (serves_do (CWrite p) m Hg) as Hvm.
  destruct (net_do (CWrite p) m) as [e m1]. simpl in *. subst e. split_and!; [done..|]. intros _.
  split; simpl; rewrite ?Hr, ?Ep; [by rewrite Hv|done|done].
Qed.

Lemma accepted_head p : accepted p = true -> aget p 0 = Ret (hd0 p).
Proof. intros Ha. destruct p as [|c p]; [done|]. by apply aget_Ret. Qed.

Lemma accepted_length p : accepted p = true -> (zlength p =? packet_error) = false.
Proof. intros Ha. unfold accepted in Ha. bprop. apply Z.eqb_neq. lia. Qed.

(** The loop forwards the packets up to the end marker. *)
Lemma rows_forward fields rows eof rest s pkt total fuel :
  px_good s -> px s <> None -> b_vio (be s) = true -> read_pos (be s) = pkt -> accepted pkt = true ->
  reads (be s) = (Some <$> rows) ++ rest ->
  Forall (row_ok fields) (removelast (pkt :: rows)) -> last (pkt :: rows) = Some eof -> is_eof eof = true ->
  Forall (fun p => accepted p = true) rows ->
  (length rows < fuel)%nat ->
  exists s', rows_loop fuel fields (zlength pkt) total s = Ret (false, s') /\ forwarded rows s s'.
Proof.
  revert rows s pkt total. induction fuel as [|fuel IH]; intros rows s pkt total Hg Hpx Hv Hpos Ha Hr Hrows Hlast Heof Hacc Hf; [lia|].
  simpl. rewrite Hpos, (accepted_head _ Ha). cbn [mbind outcome_bind].
  destruct rows as [|r rows].
  - simpl in Hlast. injection Hlast as <-. unfold is_eof in Heof. bprop.
    rewrite (proj2 (Z.eqb_eq (hd0 pkt) 254)) by done.
    destruct (Z.leb_spec 8 (zlength pkt)); [lia|]. simpl. eexists. split; [done|].
    by apply flush_forwarded.
  - change (removelast (pkt :: r :: rows)) with (pkt :: removelast (r :: rows)) in Hrows.
    apply Forall_cons in Hrows as [(_ & Hne & Hcf) Hrows].
    assert (negb (hd0 pkt =? 254) || (8 <=? zlength pkt) = true) as ->.
    { unfold is_eof in Hne. destruct (Z.eqb_spec (hd0 pkt) 254); [simpl in *|done].
      destruct (Z.ltb_spec (zlength pkt) 8); [done|]. by apply Z.leb_le. }
    rewrite Hcf. cbn [mbind outcome_bind].
    apply Forall_cons in Hacc as [Har Hacc].
    destruct (read_forward s r _ Hg Hv Hr Har) as (Hl & Hp & Hfw).
    specialize (Hfw Hpx). destruct (backend_read_to_proxy s) as [len s1] eqn:E1. simpl in *. subst len.
    rewrite accepted_length by done.
    pose proof (forwarded_good _ _ _ Hfw) as Hg1.
    pose proof (f_reads _ _ _ Hfw) as [Hv1 Hr1]. rewrite Hr in Hr1. simpl in Hr1. injection Hr1 as Hr1.
    assert (Hnext : forall s2 tot, forwarded [] s1 s2 -> read_pos (be s2) = r ->
      exists s', rows_loop fuel fields (zlength r) tot s2 = Ret (false, s') /\ forwarded (r :: rows) s s').
    { intros s2 tot H12 Hp2. pose proof (f_reads _ _ _ H12) as [Hv2 Hr2]. simpl in Hr2.
      destruct (IH rows s2 r tot) as (s' & E & Hf'); try done.
      - by eapply forwarded_good.
      - rewrite <-(forwarded_px _ _ _ H12), <-(forwarded_px _ _ _ Hfw). done.
      - congruence.
      - rewrite <-Hr2, <-Hr1. done.
      - lia.
      - exists s'. split; [done|]. change (r :: rows) with ([r] ++ [] ++ rows).
        eapply forwarded_trans; [done|]. by eapply forwarded_trans. }
    destruct (MAX_PACKET_LENGTH <=? _); apply Hnext; try done; [by apply flush_forwarded|].
    split; [done|done|]. unfold px_good in Hg1. destruct (px s1); [|done]. rewrite app_nil_r. split; [by apply serves_refl|done].
Qed.

(** The end marker is the first one that is read. *)
Lemma read_rows_forward fields rows eof rest s :
  px_good s -> px s <> None -> b_vio (be s) = true ->
  reads (be s) = (Some <$> rows ++ [eof]) ++ rest ->
  Forall (row_ok fields) rows -> accepted eof = true -> is_eof eof = true ->
  exists s', backend_read_rows s fields = Ret (false, s') /\ forwarded (rows ++ [eof]) s s'.
Proof.
  intros Hg Hpx Hv Hr Hrows Hae Heof.
  assert (exists p ps, rows ++ [eof] = p :: ps) as (p & ps & Ep) by (destruct rows; simpl; eauto).
  assert (Hacc : Forall (fun p => accepted p = true) (p :: ps)).
  { rewrite <-Ep. apply Forall_app. split; [|by repeat constructor].
    eapply Forall_impl; [done|]. by intros x [? _]. }
  rewrite Ep in Hr. apply Forall_cons in Hacc as [Hap Hacc].
  destruct (read_forward s p _ Hg Hv Hr Hap) as (Hl & Hp & Hfw).
  specialize (Hfw Hpx). unfold backend_read_rows.
  destruct (backend_read_to_proxy s) as [len s1]. simpl in *. subst len.
  rewrite accepted_length by done.
  pose proof (f_reads _ _ _ Hfw) as [Hv1 Hr1]. rewrite Hr in Hr1. simpl in Hr1. injection Hr1 as Hr1.
  destruct (rows_forward fields ps eof rest s1 p 0 (S (length (reads (be s1))))) as (s' & E & Hf').
  - by eapply forwarded_good.
  - by rewrite <-(forwarded_px _ _ _ Hfw).
  - congruence.
  - done.
  - done.
  - by rewrite <-Hr1.
  - rewrite <-Ep, removelast_last. done.
  - rewrite <-Ep. apply last_snoc.
  - done.
  - done.
  - rewrite <-Hr1, length_app, length_fmap. lia.
  - exists s'. split; [done|]. rewrite Ep. change (p :: ps) with ([p] ++ ps). by eapply forwarded_trans.
Qed.

(** A packet read without a client. *)
Lemma read_no_client b st p l :
  b_vio b = true -> reads b = Some p :: l -> accepted p = true ->
  backend_read_to_proxy (Fwd b None st) = (zlength p, Fwd (Backend true l p) None st).
Proof.
  intros Hv Hr Ha. unfold accepted in Ha.
  apply andb_prop in Ha as [Ha Hne]. apply negb_true_iff in Hne. bprop.
  unfold backend_read_to_proxy, my_net_read. simpl. rewrite Hv, Hr. simpl.
  destruct (Z.eqb_spec (zlength p) packet_error); [lia|].
  destruct (Z.eqb_spec (zlength p) 0); [lia|]. simpl. by rewrite Hne.
Qed.

(** The packet at [read_pos] is written to the client. *)
Lemma write_forward b m st p :
  good m -> read_pos b = p ->
  exists m', backend_proxy_write (Fwd b (Some m) st) (zlength p) = (false, Fwd b (Some m') (add_sent (zlength p) st)) /\
    serves m m' /\ written m' = written m ++ [p].
Proof.
  intros Hg Hp. unfold backend_proxy_write. simpl. rewrite Hp. unfold zlength. rewrite Nat2Z.id, take_ge by done.
  pose proof (good_do (CWrite p) m Hg) as [Hg1 Hok]. pose proof (written_do (CWrite p) m) as Hw. pose proof (serves_do (CWrite p) m Hg) as Hvm.
  destruct (net_do (CWrite p) m) as [e m1]. simpl in *. subst e. eauto.
Qed.

(** Results are forwarded completely and in order.  When the backend sends
    well-formed rows followed by an end marker, [backend_read_rows] returns
    FALSE, has read exactly these packets, has written each of them to the client
    unchanged and in order, and has added their lengths to [bytes_sent]. *)
Theorem rows_forwarded fields rows eof rest s :
  px_good s -> px s <> None -> b_vio (be s) = true ->
  reads (be s) = (Some <$> rows ++ [eof]) ++ rest ->
  Forall (row_ok fields) rows -> accepted eof = true -> is_eof eof = true ->
  exists s', backend_read_rows s fields = Ret (false, s') /\ forwarded (rows ++ [eof]) s s'.
Proof. apply read_rows_forward. Qed.

(** Rows made of columns that are not NULL are well-formed. *)
Definition row_of (cols : list (list Z)) : list Z := mjoin (net_store_data <$> cols).

Context `{!ProtocolLaws}.

Lemma check_cols cols fields tail n :
  zlength (row_of cols ++ tail) <= n -> n < 2 ^ 32 ->
  check_fields (length cols + fields) n (row_of cols ++ tail) = check_fields fields n tail.
Proof.
  intros Hle Hn. induction cols as [|c cols IH]; [done|].
  change (row_of (c :: cols)) with (net_store_data c ++ row_of cols) in *.
  unfold net_store_data in *. rewrite <-!app_assoc in *. cbn [length Nat.add check_fields].
  unfold zlength in *. rewrite !length_app in Hle.
  pose proof (store_length_nonempty (Z.of_nat (length c)) ltac:(lia)) as Hs.
  rewrite field_length_store by lia. cbn [mbind outcome_bind].
  destruct (Z.eqb_spec (Z.of_nat (length c)) NULL_LENGTH); [unfold NULL_LENGTH in *; lia|]. simpl.
  rewrite Nat2Z.id, drop_app_length. unfold u64. rewrite wrap_small by lia.
  destruct (Z.ltb_spec (n - 1) (Z.of_nat (length c))); [lia|]. apply IH.
  rewrite length_app. lia.
Qed.

Lemma row_of_ok cols : 
  let p := row_of cols in
  accepted p = true -> is_eof p = false -> zlength p < 2 ^ 32 -> row_ok (length cols) p.
Proof.
  intros p Ha He Hl. split_and!; [done..|]. pose proof (check_cols cols 0 [] (zlength p)) as Hc.
  rewrite app_nil_r, Nat.add_0_r in Hc. by apply Hc.
Qed.

(** A NULL column is taken for a malformed packet.  The length the client
    library returns for NULL is larger than any packet, and [backend_read_rows] compares
    it with the packet length: it returns TRUE at the first row it inspects that
    has a NULL column, with that row forwarded but the rest of the result
    unread and no end marker sent. *)
Theorem null_column_rejected fields cols tail t rest s :
  let p := row_of cols ++ tail in
  px_good s -> px s <> None -> b_vio (be s) = true -> reads (be s) = Some p :: rest ->
  accepted p = true -> is_eof p = false -> zlength p < 2 ^ 32 ->
  net_field_length tail = Ret (NULL_LENGTH, t) ->
  exists s', backend_read_rows s (length cols + S fields) = Ret (true, s') /\ forwarded [p] s s' /\
    reads (be s') = rest.
Proof.
  intros p Hg Hpx Hv Hr Ha He Hl Ht.
  destruct (read_forward s p rest Hg Hv Hr Ha) as (Hlen & Hp & Hfw).
  specialize (Hfw Hpx). unfold backend_read_rows.
  destruct (backend_read_to_proxy s) as [len s1]. cbn [fst snd] in *. subst len.
  rewrite accepted_length by done. exists s1. cbn [rows_loop].
  rewrite Hp, accepted_head by done. cbn [mbind outcome_bind].
  assert (negb (hd0 p =? 254) || (8 <=? zlength p) = true) as ->.
  { unfold is_eof in He. destruct (Z.eqb_spec (hd0 p) 254); [simpl in *|done].
    destruct (Z.ltb_spec (zlength p) 8); [done|]. by apply Z.leb_le. }
  unfold p at 2. rewrite check_cols by done. simpl. rewrite Ht. cbn [mbind outcome_bind].
  unfold accepted in Ha. bprop. unfold u64. rewrite wrap_small by lia.
  destruct (Z.ltb_spec (zlength p - 1) NULL_LENGTH); [|unfold NULL_LENGTH in *; lia].
  split_and!; [done..|]. pose proof (f_reads _ _ _ Hfw) as [_ Hr1]. rewrite Hr in Hr1. by injection Hr1.
Qed.

End rows.

Import Encoding.

(** A result with two rows of two columns and the rest of the stream. *)
Definition demo_rows : list (list Z) := [row_of [str "a"; str "1"]; row_of [str "b"; str ""]].
Definition demo_eof : list Z := eof_packet.
Definition demo (ps : list (list Z)) : fwd :=
  Fwd (Backend true (Some <$> ps) []) (Some fresh) (Status 0 0 0 0 0).

Lemma rows_forwarded_witness :
  exists s', backend_read_rows (demo (demo_rows ++ [demo_eof; [1]])) 2 = Ret (false, s') /\
    forwarded (demo_rows ++ [demo_eof]) (demo (demo_rows ++ [demo_eof; [1]])) s'.
Proof.
  apply (rows_forwarded 2 demo_rows demo_eof [Some [1]]).
  - reflexivity.
  - done.
  - reflexivity.
  - reflexivity.
  - repeat constructor; vm_compute; reflexivity.
  - vm_compute. reflexivity.
  - vm_compute. reflexivity.
Defined.

Lemma null_column_rejected_witness :
  exists s', backend_read_rows (demo [row_of [str "a"] ++ [251]; demo_eof]) 2 = Ret (true, s') /\
    reads (be s') = [Some demo_eof].
Proof.
  destruct (null_column_rejected 0 [str "a"] [251] [] [Some demo_eof]
    (demo [row_of [str "a"] ++ [251]; demo_eof])) as (s' & E & _ & Hr).
  - reflexivity.
  - done.
  - reflexivity.
  - reflexivity.
  - vm_compute. reflexivity.
  - vm_compute. reflexivity.
  - vm_compute. reflexivity.
  - vm_compute. reflexivity.
  - exists s'. split; [exact E|exact Hr].
Defined.
