(* ===== verification/Clone.v ===== *)
(** * Cloning (src/src/proxy_clone.c, src/src/proxy_clone.h)

    The global variables of a cloning operation, the table of clone hosts and
    the number of clones of each generation.  The tables are used through the
    interface [MapTable].  The calls of the SnowFlock library and the waits are
    parameters: what the calls return, and the wake-ups of the condition
    variable. *)

From S2P Require Import Prelude CString Options Hashtable.
Local Open Scope Z_scope.

(** A host and its port ([proxy_host_t]). *)
Record proxy_host_t := Host { host : list Z; port : Z }.

#[export] Instance proxy_host_eq_dec : EqDecision proxy_host_t.
Proof. solve_decision. Defined.

Definition ETIMEDOUT : Z := 110.

Section clone.
Context {T : Type -> Type} `{!MapTable T}.

Record clone_state := CloneState {
  server_id : Z;
  cloning : Z;
  new_clones : Z;
  clone_generation : Z;
  req_clones : Z;
  clone_table : option (T proxy_host_t);
  clone_num_table : option (T Z)
}.

Definition set_server_id (v : Z) (o : clone_state) : clone_state :=
  CloneState v (cloning o) (new_clones o) (clone_generation o) (req_clones o) (clone_table
    o) (clone_num_table o).
Definition set_cloning (v : Z) (o : clone_state) : clone_state :=
  CloneState (server_id o) v (new_clones o) (clone_generation o) (req_clones o) (clone_table
    o) (clone_num_table o).
Definition set_new_clones (v : Z) (o : clone_state) : clone_state :=
  CloneState (server_id o) (cloning o) v (clone_generation o) (req_clones o) (clone_table o)
    (clone_num_table o).
Definition set_clone_generation (v : Z) (o : clone_state) : clone_state :=
  CloneState (server_id o) (cloning o) (new_clones o) v (req_clones o) (clone_table o)
    (clone_num_table o).
Definition set_req_clones (v : Z) (o : clone_state) : clone_state :=
  CloneState (server_id o) (cloning o) (new_clones o) (clone_generation o) v (clone_table o)
    (clone_num_table o).
Definition set_clone_table (v : option (T proxy_host_t)) (o : clone_state) : clone_state :=
  CloneState (server_id o) (cloning o) (new_clones o) (clone_generation o) (req_clones o) v
    (clone_num_table o).
Definition set_clone_num_table (v : option (T Z)) (o : clone_state) : clone_state :=
  CloneState (server_id o) (cloning o) (new_clones o) (clone_generation o) (req_clones o)
    (clone_table o) v.

(** The values of the variables at program start. *)
Definition clone_state0 : clone_state := CloneState 0 0 0 0 0 None None.

Definition proxy_clone_init (o : options_t) (s : clone_state) : clone_state :=
  let s := if coordinator o then set_clone_table (mt_create 16) s else s in
  if cloneable o || coordinator o then set_clone_num_table (mt_create 16) s else s.

(** The values that are freed with the tables; the pointers to the tables are kept. *)
Definition proxy_clone_end (s : clone_state) : list proxy_host_t * list Z :=
  (from_option mt_destroy [] (clone_table s), from_option mt_destroy [] (clone_num_table s)).

(** A search in a table that was not created follows a null pointer.  Keys are
    [unsigned long]s: a negative generation wraps. *)
Definition proxy_clone_get_num (s : clone_state) (generation : Z) : outcome Z :=
  match clone_num_table s with
  | None => Undef
  | Some t => Ret (default (-1) (mt_search t (u64 generation)))
  end.

Definition clone_set_num (s : clone_state) (generation num : Z) : outcome clone_state :=
  match clone_num_table s with
  | None => Undef
  | Some t => '(_, t) ← mt_insert t (u64 generation) num; Ret (set_clone_num_table (Some t) s)
  end.

(** [new_mutex] only makes the update one step.  (It is initialised and destroyed by
    [proxy_clone_wait]; a notification before the wait uses a mutex that is not initialised, which works where a
    mutex of zero bytes is a free one, and is taken to work here.) *)
Definition proxy_clone_notify (s : clone_state) : clone_state :=
  if req_clones s =? 0 then s else set_new_clones (i32 (new_clones s + 1)) s.

(** The wait: each wake-up is the number of notifications that came before it
    and the result of the timed wait; when there are no more wake-ups the time
    is over. *)
Fixpoint wait_loop (wakes : list (nat * Z)) (s : clone_state) : Z * clone_state :=
  if new_clones s <? req_clones s then
    match wakes with
    | [] => (ETIMEDOUT, s)
    | (k, errno) :: wakes =>
        let s := Nat.iter k proxy_clone_notify s in
        if errno =? 0 then wait_loop wakes s else (errno, s)
    end
  else (0, s).

Definition proxy_clone_wait (wakes : list (nat * Z)) (s : clone_state) : outcome (bool * clone_state) :=
  s ← clone_set_num s (clone_generation s) (new_clones s);
  let '(wait_errno, s) := wait_loop wakes s in
  let error := wait_errno =? ETIMEDOUT in
  let s := if error && (new_clones s =? 0)
           then set_clone_generation (i32 (clone_generation s - 1)) s else s in
  Ret (error, set_req_clones 0 s).

Definition proxy_clone_prepare (nclones : Z) (s : clone_state) : bool * clone_state :=
  if negb (req_clones s =? 0) then (false, s)
  else (true, set_new_clones 0 (set_req_clones nclones s)).

Definition proxy_clone_complete (s : clone_state) : clone_state :=
  set_cloning 0 (set_new_clones 0 (set_req_clones 0 s)).

(** ** The SnowFlock library *)

(** What its calls return: the number of clones a ticket allows, and the
    identifier of this machine after cloning with the number of clones. *)
Record snowflock := Snowflock {
  request_vm_ticket : Z -> option Z;
  clone_master : Z -> option (Z * Z)
}.

(** [proxy_do_clone]: the identifier (negative on error) and the state.  [hosts]
    are the addresses [proxy_options_update_host] finds one after the other;
    the loop ends at the first that differs from the old one. *)
Fixpoint wait_ip (oldip : list Z) (hosts : list (list Z)) (phost : list Z) : option (list Z) :=
  match hosts with
  | [] => None
  | h :: hosts =>
      if decide (take 46 h = take 46 oldip) then wait_ip oldip hosts h else Some h
  end.

Definition proxy_do_clone (sf : snowflock) (hosts : list (list Z)) (nclones : Z)
  (o : options_t) (s : clone_state) : outcome (Z * options_t * clone_state) :=
  let '(ready, s) := proxy_clone_prepare nclones s in
  if negb ready then Ret (-1, o, s)
  else
    (* here the caller waits until committing (and querying) is zero *)
    let s := set_cloning 1 s in
    match request_vm_ticket sf nclones with
    | None => Ret (-1, o, s)
    | Some allowed_clones =>
        if negb (allowed_clones =? nclones) then Ret (-1, o, s)
        else
          match clone_master sf nclones with
          | None => Undef                                 (* result->vmid *)
          | Some (vmid, number_clones) =>
              if number_clones =? 0 then Ret (-1, o, s)
              else
                let s := set_new_clones number_clones s in
                if vmid =? 0 then
                  let s := set_clone_generation (i32 (clone_generation s + 1)) s in
                  s ← clone_set_num s (clone_generation s) number_clones;
                  Ret (vmid, o, s)
                else
                  let s := set_server_id vmid s in
                  match wait_ip (phost o) hosts (phost o) with
                  | Some h => Ret (vmid, set_phost h o, s)
                  | None => Undef                         (* does not return *)
                  end
          end
    end.

(** ** Table of clone hosts *)

Definition proxy_clone_insert (s : clone_state) (clone_id : Z) (h : proxy_host_t) : outcome (Z * clone_state) :=
  match clone_table s with
  | None => Undef
  | Some t => '(r, t) ← mt_insert t (u64 clone_id) h; Ret (r, set_clone_table (Some t) s)
  end.

Definition proxy_clone_search (s : clone_state) (clone_id : Z) : outcome (option proxy_host_t) :=
  match clone_table s with None => Undef | Some t => Ret (mt_search t (u64 clone_id)) end.

Definition proxy_clone_remove (s : clone_state) (clone_id : Z) : outcome (option proxy_host_t * clone_state) :=
  match clone_table s with
  | None => Undef
  | Some t => let '(r, t) := mt_remove t (u64 clone_id) in Ret (r, set_clone_table (Some t) s)
  end.

(** ** Invariant *)

(** The table of generations exists, is well-formed and has room. *)
Record num_table_ok (s : clone_state) (m : gmap Z Z) : Prop := {
  nt_table : exists t, clone_num_table s = Some t /\ mt_ok t /\ mt_map t = m;
  nt_room : Z.of_nat (size m) + 1 < 2 ^ 32
}.

Lemma init_num_table o s :
  cloneable o || coordinator o = true -> num_table_ok (proxy_clone_init o s) ∅.
Proof.
  intros Ho. unfold proxy_clone_init. rewrite Ho.
  destruct (mt_create_ok (V := Z) 16) as (t & Hc & Hok & Hm); [lia|].
  split; [exists t; done|]. rewrite map_size_empty. lia.
Qed.

Lemma get_num_spec s m generation :
  num_table_ok s m -> proxy_clone_get_num s generation = Ret (default (-1) (m !! u64 generation)).
Proof.
  intros [(t & Ht & Hok & <-) _]. unfold proxy_clone_get_num. by rewrite Ht, mt_search_ok.
Qed.

(** The table of generations exists.  A generation that was taken back leaves its number in the table, and the next
    operation inserts the same key again, so that a key may have several entries. *)
Definition num_table_wf (s : clone_state) : Prop := exists t, clone_num_table s = Some t /\ mt_wf t.

Lemma num_table_ok_wf s m : num_table_ok s m -> num_table_wf s.
Proof. intros [(t & Ht & Hok & _) _]. exists t. split; [done|]. by apply mt_ok_wf. Qed.

(** The number of clones of a generation is stored. *)
Lemma set_num_spec s generation num :
  num_table_wf s ->
  exists t, clone_set_num s generation num = Ret (set_clone_num_table (Some t) s) /\
    mt_wf t /\ mt_search t (u64 generation) = Some num.
Proof.
  intros (t & Ht & Hwf). unfold clone_set_num. rewrite Ht.
  destruct (mt_insert_wf t (u64 generation) num Hwf) as (t' & -> & Hwf' & Hs'). eauto.
Qed.

(** Notifications only count, as long as the counter does not overflow. *)
Lemma notify_iter k s :
  0 < req_clones s -> 0 <= new_clones s -> new_clones s + Z.of_nat k <= INT_MAX ->
  Nat.iter k proxy_clone_notify s = set_new_clones (new_clones s + Z.of_nat k) s.
Proof.
  intros Hr H0. induction k as [|k IH]; intros Hk; simpl.
  - rewrite Z.add_0_r. by destruct s.
  - rewrite IH by lia. unfold proxy_clone_notify. simpl. destruct (Z.eqb_spec (req_clones s) 0); [lia|].
    unfold set_new_clones. simpl. rewrite i32_small by (unfold INT_MAX in *; lia). f_equal. lia.
Qed.

Definition arrivals (wakes : list (nat * Z)) : Z := foldr (fun w a => Z.of_nat (fst w) + a) 0 wakes.

Lemma arrivals_nonneg wakes : 0 <= arrivals wakes.
Proof. induction wakes as [|w wakes IH]; simpl; lia. Qed.

Lemma wait_loop_spec wakes s :
  0 < req_clones s -> 0 <= new_clones s -> new_clones s + arrivals wakes <= INT_MAX ->
  exists n, snd (wait_loop wakes s) = set_new_clones n s /\
    new_clones s <= n <= new_clones s + arrivals wakes /\
    (fst (wait_loop wakes s) = 0 -> req_clones s <= n).
Proof.
  revert s. induction wakes as [|[k e] wakes IH]; intros s Hr H0 Hm; simpl in *.
  - destruct (Z.ltb_spec (new_clones s) (req_clones s)).
    + exists (new_clones s). split; [by destruct s|]. split; [lia|done].
    + exists (new_clones s). split; [by destruct s|]. split; [lia|done].
  - pose proof (arrivals_nonneg wakes).
    destruct (Z.ltb_spec (new_clones s) (req_clones s)).
    + rewrite notify_iter by (done || lia). destruct (Z.eqb_spec e 0).
      * destruct (IH (set_new_clones (new_clones s + Z.of_nat k) s)) as (n & E & Hn & Hz); [done|simpl; lia..|].
        exists n. rewrite E. split; [by destruct s|]. simpl in *. split; [lia|done].
      * exists (new_clones s + Z.of_nat k). simpl. split; [done|]. split; [lia|done].
    + exists (new_clones s). simpl. split; [by destruct s|]. split; [lia|done].
Qed.

Lemma wait_loop_errno wakes s :
  Forall (fun w => snd w = 0 \/ snd w = ETIMEDOUT) wakes ->
  fst (wait_loop wakes s) = 0 \/ fst (wait_loop wakes s) = ETIMEDOUT.
Proof.
  intros Hw. revert s. induction Hw as [|[k e] wakes Hw _ IH]; intros s; simpl.
  - case_match; simpl; auto.
  - case_match; simpl; auto. destruct (Z.eqb_spec e 0); [apply IH|]. simpl in *. naive_solver.
Qed.

Lemma wait_records s wakes :
  num_table_wf s -> 0 < req_clones s -> 0 <= new_clones s -> new_clones s + arrivals wakes <= INT_MAX ->
  Forall (fun w => snd w = 0 \/ snd w = ETIMEDOUT) wakes ->
  exists e s', proxy_clone_wait wakes s = Ret (e, s') /\ num_table_wf s' /\
    proxy_clone_get_num s' (clone_generation s) = Ret (new_clones s) /\
    req_clones s' = 0 /\ cloning s' = cloning s /\ new_clones s <= new_clones s' <= new_clones s + arrivals wakes /\
    (e = false -> req_clones s <= new_clones s') /\
    clone_generation s' = if e && (new_clones s' =? 0) then i32 (clone_generation s - 1) else clone_generation s.
Proof.
  intros Hwf Hr H0 Hmax Hw. unfold proxy_clone_wait.
  destruct (set_num_spec s (clone_generation s) (new_clones s) Hwf) as (t & -> & Hwf' & Hs').
  cbn [mbind outcome_bind]. set (s1 := set_clone_num_table (Some t) s).
  destruct (wait_loop_spec wakes s1 Hr H0 Hmax) as (n & E & Hn & H0').
  pose proof (wait_loop_errno wakes s1 Hw) as He.
  destruct (wait_loop wakes s1) as [errno s2]. simpl in E, He, H0'. subst s2.
  eexists _, _. split; [reflexivity|]. unfold num_table_wf, proxy_clone_get_num.
  destruct He as [-> | ->]; simpl.
  - rewrite Hs'. split_and!; [by exists t|done|done|done|simpl in *; lia..|auto|done].
  - destruct (n =? 0) eqn:En; simpl; rewrite ?En, Hs'; split_and!; try done; try (by exists t); simpl in *; lia.
Qed.

(** The number of clones of a generation.  [proxy_clone_wait] returns once the
    requested number of clones has arrived, or with an error at the timeout
    (then the generation is taken back if no clone came); either way the next
    cloning operation may start.  But the number of clones it stores for the
    generation is the number that had arrived before it began to wait. *)
Theorem clone_wait_records s wakes :
  num_table_wf s -> 0 < req_clones s -> 0 <= new_clones s -> new_clones s + arrivals wakes <= INT_MAX ->
  Forall (fun w => snd w = 0 \/ snd w = ETIMEDOUT) wakes ->
  exists e s', proxy_clone_wait wakes s = Ret (e, s') /\ num_table_wf s' /\
    proxy_clone_get_num s' (clone_generation s) = Ret (new_clones s) /\
    req_clones s' = 0 /\ cloning s' = cloning s /\ new_clones s <= new_clones s' <= new_clones s + arrivals wakes /\
    (e = false -> req_clones s <= new_clones s') /\
    clone_generation s' = if e && (new_clones s' =? 0) then i32 (clone_generation s - 1) else clone_generation s.
Proof. apply wait_records. Qed.

End clone.

(** A coordinator that has asked for two clones, none of which has arrived. *)
Definition demo_wait : clone_state (T := hashtable) :=
  snd (proxy_clone_prepare 2 (set_clone_generation 1
    (set_clone_num_table (mt_create 16) clone_state0))).

Lemma clone_wait_records_witness :
  exists s', proxy_clone_wait [(1%nat, 0); (1%nat, 0)] demo_wait = Ret (false, s') /\
    new_clones s' = 2 /\ proxy_clone_get_num s' 1 = Ret 0.
Proof.
  destruct (clone_wait_records demo_wait [(1%nat, 0); (1%nat, 0)]) as (e & s' & E & _ & Hg & _).
  - destruct (mt_create_ok (T := hashtable) (V := Z) 16) as (t & Ht & Hok & Hm); [lia|].
    exists t. split; [exact Ht|]. apply mt_ok_wf, Hok.
  - reflexivity.
  - cbn. lia.
  - cbn. unfold INT_MAX. lia.
  - repeat constructor.
  - exists s'. change (clone_generation demo_wait) with 1 in Hg. vm_compute in E. injection E as <- <-.
    split_and!; [vm_compute; reflexivity|reflexivity|exact Hg].
Defined.
