(* ===== verification/Trans.v ===== *)
(** * Transactions that span a cloning operation
      (src/src/proxy_trans.c, src/src/proxy_trans.h, [net_trans_result] and [net_commit] of
      src/src/proxy_cmd.c, [id_from_query], [backend_check_commit]
      and [backend_clone_query_wait] of src/src/proxy_backend.c)

    When the machine is cloned while a query runs, the clones report their result
    to the coordinator, which collects the results in a transaction object, and
    tells the clones and its own backend threads to commit or to roll back.  The
    table maps transaction identifiers to pointers; the objects are in a heap,
    since several threads change them. *)

From S2P Require Import Prelude CString Options Hashtable Clone.
Local Open Scope Z_scope.

(** ** Transaction identifiers in queries *)

(** What [proxy_backend_query] appends to a replicated query. *)
Definition add_id (query : list Z) (transaction_id : Z) : list Z :=
  query ++ str "-- " ++ fmt_lu transaction_id.

Definition id_from_query (query : list Z) : Z :=
  match strrchr query 45 with
  | None => 0
  | Some i => let '(v, errno) := strtol (drop (S i) query) in if errno : bool then 0 else u64 v
  end.

Lemma add_id_read query id :
  0 <= id <= LONG_MAX -> id_from_query (add_id query id) = id.
Proof.
  intros Hid. unfold id_from_query, add_id.
  assert (Hd : 45 ∉ str " " ++ fmt_lu id).
  { destruct (fmt_lu_spec id) as (_ & Hdig & _); [unfold LONG_MAX in *; lia|].
    intros [Hs|Hs]%elem_of_app.
    - apply list_elem_of_singleton in Hs. done.
    - by apply (proj1 (Forall_forall _ _) Hdig) in Hs. }
  replace (query ++ str "-- " ++ fmt_lu id) with ((query ++ [45]) ++ [45] ++ str " " ++ fmt_lu id)
    by (by rewrite <-app_assoc).
  rewrite strrchr_app. rewrite strrchr_app, (strrchr_notin _ _ Hd). cbn [strrchr Z.eqb Pos.eqb].
  rewrite Nat.add_0_r.
  replace (drop (S (length (query ++ [45]))) ((query ++ [45]) ++ [45] ++ str " " ++ fmt_lu id))
    with (str " " ++ fmt_lu id ++ []).
  - rewrite strtol_fmt_lu; [|done|by repeat constructor|done].
    unfold u64. apply wrap_small. unfold LONG_MAX in *. lia.
  - rewrite app_nil_r, (app_assoc (query ++ [45])), drop_app_length'; [done|].
    rewrite !length_app. simpl. lia.
Qed.

(** The identifier of a transaction is read back from the query it was added
    to, whatever the query is, for every identifier in the range of [long]. *)
Theorem query_id_roundtrip query id :
  0 <= id <= LONG_MAX -> id_from_query (add_id query id) = id.
Proof. apply add_id_read. Qed.

Lemma query_id_roundtrip_witness :
  id_from_query (add_id (str "UPDATE t SET a = a-1 ") 42) = 42.
Proof. apply (query_id_roundtrip (str "UPDATE t SET a = a-1 ") 42). unfold LONG_MAX. lia. Defined.

(** ** Transaction objects *)

(** [success] is [None] as long as it is not initialised; [clone_ids] is [None]
    for NULL. *)
Record proxy_trans_t := Trans {
  num : Z;
  total : Z;
  done : Z;
  success : option bool;
  clone_ids : option (list Z)
}.

Section trans.
Context {T : Type -> Type} `{!MapTable T}.

Record trans_state := TransState {
  trans_table : option (T Z);
  heap : gmap Z proxy_trans_t;
  next : Z
}.

Definition set_trans_table (v : option (T Z)) (s : trans_state) : trans_state :=
  TransState v (heap s) (next s).
Definition set_heap (v : gmap Z proxy_trans_t) (s : trans_state) : trans_state :=
  TransState (trans_table s) v (next s).

Definition proxy_trans_init (o : options_t) (s : trans_state) : trans_state :=
  if two_pc o && ((coordinator o && add_ids o) || cloneable o)
  then set_trans_table (mt_create 16) s else s.

Definition proxy_trans_insert (s : trans_state) (transaction_id p : Z) : outcome (Z * trans_state) :=
  match trans_table s with
  | None => Undef
  | Some t => '(r, t) ← mt_insert t transaction_id p; Ret (r, set_trans_table (Some t) s)
  end.

Definition proxy_trans_search (s : trans_state) (transaction_id : Z) : outcome (option Z) :=
  match trans_table s with None => Undef | Some t => Ret (mt_search t transaction_id) end.

Definition proxy_trans_remove (s : trans_state) (transaction_id : Z) : outcome (option Z * trans_state) :=
  match trans_table s with
  | None => Undef
  | Some t => let '(r, t) := mt_remove t transaction_id in Ret (r, set_trans_table (Some t) s)
  end.

Definition deref (s : trans_state) (p : Z) : outcome proxy_trans_t :=
  match heap s !! p with Some t => Ret t | None => Undef end.

Definition malloc_trans (t : proxy_trans_t) (s : trans_state) : Z * trans_state :=
  (next s, TransState (trans_table s) (<[next s := t]> (heap s)) (next s + 1)).

(** [proxy_trans_end]: the transactions in the table are freed, each of which has to be allocated. *)
Fixpoint free_all (ps : list Z) (h : gmap Z proxy_trans_t) : outcome (gmap Z proxy_trans_t) :=
  match ps with
  | [] => Ret h
  | p :: ps => match h !! p with Some _ => free_all ps (delete p h) | None => Undef end
  end.

Definition proxy_trans_end (s : trans_state) : outcome trans_state :=
  match trans_table s with
  | None => Ret s
  | Some t => h ← free_all (mt_destroy t) (heap s); Ret (set_heap h s)
  end.

(** ** Results of clones on the coordinator

    [net_trans_result] from the search for the transaction up to the point where
    it waits for the local threads; a completed transaction gives the arguments
    of [proxy_backend_clone_complete]. *)

(** [malloc(sizeof(int)*total)], each element set to -1; a negative size fails. *)
Definition new_clone_ids (total : Z) : option (list Z) :=
  if total <? 0 then None else Some (replicate (Z.to_nat total) (-1)).

Definition find_or_create (cs : clone_state (T := T)) (transaction_id : Z) (s : trans_state)
  : outcome (Z * trans_state) :=
  found ← proxy_trans_search s transaction_id;
  match found with
  | Some p => Ret (p, s)
  | None =>
      n ← proxy_clone_get_num cs (clone_generation cs);
      let '(p, s) := malloc_trans (Trans 0 n 0 (Some true) (new_clone_ids n)) s in
      '(_, s) ← proxy_trans_insert s transaction_id p;
      Ret (p, s)
  end.

Definition trans_result (cs : clone_state (T := T)) (clone_id transaction_id : Z) (ok : bool)
  (s : trans_state) : outcome (trans_state * option (list Z * Z * bool)) :=
  '(p, s) ← find_or_create cs transaction_id s;
  t ← deref s p;
  match clone_ids t with
  | None => Undef
  | Some ids =>
      ids ← aset ids (num t) clone_id;
      match success t with
      | None => Undef
      | Some b =>
          let b := b && ok in
          let n := num t + 1 in
          if n =? total t then
            Ret (set_heap (<[p := Trans n (total t) (done t) (Some b) None]> (heap s)) s,
                 Some (ids, total t, b))
          else
            Ret (set_heap (<[p := Trans n (total t) (done t) (Some b) (Some ids)]> (heap s)) s, None)
      end
  end.

(** The wait for the local threads and the removal; [None] while it waits. *)
Definition trans_finish (transaction_id p backend_num : Z) (s : trans_state)
  : outcome (option trans_state) :=
  t ← deref s p;
  if done t <? backend_num - total t then Ret None
  else
    '(_, s) ← proxy_trans_remove s transaction_id;
    Ret (Some (set_heap (delete p (heap s)) s)).

(** A local backend thread of the coordinator in [backend_check_commit]: it waits
    for all results ([None]), then takes the decision and counts itself. *)
Definition local_decision (p : Z) (s : trans_state) : outcome (option (option bool * trans_state)) :=
  t ← deref s p;
  if num t <? total t then Ret None
  else Ret (Some (success t,
        set_heap (<[p := Trans (num t) (total t) (done t + 1) (success t) (clone_ids t)]> (heap s)) s)).

(** Several results for one transaction. *)
Fixpoint trans_results (cs : clone_state (T := T)) (transaction_id : Z) (msgs : list (Z * bool))
  (s : trans_state) : outcome (trans_state * list (option (list Z * Z * bool))) :=
  match msgs with
  | [] => Ret (s, [])
  | (clone_id, ok) :: msgs =>
      '(s, c) ← trans_result cs clone_id transaction_id ok s;
      '(s, l) ← trans_results cs transaction_id msgs s;
      Ret (s, c :: l)
  end.

(** ** Invariant *)

(** The transaction [id] after the results of [msgs], out of [k]. *)
Record collecting (id k : Z) (msgs : list (Z * bool)) (s : trans_state) : Prop := {
  c_table : exists t p, trans_table s = Some t /\ mt_ok t /\ mt_map t !! id = Some p /\
    heap s !! p = Some (Trans (zlength msgs) k 0 (Some (forallb snd msgs))
                         (if zlength msgs =? k then None
                          else Some ((fst <$> msgs) ++ replicate (Z.to_nat (k - zlength msgs)) (-1))))
}.

(** No transaction [id] yet, and room in the table. *)
Record absent (id : Z) (s : trans_state) : Prop := {
  a_table : exists t, trans_table s = Some t /\ mt_ok t /\ mt_map t !! id = None /\
    Z.of_nat (size (mt_map t)) + 1 < 2 ^ 32
}.

Lemma set_nth_clone (l : list Z) n r v :
  n = length l -> (0 < r)%nat -> <[n := v]> (l ++ replicate r (-1)) = (l ++ [v]) ++ replicate (r - 1) (-1).
Proof.
  intros -> Hr. rewrite insert_app_r_alt, Nat.sub_diag by done. destruct r as [|r]; [lia|]. simpl.
  by rewrite Nat.sub_0_r, <-app_assoc.
Qed.

(** One more result for a transaction that is collected. *)
Lemma collect_one cs id k msgs clone_id ok s :
  collecting id k msgs s -> zlength msgs < k ->
  exists s', trans_result cs clone_id id ok s =
      Ret (s', if zlength msgs + 1 =? k
               then Some ((fst <$> msgs) ++ [clone_id], k, forallb snd (msgs ++ [(clone_id, ok)])) else None) /\
    collecting id k (msgs ++ [(clone_id, ok)]) s'.
Proof.
  intros [(t & p & Ht & Hok & Hp & Hh)] Hk. unfold trans_result, find_or_create, proxy_trans_search.
  rewrite Ht. simpl. rewrite mt_search_ok, Hp by done. simpl. unfold deref. rewrite Hh. simpl.
  destruct (Z.eqb_spec (zlength msgs) k); [lia|]. simpl.
  rewrite aset_in by (unfold zlength in *; rewrite length_app, length_replicate, length_fmap; lia).
  simpl. unfold zlength in *. rewrite Nat2Z.id.
  rewrite set_nth_clone by (rewrite ?length_fmap; lia).
  assert (Hsnd : forallb snd (msgs ++ [(clone_id, ok)]) = forallb snd msgs && ok).
  { rewrite forallb_app. simpl. by rewrite andb_true_r. }
  rewrite Hsnd. destruct (Z.eqb_spec (Z.of_nat (length msgs) + 1) k) as [E|E].
  - eexists. split.
    + replace (Z.to_nat (k - Z.of_nat (length msgs)) - 1)%nat with 0%nat by lia.
      simpl. rewrite app_nil_r. done.
    + split. exists t, p. simpl. rewrite lookup_insert_eq. split_and!; try done.
      unfold zlength. rewrite length_app, Hsnd. simpl. f_equal. f_equal; [lia|].
      by destruct (Z.eqb_spec (Z.of_nat (length msgs + 1)) k); [|lia].
  - eexists. split; [done|]. split. exists t, p. simpl. rewrite lookup_insert_eq. split_and!; try done.
    unfold zlength. rewrite length_app, Hsnd. simpl. f_equal. f_equal; [lia|].
    destruct (Z.eqb_spec (Z.of_nat (length msgs + 1)) k); [lia|]. f_equal.
    rewrite fmap_app. f_equal. f_equal. lia.
Qed.

(** The first result creates the transaction. *)
Lemma find_absent cs id k s :
  absent id s -> proxy_clone_get_num cs (clone_generation cs) = Ret k -> 1 <= k ->
  exists p s', find_or_create cs id s = Ret (p, s') /\ collecting id k [] s' /\
    find_or_create cs id s' = Ret (p, s').
Proof.
  intros [(t & Ht & Hok & Hn & Hb)] Hk Hk1. unfold find_or_create, proxy_trans_search, malloc_trans.
  rewrite Ht. simpl. rewrite mt_search_ok, Hn, Hk by done. simpl.
  unfold proxy_trans_insert. simpl.
  destruct (mt_insert_ok t id (next s) Hok Hn Hb) as (t' & -> & Hok' & Hm'). simpl.
  eexists _, _. split; [done|]. simpl. rewrite mt_search_ok, Hm', lookup_insert_eq by done. split; [|done].
  split. exists t', (next s). cbn [trans_table heap set_trans_table]. rewrite Hm', !lookup_insert_eq. split_and!; try done.
  change (zlength (@nil (Z * bool))) with 0. destruct (Z.eqb_spec 0 k); [lia|].
  unfold new_clone_ids. destruct (Z.ltb_spec k 0); [lia|]. by rewrite Z.sub_0_r.
Qed.

Lemma trans_result_created cs id clone_id ok s p s' :
  find_or_create cs id s = Ret (p, s') -> find_or_create cs id s' = Ret (p, s') ->
  trans_result cs clone_id id ok s = trans_result cs clone_id id ok s'.
Proof. intros E E'. unfold trans_result. by rewrite E, E'. Qed.

(** What the results after those of [pre] give. *)
Lemma collect_all cs id k pre msgs s :
  collecting id k pre s -> zlength pre + zlength msgs = k -> msgs <> [] ->
  exists s', trans_results cs id msgs s =
      Ret (s', replicate (length msgs - 1) None ++ [Some (fst <$> pre ++ msgs, k, forallb snd (pre ++ msgs))]) /\
    collecting id k (pre ++ msgs) s'.
Proof.
  revert pre s. induction msgs as [|[c ok] msgs IH]; intros pre s Hc Hk Hne; [done|].
  unfold zlength in *. simpl in Hk.
  destruct (collect_one cs id k pre c ok s Hc) as (s1 & E & Hc1); [unfold zlength; lia|].
  simpl. rewrite E. simpl. unfold zlength. destruct msgs as [|m msgs].
  - simpl. exists s1. split; [|done]. simpl in Hk.
    destruct (Z.eqb_spec (Z.of_nat (length pre) + 1) k); [|lia]. by rewrite fmap_app.
  - destruct (Z.eqb_spec (Z.of_nat (length pre) + 1) k); [simpl in Hk; lia|].
    destruct (IH (pre ++ [(c, ok)]) s1 Hc1) as (s2 & E2 & Hc2); [|done|].
    + unfold zlength. rewrite length_app. simpl. simpl in Hk. lia.
    + rewrite E2. simpl. rewrite <-app_assoc in E2, Hc2 |- *. exists s2. split; [|done].
      rewrite Nat.sub_0_r. done.
Qed.

(** C15: the decision of a transaction that spans a cloning operation.  When the
    clones of the generation, [k] of them, report their results in any order,
    the coordinator completes the transaction exactly at the last one: the
    clones that reported are all told, in that order, to commit if all of them
    succeeded and to roll back otherwise, and a local backend thread that asks
    from then on gets the same decision. *)
Theorem trans_decision cs id k msgs s :
  absent id s -> proxy_clone_get_num cs (clone_generation cs) = Ret k -> 1 <= k -> zlength msgs = k ->
  exists s' p s'', trans_results cs id msgs s =
      Ret (s', replicate (length msgs - 1) None ++ [Some (fst <$> msgs, k, forallb snd msgs)]) /\
    proxy_trans_search s' id = Ret (Some p) /\
    local_decision p s' = Ret (Some (Some (forallb snd msgs), s'')).
Proof.
  intros Ha Hg Hk Hl. destruct (find_absent cs id k s Ha Hg Hk) as (p & s1 & E & Hc & E').
  assert (Hne : msgs <> []) by (intros ->; unfold zlength in Hl; simpl in Hl; lia).
  assert (Hfirst : trans_results cs id msgs s = trans_results cs id msgs s1).
  { destruct msgs as [|[c ok] msgs]; [done|]. simpl. by rewrite (trans_result_created cs id c ok s p s1). }
  destruct (collect_all cs id k [] msgs s1 Hc) as (s2 & E2 & [(t & q & Ht & Hok & Hq & Hh)]); [done..|].
  simpl in *. exists s2, q. unfold proxy_trans_search, local_decision, deref.
  rewrite Ht, mt_search_ok, Hq, Hh by done. simpl. rewrite Hl, Z.ltb_irrefl.
  eexists. split_and!; [by rewrite Hfirst, E2|done|done].
Qed.

(** The first result of a generation for which no clone was counted (the
    number is zero, or the generation is unknown) is stored outside the array of
    clone identifiers. *)
Theorem trans_no_clones cs id clone_id ok k s :
  absent id s -> proxy_clone_get_num cs (clone_generation cs) = Ret k -> k <= 0 ->
  trans_result cs clone_id id ok s = Undef.
Proof.
  intros [(t & Ht & Hok & Hn & Hb)] Hk Hk0.
  unfold trans_result, find_or_create, proxy_trans_search, malloc_trans.
  rewrite Ht. simpl. rewrite mt_search_ok, Hn, Hk by done. simpl.
  unfold proxy_trans_insert. simpl.
  destruct (mt_insert_ok t id (next s) Hok Hn Hb) as (t' & -> & _). simpl.
  unfold deref. simpl. rewrite lookup_insert_eq. simpl. unfold new_clone_ids.
  destruct (Z.ltb_spec k 0); [done|]. assert (k = 0) as -> by lia. done.
Qed.

(** The message [proxy_backend_clone_complete] sends to a clone (see Complete.v). *)
Definition commit_message (commit : bool) (transaction_id : Z) : list Z :=
  str "PROXY " ++ (if commit then str "COMMIT" else str "ROLLBACK") ++ str " " ++ fmt_lu transaction_id.

(** ** The end *)

Lemma free_all_spec ps h :
  NoDup ps -> Forall (fun p => is_Some (h !! p)) ps ->
  exists h', free_all ps h = Ret h' /\ forall p, h' !! p = if bool_decide (p ∈ ps) then None else h !! p.
Proof.
  intros Hd. revert h. induction Hd as [|p ps Hn _ IH]; intros h Hs; [by exists h|].
  apply Forall_cons in Hs as [[x Hx] Hs]. cbn [free_all]. rewrite Hx. destruct (IH (delete p h)) as (h' & -> & Hh').
  { eapply Forall_impl; [apply Forall_and; split; [exact Hs|apply Forall_forall; intros q Hq; exact Hq]|].
    intros q [? Hq]. rewrite lookup_delete_ne; [done|]. by intros ->. }
  exists h'. split; [done|]. intros q. rewrite Hh'. destruct (decide (q = p)) as [->|Hne].
  - rewrite lookup_delete_eq. rewrite (bool_decide_eq_true_2 (p ∈ p :: ps)) by left. by case_bool_decide.
  - rewrite lookup_delete_ne by done. erewrite (bool_decide_ext (q ∈ p :: ps)); [done|]. rewrite elem_of_cons. tauto.
Qed.

(** The end of the program frees the transactions that still wait for results, each of them once,
    and nothing else, provided that they were allocated one by one. *)
Theorem trans_end_frees s t :
  trans_table s = Some t -> mt_ok t ->
  (forall k p, mt_map t !! k = Some p -> is_Some (heap s !! p)) ->
  (forall k k' p, mt_map t !! k = Some p -> mt_map t !! k' = Some p -> k = k') ->
  exists s', proxy_trans_end s = Ret s' /\
    (forall k p, mt_map t !! k = Some p -> heap s' !! p = None) /\
    (forall p, (forall k, mt_map t !! k <> Some p) -> heap s' !! p = heap s !! p).
Proof.
  intros Et Hok Hlive Hinj. unfold proxy_trans_end. rewrite Et. pose proof (mt_destroy_ok t Hok) as Hp.
  assert (Hin : forall p, p ∈ mt_destroy t <-> exists k, mt_map t !! k = Some p).
  { intros p. rewrite Hp, list_elem_of_fmap. split; [intros ([k q] & -> & ?%elem_of_map_to_list); by exists k|].
    intros [k Hk]. exists (k, p). split; [done|]. by apply elem_of_map_to_list. }
  destruct (free_all_spec (mt_destroy t) (heap s)) as (h & -> & Hh).
  - rewrite Hp. apply NoDup_fmap_2_strong; [|apply NoDup_map_to_list].
    intros [k p] [k' q] ?%elem_of_map_to_list ?%elem_of_map_to_list; cbn [snd]; intros ->. f_equal. by eapply Hinj.
  - apply Forall_forall. intros p [k Hk]%Hin. by eapply Hlive.
  - eexists. split; [done|]. split; cbn [heap set_heap].
    + intros k p Hk. rewrite Hh, bool_decide_eq_true_2; [done|]. apply Hin. by exists k.
    + intros p Hno. rewrite Hh, bool_decide_eq_false_2; [done|]. rewrite Hin. intros [k Hk]. by eapply Hno.
Qed.

End trans.

(** ** Witnesses *)

(** A table with one entry. *)
Definition one_entry {V} (k : Z) (v : V) : hashtable V :=
  match mt_create 16 with
  | Some t => match mt_insert t k v with Ret (_, t) => t | Undef => t end
  | None => HT 0 [] 0 0 0
  end.

Lemma one_entry_ok {V} (k : Z) (v : V) : mt_ok (one_entry k v) /\ mt_map (one_entry k v) = {[k := v]}.
Proof.
  destruct (mt_create_ok (T := hashtable) (V := V) 16) as (t & Ht & Hok & Hm); [lia|].
  unfold one_entry. rewrite Ht.
  destruct (mt_insert_ok t k v Hok) as (t' & -> & Hok' & Hm').
  - by rewrite Hm.
  - rewrite Hm, map_size_empty. lia.
  - split; [done|]. by rewrite Hm', Hm, insert_empty.
Qed.

(** A coordinator in generation 1, which has two clones. *)
Definition demo_clones : clone_state (T := hashtable) :=
  CloneState 0 0 0 1 0 (Some (one_entry 7 (Host (str "h") 3306))) (Some (one_entry 1 2)).

Definition demo_trans : trans_state (T := hashtable) := TransState (mt_create 16) ∅ 100.

Lemma demo_absent id : absent id demo_trans.
Proof.
  destruct (mt_create_ok (T := hashtable) (V := Z) 16) as (t & Ht & Hok & Hm); [lia|].
  split. exists t. split_and!; [exact Ht|exact Hok|by rewrite Hm|].
  rewrite Hm, map_size_empty. lia.
Qed.

Lemma trans_decision_witness :
  exists s' p s'', trans_results demo_clones 9 [(7, true); (8, false)] demo_trans =
      Ret (s', [None; Some ([7; 8], 2, false)]) /\
    proxy_trans_search s' 9 = Ret (Some p) /\
    local_decision p s' = Ret (Some (Some false, s'')).
Proof.
  apply (trans_decision demo_clones 9 2 [(7, true); (8, false)] demo_trans).
  - apply demo_absent.
  - vm_compute. reflexivity.
  - lia.
  - reflexivity.
Defined.

Lemma trans_no_clones_witness :
  trans_result (set_clone_generation 2 demo_clones) 7 9 true demo_trans = Undef.
Proof.
  apply (trans_no_clones (set_clone_generation 2 demo_clones) 9 7 true (-1) demo_trans).
  - apply demo_absent.
  - vm_compute. reflexivity.
  - lia.
Defined.

(** ** The decision on a clone

    [net_commit] (the thread of the PROXY COMMIT or ROLLBACK command) and
    [backend_clone_query_wait] (the thread of the query) share a transaction object
    on the stack of the latter, with its mutex and its condition variable.  A step is one
    access of the object, of the mutex or of the table.  The thread of the query
    destroys the mutex and the condition variable and returns; a later access of the other thread is
    undefined, and so is the destruction of a locked mutex.  A thread that waits on
    the condition variable is woken only by the signal. *)

Module CloneCommit.

Inductive mpc :=
| MSearch                  (* looks for the object in the table, until it is there *)
| MNum                     (* sets num *)
| MSuccess                 (* sets success *)
| MLock
| MSignal
| MUnlock
| MDone
| MUndef.                  (* used the object after its end *)

(** From [QUnlock] on: what the backend was told, and whether [success] had been
    written when it was read. *)
Inductive qpc :=
| QInsert                  (* about to insert the object *)
| QLock
| QTest                    (* holds the mutex, tests num *)
| QSleep                   (* waits on the condition variable *)
| QWake                    (* was signalled, waits for the mutex *)
| QAct                     (* reads success and tells the backend *)
| QUnlock (act written : bool)
| QDestroy (act written : bool)
| QRemove (act written : bool)
| QDone (act written : bool)
| QUndef.                  (* destroyed a locked mutex *)

Inductive owner := Command | Query.

(** [t_num] tells if [num] is not zero; [mutex] is the owner of [cv_mutex]. *)
Record st := St {
  in_table : bool;
  t_num : bool;
  t_success : option bool;
  mutex : option owner;
  msg : mpc;
  qry : qpc
}.

(** The mutex and the condition variable were destroyed; the function returned. *)
Definition destroyed (q : qpc) : bool := match q with QRemove _ _ | QDone _ _ => true | _ => false end.
Definition returned (q : qpc) : bool := match q with QDone _ _ => true | _ => false end.

(** The thread of the query. *)
Inductive query_step : st -> st -> Prop :=
| q_insert n b x m : query_step (St false n b x m QInsert) (St true n b x m QLock)
| q_lock i n b m : query_step (St i n b None m QLock) (St i n b (Some Query) m QTest)
| q_sleep i b x m : query_step (St i false b x m QTest) (St i false b None m QSleep)
| q_go i b x m : query_step (St i true b x m QTest) (St i true b x m QAct)
| q_wake i n b m : query_step (St i n b None m QWake) (St i n b (Some Query) m QTest)
| q_act i n b x m : query_step (St i n (Some b) x m QAct) (St i n (Some b) x m (QUnlock b true))
| q_garbage i n x m a : query_step (St i n None x m QAct) (St i n None x m (QUnlock a false))
| q_unlock i n b x m a w : query_step (St i n b x m (QUnlock a w)) (St i n b None m (QDestroy a w))
| q_destroy i n b m a w : query_step (St i n b None m (QDestroy a w)) (St i n b None m (QRemove a w))
| q_locked i n b x m a w : query_step (St i n b (Some x) m (QDestroy a w)) (St i n b (Some x) m QUndef)
| q_remove i n b x m a w : query_step (St i n b x m (QRemove a w)) (St false n b x m (QDone a w)).

(** The thread of the command. *)
Inductive command_step (decision : bool) : st -> st -> Prop :=
| m_search n b x q : command_step decision (St true n b x MSearch q) (St true n b x MNum q)
| m_num i n b x q :
    command_step decision (St i n b x MNum q) (if returned q then St i n b x MUndef q else St i true b x MSuccess q)
| m_success i n b x q :
    command_step decision (St i n b x MSuccess q)
      (if returned q then St i n b x MUndef q else St i n (Some decision) x MLock q)
| m_lock i n b q :
    destroyed q = false -> command_step decision (St i n b None MLock q) (St i n b (Some Command) MSignal q)
| m_lock_destroyed i n b x q :
    destroyed q = true -> command_step decision (St i n b x MLock q) (St i n b x MUndef q)
| m_signal i n b x q :
    command_step decision (St i n b x MSignal q) (St i n b x MUnlock (match q with QSleep => QWake | q => q end))
| m_unlock i n b x q : command_step decision (St i n b x MUnlock q) (St i n b None MDone q).

Definition step (decision : bool) (s s' : st) : Prop := query_step s s' \/ command_step decision s s'.

Definition init : st := St false false None None MSearch QInsert.

(** *** The invariant *)













(** *** The decision comes after the query thread waits *)





Ltac qrun R := eapply rtc_l; [left; apply R|].
Ltac mrun R := eapply rtc_l; [right; apply R|simpl].




(** The thread of the query may do the opposite of the decision: [net_commit]
    sets [num] before it sets [success], outside the mutex, and [success] was not
    initialised.  It may also end before [net_commit] does, which then writes to the stack of a
    function that has returned, or locks a mutex that was destroyed; and it may destroy the
    mutex while [net_commit] holds it. *)
Theorem clone_decision_race :
  (exists s, rtc (step true) init s /\ qry s = QDone false false /\ msg s = MSuccess) /\
  (exists s, rtc (step true) init s /\ qry s = QDone true true /\ msg s = MUndef) /\
  (exists s, rtc (step true) init s /\ qry s = QUndef /\ mutex s = Some Command).
Proof.
  split_and!.
  - eexists. split; [|split]. 1: { qrun q_insert. mrun m_search. mrun m_num. qrun q_lock. qrun q_go. eapply rtc_l; [left; apply q_garbage with (a := false)|].
      qrun q_unlock. qrun q_destroy. qrun q_remove. apply rtc_refl. } all: done.
  - eexists. split; [|split]. 1: { qrun q_insert. mrun m_search. mrun m_num. mrun m_success. qrun q_lock. qrun q_go. qrun q_act.
      qrun q_unlock. qrun q_destroy. qrun q_remove. mrun m_lock_destroyed; [done|]. apply rtc_refl. } all: done.
  - eexists. split; [|split]. 1: { qrun q_insert. mrun m_search. mrun m_num. mrun m_success. qrun q_lock. qrun q_go. qrun q_act.
      qrun q_unlock. mrun m_lock; [done|]. qrun q_locked. apply rtc_refl. } all: done.
Qed.

End CloneCommit.
