(* ===== verification/Cmd.v ===== *)
(** * PROXY commands (src/src/proxy_cmd.c)

    How a PROXY command is parsed: the command is cut in tokens in place, in the
    buffer of the packet.  The result is the request, with its arguments, that the
    handler then carries out, or the error that it sends; the handlers that
    change the state of the proxy are in [Clone], [Trans] and [Backend]. *)

From S2P Require Import Prelude CString Options Status Wire Hashtable Clone Trans.
Local Open Scope Z_scope.

(** Error codes of the MySQL headers. *)
Inductive er :=
| ER_SYNTAX_ERROR
| ER_NOT_ALLOWED_COMMAND
| ER_ERROR_DURING_COMMIT
| ER_CANT_LOCK
| ER_LOCK_WAIT_TIMEOUT
| ER_ERROR_WHEN_EXECUTING_COMMAND
| ER_BAD_HOST_ERROR.

Inductive request :=
| QError (e : er) (msg : string)
| QShowClones
| QCloneMaster (nclones : Z)           (* on a cloneable server *)
| QCloneCoordinator (nclones : Z)      (* on the coordinator *)
| QShowCoordinator
| QSetCoordinator (host : list Z) (port : Z)
| QAdd (clone_id : Z) (host : list Z) (port : Z)
| QResult (success : bool) (clone_id transaction_id : Z)
| QCommit (success : bool) (transaction_id : Z)
| QStatus (global : bool).

Definition space : Z -> bool := is_char 32.
Definition colon : Z -> bool := is_char 58.

Section handlers.
Variable o : options_t.

(** [net_clone]: the number of clones is an [int]. *)
Definition net_clone (buf : list Z) (query : nat) : request :=
  let '(tok, buf, _) := strtok_r buf query space in
  let '(nclones, errno) :=
    match tok with
    | Some tok => let '(v, e) := strtol (cstr buf tok) in (i32 v, e)
    | None => (1, false)
    end in
  if (errno : bool) || (nclones <=? 0) then QError ER_SYNTAX_ERROR "Invalid number of clones"
  else if cloneable o then QCloneMaster nclones
  else if coordinator o then QCloneCoordinator nclones
  else QError ER_NOT_ALLOWED_COMMAND "Proxy server can't be cloned".

(** The host (NULL if there is none), the port and the buffer. *)
Definition parse_host (buf : list Z) (s : nat) : option (list Z) * Z :=
  let '(h, buf, t) := strtok_r buf s colon in
  let '(p, buf, t) := strtok_r buf t colon in
  (cstr buf <$> h,
   match p with
   | Some p => let '(v, e) := strtol (cstr buf p) in if (e : bool) || (i32 v <=? 0) then -1 else i32 v
   | None => backend_port o
   end).

Definition net_proxy_coordinator (buf : list Z) (t : nat) : outcome request :=
  let '(tok, buf, t) := strtok_r buf t space in
  if negb (cloneable o) then
    Ret (QError ER_NOT_ALLOWED_COMMAND "Coordinator cannot be used if proxy is not cloneable")
  else
    match tok with
    | Some tok =>
        let '(host, port) := parse_host buf tok in
        if port <? 0 then Ret (QError ER_SYNTAX_ERROR "Invalid coordinator port number")
        else match host with Some h => Ret (QSetCoordinator h port) | None => Undef end
    | None => Ret QShowCoordinator
    end.

Definition net_add_clone (buf : list Z) (t : nat) : outcome request :=
  if negb (coordinator o) then
    Ret (QError ER_NOT_ALLOWED_COMMAND "Proxy server not started as coordinator")
  else
    let '(tok, buf, t) := strtok_r buf t space in
    match tok with
    | None => Ret (QError ER_SYNTAX_ERROR "Invalid clone ID")
    | Some tok =>
        let '(v, errno) := strtol (cstr buf tok) in
        if (errno : bool) || (i32 v <=? 0) then Ret (QError ER_SYNTAX_ERROR "Invalid clone ID")
        else
          let '(host, port) := parse_host buf t in
          if port <? 0 then Ret (QError ER_SYNTAX_ERROR "Invalid clone port number")
          else match host with Some h => Ret (QAdd (i32 v) h port) | None => Undef end
    end.

(** A transaction identifier is an [unsigned long]: only zero is invalid. *)
Definition net_trans_result (buf : list Z) (t : nat) (success : bool) : request :=
  if negb (coordinator o) then
    QError ER_NOT_ALLOWED_COMMAND "Proxy server not started as coordinator"
  else
    let '(tok, buf, t) := strtok_r buf t space in
    match tok with
    | None => QError ER_SYNTAX_ERROR "Invalid clone ID"
    | Some tok =>
        let '(v, errno) := strtol (cstr buf tok) in
        if (errno : bool) || (i32 v <=? 0) then QError ER_SYNTAX_ERROR "Invalid clone ID"
        else
          let '(tok, buf, t) := strtok_r buf t space in
          match tok with
          | None => QError ER_SYNTAX_ERROR "Invalid transaction ID"
          | Some tok =>
              let '(w, errno) := strtol (cstr buf tok) in
              if (errno : bool) || (u64 w =? 0) then QError ER_SYNTAX_ERROR "Invalid transaction ID"
              else QResult success (i32 v) (u64 w)
          end
    end.

Definition net_commit (buf : list Z) (t : nat) (success : bool) : request :=
  if negb (cloneable o) then
    QError ER_NOT_ALLOWED_COMMAND "Proxy server not started as cloneable"
  else
    let '(tok, buf, t) := strtok_r buf t space in
    match tok with
    | None => QError ER_SYNTAX_ERROR "Invalid transaction ID"
    | Some tok =>
        let '(w, errno) := strtol (cstr buf tok) in
        if (errno : bool) || (u64 w =? 0) then QError ER_SYNTAX_ERROR "Invalid transaction ID"
        else QCommit success (u64 w)
    end.

(** The request type of [net_status]: pointers are offsets, and the comparison
    with a pointer made from NULL fails. *)
Definition net_status_type (buf : list Z) (query : nat) (query_len : Z) : outcome request :=
  let last_tok := (fun i => (query + i + 1)%nat) <$> strrchr (cstr buf query) 32 in
  let '(pch, buf, _) := strtok_r buf query space in
  match pch with
  | None => Undef
  | Some pch =>
      let global := bool_decide (Some pch = last_tok) || strprefix (cstr buf pch) (str "GLOBAL") query_len in
      let session := negb global && strprefix (cstr buf pch) (str "SESSION") query_len in
      if negb (global || session) then Ret (QError ER_SYNTAX_ERROR "Status type must be GLOBAL or SESSION")
      else Ret (QStatus (negb session))
  end.

(** The loop that strips semicolons; the byte before the command stops it. *)
Fixpoint strip (buf : list Z) (query query_len : nat) : outcome (list Z * nat) :=
  c ← aget buf (Z.of_nat query + Z.of_nat query_len - 1);
  if c =? 59 then
    match query_len with
    | O => Undef
    | S n => strip (<[(query + n)%nat := NUL]> buf) query n
    end
  else Ret (buf, query_len).

(** The choice of the handler by the first word; [last_tok] is the last word, if
    the pointer to it is valid. *)
Definition cmd_dispatch (buf : list Z) (query t : nat) (len : Z) (last_tok : option nat) (word : list Z)
  : outcome request :=
  if strprefix word (str "CLONES") len then Ret QShowClones
  else if strprefix word (str "CLONE") len then Ret (net_clone buf t)
  else if strprefix word (str "COORDINATOR") len then net_proxy_coordinator buf t
  else if strprefix word (str "ADD") len then net_add_clone buf t
  else if strprefix word (str "SUCCESS") len then Ret (net_trans_result buf t true)
  else if strprefix word (str "FAILURE") len then Ret (net_trans_result buf t false)
  else if strprefix word (str "COMMIT") len then Ret (net_commit buf t true)
  else if strprefix word (str "ROLLBACK") len then Ret (net_commit buf t false)
  else if len <? 6 then Ret (QError ER_SYNTAX_ERROR "Unrecognized proxy command")
  else
    match last_tok with
    | None => Undef
    | Some l =>
        if strprefix (cstr buf l) (str "STATUS") len then net_status_type buf query len
        else Ret (QError ER_SYNTAX_ERROR "Unrecognized proxy command")
    end.

(** [proxy_cmd] on the command at offset [query] of a packet. *)
Definition proxy_cmd (buf : list Z) (query query_len : nat) : outcome request :=
  '(buf, query_len) ← strip buf query query_len;
  let last_tok := (fun i => (query + i + 1)%nat) <$> strrchr (cstr buf query) 32 in
  let '(tok, buf, t) := strtok_r buf query space in
  match tok with
  | None => Ret (QError ER_SYNTAX_ERROR "Unrecognized proxy command")
  | Some tok => cmd_dispatch buf query t (Z.of_nat query_len) last_tok (cstr buf tok)
  end.

End handlers.

(** The command in a query packet, as [proxy_net_read_query] passes it on. *)
Definition cmd_of_query (o : options_t) (query : list Z) : outcome request :=
  proxy_cmd o (query ++ [NUL]) 5 (length query - 5).

(** ** Messages between proxies

    The commands that one proxy sends to another: a clone reports the result of
    a transaction ([backend_clone_query_wait]) and its address, and the
    coordinator asks the master for clones (both [net_clone]); [commit_message]
    is in [Trans]. *)

Definition result_message (success : bool) (server_id transaction_id : Z) : list Z :=
  str "PROXY " ++ (if success then str "SUCCESS" else str "FAILURE") ++ str " " ++ fmt_d server_id
  ++ str " " ++ fmt_lu transaction_id ++ str ";".

Definition add_message (server_id : Z) (phost : list Z) (pport : Z) : list Z :=
  str "PROXY ADD " ++ fmt_d server_id ++ str " " ++ phost ++ str ":" ++ fmt_d pport ++ str ";".

Definition clone_message (nclones : Z) : list Z := str "PROXY CLONE " ++ fmt_d nclones ++ str ";".

(** ** Parsing a command of one word and arguments *)

Lemma digits_token delim n :
  (forall c, delim c = true -> c < 48 \/ 57 < c) -> 0 <= n < 2 ^ 64 -> token delim (fmt_lu n).
Proof.
  intros Hd Hn. destruct (fmt_lu_spec n Hn) as (Hne & Hdig & _). split; [done|].
  eapply Forall_impl; [done|]. intros c Hc. unfold isdigit in Hc. bprop.
  destruct (delim c) eqn:E; [apply Hd in E; lia|]. simpl.
  destruct (Z.eqb_spec c NUL); [unfold NUL in *; lia|done].
Qed.

Lemma space_digit c : space c = true -> c < 48 \/ 57 < c.
Proof. unfold space, is_char. intros ->%Z.eqb_eq. lia. Qed.

Lemma colon_digit c : colon c = true -> c < 48 \/ 57 < c.
Proof. unfold colon, is_char. intros ->%Z.eqb_eq. lia. Qed.

Lemma fmt_d_lu n : 0 <= n < 2 ^ 64 -> fmt_d n = fmt_lu n.
Proof.
  intros Hn. unfold fmt_d, fmt_lu, u64. rewrite wrap_small by done.
  by destruct (Z.ltb_spec n 0); [lia|].
Qed.

Lemma strtol_digits n : 0 <= n <= LONG_MAX -> strtol (fmt_lu n) = (n, false).
Proof.
  intros Hn. pose proof (strtol_fmt_lu n [] []) as H. simpl in H. rewrite app_nil_r in H.
  apply H; [done|constructor|done].
Qed.

(** Trailing semicolons. *)
Lemma strip_semi q rest query n :
  (query + n = length q)%nat -> (0 < length q)%nat -> last q <> Some 59 -> 
  forall semis, strip (q ++ replicate semis 59 ++ rest) query (n + semis) =
                Ret (q ++ replicate semis NUL ++ rest, n).
Proof.
  intros Hq Hpos Hlast semis. revert rest. induction semis as [|k IH]; intros rest.
  - rewrite Nat.add_0_r. simpl.
    assert (exists q' c, q = q' ++ [c]) as (q' & c & ->).
    { destruct q as [|c q' _] using rev_ind; [simpl in Hpos; lia|eauto]. }
    rewrite last_snoc in Hlast. rewrite length_app in Hq. simpl in Hq.
    assert (Hc : aget ((q' ++ [c]) ++ rest) (Z.of_nat query + Z.of_nat n - 1) = Ret c).
    { apply aget_Ret. split; [lia|]. replace (Z.to_nat _) with (length q') by lia.
      rewrite <-app_assoc. by apply list_lookup_middle. }
    destruct n; simpl strip; rewrite Hc; simpl; destruct (Z.eqb_spec c 59); congruence.
  - rewrite Nat.add_succ_r. cbn [strip].
    assert (Hc : aget (q ++ replicate (S k) 59 ++ rest) (Z.of_nat query + Z.of_nat (S (n + k)) - 1) = Ret 59).
    { apply aget_Ret. split; [lia|]. replace (Z.to_nat _) with (length q + k)%nat by lia.
      rewrite lookup_app_r by lia. replace (length q + k - length q)%nat with k by lia.
      rewrite lookup_app_l by (rewrite length_replicate; lia). by apply lookup_replicate; split; [|lia]. }
    rewrite Hc. simpl.
    replace (<[(query + (n + k))%nat := NUL]> (q ++ 59 :: replicate k 59 ++ rest))
      with (q ++ replicate k 59 ++ (NUL :: rest)).
    + rewrite IH. f_equal. f_equal. f_equal. rewrite (app_comm_cons _ _ NUL).
      change (NUL :: replicate k NUL) with (replicate (S k) NUL). rewrite replicate_S_end, <-app_assoc. done.
    + replace (59 :: replicate k 59 ++ rest) with ((replicate k 59 ++ [59]) ++ rest)
        by (rewrite <-replicate_S_end; done).
      rewrite <-app_assoc, insert_app_r_alt by lia.
      replace (query + (n + k) - length q)%nat with k by lia.
      rewrite insert_app_r_alt by (rewrite length_replicate; lia). rewrite length_replicate, Nat.sub_diag. done.
Qed.

(** The buffer and the position of the arguments when the handler is called. *)
Definition cut_buf (word args : list Z) (semis : nat) : list Z :=
  (str "PROXY" ++ [32] ++ word ++ [NUL]) ++ args ++ replicate (S semis) NUL.
Definition cut_pos (word : list Z) : nat := (7 + length word)%nat.

Lemma cut_pos_length word : length (str "PROXY" ++ [32] ++ word ++ [NUL]) = cut_pos word.
Proof. unfold cut_pos. rewrite !length_app. simpl. lia. Qed.

Lemma cmd_word o word args semis :
  token space word -> args <> [] -> last args <> Some 59 ->
  exists last_tok,
    cmd_of_query o (str "PROXY " ++ word ++ str " " ++ args ++ replicate semis 59) =
    cmd_dispatch o (cut_buf word args semis) 5 (cut_pos word) (Z.of_nat (length word + length args + 2)) last_tok word.
Proof.
  intros Hw Hne Hl. unfold cmd_of_query, proxy_cmd.
  set (q := str "PROXY" ++ [32] ++ word ++ [32] ++ args).
  assert (Hq : length q = (length word + length args + 7)%nat).
  { unfold q. rewrite !length_app. simpl. lia. }
  replace ((str "PROXY " ++ word ++ str " " ++ args ++ replicate semis 59) ++ [NUL])
    with (q ++ replicate semis 59 ++ [NUL]) by (unfold q; by app_norm).
  replace (length (str "PROXY " ++ word ++ str " " ++ args ++ replicate semis 59%Z) - 5)%nat
    with (length word + length args + 2 + semis)%nat
    by (rewrite !length_app, length_replicate; simpl; lia).
  rewrite (strip_semi q [NUL] 5 (length word + length args + 2)); [|lia|lia|].
  2: { unfold q. destruct args as [|c args _] using rev_ind; [done|]. rewrite last_snoc in Hl.
       rewrite !app_assoc, last_snoc. done. }
  cbn [mbind outcome_bind].
  eexists. unfold q.
  replace ((str "PROXY" ++ [32] ++ word ++ [32] ++ args) ++ replicate semis NUL ++ [NUL])
    with (str "PROXY" ++ [32] ++ word ++ 32 :: (args ++ replicate (S semis) NUL))
    by (rewrite replicate_S_end; by app_norm).
  rewrite (strtok_mid space eq_refl (str "PROXY") [32] word 32); [|done|by repeat constructor|done|done].
  rewrite (cstr_token_at space _ (length (str "PROXY") + length [32])) with (pre := str "PROXY" ++ [32]) (tok := word)
    (rest := NUL :: args ++ replicate (S semis) NUL); [|by app_norm|done|done|done].
  unfold cut_buf, cut_pos. f_equal; [by app_norm|simpl; lia].
Qed.

(** The last token of a command, and a token that others follow. *)
Lemma tok_last delim pre tok k s :
  delim NUL = false -> s = length pre -> token delim tok ->
  strtok_r (pre ++ tok ++ replicate (S k) NUL) s delim =
    (Some s, pre ++ tok ++ replicate (S k) NUL, (s + length tok)%nat) /\
  cstr (pre ++ tok ++ replicate (S k) NUL) s = tok.
Proof.
  intros Hd -> Ht. split; [|by apply (cstr_token delim)].
  pose proof (strtok_end delim pre [] tok (replicate (S k) NUL) _ eq_refl) as H. simpl in H.
  rewrite Nat.add_0_r in H. by apply H; [apply Forall_nil| |].
Qed.

Lemma tok_next delim pre tok d rest s :
  delim NUL = false -> s = length pre -> token delim tok -> delim d = true ->
  strtok_r (pre ++ tok ++ d :: rest) s delim =
    (Some s, (pre ++ tok ++ [NUL]) ++ rest, length (pre ++ tok ++ [NUL])) /\
  cstr ((pre ++ tok ++ [NUL]) ++ rest) s = tok.
Proof.
  intros Hd -> Ht Hc. split.
  - pose proof (strtok_mid delim Hd pre [] tok d rest _ eq_refl) as H. simpl in H.
    rewrite Nat.add_0_r in H. rewrite H; [|by constructor|done|done].
    replace (pre ++ tok ++ NUL :: rest) with ((pre ++ tok ++ [NUL]) ++ rest) by (by app_norm).
    replace (length pre + length tok + 1)%nat with (length (pre ++ tok ++ [NUL]))
      by (rewrite !length_app; simpl; lia). done.
  - apply (cstr_token_at delim _ _ pre tok (NUL :: rest)); [by app_norm|done..].
Qed.

Lemma prefix_no w c len : strncasecmp w c (length c) <> 0 -> strprefix w c len = false.
Proof. intros H. unfold strprefix. case_match; [done|]. by apply Z.eqb_neq. Qed.

Lemma prefix_yes w c len : zlength c <= len -> strncasecmp w c (length c) = 0 -> strprefix w c len = true.
Proof. intros Hl H. unfold strprefix. destruct (Z.ltb_spec len (zlength c)); [lia|]. by apply Z.eqb_eq. Qed.

(** Chooses the handler of a word that is known. *)
Ltac dispatch :=
  unfold cmd_dispatch;
  repeat (rewrite prefix_no by (vm_compute; discriminate));
  rewrite prefix_yes; [|unfold zlength; cbn [length str]; lia|vm_compute; reflexivity].

Lemma i32_pos n : 0 < n <= INT_MAX -> i32 n = n /\ (i32 n <=? 0) = false.
Proof.
  unfold INT_MAX. intros Hn. assert (i32 n = n) as -> by (apply i32_small; lia).
  split; [done|]. apply Z.leb_gt. lia.
Qed.

Section messages.
Context (o : options_t) (n m : Z).
Hypothesis Hn : 0 < n <= INT_MAX.
Hypothesis Hm : 0 < m <= LONG_MAX.

Lemma n_fmt : fmt_d n = fmt_lu n /\ strtol (fmt_lu n) = (n, false).
Proof.
  unfold INT_MAX in Hn. split; [apply fmt_d_lu; lia|]. apply strtol_digits. unfold LONG_MAX. lia.
Qed.

Lemma m_fmt : strtol (fmt_lu m) = (m, false) /\ (u64 m =? 0) = false /\ u64 m = m.
Proof.
  unfold LONG_MAX in Hm. assert (u64 m = m) as Hu by (apply wrap_small; lia).
  rewrite Hu. split_and!; [apply strtol_digits; unfold LONG_MAX; lia|apply Z.eqb_neq; lia|done].
Qed.

Lemma net_commit_args word k success :
  cloneable o = true ->
  net_commit o (cut_buf word (fmt_lu m) k) (cut_pos word) success = QCommit success m.
Proof.
  intros Ho. unfold net_commit, cut_buf. rewrite Ho, <-cut_pos_length. simpl negb. cbn iota.
  destruct (tok_last space (str "PROXY" ++ [32] ++ word ++ [NUL]) (fmt_lu m) k _ eq_refl eq_refl) as [E1 E2].
  { apply digits_token; [apply space_digit|unfold LONG_MAX in Hm; lia]. }
  rewrite E1, E2. destruct m_fmt as (-> & -> & ->). done.
Qed.

Lemma net_clone_args word k :
  net_clone o (cut_buf word (fmt_lu n) k) (cut_pos word) =
  if cloneable o then QCloneMaster n else if coordinator o then QCloneCoordinator n
  else QError ER_NOT_ALLOWED_COMMAND "Proxy server can't be cloned".
Proof.
  unfold net_clone, cut_buf. rewrite <-cut_pos_length.
  destruct (tok_last space (str "PROXY" ++ [32] ++ word ++ [NUL]) (fmt_lu n) k _ eq_refl eq_refl) as [E1 E2].
  { apply digits_token; [apply space_digit|unfold INT_MAX in Hn; lia]. }
  rewrite E1, E2. destruct n_fmt as [_ ->]. destruct (i32_pos n Hn) as [E ->]. by rewrite E.
Qed.

Lemma net_result_args word k success :
  coordinator o = true ->
  net_trans_result o (cut_buf word (fmt_lu n ++ 32 :: fmt_lu m) k) (cut_pos word) success = QResult success n m.
Proof.
  intros Ho. unfold net_trans_result, cut_buf. rewrite Ho, <-cut_pos_length. simpl negb. cbn iota.
  set (pre := str "PROXY" ++ [32] ++ word ++ [NUL]). rewrite <-(app_assoc (fmt_lu n)), <-app_comm_cons.
  destruct (tok_next space pre (fmt_lu n) 32 (fmt_lu m ++ replicate (S k) NUL) _ eq_refl eq_refl) as [E1 E2];
    [apply digits_token; [apply space_digit|unfold INT_MAX in Hn; lia]|done|].
  rewrite E1, E2. destruct n_fmt as [_ ->]. destruct (i32_pos n Hn) as [E ->]. cbn [orb].
  destruct (tok_last space (pre ++ fmt_lu n ++ [NUL]) (fmt_lu m) k _ eq_refl eq_refl) as [E3 E4].
  { apply digits_token; [apply space_digit|unfold LONG_MAX in Hm; lia]. }
  rewrite E3, E4. destruct m_fmt as (-> & -> & ->). by rewrite E.
Qed.

(** A host name as in an address: not empty, no colon. *)
Lemma net_add_args word k hst p :
  coordinator o = true -> token colon hst -> 0 < p <= INT_MAX ->
  net_add_clone o (cut_buf word (fmt_lu n ++ 32 :: hst ++ 58 :: fmt_lu p) k) (cut_pos word) = Ret (QAdd n hst p).
Proof.
  intros Ho Hh Hp. unfold net_add_clone, cut_buf. rewrite Ho, <-cut_pos_length. simpl negb. cbn iota.
  set (pre := str "PROXY" ++ [32] ++ word ++ [NUL]).
  rewrite <-(app_assoc (fmt_lu n)), <-app_comm_cons, <-(app_assoc hst), <-app_comm_cons.
  destruct (tok_next space pre (fmt_lu n) 32 (hst ++ 58 :: fmt_lu p ++ replicate (S k) NUL) _ eq_refl eq_refl) as [E1 E2];
    [apply digits_token; [apply space_digit|unfold INT_MAX in Hn; lia]|done|].
  rewrite E1, E2. destruct n_fmt as [_ ->]. destruct (i32_pos n Hn) as [E ->]. cbn [orb].
  unfold parse_host. set (pre2 := pre ++ fmt_lu n ++ [NUL]).
  destruct (tok_next colon pre2 hst 58 (fmt_lu p ++ replicate (S k) NUL) _ eq_refl eq_refl Hh eq_refl) as [E3 E4].
  rewrite E3.
  destruct (tok_last colon (pre2 ++ hst ++ [NUL]) (fmt_lu p) k _ eq_refl eq_refl) as [E5 E6].
  { apply digits_token; [apply colon_digit|unfold INT_MAX in *; lia]. }
  rewrite E5, E6. cbn [fmap option_fmap option_map]. rewrite E4.
  rewrite strtol_digits by (unfold INT_MAX, LONG_MAX in *; lia).
  destruct (i32_pos p Hp) as [Ep ->]. cbn [orb]. rewrite Ep, E.
  destruct (Z.ltb_spec p 0); [lia|done].
Qed.

End messages.

(** A test for tokens. *)
Definition tokenb (delim : Z -> bool) (tok : list Z) : bool :=
  match tok with [] => false | _ => forallb (fun c => negb (delim c) && negb (c =? NUL)) tok end.

Lemma tokenb_token delim tok : tokenb delim tok = true -> token delim tok.
Proof.
  intros H. destruct tok as [|c tok]; [done|]. split; [done|]. unfold tokenb in H.
  apply List.Forall_forall. by apply forallb_forall.
Qed.

Lemma digits_last n : 0 <= n < 2 ^ 64 -> fmt_lu n <> [] /\ last (fmt_lu n) <> Some 59.
Proof.
  intros Hn. destruct (fmt_lu_spec n Hn) as (Hne & Hdig & _). split; [done|]. intros Hl.
  apply last_Some in Hl as [l' E]. rewrite E in Hdig. apply Forall_app in Hdig as [_ Hd].
  by apply Forall_cons in Hd as [Hd _].
Qed.

Lemma last_digits_app l c n :
  0 <= n < 2 ^ 64 -> l ++ c :: fmt_lu n <> [] /\ last (l ++ c :: fmt_lu n) <> Some 59.
Proof.
  intros Hn. destruct (digits_last n Hn) as [Hne Hl]. split; [by destruct l|].
  rewrite last_app. destruct (fmt_lu n) as [|d ds] eqn:E; [done|].
  change (last (c :: d :: ds)) with (last (d :: ds)). destruct (last (d :: ds)) eqn:El; [done|].
  by apply last_None in El.
Qed.

(** C16: the messages between proxies are understood.  What a clone sends to the
    coordinator (the result of a transaction, its address) and what the
    coordinator sends to the clones and to the master (a decision, a request for
    clones) is parsed to the request it stands for, for all identifiers, host
    names and ports in range. *)
Theorem messages_understood o n m b hst p :
  0 < n <= INT_MAX -> 0 < m <= LONG_MAX -> 0 < p <= INT_MAX -> token colon hst ->
  (coordinator o = true ->
     cmd_of_query o (result_message b n m) = Ret (QResult b n m) /\
     cmd_of_query o (add_message n hst p) = Ret (QAdd n hst p)) /\
  (cloneable o = true ->
     cmd_of_query o (commit_message b m) = Ret (QCommit b m) /\
     cmd_of_query o (clone_message n) = Ret (QCloneMaster n)).
Proof.
  intros Hn Hm Hp Hh.
  assert (Hn64 : 0 <= n < 2 ^ 64) by (unfold INT_MAX in Hn; lia).
  assert (Hm64 : 0 <= m < 2 ^ 64) by (unfold LONG_MAX in Hm; lia).
  assert (Hp64 : 0 <= p < 2 ^ 64) by (unfold INT_MAX in Hp; lia).
  destruct (n_fmt n Hn) as [En _]. destruct (n_fmt p Hp) as [Ep _]. split; intros Ho; split.
  - unfold result_message. rewrite En.
    destruct (cmd_word o (if b then str "SUCCESS" else str "FAILURE") (fmt_lu n ++ 32 :: fmt_lu m) 1) as [l E].
    { apply tokenb_token. by destruct b; vm_compute. }
    1-2: by apply last_digits_app.
    replace (str "PROXY " ++ _) with (str "PROXY " ++ (if b then str "SUCCESS" else str "FAILURE") ++ str " "
      ++ (fmt_lu n ++ 32 :: fmt_lu m) ++ replicate 1 59) by (by app_norm).
    rewrite E. destruct b; dispatch; by rewrite net_result_args.
  - unfold add_message. rewrite En, Ep.
    destruct (cmd_word o (str "ADD") (fmt_lu n ++ 32 :: hst ++ 58 :: fmt_lu p) 1) as [l E].
    { apply tokenb_token. by vm_compute. }
    1-2: rewrite app_comm_cons, app_assoc; by apply last_digits_app.
    replace (str "PROXY ADD " ++ _) with (str "PROXY " ++ str "ADD" ++ str " "
      ++ (fmt_lu n ++ 32 :: hst ++ 58 :: fmt_lu p) ++ replicate 1 59) by (by app_norm).
    rewrite E. dispatch. by apply net_add_args.
  - unfold commit_message.
    destruct (cmd_word o (if b then str "COMMIT" else str "ROLLBACK") (fmt_lu m) 0) as [l E].
    { apply tokenb_token. by destruct b; vm_compute. }
    1-2: by apply digits_last.
    rewrite app_nil_r in E. rewrite E. destruct b; dispatch; by rewrite net_commit_args.
  - unfold clone_message. rewrite En.
    destruct (cmd_word o (str "CLONE") (fmt_lu n) 1) as [l E].
    { apply tokenb_token. by vm_compute. }
    1-2: by apply digits_last.
    replace (str "PROXY CLONE " ++ _) with (str "PROXY " ++ str "CLONE" ++ str " " ++ fmt_lu n ++ replicate 1 59)
      by (by app_norm).
    rewrite E. dispatch. by rewrite net_clone_args, Ho.
Qed.

Lemma messages_understood_witness :
  let o := set_cloneable true (set_coordinator true set_option_defaults) in
  cmd_of_query o (str "PROXY FAILURE 3 41;") = Ret (QResult false 3 41) /\
  cmd_of_query o (str "PROXY ADD 3 10.0.0.7:4040;") = Ret (QAdd 3 (str "10.0.0.7") 4040) /\
  cmd_of_query o (str "PROXY ROLLBACK 41") = Ret (QCommit false 41).
Proof.
  intros o.
  destruct (messages_understood o 3 41 false (str "10.0.0.7") 4040) as [H1 H2].
  - unfold INT_MAX. lia.
  - unfold LONG_MAX. lia.
  - unfold INT_MAX. lia.
  - apply tokenb_token. vm_compute. reflexivity.
  - split_and!.
    + exact (proj1 (H1 eq_refl)).
    + exact (proj2 (H1 eq_refl)).
    + exact (proj1 (H2 eq_refl)).
Defined.

(** ** The scope of PROXY STATUS *)

(** The strip loop overwrites semicolons only. *)
Lemma strip_keep n buf query buf' n' :
  strip buf query n = Ret (buf', n') ->
  length buf' = length buf /\ forall i c, buf !! i = Some c -> c <> 59 -> buf' !! i = Some c.
Proof.
  revert buf. induction n as [|n IH]; intros buf; simpl; intros H; inv_bind.
  - case_match; [done|]. by injection H as <- <-.
  - destruct (Z.eqb_spec x 59) as [->|]; [|by injection H as <- <-].
    destruct (IH _ H) as [Hl Hk]. rewrite length_insert in Hl. split; [done|]. intros i c Hi Hc.
    apply Hk; [|done]. rewrite list_lookup_insert_ne; [done|]. intros <-.
    apply aget_Ret in H0 as [_ Hx]. replace (Z.to_nat _) with (query + n)%nat in Hx by lia. congruence.
Qed.

Lemma strrchr_all c l : l <> [] -> Forall (fun x => x = c) l -> strrchr l c = Some (length l - 1)%nat.
Proof.
  intros Hne Hl. destruct l as [|x l _] using rev_ind; [done|]. apply Forall_app in Hl as [_ Hx].
  apply Forall_cons in Hx as [-> _]. rewrite strrchr_app. simpl. rewrite Z.eqb_refl, length_app. simpl.
  f_equal. lia.
Qed.

(** After the first word was cut off, the search for the last word finds the first. *)
Lemma status_type_global pre sp w rest query len :
  length pre = query -> sp <> [] -> Forall (fun c => space c = true) sp -> token space w ->
  (match rest with [] => true | c :: _ => c =? NUL end = true) ->
  net_status_type (pre ++ sp ++ w ++ rest) query len = Ret (QStatus true).
Proof.
  intros <- Hne Hsp Hw Hr. unfold net_status_type.
  assert (Hc : cstr (pre ++ sp ++ w ++ rest) (length pre) = sp ++ w).
  { unfold cstr. rewrite drop_app_length, app_assoc, take_while_app.
    - destruct rest as [|c rest]; simpl; [by rewrite app_nil_r|]. rewrite Hr. simpl. by rewrite app_nil_r.
    - apply Forall_app. split.
      + eapply Forall_impl; [done|]. unfold space, is_char. intros c ->%Z.eqb_eq. done.
      + destruct Hw as [_ Hw]. eapply Forall_impl; [done|]. intros c Hc. by apply andb_prop in Hc as [_ ?]. }
  rewrite Hc, strrchr_app, strrchr_notin.
  2: { destruct Hw as [_ Hw]. intros Hin. apply (proj1 (Forall_forall _ _) Hw) in Hin. done. }
  rewrite strrchr_all; [|done|].
  2: { eapply Forall_impl; [done|]. unfold space, is_char. by intros c ->%Z.eqb_eq. }
  rewrite (strtok_end space pre sp w rest) by done. simpl.
  rewrite bool_decide_true; [done|]. f_equal. destruct sp; [done|]. simpl. lia.
Qed.

(** Only the last branch answers with the status. *)
Lemma dispatch_status o buf query t len last_tok word g :
  cmd_dispatch o buf query t len last_tok word = Ret (QStatus g) ->
  net_status_type buf query len = Ret (QStatus g).
Proof.
  unfold cmd_dispatch. intros H.
  repeat (case_match; [first [done
    |revert H; unfold net_clone, net_proxy_coordinator, net_add_clone, net_trans_result, net_commit;
     repeat case_match; congruence]|]).
  by repeat case_match.
Qed.

(** PROXY STATUS ignores its scope.  Whatever a client writes after PROXY and
    a space (SESSION STATUS too), if the command is answered with the status it
    is the global status. *)
Theorem status_always_global o rest g :
  cmd_of_query o (str "PROXY " ++ rest) = Ret (QStatus g) -> g = true.
Proof.
  unfold cmd_of_query, proxy_cmd. intros H. inv_bind. destruct x as [buf n].
  apply strip_keep in H0 as [Hlen Hkeep].
  assert (H5 : buf !! 5%nat = Some 32) by (apply Hkeep; [done|lia]).
  pose proof (lookup_lt_Some _ _ _ H5) as Hlt.
  destruct (strtok_r buf 5 space) as [[[tok|] buf'] t] eqn:E; [|done].
  destruct (strtok_inv space buf 5 tok buf' t) as (pre & sp & w & r & r' & Hb & Hb' & Hpre & -> & Hsp & Hw & Hr);
    [lia|done|].
  assert (Hne : sp <> []).
  { intros ->. rewrite Hb, lookup_app_r, Hpre in H5 by lia. simpl in H5. destruct w as [|c w]; [by destruct Hw|].
    simpl in H5. injection H5 as ->. destruct Hw as [_ Hw]. by apply Forall_cons in Hw as [? _]. }
  apply dispatch_status in H. subst buf'. rewrite status_type_global in H by done. by injection H.
Qed.

Lemma status_always_global_witness :
  cmd_of_query set_option_defaults (str "PROXY SESSION STATUS;") = Ret (QStatus true) /\ true = true.
Proof.
  split; [vm_compute; reflexivity|].
  apply (status_always_global set_option_defaults (str "SESSION STATUS;") true). vm_compute. reflexivity.
Defined.
