(* ===== verification/SqlString.v ===== *)
(** * String conversion (src/src/sql_string.c)

    A destination buffer is described by the bytes written to it so far; a source
    by the bytes that are left.  The functions of a character set belong to the
    MySQL library and are the fields of [charset]; [charset_ok] states what
    their documentation promises. *)

From S2P Require Import Prelude CString.
Local Open Scope Z_scope.

(** Results of the conversion functions that are not lengths. *)
Definition MY_CS_ILSEQ : Z := 0.
Definition MY_CS_ILUNI : Z := 0.
Definition MY_CS_TOOSMALL : Z := -101.

(** [mb_wc] decodes a character at the start of the bytes that are left (the
    number of bytes, or a code, and the character); [wc_mb] encodes one in the room
    that is left (the number of bytes, or a code, and the bytes);
    [ismbchar] gives the length of a multi-byte character (zero if there is
    none); [well_formed_len] the length of the well-formed prefix of at most so many
    characters, and whether an error ended it. *)
Record charset := Charset {
  mb_wc : list Z -> Z * Z;
  wc_mb : Z -> Z -> Z * list Z;
  ismbchar : list Z -> nat;
  well_formed_len : list Z -> Z -> nat * bool;
  mbminlen : Z;
  is_bin : bool
}.

Record charset_ok (cs : charset) : Prop := {
  cs_mb : forall l, fst (mb_wc cs l) <= zlength l /\
    (MY_CS_TOOSMALL < fst (mb_wc cs l) -> l <> [] /\ - fst (mb_wc cs l) <= zlength l);
  cs_wc : forall wc room, 0 <= room -> 0 < fst (wc_mb cs wc room) ->
    fst (wc_mb cs wc room) = zlength (snd (wc_mb cs wc room)) /\ fst (wc_mb cs wc room) <= room;
  cs_ismb : forall l, (ismbchar cs l <= length l)%nat;
  cs_wf : forall l n, (fst (well_formed_len cs l n) <= length l)%nat;
  cs_min : 1 <= mbminlen cs
}.

Definition question : Z := 63.

(** ** [copy_and_convert] *)

(** The character at the start of the source: the bytes it takes, the character
    and the number of errors; [None] when the source is at its end. *)
Definition next_char (from_cs : charset) (from : list Z) : option (nat * Z * Z) :=
  let '(cnvres, wc) := mb_wc from_cs from in
  if 0 <? cnvres then Some (Z.to_nat cnvres, wc, 0)
  else if cnvres =? MY_CS_ILSEQ then Some (1%nat, question, 1)
  else if MY_CS_TOOSMALL <? cnvres then Some (Z.to_nat (- cnvres), question, 1)
  else None.

(** The bytes of a character, a question mark if it has none. *)
Definition put_char (to_cs : charset) (wc room : Z) : option (list Z * Z) :=
  let '(cnvres, bytes) := wc_mb to_cs wc room in
  if 0 <? cnvres then Some (bytes, 0)
  else if (cnvres =? MY_CS_ILUNI) && negb (wc =? question) then
    let '(cnvres, bytes) := wc_mb to_cs question room in
    if 0 <? cnvres then Some (bytes, 1) else None
  else None.

(** The errors of a character that cannot be written are counted too. *)
Definition put_errors (to_cs : charset) (wc room : Z) : Z :=
  let '(cnvres, _) := wc_mb to_cs wc room in
  if 0 <? cnvres then 0 else if (cnvres =? MY_CS_ILUNI) && negb (wc =? question) then 1 else 0.

Fixpoint convert_loop (fuel : nat) (to_length : Z) (to_cs from_cs : charset) (from out : list Z) (errors : Z)
  : outcome (list Z * Z) :=
  match fuel with
  | O => Undef
  | S fuel =>
      match next_char from_cs from with
      | None => Ret (out, errors)
      | Some (n, wc, e) =>
          let room := to_length - zlength out in
          match put_char to_cs wc room with
          | Some (bytes, _) =>
              convert_loop fuel to_length to_cs from_cs (drop n from) (out ++ bytes)
                (errors + e + put_errors to_cs wc room)
          | None => Ret (out, errors + e + put_errors to_cs wc room)
          end
      end
  end.

(** Each round takes a byte of the source at least. *)
Definition copy_and_convert (to_length : Z) (to_cs : charset) (from : list Z) (from_cs : charset)
  : outcome (list Z * Z) :=
  convert_loop (S (length from)) to_length to_cs from_cs from [] 0.

(** ** [my_copy_with_hex_escaping] *)

Definition hex_digit (d : Z) : Z := if d <? 10 then 48 + d else 55 + d.
Definition hex_escape (c : Z) : list Z := [92; 120; hex_digit (Z.shiftr c 4); hex_digit (Z.land c 15)].

Fixpoint hex_loop (fuel : nat) (cs : charset) (dstlen : Z) (src out : list Z) : outcome (list Z) :=
  match fuel with
  | O => Undef
  | S fuel =>
      match src with
      | [] => Ret out
      | c :: tl =>
          let chlen := ismbchar cs src in
          if negb (chlen =? 0)%nat then
            if dstlen <? Z.of_nat chlen then Ret out
            else hex_loop fuel cs (dstlen - Z.of_nat chlen) (drop chlen src) (out ++ take chlen src)
          else if negb (Z.land c 128 =? 0) then
            if dstlen <? 4 then Ret out
            else hex_loop fuel cs (dstlen - 4) tl (out ++ hex_escape c)
          else
            if dstlen <? 1 then Ret out
            else hex_loop fuel cs (dstlen - 1) tl (out ++ [c])
      end
  end.

Definition my_copy_with_hex_escaping (cs : charset) (dstlen : Z) (src : list Z) : outcome (list Z) :=
  hex_loop (S (length src)) cs dstlen src [].

(** ** [convert_to_printable] *)

(** [room] is [t_end - t]; [dots] the length of the output up to the last place
    for the dots.  The bytes of the source that are left, the output and [dots]. *)
Fixpoint printable_loop (mbminlen : Z) (room : Z) (f out : list Z) (dots : nat) : list Z * list Z * nat :=
  match f with
  | [] => (f, out, dots)
  | c :: tl =>
      if room <=? 0 then (f, out, dots)
      else
        let ascii := (32 <=? c) && (c <=? 127) && (mbminlen =? 1) in
        if negb ascii && (room <? 4) then (f, out, dots)
        else
          let bytes := if ascii then [c] else hex_escape c in
          let out := out ++ bytes in
          let room := room - zlength bytes in
          printable_loop mbminlen room tl out (if 3 <=? room then length out else dots)
  end.

(** The bytes of the buffer up to its terminating NUL, and the number returned.
    [from] is [None] for NULL; the assertion is compiled out. *)
Definition convert_to_printable (to_len : Z) (from : option (list Z)) (from_cs : charset) (nbytes : Z)
  : outcome (list Z * Z) :=
  match from with
  | None => Ret ([], 0)
  | Some from =>
      if to_len - 1 =? 0 then Ret ([], 0)
      else
        let limit := if nbytes =? 0 then zlength from else Z.min (zlength from) nbytes in
        let '(f, out, dots) := printable_loop (mbminlen from_cs) (to_len - 1) (take (Z.to_nat limit) from) [] 0 in
        if (0 <? zlength f) || (limit <? zlength from) then
          if to_len <? Z.of_nat dots + 4 then Undef            (* memcpy past the buffer *)
          else Ret (take dots out ++ str "...", zlength out)
        else Ret (out, zlength out)
  end.

(** ** [well_formed_copy_nchars] *)

(** What the function gives: the bytes written, the length it returns, the place
    in the source where it stopped, and the places of the first character that is not
    well formed and of the first one that cannot be converted. *)
Record copied := Copied {
  c_bytes : list Z;
  c_length : Z;
  c_end : Z;
  c_bad : option Z;
  c_lost : option Z
}.

(** Character sets that need no conversion; [from_bin] if the source is binary. *)
Definition copy_same (to_cs : charset) (to_length : Z) (from_bin : bool) (from : list Z) (nchars : Z) : copied :=
  if (to_length <? mbminlen to_cs) || (nchars =? 0) then Copied [] 0 0 None None
  else if is_bin to_cs then
    let res := Z.min (Z.min nchars to_length) (zlength from) in
    Copied (take (Z.to_nat res) from) res res None None
  else
    let offset := zlength from mod mbminlen to_cs in
    let padded := negb (offset =? 0) && from_bin in
    let pad := if padded then replicate (Z.to_nat (mbminlen to_cs - offset)) 0 ++ take (Z.to_nat offset) from else [] in
    let skip := if padded then offset else 0 in
    let room := if padded then to_length - mbminlen to_cs else to_length in
    let src := take (Z.to_nat room) (drop (Z.to_nat skip) from) in
    let '(res, err) := well_formed_len to_cs src (if padded then nchars - 1 else nchars) in
    let res := Z.of_nat res in
    Copied (pad ++ take (Z.to_nat res) src) (if offset =? 0 then res else res + mbminlen to_cs)
      (skip + res) (if (err : bool) then Some (skip + res) else None) None.

Definition first (a : option Z) (b : Z) : option Z := match a with Some _ => a | None => Some b end.

(** The conversion, a character at a time; [pos] is the place in the source. *)
Fixpoint copy_loop (nchars : nat) (to_length : Z) (to_cs from_cs : charset) (from : list Z) (pos : Z) (out : list Z)
  (bad lost : option Z) : copied :=
  let stop := Copied out (zlength out) pos in
  match nchars with
  | O => stop bad lost
  | S nchars =>
      match next_char from_cs from with
      | None => stop bad lost
      | Some (n, wc, _) =>
          let code := fst (mb_wc from_cs from) in
          let bad := if code =? MY_CS_ILSEQ then first bad pos else bad in
          let lost := if code <? 0 then first lost pos else lost in
          let room := to_length - zlength out in
          let lost := if put_errors to_cs wc room =? 0 then lost else first lost pos in
          match put_char to_cs wc room with
          | Some (bytes, _) =>
              copy_loop nchars to_length to_cs from_cs (drop n from) (pos + Z.of_nat n) (out ++ bytes) bad lost
          | None => stop bad lost
          end
      end
  end.

(** [same] tells if the character sets are the same for the library. *)
Definition well_formed_copy_nchars (same : bool) (to_cs : charset) (to_length : Z) (from_cs : charset) (from : list Z)
  (nchars : Z) : copied :=
  if is_bin to_cs || is_bin from_cs || same then copy_same to_cs to_length (is_bin from_cs) from nchars
  else copy_loop (Z.to_nat nchars) to_length to_cs from_cs from 0 [] None None.

(** ** Bounds *)

Lemma next_char_some from_cs from n wc e :
  charset_ok from_cs -> next_char from_cs from = Some (n, wc, e) -> (0 < n <= length from)%nat /\ 0 <= e <= 1.
Proof.
  intros Hok. unfold next_char. pose proof (cs_mb _ Hok from) as (H1 & H3).
  destruct (mb_wc from_cs from) as [cnvres w]. simpl in *. unfold zlength, MY_CS_ILSEQ, MY_CS_TOOSMALL in *.
  destruct (Z.ltb_spec 0 cnvres); [intros [= <- <- <-]; lia|].
  destruct (Z.eqb_spec cnvres 0) as [->|].
  - intros [= <- <- <-]. destruct from; [by destruct H3|]. simpl. lia.
  - destruct (Z.ltb_spec (-101) cnvres); [|done]. intros [= <- <- <-]. destruct H3; [done|]. lia.
Qed.

Lemma put_char_some to_cs wc room bytes e :
  charset_ok to_cs -> 0 <= room -> put_char to_cs wc room = Some (bytes, e) -> zlength bytes <= room.
Proof.
  intros Hok Hr. unfold put_char. pose proof (cs_wc _ Hok wc room Hr) as H1.
  pose proof (cs_wc _ Hok question room Hr) as H2.
  destruct (wc_mb to_cs wc room) as [c1 b1], (wc_mb to_cs question room) as [c2 b2]. simpl in *.
  destruct (Z.ltb_spec 0 c1); [intros [= <- <-]; lia|]. case_match; [|done].
  destruct (Z.ltb_spec 0 c2); [intros [= <- <-]; lia|done].
Qed.

Lemma convert_loop_spec fuel to_length to_cs from_cs from out errors :
  charset_ok to_cs -> charset_ok from_cs -> (length from < fuel)%nat -> zlength out <= to_length ->
  exists out' errors', convert_loop fuel to_length to_cs from_cs from out errors = Ret (out', errors') /\
    zlength out' <= to_length /\ out `prefix_of` out'.
Proof.
  intros Hto Hfrom. revert from out errors. induction fuel as [|fuel IH]; intros from out errors Hf Ho; [lia|].
  simpl. destruct (next_char from_cs from) as [[[n wc] e]|] eqn:En; [|by eauto 10].
  apply next_char_some in En as [Hn _]; [|done].
  destruct (put_char to_cs wc (to_length - zlength out)) as [[bytes e']|] eqn:Ep; [|by eauto 10].
  apply put_char_some in Ep; [|done|lia].
  destruct (IH (drop n from) (out ++ bytes) (errors + e + put_errors to_cs wc (to_length - zlength out)))
    as (out' & errors' & E & Hl & Hp).
  - rewrite length_drop. lia.
  - unfold zlength in *. rewrite length_app. lia.
  - rewrite E. eexists _, _. split; [done|]. split; [done|]. etrans; [|done]. by apply prefix_app_r.
Qed.

(** [copy_and_convert] ends and writes no more than the room it is given. *)
Lemma copy_and_convert_spec to_length to_cs from from_cs :
  charset_ok to_cs -> charset_ok from_cs -> 0 <= to_length ->
  exists out errors, copy_and_convert to_length to_cs from from_cs = Ret (out, errors) /\
    zlength out <= to_length.
Proof.
  intros Hto Hfrom Hl.
  destruct (convert_loop_spec (S (length from)) to_length to_cs from_cs from [] 0 Hto Hfrom)
    as (out & errors & E & Ho & _); [lia|done|]. eauto.
Qed.

Lemma hex_loop_spec fuel cs dstlen src out :
  charset_ok cs -> (length src < fuel)%nat -> 0 <= dstlen ->
  exists out', hex_loop fuel cs dstlen src out = Ret out' /\ zlength out' <= zlength out + dstlen.
Proof.
  intros Hok. revert dstlen src out. induction fuel as [|fuel IH]; intros dstlen src out Hf Hd; [lia|].
  simpl. destruct src as [|c tl]; [exists out; split; [done|lia]|].
  pose proof (cs_ismb _ Hok (c :: tl)) as Hmb. destruct (Nat.eqb_spec (ismbchar cs (c :: tl)) 0); simpl.
  - case_match.
    + destruct (Z.ltb_spec dstlen 4); [exists out; split; [done|lia]|].
      destruct (IH (dstlen - 4) tl (out ++ hex_escape c)) as (o' & -> & Hl); [simpl in *; lia..|].
      exists o'. split; [done|]. unfold zlength in *. rewrite length_app in Hl. simpl in Hl. lia.
    + destruct (Z.ltb_spec dstlen 1); [exists out; split; [done|lia]|].
      destruct (IH (dstlen - 1) tl (out ++ [c])) as (o' & -> & Hl); [simpl in *; lia..|].
      exists o'. split; [done|]. unfold zlength in *. rewrite length_app in Hl. simpl in Hl. lia.
  - case_match; bprop; [exists out; split; [done|lia]|].
    destruct (IH (dstlen - Z.of_nat (ismbchar cs (c :: tl))) (drop (ismbchar cs (c :: tl)) (c :: tl))
      (out ++ take (ismbchar cs (c :: tl)) (c :: tl))) as (o' & -> & Hl).
    + rewrite length_drop. simpl in *. lia.
    + lia.
    + exists o'. split; [done|]. unfold zlength in *. rewrite length_app, length_take in Hl. lia.
Qed.


Lemma printable_loop_spec minlen room f out dots total :
  total = room + zlength out -> 0 <= room -> Z.of_nat dots + 3 <= total -> (dots <= length out)%nat ->
  let '(_, out', dots') := printable_loop minlen room f out dots in
  zlength out' <= total /\ Z.of_nat dots' + 3 <= total /\ (dots' <= length out')%nat.
Proof.
  revert room out dots. induction f as [|c f IH]; intros room out dots Ht Hr Hd Hl; [simpl; lia|].
  cbn [printable_loop]. destruct (Z.leb_spec room 0); [lia|].
  set (ascii := (32 <=? c) && (c <=? 127) && (minlen =? 1)).
  destruct (negb ascii && (room <? 4)) eqn:E; [lia|].
  set (bytes := if ascii then [c] else hex_escape c).
  assert (Hb : zlength bytes <= room /\ 0 <= zlength bytes).
  { unfold bytes, zlength. destruct ascii; simpl; [lia|]. simpl in E. bprop. lia. }
  apply IH.
  - unfold zlength in *. rewrite length_app. lia.
  - lia.
  - destruct (Z.leb_spec 3 (room - zlength bytes)); [|done]. unfold zlength in *. rewrite length_app. lia.
  - case_match; [done|]. rewrite length_app. lia.
Qed.

Lemma copy_same_spec to_cs to_length from_bin from nchars :
  charset_ok to_cs -> 0 <= to_length -> 0 <= nchars ->
  let c := copy_same to_cs to_length from_bin from nchars in
  let odd := negb (is_bin to_cs) && negb (zlength from mod mbminlen to_cs =? 0) && negb from_bin &&
             (mbminlen to_cs <=? to_length) && negb (nchars =? 0) in
  zlength (c_bytes c) <= to_length /\ c_end c <= zlength from /\
  c_length c = zlength (c_bytes c) + (if odd then mbminlen to_cs else 0).
Proof.
  intros Hok Hl Hn c odd. unfold c, odd, copy_same. pose proof (cs_min _ Hok) as Hm. clear c odd.
  destruct (Z.ltb_spec to_length (mbminlen to_cs)); simpl.
  { destruct (Z.leb_spec (mbminlen to_cs) to_length); [lia|]. rewrite andb_false_r. unfold zlength. simpl. lia. }
  destruct (Z.leb_spec (mbminlen to_cs) to_length); [|lia].
  destruct (Z.eqb_spec nchars 0); simpl; [rewrite andb_false_r; unfold zlength; simpl; lia|].
  rewrite !andb_true_r. destruct (is_bin to_cs); simpl.
  { unfold zlength. rewrite length_take. lia. }
  set (k := zlength from mod mbminlen to_cs).
  pose proof (Z.mod_pos_bound (zlength from) (mbminlen to_cs) ltac:(lia)) as Hk. fold k in Hk.
  pose proof (Z.mod_le (zlength from) (mbminlen to_cs)) as Hle. fold k in Hle. unfold zlength in Hle.
  set (padded := negb (k =? 0) && from_bin). set (skip := if padded then k else 0).
  set (room := if padded then to_length - mbminlen to_cs else to_length).
  set (src := take (Z.to_nat room) (drop (Z.to_nat skip) from)).
  pose proof (cs_wf _ Hok src (if padded then nchars - 1 else nchars)) as Hwf.
  destruct (well_formed_len to_cs src _) as [res err]. simpl in *.
  assert (Hsrc : (length src <= Z.to_nat room)%nat /\ (length src <= length from - Z.to_nat skip)%nat).
  { unfold src. rewrite length_take, length_drop. lia. }
  rewrite Nat2Z.id. unfold zlength. rewrite length_app, length_take.
  unfold padded, skip, room in *. unfold padded in *. destruct (Z.eqb_spec k 0), from_bin; simpl in *;
    rewrite ?length_app, ?length_replicate, ?length_take; lia.
Qed.

Lemma copy_loop_spec n to_length to_cs from_cs from pos out bad lost :
  charset_ok to_cs -> charset_ok from_cs -> zlength out <= to_length ->
  let c := copy_loop n to_length to_cs from_cs from pos out bad lost in
  zlength (c_bytes c) <= to_length /\ c_end c <= pos + zlength from /\ c_length c = zlength (c_bytes c).
Proof.
  intros Hto Hfrom. revert from pos out bad lost. induction n as [|n IH]; intros from pos out bad lost Ho.
  { simpl. unfold zlength in *. lia. }
  cbn [copy_loop]. destruct (next_char from_cs from) as [[[k wc] e]|] eqn:En; [|simpl; unfold zlength in *; lia].
  apply next_char_some in En as [Hk _]; [|done].
  destruct (put_char to_cs wc (to_length - zlength out)) as [[bytes e']|] eqn:Ep; [|simpl; unfold zlength in *; lia].
  apply put_char_some in Ep; [|done|lia].
  match goal with |- context [copy_loop n _ _ _ ?f ?p ?o ?b ?l] => pose proof (IH f p o b l) as H' end.
  unfold zlength in *. rewrite length_app in H'. specialize (H' ltac:(lia)). simpl in *.
  destruct H' as (? & He & ?). split_and!; try done. rewrite length_drop in He. lia.
Qed.

(** [well_formed_copy_nchars] stays in the destination buffer and in the
    source.  The length it returns is the number of bytes it wrote, except when the
    source, of the same character set, is not a multiple of the smallest
    character: then nothing is padded, but the returned length is too large by
    that size. *)
Theorem copy_nchars_bounds same to_cs to_length from_cs from nchars :
  charset_ok to_cs -> charset_ok from_cs -> 0 <= to_length -> 0 <= nchars ->
  let c := well_formed_copy_nchars same to_cs to_length from_cs from nchars in
  let odd := same && negb (is_bin to_cs) && negb (is_bin from_cs) && negb (zlength from mod mbminlen to_cs =? 0) &&
             (mbminlen to_cs <=? to_length) && negb (nchars =? 0) in
  zlength (c_bytes c) <= to_length /\ c_end c <= zlength from /\
  c_length c = zlength (c_bytes c) + (if odd then mbminlen to_cs else 0).
Proof.
  intros Hto Hfrom Hl Hn c odd. unfold c, odd, well_formed_copy_nchars. clear c odd.
  destruct (is_bin to_cs || is_bin from_cs || same) eqn:E.
  - pose proof (copy_same_spec to_cs to_length (is_bin from_cs) from nchars Hto Hl Hn) as (H1 & H2 & H3).
    split_and!; [done..|]. rewrite H3. f_equal.
    by destruct same, (is_bin to_cs), (is_bin from_cs), (zlength from mod mbminlen to_cs =? 0).
  - destruct same; [by rewrite orb_true_r in E|]. simpl.
    pose proof (copy_loop_spec (Z.to_nat nchars) to_length to_cs from_cs from 0 [] None None Hto Hfrom) as H'.
    destruct (H' Hl) as (? & ? & ?). split_and!; [done|lia|lia].
Qed.

(** [convert_to_printable] and [my_copy_with_hex_escaping] stay in the
    destination buffer: with the 8 bytes the documentation asks for, the
    former leaves a string that ends, with its NUL, in the buffer, dots included;
    the latter writes at most the given number of bytes. *)
Theorem printable_bounds to_len from cs nbytes dstlen src :
  8 <= to_len -> charset_ok cs -> 0 <= dstlen ->
  (exists s r, convert_to_printable to_len from cs nbytes = Ret (s, r) /\
     zlength s < to_len /\ 0 <= r < to_len) /\
  (exists out, my_copy_with_hex_escaping cs dstlen src = Ret out /\ zlength out <= dstlen).
Proof.
  intros Hto Hok Hd. split.
  2: { destruct (hex_loop_spec (S (length src)) cs dstlen src [] Hok) as (out & E & Hl); [lia|done|]. eauto. }
  unfold convert_to_printable. destruct from as [from|]; [|exists [], 0; split; [done|]; unfold zlength; simpl; lia].
  destruct (Z.eqb_spec (to_len - 1) 0); [lia|].
  set (limit := if nbytes =? 0 then zlength from else Z.min (zlength from) nbytes).
  pose proof (printable_loop_spec (mbminlen cs) (to_len - 1) (take (Z.to_nat limit) from) [] 0 (to_len - 1)) as H.
  destruct (printable_loop _ _ _ _ _) as [[f out] dots]. destruct H as (H1 & H2 & H3); [unfold zlength; simpl; lia..|].
  assert (0 <= zlength out) by (unfold zlength; lia). case_match.
  - destruct (Z.ltb_spec to_len (Z.of_nat dots + 4)); [lia|]. eexists _, _. split; [done|].
    unfold zlength in *. rewrite length_app, length_take. cbn [length str]. lia.
  - eexists _, _. split; [done|]. lia.
Qed.

(** A single-byte character set. *)
Definition latin : charset := Charset
  (fun l => match l with [] => (MY_CS_TOOSMALL, 0) | c :: _ => (1, c) end)
  (fun wc room => if 0 <? room then (1, [wc]) else (MY_CS_TOOSMALL, []))
  (fun _ => 0%nat)
  (fun l n => (Nat.min (length l) (Z.to_nat n), false))
  1 false.

Lemma latin_ok : charset_ok latin.
Proof.
  split; simpl.
  - intros [|c l]; unfold zlength, MY_CS_TOOSMALL; simpl; split; try lia. intros _. split; [done|lia].
  - intros wc room Hr. destruct (Z.ltb_spec 0 room); unfold zlength, MY_CS_TOOSMALL; simpl; lia.
  - intros l. lia.
  - intros l n. lia.
  - lia.
Qed.

Lemma printable_bounds_witness :
  (exists s r, convert_to_printable 8 (Some (str "truncated")) latin 0 = Ret (s, r) /\
     zlength s < 8 /\ 0 <= r < 8) /\
  (exists out, my_copy_with_hex_escaping latin 3 (str "abcd") = Ret out /\ zlength out <= 3).
Proof. apply (printable_bounds 8 (Some (str "truncated")) latin 0 3 (str "abcd")); [lia|apply latin_ok|lia]. Defined.

(** Characters of two bytes. *)
Definition wide : charset := Charset
  (fun l => match l with a :: b :: _ => (2, a * 256 + b) | _ => (MY_CS_TOOSMALL, 0) end)
  (fun wc room => if 2 <=? room then (2, [Z.shiftr wc 8; Z.land wc 255]) else (MY_CS_TOOSMALL, []))
  (fun _ => 0%nat)
  (fun l n => (Nat.min (2 * Z.to_nat n) (2 * (length l / 2)), false)) 2 false.

Lemma wide_ok : charset_ok wide.
Proof.
  split.
  - intros [|a [|b l]]; simpl; unfold MY_CS_TOOSMALL, zlength; simpl; split; lia || (intros; split; [done|lia]).
  - intros wc room Hr. simpl. destruct (Z.leb_spec 2 room); simpl; unfold MY_CS_TOOSMALL, zlength; simpl; lia.
  - intros l. simpl. lia.
  - intros l n. cbn [well_formed_len wide fst]. pose proof (Nat.Div0.mul_div_le (length l) 2). lia.
  - simpl. lia.
Qed.

Lemma copy_nchars_bounds_witness :
  let c := well_formed_copy_nchars true wide 3 wide [0; 65; 0] 5 in
  zlength (c_bytes c) = 2 /\ c_length c = zlength (c_bytes c) + 2.
Proof.
  intros c. split; [reflexivity|].
  destruct (copy_nchars_bounds true wide 3 wide [0; 65; 0] 5 wide_ok wide_ok ltac:(lia) ltac:(lia)) as (_ & _ & H).
  exact H.
Defined.
