(* ===== verification/Net.v ===== *)
(** * Client connections (src/src/proxy_net.c)

    Authentication of a client and the dispatch of its commands.  The bytes a
    client sends are in the read buffer of the connection: the packet, a NUL, and
    whatever the buffer held before ([after]). *)

From S2P Require Import Prelude CString Status Wire Options Hashtable Clone Trans Cmd SqlString.
Local Open Scope Z_scope.

(** ** Commands *)

Inductive conn_error_t := ERROR_OK | ERROR_CLOSE | ERROR_CLIENT | ERROR_BACKEND | ERROR_OTHER.

(** A [my_bool] returned as a [conn_error_t]: TRUE is [ERROR_CLOSE]. *)
Definition error_of_bool (b : bool) : conn_error_t := if b then ERROR_CLOSE else ERROR_OK.

(** Command numbers of the MySQL protocol. *)
Definition COM_SLEEP : Z := 0.
Definition COM_QUIT : Z := 1.
Definition COM_INIT_DB : Z := 2.
Definition COM_QUERY : Z := 3.
Definition COM_PING : Z := 14.

Section read_query.
Context `{Protocol}.
Variable o : options_t.

(** The last command number of the library; the proxy adds its own after it. *)
Variable COM_END : Z.
Definition COM_PROXY_QUERY : Z := COM_END + 1.

(** The flags of the server status that do not outlive a command. *)
Variable SERVER_STATUS_CLEAR_SET : Z.
Definition reset_status (m : MYSQL) : MYSQL :=
  Mysql (vio m) (Z.ldiff (server_status m) SERVER_STATUS_CLEAR_SET) (results m) (calls m).

(** The rest of the proxy: what [proxy_backend_query] and [proxy_cmd] do with the query and the
    command that were read, and the value returned.  [W] is the state they use beside the client's. *)
Context {W : Type}.
Variable backend_query : bool -> list Z -> W -> MYSQL -> status_t -> outcome (bool * W * MYSQL * status_t).
Variable command : request -> W -> MYSQL -> status_t -> outcome (bool * W * MYSQL * status_t).

(** Numbers of error codes. *)
Variable er_code : er -> Z.

(** What [poll] and [my_net_read] give. *)
Inductive client_event :=
| EvTimeout                          (* no event *)
| EvHangup                           (* POLLRDHUP *)
| EvReadError                        (* packet_error *)
| EvPacket (p : list Z).

(** What a command led to. *)
Inductive handled :=
| HNone
| HBackend (replicated : bool) (query : list Z)
| HCommand (r : request)
| HReply.

Definition send_error (m : MYSQL) (e : er) (msg : string) : bool * MYSQL :=
  proxy_net_send_error m (er_code e) (str msg).

(** The switch on the command. *)
Definition do_command (proxy_only : bool) (cmd : Z) (packet : list Z) (w : W) (m : MYSQL) (status : status_t)
  : outcome (conn_error_t * W * MYSQL * status_t * handled) :=
  if cmd =? COM_PROXY_QUERY then
    '(e, w, m, status) ← backend_query true packet w m (inc_queries status);
    Ret (if (e : bool) then ERROR_BACKEND else ERROR_OK, w, m, status, HBackend true packet)
  else if cmd =? COM_QUERY then
    let status := inc_queries status in
    if negb (strncasecmp (cstr packet 0) (str "PROXY") 5 =? 0) then
      if proxy_only then
        let '(e, m) := send_error m ER_NOT_ALLOWED_COMMAND "Only PROXY commands may be executed on this connection" in
        Ret (error_of_bool e, w, m, status, HReply)
      else
        '(e, w, m, status) ← backend_query false packet w m status;
        Ret (if (e : bool) then ERROR_BACKEND else ERROR_OK, w, m, status, HBackend false packet)
    else
      r ← cmd_of_query o packet;
      '(e, w, m, status) ← command r w m status;
      Ret (if (e : bool) then ERROR_CLIENT else ERROR_OK, w, m, status, HCommand r)
  else if cmd =? COM_QUIT then Ret (ERROR_CLOSE, w, m, status, HNone)
  else if cmd =? COM_PING then
    let '(e, m) := proxy_net_send_ok m 0 0 0 in
    Ret (if e then ERROR_CLIENT else ERROR_OK, w, m, status, HReply)
  else if cmd =? COM_INIT_DB then
    let '(e, m) := send_error m ER_NOT_ALLOWED_COMMAND "Only a single database is supported by sfsql-proxy" in
    Ret (error_of_bool e, w, m, status, HReply)
  else
    let '(_, m) := send_error m ER_NOT_ALLOWED_COMMAND "Command currently not supported by sfsql-proxy" in
    Ret (ERROR_OK, w, m, status, HReply).

(** [proxy_net_read_query]; [m] is NULL when there is no object. *)
Definition proxy_net_read_query (proxy_only : bool) (ev : client_event) (w : W) (m : option MYSQL) (status : status_t)
  : outcome (conn_error_t * W * option MYSQL * status_t * handled) :=
  match m with
  | None => Ret (ERROR_OTHER, w, None, status, HNone)
  | Some m =>
      match ev with
      | EvTimeout | EvHangup => Ret (ERROR_CLOSE, w, Some m, status, HNone)
      | EvReadError => Ret (ERROR_CLIENT, w, Some m, status, HNone)
      | EvPacket p =>
          let status := add_recv (zlength p) status in
          let p := match p with [] => [COM_SLEEP] | _ => p end in
          '(e, w, m, status, h) ← do_command proxy_only (hd0 p) (tail p) w (reset_status m) status;
          Ret (e, w, Some m, status, h)
      end
  end.

(** ** Where queries go *)

(** Which packets are queries for the backends. *)
Lemma queries_of_packet proxy_only p w m status e w' m' status' h repl q :
  COM_PING < COM_END ->
  proxy_net_read_query proxy_only (EvPacket p) w (Some m) status = Ret (e, w', m', status', h) ->
  h = HBackend repl q <->
  exists c, p = c :: q /\
    ((c = COM_PROXY_QUERY /\ repl = true) \/
     (c = COM_QUERY /\ repl = false /\ proxy_only = false /\ strncasecmp (cstr q 0) (str "PROXY") 5 <> 0)).
Proof.
  intros Hend Hr. unfold proxy_net_read_query in Hr. inv_bind. destruct x as [[[[e1 w1] m1] s1] h1].
  simpl in Hr. injection Hr as <- <- <- <- <-. unfold do_command, COM_PROXY_QUERY, COM_PING, COM_QUERY, COM_SLEEP in *.
  destruct p as [|c p].
  - cbn [hd0 tail] in H0. destruct (Z.eqb_spec 0 (COM_END + 1)); [lia|]. simpl in H0.
    destruct (send_error _ _ _). injection H0 as <- <- <- <- <-. split; [done|]. by intros (c & ? & _).
  - cbn [hd0 tail] in H0. destruct (Z.eqb_spec c (COM_END + 1)) as [->|Hc].
    { inv_bind. destruct x as [[[eb wb] mb] sb]. injection H0 as <- <- <- <- <-.
      split; [by intros [= <- <-]; eauto 10|]. intros (c & [= <- <-] & Hc). destruct Hc as [[_ ->]|[? _]]; [done|lia]. }
    destruct (Z.eqb_spec c 3) as [->|Hc3].
    2: { assert (forall x, h1 <> HBackend x q) as Hno.
         { intros x ->. repeat (case_match; simplify_eq). }
         split; [by intros ?%Hno|]. intros (c' & [= <- <-] & [[? _]|[? _]]); lia. }
    destruct (Z.eqb_spec (strncasecmp (cstr p 0) (str "PROXY") 5) 0) as [Heq|Hneq]; simpl in H0.
    + inv_bind. destruct x0 as [[[ec wc] mc] sc]. injection H0 as <- <- <- <- <-. split; [done|].
      intros (c' & [= <- <-] & [[? _]|(_ & _ & _ & ?)]); [lia|done].
    + destruct proxy_only.
      * destruct (send_error _ _ _). injection H0 as <- <- <- <- <-. split; [done|].
        intros (c' & [= <- <-] & [[? _]|(_ & _ & ? & ?)]); [lia|done].
      * inv_bind. destruct x as [[[eb wb] mb] sb]. injection H0 as <- <- <- <- <-.
        split; [by intros [= <- <-]; eauto 10|].
        intros (c' & [= <- <-] & [[? _]|(_ & -> & _)]); [lia|done].
Qed.

End read_query.

(** A packet that is a query for the backends, with the query and whether it is replicated. *)
Definition is_query (COM_END : Z) (proxy_only : bool) (p : list Z) (repl : bool) (q : list Z) : Prop :=
  exists c, p = c :: q /\
    ((c = COM_PROXY_QUERY COM_END /\ repl = true) \/
     (c = COM_QUERY /\ repl = false /\ proxy_only = false /\ strncasecmp (cstr q 0) (str "PROXY") 5 <> 0)).

(** C31: which packets reach the backends, and how.  A packet of a client is passed on as a
    query exactly when its command is COM_PROXY_QUERY (then as a replicated
    query), or it is COM_QUERY, its text does not begin with PROXY, and the
    connection is not restricted to PROXY commands.  Then [proxy_net_read_query] does what
    [proxy_backend_query] does, called once with the packet without its first byte, the
    replication mark, and the counters with the packet and the query counted, and returns its error.
    For every other packet the result does not depend on [proxy_backend_query]: it is not called.
    So the restriction of an administrative connection does not hold for COM_PROXY_QUERY. *)
Theorem backend_queries `{Protocol} o COM_END clear {W : Type}
  (bq : bool -> list Z -> W -> MYSQL -> status_t -> outcome (bool * W * MYSQL * status_t)) command er_code proxy_only p w m status :
  COM_PING < COM_END ->
  (forall repl q, is_query COM_END proxy_only p repl q ->
     proxy_net_read_query o COM_END clear bq command er_code proxy_only (EvPacket p) w (Some m) status =
       ('(e, w', m', s') ← bq repl q w (reset_status clear m) (inc_queries (add_recv (zlength p) status));
        Ret (if (e : bool) then ERROR_BACKEND else ERROR_OK, w', Some m', s', HBackend repl q))) /\
  ((forall repl q, ~ is_query COM_END proxy_only p repl q) ->
     forall bq', proxy_net_read_query o COM_END clear bq command er_code proxy_only (EvPacket p) w (Some m) status =
                 proxy_net_read_query o COM_END clear bq' command er_code proxy_only (EvPacket p) w (Some m) status).
Proof.
  intros Hend. split.
  - intros repl q (c & -> & Hc). unfold proxy_net_read_query, do_command. cbn [hd0 tail].
    destruct Hc as [[-> ->]|(-> & -> & -> & Hp)].
    + rewrite Z.eqb_refl. by destruct (bq _ _ _ _ _) as [[[[e w'] m'] s']|].
    + destruct (Z.eqb_spec COM_QUERY (COM_PROXY_QUERY COM_END)) as [Heq|_];
        [unfold COM_QUERY, COM_PROXY_QUERY, COM_PING in *; lia|].
      rewrite Z.eqb_refl, (proj2 (Z.eqb_neq _ 0) Hp). cbn [negb]. by destruct (bq _ _ _ _ _) as [[[[e w'] m'] s']|].
  - intros Hno bq'. unfold proxy_net_read_query. destruct p as [|c q]; cbn [hd0 tail]; unfold do_command.
    + destruct (Z.eqb_spec COM_SLEEP (COM_PROXY_QUERY COM_END)); [unfold COM_SLEEP, COM_PROXY_QUERY, COM_PING in *; lia|]. done.
    + destruct (Z.eqb_spec c (COM_PROXY_QUERY COM_END)) as [->|_]; [destruct (Hno true q); exists (COM_PROXY_QUERY COM_END); auto|].
      destruct (Z.eqb_spec c COM_QUERY) as [->|_]; [|done].
      destruct (Z.eqb_spec (strncasecmp (cstr q 0) (str "PROXY") 5) 0) as [_|Hp]; [done|]. destruct proxy_only; [done|].
      destruct (Hno false q). exists COM_QUERY. auto 10.
Qed.

Lemma backend_queries_witness :
  is_query 30 true (31 :: str "DROP TABLE t") true (str "DROP TABLE t") /\
  proxy_net_read_query (H := Encoding.mysql) set_option_defaults 30 0 (fun r q w m s => Ret (r, (r, q) :: w, m, s))
    (fun _ w m s => Ret (false, w, m, s)) (fun _ => 1148) true (EvPacket (31 :: str "DROP TABLE t")) [] (Some fresh)
    (Status 0 0 0 0 0) =
  Ret (ERROR_BACKEND, [(true, str "DROP TABLE t")], Some fresh, Status 13 0 1 0 0, HBackend true (str "DROP TABLE t")).
Proof.
  assert (Hq : is_query 30 true (31 :: str "DROP TABLE t") true (str "DROP TABLE t"))
    by (exists 31; split; [reflexivity|]; left; split; reflexivity).
  split; [exact Hq|].
  rewrite (proj1 (backend_queries (H := Encoding.mysql) set_option_defaults 30 0 (fun r q w m s => Ret (r, (r, q) :: w, m, s))
    (fun _ w m s => Ret (false, w, m, s)) (fun _ => 1148) true (31 :: str "DROP TABLE t") [] fresh (Status 0 0 0 0 0)
    ltac:(reflexivity)) true (str "DROP TABLE t") Hq).
  vm_compute. reflexivity.
Defined.

(** ** Handshake *)

Definition MIN_HANDSHAKE_SIZE : Z := 6.

(** Constants of the MySQL headers. *)
Definition CLIENT_CONNECT_WITH_DB : Z := 8.
Definition CLIENT_TRANSACTIONS : Z := 8192.
Definition CLIENT_MULTI_STATEMENTS : Z := 65536.
Definition SERVER_STATUS_AUTOCOMMIT : Z := 2.
Definition SCRAMBLE_LENGTH_323 : nat := 8.
Definition USERNAME_LENGTH : Z := 48.
Definition NAME_LEN : Z := 192.

(** What the proxy keeps of a client's authentication packet. *)
Record login := Login {
  l_user : list Z;
  l_passwd : list Z;
  l_db : option (list Z)
}.

Section handshake.
Context `{Protocol}.
Variable get_charset : Z -> charset.
Variable system_charset : charset.

(** The capability flags of the library. *)
Variable CLIENT_BASIC_FLAGS : Z.

Definition server_caps : Z :=
  Z.land CLIENT_BASIC_FLAGS
    (Z.lnot (Z.land (Z.land CLIENT_CONNECT_WITH_DB CLIENT_MULTI_STATEMENTS) CLIENT_TRANSACTIONS)).

(** The packet that opens the handshake: version, thread, scramble, flags. *)
Definition handshake_packet (version scramble : list Z) (charset_number : Z) : list Z :=
  version ++ [NUL] ++ int4store 0 ++ take SCRAMBLE_LENGTH_323 scramble ++ [NUL]
  ++ int2store server_caps ++ [u8 charset_number] ++ int2store SERVER_STATUS_AUTOCOMMIT
  ++ replicate 13 0 ++ drop SCRAMBLE_LENGTH_323 scramble ++ [NUL].

(** All credentials are accepted. *)
Definition check_user (l : login) : bool := true.

(** Quotes around a user name are removed. *)
Definition strip_quotes (user : list Z) : list Z :=
  if (1 <? zlength user) && (hd0 user =? 39) && bool_decide (last user = Some 39)
  then removelast (tail user) else user.

(** The client's packet, read at [read_pos]; [None] is the error return.  The
    buffer [buf] holds the packet, the NUL that the library puts after it, and
    old bytes; the end of a string must be in it. *)
Definition strlen_at (buf : list Z) (off : Z) : outcome Z :=
  let s := cstr buf (Z.to_nat off) in
  _ ← aget buf (off + zlength s); Ret (zlength s).

Definition read_login (pkt after : list Z) : outcome (option login) :=
  let pkt_len := zlength pkt in
  let buf := pkt ++ NUL :: after in
  if pkt_len <? MIN_HANDSHAKE_SIZE then Ret None
  else
    lo ← uint2korr (take 2 buf);
    hi ← uint2korr (take 2 (drop 2 buf));
    let client_caps := Z.land (Z.lor lo (Z.shiftl hi 16)) server_caps in
    cs ← aget buf 8;
    if pkt_len + 2 <=? 32 then Ret None
    else
      user_len ← strlen_at buf 32;
      let passwd := 32 + user_len + 1 in
      passwd_len ← aget buf passwd;
      let with_db := negb (Z.land client_caps CLIENT_CONNECT_WITH_DB =? 0) in
      let db := passwd + passwd_len + 1 in
      db_len ← (if with_db then strlen_at buf db else Ret 0);
      if pkt_len <? passwd + 1 + passwd_len + db_len then Ret None
      else
        let bytes off n := take (Z.to_nat n) (drop (Z.to_nat off) buf) in
        '(db_buff, _) ← (if with_db then copy_and_convert NAME_LEN system_charset (bytes db db_len) (get_charset cs)
                         else Ret ([], 0));
        '(user_buff, _) ← copy_and_convert USERNAME_LENGTH system_charset (bytes 32 user_len) (get_charset cs);
        Ret (Some (Login (strip_quotes user_buff) (bytes (passwd + 1) passwd_len)
                         (if with_db then Some db_buff else None))).

(** [proxy_net_handshake] after the first packet was written: TRUE on error. *)
Definition proxy_net_handshake (read : option (list Z)) (after : list Z) (m : MYSQL) (er_handshake : Z)
  : outcome (bool * MYSQL * option login) :=
  match read with
  | None => Ret (true, m, None)
  | Some pkt =>
      l ← read_login pkt after;
      match l with
      | None => Ret (true, m, None)
      | Some l =>
          if check_user l then Ret (false, snd (proxy_net_send_ok m 0 0 0), Some l)
          else Ret (true, snd (proxy_net_send_error m er_handshake (str "Error authenticating user")), None)
      end
  end.

(** ** Old bytes of the buffer do not matter *)

Lemma cstr_pkt pkt after off :
  (off <= length pkt)%nat -> cstr (pkt ++ NUL :: after) off = cstr (pkt ++ [NUL]) off.
Proof.
  intros Ho. unfold cstr. rewrite !drop_app_le by done. generalize (drop off pkt). intros l.
  induction l as [|c l IH]; simpl; [done|]. by rewrite IH.
Qed.

Lemma aget_pkt pkt after i : 0 <= i <= zlength pkt -> aget (pkt ++ NUL :: after) i = aget (pkt ++ [NUL]) i.
Proof.
  intros Hi. unfold aget. destruct (Z.leb_spec 0 i); [|lia]. unfold zlength in Hi.
  destruct (decide (Z.to_nat i = length pkt)) as [->|].
  - by rewrite !list_lookup_middle.
  - by rewrite !lookup_app_l by lia.
Qed.

Lemma bytes_pkt pkt (after : list Z) off n :
  0 <= off -> 0 <= n -> off + n <= zlength pkt ->
  take (Z.to_nat n) (drop (Z.to_nat off) (pkt ++ NUL :: after)) = take (Z.to_nat n) (drop (Z.to_nat off) pkt).
Proof.
  intros Ho Hn Hl. unfold zlength in Hl. rewrite drop_app_le by lia.
  rewrite take_app_le; [done|]. rewrite length_drop. lia.
Qed.

Lemma cstr_length_pkt pkt after off :
  (off <= length pkt)%nat -> (off + length (cstr (pkt ++ NUL :: after) off) <= length pkt)%nat.
Proof.
  intros Ho. unfold cstr. rewrite drop_app_le by done.
  assert (H1 : forall l : list Z, (length (take_while (fun c => negb (c =? NUL)%Z) (l ++ NUL :: after)) <= length l)%nat).
  { induction l as [|c l IH]; simpl; [done|]. case_match; simpl; lia. }
  pose proof (H1 (drop off pkt)) as H2. rewrite length_drop in H2. lia.
Qed.

Lemma strlen_pkt pkt after off n :
  0 <= off <= zlength pkt -> strlen_at (pkt ++ NUL :: after) off = Ret n ->
  strlen_at (pkt ++ [NUL]) off = Ret n /\ off + n <= zlength pkt.
Proof.
  intros Ho Hs. unfold strlen_at in *. inv_bind. injection Hs as <-. unfold zlength in *.
  pose proof (cstr_length_pkt pkt after (Z.to_nat off) ltac:(lia)) as Hl.
  rewrite (cstr_pkt pkt after) in Hl, H0 |- * by lia.
  rewrite (aget_pkt pkt after) in H0 by (unfold zlength; lia). rewrite H0. split; [done|lia].
Qed.

Lemma strlen_nonneg buf off n : strlen_at buf off = Ret n -> 0 <= n.
Proof. intros Hs. unfold strlen_at in Hs. inv_bind. injection Hs as <-. unfold zlength. lia. Qed.

Definition bytes_ok (l : list Z) : Prop := Forall (fun c => 0 <= c < 256) l.

Lemma aget_byte l i x : bytes_ok l -> aget l i = Ret x -> 0 <= x < 256.
Proof. intros Hb [_ Hx]%aget_Ret. by apply (proj1 (Forall_lookup _ _) Hb) in Hx. Qed.

Lemma strip_quotes_length user : zlength (strip_quotes user) <= zlength user.
Proof.
  unfold strip_quotes. case_match; [|done]. unfold zlength. destruct user as [|c user]; [done|]. simpl.
  destruct user as [|d user _] using rev_ind; [done|]. rewrite removelast_last, length_app. lia.
Qed.

(** The login as a function of the packet alone. *)
Definition accepts (pkt : list Z) (l : login) : Prop :=
  exists lo hi cs user_len passwd_len db_len db_buff user_buff e1 e2,
    let passwd := 32 + user_len + 1 in
    let db := passwd + passwd_len + 1 in
    let with_db := negb (Z.land (Z.land (Z.lor lo (Z.shiftl hi 16)) server_caps) CLIENT_CONNECT_WITH_DB =? 0) in
    let bytes off n := take (Z.to_nat n) (drop (Z.to_nat off) pkt) in
    uint2korr (take 2 pkt) = Ret lo /\ uint2korr (take 2 (drop 2 pkt)) = Ret hi /\
    aget (pkt ++ [NUL]) 8 = Ret cs /\ strlen_at (pkt ++ [NUL]) 32 = Ret user_len /\
    aget (pkt ++ [NUL]) passwd = Ret passwd_len /\
    (if with_db then strlen_at (pkt ++ [NUL]) db else Ret 0) = Ret db_len /\
    0 <= user_len /\ 0 <= passwd_len < 256 /\ 0 <= db_len /\ passwd + 1 + passwd_len + db_len <= zlength pkt /\
    (if with_db then copy_and_convert NAME_LEN system_charset (bytes db db_len) (get_charset cs)
     else Ret ([], 0)) = Ret (db_buff, e1) /\
    copy_and_convert USERNAME_LENGTH system_charset (bytes 32 user_len) (get_charset cs) = Ret (user_buff, e2) /\
    l = Login (strip_quotes user_buff) (bytes (passwd + 1) passwd_len) (if with_db then Some db_buff else None).

(** The reads of an accepted packet. *)
Lemma read_login_accepts pkt after l :
  bytes_ok pkt -> bytes_ok after -> read_login pkt after = Ret (Some l) -> accepts pkt l.
Proof.
  intros Hb Ha Hr. unfold read_login in Hr.
  destruct (Z.ltb_spec (zlength pkt) MIN_HANDSHAKE_SIZE) as [|Hmin]; [done|].
  inv_bind. rename x into lo, x0 into hi, x1 into cs.
  destruct (Z.leb_spec (zlength pkt + 2) 32) as [|Hlen]; [done|].
  inv_bind. rename x into user_len, x0 into passwd_len, x1 into db_len.
  set (with_db := negb (Z.land (Z.land (Z.lor lo (Z.shiftl hi 16)) server_caps) CLIENT_CONNECT_WITH_DB =? 0)) in *.
  destruct (Z.ltb_spec (zlength pkt) (32 + user_len + 1 + 1 + passwd_len + db_len)) as [|Hfit]; [done|].
  inv_bind. destruct x as [db_buff e1]. inv_bind. destruct x as [user_buff e2]. injection Hr as <-.
  pose proof (strlen_nonneg _ _ _ H3) as Hul.
  assert (Hbuf : bytes_ok (pkt ++ NUL :: after)).
  { apply Forall_app. split; [done|]. constructor; [unfold NUL; lia|done]. }
  pose proof (aget_byte _ _ _ Hbuf H4) as Hpl.
  assert (Hdl : 0 <= db_len).
  { destruct with_db; [by eapply strlen_nonneg|]. injection H5 as <-. lia. }
  apply strlen_pkt in H3 as [H3 _]; [|lia].
  rewrite aget_pkt in H2, H4 by lia.
  assert (Hdb : (if with_db then strlen_at (pkt ++ [NUL]) (32 + user_len + 1 + passwd_len + 1) else Ret 0) = Ret db_len).
  { destruct with_db; [|done]. apply (strlen_pkt pkt after); [lia|done]. }
  rewrite !bytes_pkt in H6 by (destruct with_db; lia).
  exists lo, hi, cs, user_len, passwd_len, db_len, db_buff, user_buff, e1, e2. fold with_db.
  rewrite take_app_le in H0 by (unfold zlength, MIN_HANDSHAKE_SIZE in *; lia).
  rewrite drop_app_le, take_app_le in H1 by (rewrite ?length_drop; unfold zlength, MIN_HANDSHAKE_SIZE in *; lia).
  rewrite bytes_pkt in H7 by lia.
  split_and!; try done; try lia. by rewrite bytes_pkt by lia.
Qed.

Lemma accepts_read_login pkt after l : accepts pkt l -> read_login pkt after = Ret (Some l).
Proof.
  intros (lo & hi & cs & user_len & passwd_len & db_len & db_buff & user_buff & e1 & e2 & Hacc). simpl in Hacc.
  destruct Hacc as (H0 & H1 & H2 & H3 & H4 & H5 & Hul & Hpl & Hdl & Hfit & H6 & H7 & ->).
  set (with_db := negb (Z.land (Z.land (Z.lor lo (Z.shiftl hi 16)) server_caps) CLIENT_CONNECT_WITH_DB =? 0)) in *.
  unfold read_login, MIN_HANDSHAKE_SIZE. destruct (Z.ltb_spec (zlength pkt) 6); [lia|].
  rewrite take_app_le by (unfold zlength in *; lia). rewrite H0. cbn [mbind outcome_bind].
  rewrite (drop_app_le pkt (NUL :: after) 2), take_app_le by (rewrite ?length_drop; unfold zlength in *; lia). rewrite H1.
  cbn [mbind outcome_bind]. rewrite aget_pkt, H2 by lia. cbn [mbind outcome_bind].
  destruct (Z.leb_spec (zlength pkt + 2) 32); [lia|].
  assert (Hs : forall off n, 0 <= off <= zlength pkt -> strlen_at (pkt ++ [NUL]) off = Ret n ->
    strlen_at (pkt ++ NUL :: after) off = Ret n).
  { intros off n Ho Hs. unfold strlen_at in *. unfold zlength in Ho. rewrite (cstr_pkt pkt after) by lia.
    apply bind_Ret in Hs as (x & Hx & Hs). rewrite (aget_pkt pkt after), Hx; [done|].
    pose proof (cstr_length_pkt pkt [] (Z.to_nat off) ltac:(lia)). unfold zlength. lia. }
  rewrite (Hs 32 user_len) by (done || lia). cbn [mbind outcome_bind].
  rewrite aget_pkt, H4 by lia. cbn [mbind outcome_bind]. fold with_db.
  assert (Hdb : (if with_db then strlen_at (pkt ++ NUL :: after) (32 + user_len + 1 + passwd_len + 1) else Ret 0) = Ret db_len).
  { destruct with_db; [|done]. apply Hs; [lia|done]. }
  rewrite Hdb. cbn [mbind outcome_bind].
  destruct (Z.ltb_spec (zlength pkt) (32 + user_len + 1 + 1 + passwd_len + db_len)); [lia|].
  rewrite !bytes_pkt by lia. rewrite H6. cbn [mbind outcome_bind]. rewrite H7. done.
Qed.

(** C32: a login is read from the client's packet only.  When the packet of a
    client is accepted, user name, password and database lie inside the packet,
    the name and database that are stored fit their buffers, and the result is the
    same whatever bytes of earlier packets follow in the read buffer. *)
Theorem login_from_packet pkt after l :
  (forall n, charset_ok (get_charset n)) -> charset_ok system_charset ->
  bytes_ok pkt -> bytes_ok after -> read_login pkt after = Ret (Some l) ->
  (forall after', read_login pkt after' = Ret (Some l)) /\
  zlength (l_user l) <= USERNAME_LENGTH /\
  (forall db, l_db l = Some db -> zlength db <= NAME_LEN) /\
  34 + zlength (l_passwd l) <= zlength pkt.
Proof.
  intros Hcs Hsys Hb Ha Hr. apply read_login_accepts in Hr as Hacc; [|done..].
  split; [intros after'; by apply accepts_read_login|].
  destruct Hacc as (lo & hi & cs & user_len & passwd_len & db_len & db_buff & user_buff & e1 & e2 & Hacc). simpl in Hacc.
  destruct Hacc as (_ & _ & _ & _ & _ & _ & Hul & Hpl & Hdl & Hfit & H6 & H7 & ->). simpl.
  split_and!.
  - assert (zlength user_buff <= USERNAME_LENGTH).
    { destruct (copy_and_convert_spec USERNAME_LENGTH system_charset
        (take (Z.to_nat user_len) (drop (Z.to_nat 32) pkt)) (get_charset cs)) as (o1 & e & E & Ho); [done..|by unfold USERNAME_LENGTH|].
      rewrite E in H7. by injection H7 as -> _. }
    pose proof (strip_quotes_length user_buff). lia.
  - intros db. case_match; [|done]. intros [= <-].
    destruct (copy_and_convert_spec NAME_LEN system_charset
        (take (Z.to_nat db_len) (drop (Z.to_nat (32 + user_len + 1 + passwd_len + 1)) pkt)) (get_charset cs)) as (o1 & e & E & Ho); [done..|by unfold NAME_LEN|].
    rewrite E in H6. by injection H6 as -> _.
  - unfold zlength in *. rewrite length_take, length_drop. lia.
Qed.

End handshake.

(** A packet with user bob, in quotes, and a password of two bytes. *)
Definition demo_pkt : list Z := replicate 32 0 ++ str "'bob'" ++ [0; 2; 7; 8].

Lemma login_from_packet_witness :
  read_login (H := Encoding.mysql) (fun _ => latin) latin 0 demo_pkt [200; 9] =
    Ret (Some (Login (str "bob") [7; 8] None)).
Proof.
  apply (login_from_packet (H := Encoding.mysql) (fun _ => latin) latin 0 demo_pkt [1; 2; 3]
    (Login (str "bob") [7; 8] None)).
  - intros _. apply latin_ok.
  - apply latin_ok.
  - apply (List.Forall_forall (fun c => 0 <= c < 256)). intros c Hc.
    assert (Hb : forallb (fun c => (0 <=? c) && (c <? 256)) demo_pkt = true) by (vm_compute; reflexivity).
    apply (proj1 (forallb_forall _ _) Hb) in Hc. bprop. lia.
  - repeat constructor; vm_compute; done.
  - vm_compute. reflexivity.
Defined.
