(* ===== verification/Backend.v ===== *)
(** * Backends (src/src/proxy_backend.c)

    The file of backends ([backend_read_file]): the lines that are counted, the
    tokens that are read.  The arrays made from it are in BackendArrays.v. *)

From S2P Require Import Prelude CString Clone Cmd.
Local Open Scope Z_scope.

(** ** The file of backends ([backend_read_file]) *)

Definition blank (c : Z) : bool := (c =? 32) || (c =? 13) || (c =? 10) || (c =? 9).

(** The number of lines with a character that is not blank; a line counts at its
    newline. *)
Fixpoint count_lines (buf : list Z) (c num : Z) : Z :=
  match buf with
  | [] => num
  | x :: buf =>
      if x =? 10 then
        if negb (c =? 0) then count_lines buf 0 (num + 1) else count_lines buf c num
      else if negb (x =? 13) && negb (x =? 9) && negb (x =? 32) then count_lines buf (u32 (c + 1)) num
      else count_lines buf c num
  end.

Definition read_host (tok : list Z) : proxy_host_t :=
  match strchr tok 58 with
  | Some i => Host (take i tok) (atoi (drop (S i) tok))
  | None => Host tok 3306
  end.

(** The loop over the tokens, [num] of them at most. *)
Fixpoint read_hosts (num : nat) (buf : list Z) (pos : nat) : list proxy_host_t :=
  match num with
  | O => []
  | S num =>
      let '(tok, buf, pos) := strtok_r buf pos blank in
      match tok with
      | Some tok => read_host (cstr buf tok) :: read_hosts num buf pos
      | None => []
      end
  end.

(** The backends and their number; the array has that many elements, those that
    were not read are NULL.  [content] is [None] if the file cannot be read, and
    no backends are an error. *)
Definition backend_read_file (content : option (list Z)) : option (list (option proxy_host_t)) * Z :=
  match content with
  | None => (None, -1)
  | Some content =>
      let num := count_lines content 0 0 in
      if num =? 0 then (None, 0)
      else
        let hosts := Some <$> read_hosts (Z.to_nat num) (content ++ [NUL]) 0 in
        (Some (hosts ++ replicate (Z.to_nat num - length hosts) None), num)
  end.

(** A file with a line for each host. *)
Definition host_line (h : proxy_host_t) : list Z := host h ++ [58] ++ fmt_d (port h).
Definition host_file (hs : list proxy_host_t) : list Z := mjoin ((fun h => host_line h ++ [10]) <$> hs).

(** Host names and ports as they are written in a file. *)
Definition host_ok (h : proxy_host_t) : Prop :=
  host h <> [] /\ Forall (fun c => negb (blank c) && negb (c =? NUL) && negb (c =? 58) = true) (host h) /\
  0 <= port h <= INT_MAX.

Lemma host_line_token h : host_ok h -> token blank (host_line h).
Proof.
  intros (Hne & Hh & Hp). unfold host_line. split; [by destruct (host h)|].
  apply Forall_app. split.
  - eapply Forall_impl; [done|]. intros c Hc. by apply andb_prop in Hc as [? _].
  - unfold INT_MAX in Hp. rewrite fmt_d_lu by lia.
    apply Forall_app. split; [by repeat constructor|]. apply digits_token; [|lia].
    unfold blank. intros c Hc. repeat (apply orb_prop in Hc as [Hc|Hc]; [|bprop; lia]). bprop. lia.
Qed.

Lemma strchr_host l1 l2 : Forall (fun c => negb (blank c) && negb (c =? NUL) && negb (c =? 58) = true) l1 ->
  strchr (l1 ++ 58 :: l2) 58 = Some (length l1).
Proof.
  induction 1 as [|c l1 Hc _ IH]; [done|]. simpl. apply andb_prop in Hc as [_ Hc].
  apply negb_true_iff in Hc. rewrite Hc, IH. done.
Qed.

Lemma read_host_line h : host_ok h -> read_host (host_line h) = h.
Proof.
  intros (_ & Hh & Hp). unfold read_host, host_line. simpl. rewrite strchr_host by done.
  rewrite take_app_length.
  replace (drop (S (length (host h))) (host h ++ 58 :: fmt_d (port h))) with (fmt_d (port h)).
  - unfold INT_MAX in Hp. rewrite fmt_d_lu by lia. unfold atoi.
    rewrite strtol_digits by (unfold LONG_MAX; lia). simpl. rewrite i32_small by lia. by destruct h.
  - change (host h ++ 58 :: fmt_d (port h)) with (host h ++ [58] ++ fmt_d (port h)).
    rewrite app_assoc, drop_app_length'; [done|]. rewrite length_app. simpl. lia.
Qed.

Lemma read_hosts_file pre hs k :
  Forall host_ok hs -> read_hosts (length hs) (pre ++ host_file hs ++ k) (length pre) = hs.
Proof.
  intros Hhs. revert pre. induction Hhs as [|h hs Hh _ IH]; intros pre; [done|]. cbn [length read_hosts].
  change (host_file (h :: hs)) with ((host_line h ++ [10]) ++ host_file hs).
  rewrite <-!app_assoc. cbn [app].
  destruct (tok_next blank pre (host_line h) 10 (host_file hs ++ k) (length pre)) as [E1 E2];
    [done|done|by apply host_line_token|done|].
  rewrite E1, E2, read_host_line by done. f_equal. apply IH.
Qed.

Lemma count_line l c rest num :
  Forall (fun c => negb (blank c) && negb (c =? NUL) = true) l -> 0 <= c ->
  c + zlength l < 2 ^ 32 -> 0 < c + zlength l ->
  count_lines (l ++ 10 :: rest) c num = count_lines rest 0 (num + 1).
Proof.
  intros Hl. revert c. induction Hl as [|x l Hx _ IH]; intros c Hc Hlen Hpos; unfold zlength in *; simpl in *.
  - destruct (Z.eqb_spec c 0); [lia|done].
  - apply andb_prop in Hx as [Hx _]. apply negb_true_iff in Hx. unfold blank in Hx.
    apply orb_false_elim in Hx as [Hx H9]. apply orb_false_elim in Hx as [Hx H10].
    apply orb_false_elim in Hx as [H32 H13]. rewrite H10, H13, H9, H32. simpl.
    unfold u32. rewrite wrap_small by lia. apply IH; lia.
Qed.

Lemma count_file hs k num :
  Forall host_ok hs -> Forall (fun h => zlength (host_line h) < 2 ^ 32) hs ->
  count_lines (host_file hs ++ k) 0 num = count_lines k 0 (num + zlength hs).
Proof.
  intros Hhs. revert num. induction Hhs as [|h hs Hh _ IH]; intros num Hl.
  - unfold zlength. simpl. by rewrite Z.add_0_r.
  - apply Forall_cons in Hl as [Hl Hls].
    change (host_file (h :: hs)) with ((host_line h ++ [10]) ++ host_file hs). rewrite <-!app_assoc. cbn [app].
    destruct (host_line_token h Hh) as [Hne Htok].
    rewrite count_line; [|done|done|lia|].
    + rewrite IH by done. f_equal. unfold zlength. simpl. lia.
    + unfold zlength. destruct (host_line h); [done|]. simpl. lia.
Qed.

(** Without a newline nothing is counted. *)
Lemma count_no_line l c num :
  Forall (fun c => negb (blank c) && negb (c =? NUL) = true) l -> count_lines l c num = num.
Proof.
  intros Hl. revert c. induction Hl as [|x l Hx _ IH]; intros c; [done|]. simpl.
  apply andb_prop in Hx as [Hx _]. apply negb_true_iff in Hx. unfold blank in Hx.
  apply orb_false_elim in Hx as [Hx _]. apply orb_false_elim in Hx as [_ Hx]. rewrite Hx.
  case_match; apply IH.
Qed.

(** The lines of [hs], followed by something that is not counted. *)
Lemma read_file hs k :
  hs <> [] -> Forall host_ok hs -> Forall (fun h => zlength (host_line h) < 2 ^ 32) hs ->
  count_lines k 0 (zlength hs) = zlength hs ->
  backend_read_file (Some (host_file hs ++ k)) = (Some (Some <$> hs), zlength hs).
Proof.
  intros Hne Hok Hl Hk. unfold backend_read_file. rewrite count_file by done. rewrite Z.add_0_l, Hk.
  destruct (Z.eqb_spec (zlength hs) 0); [unfold zlength in *; destruct hs; [done|simpl in *; lia]|].
  unfold zlength. rewrite Nat2Z.id, <-app_assoc.
  pose proof (read_hosts_file [] hs (k ++ [NUL]) Hok) as E. simpl in E. rewrite E.
  rewrite length_fmap, Nat.sub_diag. simpl. by rewrite app_nil_r.
Qed.

(** Reading the file of backends.  A file with one line "host:port" for each
    backend, every line ended by a newline, gives exactly these backends, in order. *)
Theorem backend_file_read hs :
  hs <> [] -> Forall host_ok hs -> Forall (fun h => zlength (host_line h) < 2 ^ 32) hs ->
  backend_read_file (Some (host_file hs)) = (Some (Some <$> hs), zlength hs).
Proof.
  intros Hne Hok Hl. rewrite <-(app_nil_r (host_file hs)). by apply read_file.
Qed.

Lemma backend_file_read_witness :
  backend_read_file (Some (host_file [Host (str "db1") 3306; Host (str "10.0.0.2") 3307])) =
  (Some [Some (Host (str "db1") 3306); Some (Host (str "10.0.0.2") 3307)], 2).
Proof.
  apply (backend_file_read [Host (str "db1") 3306; Host (str "10.0.0.2") 3307]).
  - discriminate.
  - repeat constructor; vm_compute; try discriminate; reflexivity.
  - repeat constructor; vm_compute; reflexivity.
Defined.

(** A last line without a newline is not counted: the backend on it is left
    out, and a file of a single such line is rejected. *)
Theorem backend_file_last_line hs h :
  Forall host_ok (hs ++ [h]) -> Forall (fun h => zlength (host_line h) < 2 ^ 32) (hs ++ [h]) ->
  backend_read_file (Some (host_file hs ++ host_line h)) =
  (if bool_decide (hs = []) then (None, 0) else (Some (Some <$> hs), zlength hs)).
Proof.
  intros Hok Hl. apply Forall_app in Hok as [Hok Hh]. apply Forall_app in Hl as [Hl Hlh].
  apply Forall_cons in Hh as [Hh _].
  assert (Hk : forall num, count_lines (host_line h) 0 num = num).
  { intros. apply count_no_line. by apply host_line_token. }
  destruct (decide (hs = [])) as [->|Hne].
  - unfold backend_read_file. simpl. by rewrite Hk.
  - rewrite bool_decide_false by done. by apply read_file.
Qed.

Lemma backend_file_last_line_witness :
  backend_read_file (Some (host_file [Host (str "db1") 3306] ++ host_line (Host (str "db2") 3307))) =
  (Some [Some (Host (str "db1") 3306)], 1).
Proof.
  apply (backend_file_last_line [Host (str "db1") 3306] (Host (str "db2") 3307)).
  - repeat constructor; vm_compute; try discriminate; reflexivity.
  - repeat constructor; vm_compute; reflexivity.
Defined.
