(* ===== verification/BackendArrays.v ===== *)
(** * The arrays of backends (src/src/proxy_backend.c)

    The arrays of hosts, connections, pools and threads: how they are allocated
    and connected at the start, how they grow when a clone is added, and the
    connection a client thread uses.  Memory allocation succeeds.  The result of
    a connection attempt is a parameter; it may depend on the number of attempts
    before it, so that the same host can refuse one attempt and accept the next. *)

From S2P Require Import Prelude CString Options Pool Hashtable Clone Backend.
Local Open Scope Z_scope.

(** ** The arrays of backends *)

(** A connection: whether its MYSQL object is set, and [freed]. *)
Record conn := Conn { mysql : bool; freed : bool }.

(** [None] is a null pointer; a thread is described by its connection, and
    [attempts] counts the connection attempts. *)
Record backend_state := BState {
  backends : option (list (option proxy_host_t));
  backend_conns : option (list (option (list conn)));
  backend_pools : option (list (option pool_t));
  backend_threads : option (list (option (list conn)));
  backend_thread_pool : option pool_t;
  backend_num : Z;
  attempts : nat
}.

Definition set_backends (v : option (list (option proxy_host_t))) (s : backend_state) : backend_state :=
  BState v (backend_conns s) (backend_pools s) (backend_threads s) (backend_thread_pool s) (backend_num s)
    (attempts s).
Definition set_conns (v : option (list (option (list conn)))) (s : backend_state) : backend_state :=
  BState (backends s) v (backend_pools s) (backend_threads s) (backend_thread_pool s) (backend_num s)
    (attempts s).
Definition set_pools (v : option (list (option pool_t))) (s : backend_state) : backend_state :=
  BState (backends s) (backend_conns s) v (backend_threads s) (backend_thread_pool s) (backend_num s)
    (attempts s).
Definition set_threads (v : option (list (option (list conn)))) (s : backend_state) : backend_state :=
  BState (backends s) (backend_conns s) (backend_pools s) v (backend_thread_pool s) (backend_num s)
    (attempts s).
Definition set_thread_pool (v : option pool_t) (s : backend_state) : backend_state :=
  BState (backends s) (backend_conns s) (backend_pools s) (backend_threads s) v (backend_num s)
    (attempts s).
Definition set_backend_num (v : Z) (s : backend_state) : backend_state :=
  BState (backends s) (backend_conns s) (backend_pools s) (backend_threads s) (backend_thread_pool s) v
    (attempts s).
Definition set_attempts (v : nat) (s : backend_state) : backend_state :=
  BState (backends s) (backend_conns s) (backend_pools s) (backend_threads s) (backend_thread_pool s) (backend_num s) v.

Definition backend_state0 : backend_state := BState None None None None None 0 0.

Definition proxy_backend_num (s : backend_state) : Z := backend_num s.

(** A pointer that must not be null. *)
Definition nonnull {A} (x : option A) : outcome A := match x with Some a => Ret a | None => Undef end.

Section arrays.
Variable o : options_t.

(** Whether attempt [k] of [mysql_init] and [mysql_real_connect] gives a
    connection to a socket, or to a host and a port. *)
Variable real_connect : nat -> option (list Z) -> list Z -> Z -> bool.

(** TRUE on error, the connection, and the number of attempts so far. *)
Definition backend_connect (h : proxy_host_t) (c : conn) (bypass : bool) (k : nat) : bool * conn * nat :=
  let prt := if bypass && (0 <? bypass_port o) then bypass_port o else port h in
  if real_connect k (socket_file o) (host h) prt then (false, Conn true false, S k)
  else (true, Conn false (freed c), S k).

(** The threads of a backend: as many as the options say. *)
Definition backend_new_threads (bi : Z) (s : backend_state) : outcome backend_state :=
  ts ← nonnull (backend_threads s);
  ts ← aset ts bi (Some (replicate (Z.to_nat (Options.backend_threads o)) (Conn false false)));
  Ret (set_threads (Some ts) s).

(** The arrays for [num] backends. *)
Definition alloc_hosts (num : Z) (s : backend_state) : backend_state :=
  if 0 <? num then
    let s := match backends s with
             | Some _ => s
             | None => set_backends (Some (replicate (Z.to_nat num) None)) s
             end in
    match backend_conns s with
    | Some _ => s
    | None => set_conns (Some (replicate (Z.to_nat num)
                (Some (replicate (Z.to_nat (num_conns o)) (Conn false false))))) s
    end
  else s.

Definition alloc_pools (num : Z) (s : backend_state) : outcome backend_state :=
  ps ← for_range 0 num (fun i ps => p ← proxy_pool_new (num_conns o); aset ps i p)
         (replicate (Z.to_nat num) None);
  Ret (set_pools (Some ps) s).

Definition alloc_threads (num : Z) (s : backend_state) : outcome backend_state :=
  s ← match backend_thread_pool s with
      | Some _ => Ret s
      | None => p ← proxy_pool_new (Options.backend_threads o); Ret (set_thread_pool p s)
      end;
  match backend_threads s with
  | Some _ => Ret s
  | None => for_range 0 num backend_new_threads (set_threads (Some (replicate (Z.to_nat num) None)) s)
  end.

Definition backends_alloc (num : Z) (s : backend_state) : outcome (bool * backend_state) :=
  let s := alloc_hosts num (set_backend_num num s) in
  match backend_file o, coordinator o with
  | None, false => Ret (false, s)
  | _, _ =>
      s ← alloc_pools num s;
      match mapper o with
      | None => Ret (false, s)
      | Some _ => s ← alloc_threads num s; Ret (false, s)
      end
  end.

(** Connecting a row of connections: TRUE and the connections so far at the first
    failure. *)
Fixpoint connect_all (h : proxy_host_t) (bypass : bool) (cs : list conn) (k : nat) : bool * list conn * nat :=
  match cs with
  | [] => (false, [], k)
  | c :: cs =>
      let '(e, c, k) := backend_connect h c bypass k in
      if e then (true, c :: cs, k)
      else let '(e, cs, k) := connect_all h bypass cs k in (e, c :: cs, k)
  end.

Definition connect_row (get : backend_state -> option (list (option (list conn))))
  (set : option (list (option (list conn))) -> backend_state -> backend_state)
  (bi : Z) (bypass : bool) (s : backend_state) : outcome (bool * backend_state) :=
  hs ← nonnull (backends s); h ← aget hs bi; h ← nonnull h;
  rows ← nonnull (get s); row ← aget rows bi; row ← nonnull row;
  let '(e, row, k) := connect_all h bypass row (attempts s) in
  rows ← aset rows bi (Some row);
  Ret (e, set_attempts k (set (Some rows) s)).

(** A single backend from the options. *)
Definition proxy_backend_connect (s : backend_state) : outcome (bool * backend_state) :=
  '(e, s) ← backends_alloc 1 s;
  if (e : bool) then Ret (true, s)
  else
    hst ← nonnull (backend_host o);
    hs ← nonnull (backends s);
    hs ← aset hs 0 (Some (Host hst (backend_port o)));
    '(e, s) ← connect_row backend_conns set_conns 0 true (set_backends (Some hs) s);
    if (e : bool) then Ret (true, s)
    else if coordinator o then connect_row backend_threads set_threads 0 false s
    else Ret (false, s).

(** All backends of a file. *)
Fixpoint connect_backends (n : nat) (i : Z) (s : backend_state) : outcome (bool * backend_state) :=
  match n with
  | O => Ret (false, s)
  | S n =>
      '(e, s) ← connect_row backend_conns set_conns i true s;
      if (e : bool) then Ret (true, s)
      else
        '(e, s) ← (match mapper o with
                   | None => Ret (false, s)
                   | Some _ => connect_row backend_threads set_threads i false s
                   end);
        if (e : bool) then Ret (true, s) else connect_backends n (i + 1) s
  end.

Definition proxy_backends_connect (content : option (list Z)) (s : backend_state) : outcome (bool * backend_state) :=
  let '(hs, num) := backend_read_file content in
  match hs with
  | None => Ret (true, set_backends None s)
  | Some hs =>
      '(e, s) ← backends_alloc num (set_backends (Some hs) s);
      if (e : bool) then Ret (true, s) else connect_backends (Z.to_nat num) 0 s
  end.

(** [backend_resize]: a reallocated array has [num] elements, new ones undefined
    (here NULL). *)
Definition realloc {A} (l : list (option A)) (num : Z) : list (option A) :=
  take (Z.to_nat num) l ++ replicate (Z.to_nat num - length l) None.

Definition backend_resize (num : Z) (before : bool) (s : backend_state) : outcome (bool * backend_state) :=
  let s :=
    if (before && (backend_num s <? num)) || (negb before && (u32 num <? u32 (backend_num s)))
    then set_pools (Some (realloc (default [] (backend_pools s)) num))
           (set_conns (Some (realloc (default [] (backend_conns s)) num))
             (set_threads (Some (realloc (default [] (backend_threads s)) num)) s))
    else s in
  if negb before && (backend_num s <? num) then
    s ← for_range (backend_num s) num (fun i s =>
          ps ← nonnull (backend_pools s); ps ← aset ps i None;
          cs ← nonnull (backend_conns s); cs ← aset cs i None;
          ts ← nonnull (backend_threads s); ts ← aset ts i None;
          Ret (set_pools (Some ps) (set_conns (Some cs) (set_threads (Some ts) s)))) s;
    Ret (false, s)
  else Ret (false, s).

(** Up to ten attempts for each connection; errors are only logged. *)
Fixpoint retry_connect (tries : nat) (h : proxy_host_t) (c : conn) (k : nat) : conn * nat :=
  match tries with
  | O => (c, k)
  | S tries =>
      let '(e, c, k) := backend_connect h c true k in
      if e then retry_connect tries h c k else (c, k)
  end.

Fixpoint new_conns (n : nat) (h : proxy_host_t) (k : nat) : list conn * nat :=
  match n with
  | O => ([], k)
  | S n =>
      let '(c, k) := retry_connect 10 h (Conn false false) k in
      let '(cs, k) := new_conns n h k in
      (c :: cs, k)
  end.

(** The threads of a new backend: one attempt for each that has no connection,
    errors are ignored. *)
Fixpoint open_threads (h : proxy_host_t) (cs : list conn) (k : nat) : list conn * nat :=
  match cs with
  | [] => ([], k)
  | c :: cs =>
      let '(c, k) := if mysql c then (c, k)
                     else let '(_, c, k) := backend_connect h c false k in (c, k) in
      let '(cs, k) := open_threads h cs k in
      (c :: cs, k)
  end.

Definition backend_new_connect (tid : nat) (bi : Z) (s : backend_state) : outcome backend_state :=
  hs ← nonnull (backends s); h ← aget hs bi; h ← nonnull h;
  cs ← nonnull (backend_conns s); row ← aget cs bi;
  s ← (match row with
       | Some _ => Ret s
       | None =>
           let '(row, k) := new_conns (Z.to_nat (num_conns o)) h (attempts s) in
           cs ← aset cs bi (Some row);
           Ret (set_attempts k (set_conns (Some cs) s))
       end);
  ps ← nonnull (backend_pools s); p ← aget ps bi;
  p ← (match p with
       | None => proxy_pool_new (num_conns o)
       | Some p => Ret (Some (proxy_pool_unlock tid p))
       end);
  ps ← aset ps bi p;
  let s := set_pools (Some ps) s in
  ts ← nonnull (backend_threads s); t ← aget ts bi;
  match t with
  | Some _ => Ret s
  | None =>
      s ← backend_new_threads bi s;
      ts ← nonnull (backend_threads s); row ← aget ts bi; row ← nonnull row;
      let '(row, k) := open_threads h row (attempts s) in
      ts ← aset ts bi (Some row);
      Ret (set_attempts k (set_threads (Some ts) s))
  end.

Definition backends_switch (new_num : Z) (new_backends : option (list (option proxy_host_t)))
  (s : backend_state) : backend_state :=
  set_backend_num new_num (set_backends new_backends s).

Definition backends_new_connect (tid : nat) (s : backend_state) : outcome backend_state :=
  for_range 0 (backend_num s) (backend_new_connect tid) s.

(** [proxy_backend_add], under [add_mutex].  Only the size of a pointer is
    allocated for the host; the write of its port behind it is not in the
    model. *)
Definition proxy_backend_add {T : Type -> Type} (tid : nat) (hst : list Z) (prt : Z) (cl : clone_state (T := T))
  (s : backend_state) : outcome (bool * clone_state (T := T) * backend_state) :=
  '(e1, s) ← backend_resize (backend_num s + 1) true s;
  if (e1 : bool) then Ret (true, cl, s)
  else
    '(e2, s) ← backend_resize (backend_num s + 1) false s;
    if (e2 : bool) then Ret (true, cl, s)
    else
      hs ← nonnull (backends s);
      hs ← aset hs (backend_num s) (Some (Host hst prt));
      s ← backend_new_connect tid (backend_num s) (set_backends (Some hs) s);
      Ret (false, proxy_clone_notify cl, set_backend_num (backend_num s + 1) s).

(** ** The connection of a client *)

Record conn_idx := ConnIdx { bi : Z; ci : Z }.

(** [r] is the value of [rand()] and [r'] the one used in the pool; [None] while
    the pool has no free connection. *)
Definition proxy_backend_get_connection (r r' thread_id : Z) (s : backend_state)
  : outcome (option (conn_idx * backend_state)) :=
  if backend_num s =? 0 then Undef
  else
    let bi := Z.rem r (backend_num s) in
    match backend_pools s with
    | None => Ret (Some (ConnIdx bi thread_id, s))
    | Some ps =>
        p ← aget ps bi; p ← nonnull p;
        '(i, p) ← pool_try_locks p r';
        if i <? 0 then Ret None
        else
          ps ← aset ps bi (Some p);
          Ret (Some (ConnIdx bi i, set_pools (Some ps) s))
    end.

Definition proxy_backend_release_connection (c : conn_idx) (s : backend_state) : outcome (conn_idx * backend_state) :=
  s ← match backend_pools s with
      | None => Ret s
      | Some ps =>
          p ← aget ps (bi c); p ← nonnull p;
          p ← proxy_pool_return p (ci c);
          ps ← aset ps (bi c) (Some p);
          Ret (set_pools (Some ps) s)
      end;
  Ret (ConnIdx (-1) (-1), s).

(** ** Connecting *)

Definition row_open (row : list conn) : Prop := Forall (fun c => mysql c = true) row.

(** [rows] has a row of [n] connections for each backend, and those of the first
    [i] backends are open. *)
Definition rows_ok (n : Z) (i : nat) (rows : list (option (list conn))) : Prop :=
  forall j, (j < length rows)%nat ->
    exists row, rows !! j = Some (Some row) /\ length row = Z.to_nat n /\ ((j < i)%nat -> row_open row).

(** A pool for the connections of a backend. *)
Definition pool_for (n : Z) (p : option pool_t) : Prop :=
  exists q, p = Some q /\ pool_ok q /\ psize q = n.

(** The arrays for the backends [hs]; the first [i] rows of connections and the
    first [j] rows of thread connections are open. *)
Record started (hs : list proxy_host_t) (i j : nat) (s : backend_state) : Prop := {
  st_hosts : backends s = Some (Some <$> hs);
  st_num : backend_num s = zlength hs;
  st_conns : exists cs, backend_conns s = Some cs /\ length cs = length hs /\ rows_ok (num_conns o) i cs;
  st_pools : exists ps, backend_pools s = Some ps /\ length ps = length hs /\ Forall (pool_for (num_conns o)) ps;
  st_threads : mapper o <> None ->
    exists ts, backend_threads s = Some ts /\ length ts = length hs /\ rows_ok (Options.backend_threads o) j ts
}.

Lemma started_weaken hs i j s : started hs i j s -> started hs 0 0 s.
Proof.
  assert (Hw : forall n k rows, rows_ok n k rows -> rows_ok n 0 rows).
  { intros n k rows H m Hm. destruct (H m Hm) as (row & ? & ? & _). exists row. split_and!; [done..|lia]. }
  intros [Hb Hn (cs & ? & ? & ?) Hp Ht]. split; [done..|eauto 10|done|].
  intros Hm. destruct (Ht Hm) as (ts & ? & ? & ?). eauto 10.
Qed.

(** Every attempt succeeds. *)
Definition accepting : Prop := forall k sock h p, real_connect k sock h p = true.

Lemma connect_all_spec h bypass cs k :
  exists e cs' k', connect_all h bypass cs k = (e, cs', k') /\ length cs' = length cs /\
    (e = false -> row_open cs') /\ (accepting -> e = false).
Proof.
  revert k. induction cs as [|c cs IH]; intros k; simpl.
  - exists false, [], k. repeat split; [constructor].
  - unfold backend_connect. destruct (real_connect _ _ _ _) eqn:E.
    + destruct (IH (S k)) as (e & cs' & k' & -> & Hl & Ho & Ha).
      exists e, (Conn true false :: cs'), k'. split_and!; [done|simpl; congruence| |done].
      intros He. by constructor; [|apply Ho].
    + eexists true, _, _. split_and!; [done..|]. intros Ha. by rewrite Ha in E.
Qed.

Lemma rows_ok_insert n i rows row :
  rows_ok n i rows -> length row = Z.to_nat n -> row_open row -> rows_ok n (S i) (<[i := Some row]> rows).
Proof.
  intros Hr Hl Ho j Hj. rewrite length_insert in Hj. destruct (decide (j = i)) as [->|Hne].
  - exists row. rewrite list_lookup_insert_eq by done. auto.
  - rewrite list_lookup_insert_ne by done. destruct (Hr j Hj) as (r & ? & ? & Hr'). exists r.
    repeat split; auto. intros. apply Hr'. lia.
Qed.

(** One row: TRUE, or the row is open. *)
Lemma connect_row_spec get set bypass n hs i m s rows :
  backends s = Some (Some <$> hs) -> (i < length hs)%nat ->
  get s = Some rows -> length rows = length hs -> rows_ok n m rows ->
  exists e rows' k, connect_row get set (Z.of_nat i) bypass s = Ret (e, set_attempts k (set (Some rows') s)) /\
    length rows' = length hs /\ (e = false -> m = i -> rows_ok n (S i) rows') /\ (accepting -> e = false) /\ rows_ok n 0 rows'.
Proof.
  intros Hb Hi Hg Hl Hr. unfold connect_row. rewrite Hb, Hg. cbn [nonnull mbind outcome_bind].
  destruct (lookup_lt_is_Some_2 hs i Hi) as [h Hh].
  rewrite (proj2 (aget_Ret (Some <$> hs) (Z.of_nat i) (Some h)))
    by (rewrite Nat2Z.id, list_lookup_fmap, Hh; split; [lia|done]).
  destruct (Hr i) as (row & Hrow & Hlen & _); [lia|].
  cbn [nonnull mbind outcome_bind].
  rewrite (proj2 (aget_Ret rows (Z.of_nat i) (Some row))) by (rewrite Nat2Z.id; split; [lia|done]).
  cbn [nonnull mbind outcome_bind].
  destruct (connect_all_spec h bypass row (attempts s)) as (e & row' & k & -> & Hl' & Ho & Ha).
  rewrite aset_in by (unfold zlength; lia). rewrite Nat2Z.id. cbn [mbind outcome_bind].
  exists e, (<[i := Some row']> rows), k. rewrite length_insert. split_and!; try done.
  - intros He ->. apply rows_ok_insert; [done|congruence|auto].
  - intros j Hj. rewrite length_insert in Hj. destruct (decide (j = i)) as [->|Hne].
    + exists row'. rewrite list_lookup_insert_eq by lia. split_and!; [done|congruence|lia].
    + rewrite list_lookup_insert_ne by done. destruct (Hr j Hj) as (r & ? & ? & _). exists r. split_and!; [done..|lia].
Qed.

Lemma connect_backends_spec hs n i s :
  (i + n = length hs)%nat -> started hs i i s ->
  exists e s', connect_backends n (Z.of_nat i) s = Ret (e, s') /\
    (e = false -> started hs (length hs) (length hs) s') /\ (accepting -> e = false).
Proof.
  revert i s. induction n as [|n IH]; intros i s Hn [Hb Hnum (cs & Hcs & Hlc & Hoc) Hp Ht].
  - exists false, s. split_and!; [done| |done]. intros _. replace (length hs) with i by lia. split; eauto.
  - cbn [connect_backends].
    destruct (connect_row_spec backend_conns set_conns true (num_conns o) hs i i s cs)
      as (e & cs' & k & -> & Hl & Ho & Ha & _); try done; [lia|].
    cbn [mbind outcome_bind]. destruct e.
    { eexists true, _. split_and!; [done..|]. intros Hacc. by specialize (Ha Hacc). }
    replace (Z.of_nat i + 1) with (Z.of_nat (S i)) by lia.
    destruct (mapper o) eqn:Em; cbn [mbind outcome_bind].
    + destruct Ht as (ts & Hts & Hlt & Hot); [done|].
      destruct (connect_row_spec backend_threads set_threads false (Options.backend_threads o) hs i i
        (set_attempts k (set_conns (Some cs') s)) ts) as (e & ts' & k' & -> & Hl' & Ho' & Ha' & _); try done; [lia|].
      cbn [mbind outcome_bind]. destruct e.
      { eexists true, _. split_and!; [done..|]. intros Hacc. by specialize (Ha' Hacc). }
      apply IH; [lia|]. split; simpl; eauto 10.
    + apply IH; [lia|]. split; simpl; eauto 10. done.
Qed.

(** ** Allocation *)

(** The options the allocation relies on, as [proxy_options_parse] leaves them
    for a backend file (and within the range of the pools). *)
Record alloc_ok : Prop := {
  al_file : backend_file o <> None \/ coordinator o = true;
  al_conns : 1 <= num_conns o <= 2 ^ 30;
  al_threads : 1 <= Options.backend_threads o <= 2 ^ 30
}.

(** A loop that fills an array. *)
Lemma fill_rows {A} (x y : A) n :
  0 <= n -> for_range 0 n (fun i l => aset l i x) (replicate (Z.to_nat n) y) = Ret (replicate (Z.to_nat n) x).
Proof.
  intros Hn.
  destruct (for_range_inv (fun i l => l = replicate (Z.to_nat i) x ++ replicate (Z.to_nat (n - i)) y)
    (fun i l => aset l i x) 0 n (replicate (Z.to_nat n) y)) as (l & -> & ->).
  - done.
  - simpl. by rewrite Z.sub_0_r.
  - intros j t Hj ->. rewrite aset_in by (unfold zlength; rewrite length_app, !length_replicate; lia).
    eexists. split; [done|].
    replace (Z.to_nat (n - j)) with (S (Z.to_nat (n - (j + 1)))) by lia.
    rewrite insert_app_r_alt by (rewrite length_replicate; lia). rewrite length_replicate, Nat.sub_diag. simpl.
    replace (Z.to_nat (j + 1)) with (Z.to_nat j + 1)%nat by lia.
    rewrite replicate_add, <-app_assoc. done.
  - rewrite Z.sub_diag. simpl. by rewrite app_nil_r.
Qed.

Lemma new_threads_fill num row s :
  row = Some (replicate (Z.to_nat (Options.backend_threads o)) (Conn false false)) -> 0 <= num ->
  for_range 0 num backend_new_threads (set_threads (Some (replicate (Z.to_nat num) None)) s) =
  Ret (set_threads (Some (replicate (Z.to_nat num) row)) s).
Proof.
  intros -> Hn. pose proof (fill_rows (Some (replicate (Z.to_nat (Options.backend_threads o)) (Conn false false)))
    None num Hn) as F. revert F. unfold for_range. generalize (replicate (Z.to_nat num) (@None (list conn))).
  generalize (replicate (Z.to_nat num) (Some (replicate (Z.to_nat (Options.backend_threads o)) (Conn false false)))).
  generalize (Z.to_nat (num - 0)) as m. generalize 0 as i. intros i m. revert i.
  induction m as [|m IH]; intros i l' l; cbn [for_].
  - by intros [= ->].
  - assert (backend_new_threads i (set_threads (Some l) s) =
      (ts ← aset l i (Some (replicate (Z.to_nat (Options.backend_threads o)) (Conn false false)));
       Ret (set_threads (Some ts) s))) as -> by done.
    destruct (aset l i _) as [l1|]; [|done]. cbn [mbind outcome_bind]. apply IH.
Qed.

Lemma replicate_rows n m : rows_ok n 0 (replicate m (Some (replicate (Z.to_nat n) (Conn false false)))).
Proof.
  intros j Hj. rewrite length_replicate in Hj. eexists. rewrite lookup_replicate_2 by done.
  split_and!; [done|by rewrite length_replicate|lia].
Qed.

Lemma alloc_started hs s :
  alloc_ok -> hs <> [] -> backends s = Some (Some <$> hs) -> backend_conns s = None ->
  backend_threads s = None -> backend_thread_pool s = None ->
  exists s', backends_alloc (zlength hs) s = Ret (false, s') /\ started hs 0 0 s' /\
    match mapper o with
    | Some _ => exists q, backend_thread_pool s' = Some q /\ pool_ok q
    | None => backend_threads s' = None
    end.
Proof.
  intros [Hf Hc Ht] Hne Hb Hcs Hts Htp. unfold backends_alloc, alloc_hosts, alloc_pools.
  assert (0 < zlength hs) by (unfold zlength; destruct hs; [done|simpl; lia]).
  destruct (Z.ltb_spec 0 (zlength hs)); [|lia]. cbn [backends set_backend_num]. rewrite Hb.
  cbn [backend_conns set_backend_num]. rewrite Hcs.
  destruct (new_spec _ Hc) as (p & Hp & Hok & Hsz & _). rewrite Hp. cbn [mbind outcome_bind].
  rewrite fill_rows by lia. cbn [mbind outcome_bind].
  assert (Hpool : Forall (pool_for (num_conns o)) (replicate (Z.to_nat (zlength hs)) (Some p))).
  { apply Forall_replicate. by exists p. }
  assert (Hlen : forall A (x : A), length (replicate (Z.to_nat (zlength hs)) x) = length hs).
  { intros. rewrite length_replicate. unfold zlength. lia. }
  assert (Hend : forall s', backends s' = Some (Some <$> hs) -> backend_num s' = zlength hs ->
    backend_conns s' = Some (replicate (Z.to_nat (zlength hs)) (Some (replicate (Z.to_nat (num_conns o)) (Conn false false)))) ->
    backend_pools s' = Some (replicate (Z.to_nat (zlength hs)) (Some p)) ->
    (mapper o <> None -> backend_threads s' = Some (replicate (Z.to_nat (zlength hs))
      (Some (replicate (Z.to_nat (Options.backend_threads o)) (Conn false false))))) ->
    started hs 0 0 s').
  { intros s' H1 H2 H3 H4 H5. split; [done..| | |].
    - eexists. split_and!; [done|apply Hlen|apply replicate_rows].
    - eexists. split_and!; [done|apply Hlen|done].
    - intros Hm. eexists. split_and!; [by apply H5|apply Hlen|apply replicate_rows]. }
  destruct (backend_file o) eqn:Ef, (coordinator o) eqn:Eco; [| | |by destruct Hf];
    (destruct (mapper o) eqn:Em; [|eexists; split_and!; [done|by apply Hend|done]]);
    unfold alloc_threads; cbn [backend_thread_pool set_pools set_conns set_backend_num]; rewrite Htp;
    destruct (new_spec _ Ht) as (q & -> & Hq & _); cbn [mbind outcome_bind];
    cbn [backend_threads set_thread_pool set_pools set_conns set_backend_num]; rewrite Hts;
    (erewrite new_threads_fill; [|done|lia]); (eexists; split_and!; [done|by apply Hend|by exists q]).
Qed.

(** *** Arrays that are allocated, whatever the connections *)

(** The arrays for the backends [hs], with a row of connections for each; [th] tells
    if there are backend threads. *)
Record allocated (hs : list proxy_host_t) (th : bool) (s : backend_state) : Prop := {
  al_hosts : backends s = Some (Some <$> hs);
  al_num : backend_num s = zlength hs;
  al_rows : exists cs, backend_conns s = Some cs /\ length cs = length hs /\ rows_ok (num_conns o) 0 cs;
  al_pools : forall ps, backend_pools s = Some ps -> length ps = length hs;
  al_workers : if th then exists ts q, backend_threads s = Some ts /\ length ts = length hs /\
                 rows_ok (Options.backend_threads o) 0 ts /\ backend_thread_pool s = Some q /\ pool_ok q
               else backend_threads s = None
}.

Lemma connect_conns_allocated hs th i s :
  allocated hs th s -> (i < length hs)%nat ->
  exists e s', connect_row backend_conns set_conns (Z.of_nat i) true s = Ret (e, s') /\ allocated hs th s' /\
    (accepting -> e = false).
Proof.
  intros [Hb Hn (cs & Hcs & Hl & Ho) Hp Hw] Hi.
  destruct (connect_row_spec backend_conns set_conns true _ hs i 0 s cs Hb Hi Hcs Hl Ho)
    as (e & cs' & k & -> & Hl' & _ & Ha & Ho'). eexists _, _. split; [done|]. split; [|done]. split; simpl; eauto 10.
Qed.

Lemma connect_threads_allocated hs i s :
  allocated hs true s -> (i < length hs)%nat ->
  exists e s', connect_row backend_threads set_threads (Z.of_nat i) false s = Ret (e, s') /\ allocated hs true s' /\
    (accepting -> e = false).
Proof.
  intros [Hb Hn Hc Hp (ts & q & Hts & Hl & Ho & Hq)] Hi.
  destruct (connect_row_spec backend_threads set_threads false _ hs i 0 s ts Hb Hi Hts Hl Ho)
    as (e & ts' & k & -> & Hl' & _ & Ha & Ho'). eexists _, _. split; [done|]. split; [|done]. split; simpl; eauto 10.
Qed.

Lemma connect_backends_allocated hs n i s :
  (i + n = length hs)%nat -> allocated hs (is_some (mapper o)) s ->
  exists e s', connect_backends n (Z.of_nat i) s = Ret (e, s') /\ allocated hs (is_some (mapper o)) s' /\
    (accepting -> e = false).
Proof.
  revert i s. induction n as [|n IH]; intros i s Hn Hs; [eexists _, _; by split_and!|]. cbn [connect_backends].
  destruct (connect_conns_allocated hs (is_some (mapper o)) i s Hs) as (e & s1 & -> & Hs1 & Ha1); [lia|].
  cbn [mbind outcome_bind]. destruct e; [eexists _, _; by split_and!|].
  replace (Z.of_nat i + 1) with (Z.of_nat (S i)) by lia.
  destruct (mapper o) eqn:Em; cbn [mbind outcome_bind is_some] in *.
  - destruct (connect_threads_allocated hs i s1 Hs1) as (e & s2 & -> & Hs2 & Ha2); [lia|].
    cbn [mbind outcome_bind]. destruct e; [eexists _, _; by split_and!|]. apply IH; [lia|done].
  - apply IH; [lia|done].
Qed.

(** The arrays after a start with a file of hosts, connected or not. *)
Lemma file_allocated hs :
  hs <> [] -> Forall host_ok hs -> Forall (fun h => zlength (host_line h) < 2 ^ 32) hs -> alloc_ok ->
  exists e s, proxy_backends_connect (Some (host_file hs)) backend_state0 = Ret (e, s) /\
    allocated hs (is_some (mapper o)) s /\ (accepting -> e = false).
Proof.
  intros Hne Hok Hl Ha. unfold proxy_backends_connect.
  rewrite <-(app_nil_r (host_file hs)), read_file by done.
  destruct (alloc_started hs (set_backends (Some (Some <$> hs)) backend_state0)) as (s & -> & Hs & Hw); try done.
  cbn [mbind outcome_bind]. unfold zlength. rewrite Nat2Z.id. apply (connect_backends_allocated hs (length hs) 0); [done|].
  destruct Hs as [Hb Hn Hc (ps & Hps & Hlp & _) Ht]. split; try done.
  - intros ps' E. congruence.
  - destruct (mapper o); [|done]. destruct Ht as (ts & ? & ? & ?); [done|]. destruct Hw as (q & ? & ?). by exists ts, q.
Qed.

(** The arrays after a start with the host of the options, for a proxy that is no
    coordinator. *)
Lemma single_allocated hst :
  backend_file o = None -> coordinator o = false -> backend_host o = Some hst ->
  exists e s, proxy_backend_connect backend_state0 = Ret (e, s) /\
    allocated [Host hst (backend_port o)] false s /\ (accepting -> e = false).
Proof.
  intros Hf Hco Hh. unfold proxy_backend_connect, backends_alloc. rewrite Hf, Hco, Hh. cbn [mbind outcome_bind nonnull].
  set (s1 := set_backends (Some [Some (Host hst (backend_port o))]) (alloc_hosts 1 (set_backend_num 1 backend_state0))).
  destruct (connect_conns_allocated [Host hst (backend_port o)] false 0 s1) as (e & s & E & Hs & He).
  - split; try done. eexists. split_and!; [done..|]. apply (replicate_rows _ 1).
  - simpl. lia.
  - change (Z.of_nat 0) with 0 in E.
    change (exists e s, ('(e, s) ← connect_row backend_conns set_conns 0 true s1;
      if (e : bool) then Ret (true, s) else Ret (false, s)) = Ret (e, s) /\
      allocated [Host hst (backend_port o)] false s /\ (accepting -> e = false)).
    rewrite E. cbn [mbind outcome_bind]. exists e, s. split_and!; [by destruct e|done..].
Qed.


(** C10: starting with a file of backends.  For every file of lines "host:port" the
    start returns; it reports an error or leaves the arrays complete: the hosts of
    the file, for each of them [num_conns] open connections and a pool of that
    size, and with a mapper as many open connections as there are backend
    threads.  It reports no error if every connection attempt succeeds. *)
Theorem backends_connected hs :
  hs <> [] -> Forall host_ok hs -> Forall (fun h => zlength (host_line h) < 2 ^ 32) hs -> alloc_ok ->
  exists e s, proxy_backends_connect (Some (host_file hs)) backend_state0 = Ret (e, s) /\
    (e = false -> started hs (length hs) (length hs) s) /\ (accepting -> e = false).
Proof.
  intros Hne Hok Hl Ha. unfold proxy_backends_connect.
  rewrite <-(app_nil_r (host_file hs)), read_file by done.
  destruct (alloc_started hs (set_backends (Some (Some <$> hs)) backend_state0)) as (s & -> & Hs & _); try done.
  cbn [mbind outcome_bind]. unfold zlength. rewrite Nat2Z.id. by apply (connect_backends_spec hs (length hs) 0).
Qed.

(** ** The connection of a client thread *)

Lemma give_take p i : pool_ok p -> free p i -> give_item (take_item p i) i = p.
Proof.
  intros Hok [Hi Hc]. destruct p as [sz al lk av pl]. unfold give_item, take_item, set_avail, set_locked. simpl in *.
  f_equal; [lia|]. rewrite list_insert_insert_eq. by apply list_insert_id.
Qed.

(** A connection is taken and given back. *)
Lemma get_release hs r r' tid s :
  started hs (length hs) (length hs) s -> hs <> [] -> 0 <= r -> 0 <= r' ->
  exists p bi ps, bi = r mod zlength hs /\ backend_pools s = Some ps /\ ps !! Z.to_nat bi = Some (Some p) /\
   ((exists ci s' cs row c, proxy_backend_get_connection r r' tid s = Ret (Some (ConnIdx bi ci, s')) /\ free p ci /\
      backend_conns s' = Some cs /\ cs !! Z.to_nat bi = Some (Some row) /\ row !! Z.to_nat ci = Some c /\
      mysql c = true /\
      proxy_backend_release_connection (ConnIdx bi ci) s' = Ret (ConnIdx (-1) (-1), s)) \/
    (proxy_backend_get_connection r r' tid s = Ret None /\ forall i, ~ free p i)).
Proof.
  intros [Hb Hnum (cs & Hcs & Hlc & Hoc) (ps & Hps & Hlp & Hpool) _] Hne Hr Hr'.
  assert (Hlen : 0 < zlength hs) by (unfold zlength; destruct hs; [done|simpl; lia]).
  pose proof (Z.mod_pos_bound r (zlength hs) Hlen) as Hbi.
  destruct (lookup_lt_is_Some_2 ps (Z.to_nat (r mod zlength hs))) as [p' Hp']; [unfold zlength in *; lia|].
  destruct (proj1 (Forall_lookup _ _) Hpool _ _ Hp') as (p & -> & Hok & Hsz).
  exists p, (r mod zlength hs), ps. split_and!; [done..|]. unfold proxy_backend_get_connection.
  rewrite Hnum. destruct (Z.eqb_spec (zlength hs) 0); [lia|]. rewrite Z.rem_mod_nonneg, Hps by lia.
  rewrite (proj2 (aget_Ret ps (r mod zlength hs) (Some p))) by (split; [lia|done]). cbn [mbind outcome_bind nonnull].
  destruct (try_locks_cases p r' Hok Hr') as [(i & Hf & ->)|[-> Hn]]; cbn [mbind outcome_bind]; [left|by right].
  pose proof (proj1 Hf) as Hi. destruct (Z.ltb_spec i 0); [lia|].
  rewrite aset_in by (unfold zlength in *; lia). cbn [mbind outcome_bind].
  destruct (Hoc (Z.to_nat (r mod zlength hs))) as (row & Hrow & Hrl & Ho); [unfold zlength in *; lia|].
  destruct (lookup_lt_is_Some_2 row (Z.to_nat i)) as [c Hc]; [lia|].
  eexists i, _, cs, row, c. split_and!; [done..| |].
  - refine (proj1 (Forall_lookup _ _) (Ho _) _ _ Hc). unfold zlength in *; lia.
  - unfold proxy_backend_release_connection. cbn [backend_pools set_pools bi ci].
    rewrite (proj2 (aget_Ret _ (r mod zlength hs) (Some (take_item p i))))
      by (split; [lia|]; apply list_lookup_insert_eq; unfold zlength in *; lia).
    cbn [mbind outcome_bind nonnull]. rewrite return_taken; [|by apply take_item_ok|].
    2: { split; [done|]. rewrite take_item_cell by (done || lia). by rewrite decide_True. }
    rewrite give_take by done. cbn [mbind outcome_bind].
    rewrite aset_in by (rewrite zlength_insert; unfold zlength in *; lia). cbn [mbind outcome_bind].
    rewrite list_insert_insert_eq, list_insert_id by done. unfold set_pools. simpl. rewrite <-Hps.
    by destruct s.
Qed.

(** C17: the connection of a client.  With the arrays complete, a thread that asks
    for a connection gets the indices of an open one, a free one of the pool of
    its backend, or waits because that pool has none; giving it back restores
    the state. *)
Theorem connection_open hs r r' tid s :
  started hs (length hs) (length hs) s -> hs <> [] -> 0 <= r -> 0 <= r' ->
  exists p bi ps, bi = r mod zlength hs /\ backend_pools s = Some ps /\ ps !! Z.to_nat bi = Some (Some p) /\
   ((exists ci s' cs row c, proxy_backend_get_connection r r' tid s = Ret (Some (ConnIdx bi ci, s')) /\ free p ci /\
      backend_conns s' = Some cs /\ cs !! Z.to_nat bi = Some (Some row) /\ row !! Z.to_nat ci = Some c /\
      mysql c = true /\
      proxy_backend_release_connection (ConnIdx bi ci) s' = Ret (ConnIdx (-1) (-1), s)) \/
    (proxy_backend_get_connection r r' tid s = Ret None /\ forall i, ~ free p i)).
Proof. apply get_release. Qed.

(** A coordinator without a mapper reads through a null pointer at its start.
    [backends_alloc] starts no backend threads without a mapper, but
    [proxy_backend_connect] opens the connections of the backend threads of every
    coordinator. *)
Theorem coordinator_without_mapper hst :
  coordinator o = true -> mapper o = None -> backend_host o = Some hst -> 1 <= num_conns o <= 2 ^ 30 -> accepting ->
  proxy_backend_connect backend_state0 = Undef.
Proof.
  intros Hco Hm Hh Hc Ha. unfold proxy_backend_connect, backends_alloc, alloc_pools. rewrite Hco, Hm, Hh.
  destruct (new_spec _ Hc) as (p & Hp & _). rewrite Hp. cbn [mbind outcome_bind]. rewrite fill_rows by done.
  replace (match backend_file o with Some _ | _ => _ end) with
    (Ret (false, set_pools (Some [Some p]) (alloc_hosts 1 (set_backend_num 1 backend_state0)))) by by destruct (backend_file o).
  cbn [mbind outcome_bind nonnull].
  set (s1 := set_backends (Some [Some (Host hst (backend_port o))])
               (set_pools (Some [Some p]) (alloc_hosts 1 (set_backend_num 1 backend_state0)))).
  change (('(e, s) ← connect_row backend_conns set_conns 0 true s1;
           if (e : bool) then Ret (true, s) else connect_row backend_threads set_threads 0 false s) = Undef).
  destruct (connect_row_spec backend_conns set_conns true (num_conns o) [Host hst (backend_port o)] 0 0 s1
    (replicate 1 (Some (replicate (Z.to_nat (num_conns o)) (Conn false false)))))
    as (e & rows & k & E & _ & _ & He & _); try done; [simpl; lia|apply replicate_rows|].
  change (Z.of_nat 0) with 0 in E. rewrite E, (He Ha). done.
Qed.

(** ** Adding a backend *)

(** The arrays as [backends_alloc] and [backend_read_file] make them: an element
    for each backend. *)
Record arrays_ok (s : backend_state) : Prop := {
  ar_num : 0 <= backend_num s < 2 ^ 31 - 1;
  ar_hosts : exists hs, backends s = Some hs /\ zlength hs = backend_num s;
  ar_conns : exists cs, backend_conns s = Some cs /\ zlength cs = backend_num s;
  ar_pools : exists ps, backend_pools s = Some ps /\ zlength ps = backend_num s;
  ar_threads : exists ts, backend_threads s = Some ts /\ zlength ts = backend_num s
}.

Lemma realloc_length {A} (l : list (option A)) num : 0 <= num -> zlength (realloc l num) = num.
Proof. intros Hn. unfold realloc, zlength. rewrite length_app, length_take, length_replicate. lia. Qed.

(** The three arrays with [num] elements. *)
Definition grown (num : Z) (s : backend_state) : backend_state :=
  set_pools (Some (realloc (default [] (backend_pools s)) num))
    (set_conns (Some (realloc (default [] (backend_conns s)) num))
      (set_threads (Some (realloc (default [] (backend_threads s)) num)) s)).

Lemma resize_before s : backend_resize (backend_num s + 1) true s = Ret (false, grown (backend_num s + 1) s).
Proof. unfold backend_resize. by destruct (Z.ltb_spec (backend_num s) (backend_num s + 1)); [|lia]. Qed.

Lemma resize_after s :
  0 <= backend_num s < 2 ^ 31 - 1 ->
  exists s', backend_resize (backend_num s + 1) false (grown (backend_num s + 1) s) = Ret (false, s') /\
    backend_num s' = backend_num s /\ backends s' = backends s.
Proof.
  intros Hn. unfold backend_resize. cbn [negb andb orb]. unfold u32.
  change (backend_num (grown (backend_num s + 1) s)) with (backend_num s).
  rewrite !wrap_small by lia. destruct (Z.ltb_spec (backend_num s + 1) (backend_num s)); [lia|].
  change (backend_num (grown (backend_num s + 1) s)) with (backend_num s).
  destruct (Z.ltb_spec (backend_num s) (backend_num s + 1)); [|lia].
  unfold for_range. replace (Z.to_nat (backend_num s + 1 - backend_num s)) with 1%nat by lia. cbn [for_].
  unfold grown. cbn [nonnull backend_pools backend_conns backend_threads set_pools set_conns set_threads mbind outcome_bind].
  rewrite !aset_in by (rewrite realloc_length; lia). cbn [mbind outcome_bind]. eauto.
Qed.

(** Adding a backend writes outside the array of hosts.  [proxy_backend_add]
    enlarges the arrays of pools, connections and threads but not the array of
    hosts, which has an element for each present backend only, and stores the
    new host behind its end. *)
Theorem backend_add_overflow {T : Type -> Type} tid hst prt (cl : clone_state (T := T)) s :
  arrays_ok s -> proxy_backend_add tid hst prt cl s = Undef.
Proof.
  intros Hok. unfold proxy_backend_add. rewrite resize_before. cbn [mbind outcome_bind].
  destruct (resize_after s (ar_num s Hok)) as (s' & E & Hn & Hb).
  change (backend_num (grown (backend_num s + 1) s)) with (backend_num s). rewrite E. cbn [mbind outcome_bind].
  destruct (ar_hosts _ Hok) as (hs & Ehs & Hl). rewrite Hb, Ehs, Hn. cbn [nonnull mbind outcome_bind].
  unfold aset. destruct (Z.ltb_spec (backend_num s) (zlength hs)); [lia|]. by rewrite andb_false_r.
Qed.

End arrays.

(** One backend without connections. *)
Definition demo_backends : backend_state :=
  BState (Some [Some (Host (str "db") 3306)]) (Some [Some []]) (Some [None]) (Some [Some []]) None 1 0.

Lemma backend_add_overflow_witness :
  proxy_backend_add set_option_defaults (fun _ _ _ _ => true) 0 (str "clone1") 3306
    (CloneState (T := hashtable) 0 0 0 0 0 None None) demo_backends = Undef.
Proof.
  apply (backend_add_overflow set_option_defaults (fun _ _ _ _ => true) 0 (str "clone1") 3306 _ demo_backends).
  split; [simpl; lia|eexists; split; reflexivity..].
Defined.

(** Two backends, two connections for each and one backend thread. *)
Definition demo_options : options_t :=
  set_mapper (Some (str "rowa")) (set_backend_file (Some (str "backends.txt"))
    (set_num_conns 2 (set_backend_threads 1 set_option_defaults))).
Definition demo_hosts : list proxy_host_t := [Host (str "db1") 3306; Host (str "db2") 3307].
Definition demo_started : bool * backend_state :=
  match proxy_backends_connect demo_options (fun _ _ _ _ => true) (Some (host_file demo_hosts)) backend_state0 with
  | Ret x => x
  | Undef => (true, backend_state0)
  end.

Lemma backends_connected_witness : started demo_options demo_hosts 2 2 (snd demo_started) /\ fst demo_started = false.
Proof.
  destruct (backends_connected demo_options (fun _ _ _ _ => true) demo_hosts) as (e & s & E & Hs & He).
  - discriminate.
  - repeat constructor; vm_compute; try discriminate; reflexivity.
  - repeat constructor; vm_compute; reflexivity.
  - split; [left; discriminate|vm_compute; split; discriminate..].
  - unfold demo_started. rewrite E. split; [apply Hs|]; apply He; intros ????; reflexivity.
Defined.

Lemma demo_is_started : started demo_options demo_hosts (length demo_hosts) (length demo_hosts) (snd demo_started).
Proof.
  destruct (alloc_started demo_options demo_hosts (set_backends (Some (Some <$> demo_hosts)) backend_state0))
    as (s & E & Hs & _); try done.
  - split; [left; discriminate|vm_compute; split; discriminate..].
  - destruct (connect_backends_spec demo_options (fun _ _ _ _ => true) demo_hosts 2 0 s) as (e & s' & E' & H & He);
      [done..|]. specialize (He ltac:(intros ????; reflexivity)). subst e. specialize (H eq_refl).
    vm_compute in E. injection E as <-. vm_compute in E'. injection E' as <-. exact H.
Qed.

(** The client gets a connection of the second backend and gives it back. *)
Lemma connection_open_witness :
  exists s', proxy_backend_get_connection 5 7 0 (snd demo_started) = Ret (Some (ConnIdx 1 0, s')) /\
    proxy_backend_release_connection (ConnIdx 1 0) s' = Ret (ConnIdx (-1) (-1), snd demo_started).
Proof.
  destruct (connection_open demo_options demo_hosts 5 7 0 (snd demo_started)) as (p & bi & ps & -> & _ & _ & H).
  - apply demo_is_started.
  - discriminate.
  - lia.
  - lia.
  - destruct H as [(ci & s' & cs & row & c & E & _ & _ & _ & _ & _ & H)|[E _]].
    + change (5 mod zlength demo_hosts) with 1 in E, H. exists s'.
      assert (ci = 0) as ->; [|done]. vm_compute in E. by injection E.
    + vm_compute in E. discriminate E.
Defined.

Lemma coordinator_without_mapper_witness :
  proxy_backend_connect (set_coordinator true (set_num_conns 2 (set_backend_host (Some (str "127.0.0.1")) set_option_defaults)))
    (fun _ _ _ _ => true) backend_state0 = Undef.
Proof.
  apply (coordinator_without_mapper _ (fun _ _ _ _ => true) (str "127.0.0.1"));
    [reflexivity..|vm_compute; split; discriminate|intros ????; reflexivity].
Defined.
