(* ===== verification/Complete.v ===== *)
(** * Telling the clones the decision
      (src/src/proxy_backend.c: [proxy_backend_clone_complete])

    The coordinator looks the clones that reported up, takes a connection of the backend with the
    address of each from its pool, and sends the decision on it.  The two places
    where the function waits are visible: [proxy_pool_get] waits for a free connection, and the
    loop [while (!mysql)] reads a local variable, so that a connection that is not
    open is waited for without end. *)

From S2P Require Import Prelude CString Options Pool Hashtable Clone Trans Backend BackendArrays.
Local Open Scope Z_scope.

(** ** The function *)

(** The first of [n] backends from [bi] on with the address [h]. *)
Fixpoint find_backend (h : proxy_host_t) (n : nat) (bi : Z) (bs : option (list (option proxy_host_t))) : outcome (option Z) :=
  match n with
  | O => Ret None
  | S n =>
      l ← nonnull bs; b ← aget l bi; b ← nonnull b;
      if decide (host h = host b /\ port h = port b) then Ret (Some bi) else find_backend h n (bi + 1) bs
  end.

(** Where the function waits: no connection of a backend is free, or the connection it
    took is not open. *)
Inductive wait :=
| NoFree (bi : Z)
| NoConnection (bi ci : Z).

(** [r] is the value of [rand()] in [proxy_pool_get].  The connection that is used, and the arrays after
    it was returned. *)
Definition tell_backend (r bi : Z) (s : backend_state) : outcome (wait + (Z * backend_state)) :=
  ps ← nonnull (backend_pools s); p ← aget ps bi; p ← nonnull p;
  '(ci, p) ← pool_try_locks p r;
  if ci <? 0 then Ret (inl (NoFree bi))
  else
    cs ← nonnull (backend_conns s); row ← aget cs bi; row ← nonnull row; c ← aget row ci;
    if negb (mysql c) then Ret (inl (NoConnection bi ci))
    else
      p ← proxy_pool_return p ci;
      ps ← aset ps bi (Some p);
      Ret (inr (ci, set_pools (Some ps) s)).

Section complete.
Context {T : Type -> Type} `{!MapTable T}.

(** The messages in their order, each with the backend and the connection it was sent on, and then where
    the function waits or what it returns; an error of the query is only logged.  An unknown
    identifier follows a null pointer. *)
Fixpoint proxy_backend_clone_complete (rand : nat -> Z) (cs : clone_state (T := T)) (ids : list Z) (transaction_id : Z)
  (commit : bool) (s : backend_state) : outcome (list (Z * Z * list Z) * (wait + (bool * backend_state))) :=
  match ids with
  | [] => Ret ([], inr (false, s))
  | i :: ids =>
      h ← proxy_clone_search cs i; h ← nonnull h;
      found ← find_backend h (Z.to_nat (backend_num s)) 0 (backends s);
      match found with
      | None =>
          '(sent, r) ← proxy_backend_clone_complete (fun k => rand (S k)) cs ids transaction_id commit s;
          Ret (sent, match r with inl w => inl w | inr (_, s) => inr (true, s) end)
      | Some bi =>
          told ← tell_backend (rand O) bi s;
          match told with
          | inl w => Ret ([], inl w)
          | inr (ci, s) =>
              '(sent, r) ← proxy_backend_clone_complete (fun k => rand (S k)) cs ids transaction_id commit s;
              Ret ((bi, ci, commit_message commit transaction_id) :: sent, r)
          end
      end
  end.

(** ** Properties *)

Lemma find_backend_from h pre hs bs :
  bs = Some (Some <$> (pre ++ hs)) -> h ∈ hs -> h ∉ pre ->
  exists bi, find_backend h (length hs) (zlength pre) bs = Ret (Some bi) /\ 0 <= bi /\
    (pre ++ hs) !! Z.to_nat bi = Some h /\ (forall j, (j < Z.to_nat bi)%nat -> (pre ++ hs) !! j <> Some h).
Proof.
  revert pre. induction hs as [|b hs IH]; intros pre -> Hin Hpre; [by apply not_elem_of_nil in Hin|].
  cbn [length find_backend nonnull mbind outcome_bind].
  rewrite (proj2 (aget_Ret _ (zlength pre) (Some b)))
    by (split; [unfold zlength; lia|]; unfold zlength; rewrite Nat2Z.id, fmap_app, lookup_app_r, length_fmap, Nat.sub_diag by (rewrite length_fmap; lia); done).
  cbn [nonnull mbind outcome_bind]. case_decide as Hd.
  - assert (h = b) as -> by (destruct h, b; simpl in *; naive_solver).
    exists (zlength pre). unfold zlength. rewrite Nat2Z.id, lookup_app_r, Nat.sub_diag by lia. split_and!; try done; [lia|].
    intros j Hj E. rewrite lookup_app_l in E by done. by apply list_elem_of_lookup_2 in E.
  - assert (Hne : h <> b) by (intros ->; by apply Hd).
    destruct (IH (pre ++ [b])) as (bi & E & H0 & Hb & Hf).
    + by rewrite <-app_assoc.
    + by apply elem_of_cons in Hin as [?|?].
    + rewrite elem_of_app, list_elem_of_singleton. tauto.
    + rewrite <-app_assoc in Hb, Hf. unfold zlength in *. rewrite length_app, Nat2Z.inj_add in E. eauto.
Qed.

Lemma find_backend_spec h hs :
  h ∈ hs -> exists bi, find_backend h (length hs) 0 (Some (Some <$> hs)) = Ret (Some bi) /\ 0 <= bi /\
    hs !! Z.to_nat bi = Some h /\ forall j, (j < Z.to_nat bi)%nat -> hs !! j <> Some h.
Proof. intros Hin. apply (find_backend_from h [] hs); [done..|apply not_elem_of_nil]. Qed.

Variable o : options_t.

(** The connection [ci] of backend [bi]: its pool and whether it is open. *)
Definition connection (s : backend_state) (bi ci : Z) (p : pool_t) (c : conn) : Prop :=
  exists ps cs row, backend_pools s = Some ps /\ ps !! Z.to_nat bi = Some (Some p) /\
    backend_conns s = Some cs /\ cs !! Z.to_nat bi = Some (Some row) /\ row !! Z.to_nat ci = Some c.

(** No connection of backend [bi] is free. *)
Definition all_taken (s : backend_state) (bi : Z) : Prop :=
  exists ps p, backend_pools s = Some ps /\ ps !! Z.to_nat bi = Some (Some p) /\ forall ci, ~ free p ci.

Lemma tell_backend_cases hs r bi s :
  started o hs 0 0 s -> 0 <= bi < zlength hs -> 0 <= r ->
  (exists ci p c, connection s bi ci p c /\ free p ci /\
     tell_backend r bi s = Ret (if mysql c then inr (ci, s) else inl (NoConnection bi ci))) \/
  (all_taken s bi /\ tell_backend r bi s = Ret (inl (NoFree bi))).
Proof.
  intros [_ _ (cs & Hcs & Hlc & Hoc) (ps & Hps & Hlp & Hpool) _] Hbi Hr. unfold zlength in Hbi.
  destruct (lookup_lt_is_Some_2 ps (Z.to_nat bi)) as [p' Hp']; [lia|].
  destruct (proj1 (Forall_lookup _ _) Hpool _ _ Hp') as (p & -> & Hok & Hsz).
  unfold tell_backend. rewrite Hps, Hcs. cbn [nonnull mbind outcome_bind].
  rewrite (proj2 (aget_Ret ps bi (Some p))) by (split; [lia|done]). cbn [nonnull mbind outcome_bind].
  destruct (try_locks_cases p r Hok Hr) as [(ci & Hf & ->)|[-> Hn]]; cbn [mbind outcome_bind].
  2: { right. split; [by exists ps, p|done]. }
  pose proof (proj1 Hf) as Hi. destruct (Z.ltb_spec ci 0); [lia|].
  destruct (Hoc (Z.to_nat bi)) as (row & Hrow & Hrl & _); [lia|].
  destruct (lookup_lt_is_Some_2 row (Z.to_nat ci)) as [c Hc]; [lia|].
  rewrite (proj2 (aget_Ret cs bi (Some row))) by (split; [lia|done]). cbn [nonnull mbind outcome_bind].
  rewrite (proj2 (aget_Ret row ci c)) by (split; [lia|done]). cbn [mbind outcome_bind].
  left. exists ci, p, c. split_and!; [by exists ps, cs, row|done|]. destruct (mysql c); cbn [negb]; [|done].
  rewrite return_taken; [|by apply take_item_ok|].
  2: { split; [done|]. rewrite take_item_cell by (done || lia). by rewrite decide_True. }
  rewrite give_take by done. cbn [mbind outcome_bind].
  rewrite aset_in by (unfold zlength; lia). cbn [mbind outcome_bind]. rewrite list_insert_id by done.
  unfold set_pools. rewrite <-Hps. by destruct s.
Qed.

(** A message to clone [i]: the text, on a free open connection of the first backend with the address of the clone. *)
Definition told (hs : list proxy_host_t) (t : T proxy_host_t) (s : backend_state) (text : list Z) (i : Z) (x : Z * Z * list Z) : Prop :=
  exists h p c, mt_map t !! u64 i = Some h /\ hs !! Z.to_nat (fst (fst x)) = Some h /\ 0 <= fst (fst x) /\
    (forall j, (j < Z.to_nat (fst (fst x)))%nat -> hs !! j <> Some h) /\
    connection s (fst (fst x)) (snd (fst x)) p c /\ free p (snd (fst x)) /\ mysql c = true /\ snd x = text.

(** Why the function waits at clone [i]. *)
Definition waits (hs : list proxy_host_t) (t : T proxy_host_t) (s : backend_state) (i : Z) (w : wait) : Prop :=
  exists h bi, mt_map t !! u64 i = Some h /\ hs !! Z.to_nat bi = Some h /\
    match w with
    | NoFree bi' => bi' = bi /\ all_taken s bi
    | NoConnection bi' ci => bi' = bi /\ exists p c, connection s bi ci p c /\ free p ci /\ mysql c = false
    end.

(** C33: every clone is told.  Let the clones that reported all be registered with the addresses of current
    backends, whose arrays are complete (their connections open or not).  Then
    [proxy_backend_clone_complete] sends the decision to the clones in their order, once each, on
    a free open connection of the first backend with the address of the clone.  It returns without error
    and with the arrays as they were after it told all of them, or it waits at the
    first clone for whose backend no connection is free, or, without end, at the first one
    for which it took a connection that is not open. *)
Theorem clones_told rand cs t hs ids id commit s :
  clone_table cs = Some t -> mt_ok t -> started o hs 0 0 s -> (forall k, 0 <= rand k) ->
  (forall i, i ∈ ids -> exists h, mt_map t !! u64 i = Some h /\ h ∈ hs) ->
  exists sent r, proxy_backend_clone_complete rand cs ids id commit s = Ret (sent, r) /\
    Forall2 (told hs t s (commit_message commit id)) (take (length sent) ids) sent /\
    match r with
    | inr x => x = (false, s) /\ length sent = length ids
    | inl w => exists i, ids !! length sent = Some i /\ waits hs t s i w
    end.
Proof.
  intros Ht Hok Hs. revert rand. induction ids as [|i ids IH]; intros rand Hrand Hids.
  { exists [], (inr (false, s)). by split_and!. }
  destruct (Hids i) as (h & Hh & Hin); [by apply elem_of_cons; left|].
  destruct (find_backend_spec h hs Hin) as (bi & Ebi & H0 & Hbi & Hfirst).
  cbn [proxy_backend_clone_complete]. unfold proxy_clone_search. rewrite Ht. cbn [mbind outcome_bind].
  rewrite mt_search_ok, Hh by done. cbn [nonnull mbind outcome_bind].
  rewrite (st_num _ _ _ _ _ Hs), (st_hosts _ _ _ _ _ Hs). unfold zlength. rewrite Nat2Z.id, Ebi. cbn [mbind outcome_bind].
  destruct (tell_backend_cases hs (rand O) bi s Hs) as [(ci & p & c & Hc & Hf & ->)|[Hn ->]];
    [pose proof (lookup_lt_Some _ _ _ Hbi); unfold zlength; lia|done| |]; cbn [mbind outcome_bind].
  2: { eexists [], _. split_and!; [done|constructor|]. exists i. split; [done|]. by exists h, bi. }
  destruct (mysql c) eqn:Em.
  2: { eexists [], _. split_and!; [done|constructor|]. exists i. split; [done|]. exists h, bi. split_and!; eauto. }
  destruct (IH (fun k => rand (S k))) as (sent & r & E & HF & Hr); [done|intros j Hj; apply Hids; by apply elem_of_cons; right|].
  rewrite E. cbn [mbind outcome_bind]. eexists _, r. split_and!; [done| |].
  - cbn [length take]. constructor; [|done]. exists h, p, c. by split_and!.
  - destruct r as [w|x]; [done|]. destruct Hr as [-> Hl]. split; [done|]. simpl. lia.
Qed.

End complete.

Lemma Ret_pair_inj {A B} (a a' : A) (b b' : B) : Ret (a, b) = Ret (a', b') -> a = a' /\ b = b'.
Proof. by intros [= -> ->]. Qed.

(** Clone 7 is the second of two backends; with all connections open it is told to commit. *)
Definition demo_registered : clone_state (T := hashtable) :=
  CloneState 0 0 0 1 0 (Some (one_entry 7 (Host (str "db2") 3307))) None.

Lemma clones_told_witness :
  exists sent, proxy_backend_clone_complete (fun _ => 0) demo_registered [7] 9 true (snd demo_started) =
      Ret (sent, inr (false, snd demo_started)) /\
    Forall2 (told demo_hosts (one_entry 7 (Host (str "db2") 3307)) (snd demo_started) (commit_message true 9)) [7] sent.
Proof.
  destruct (one_entry_ok 7 (Host (str "db2") 3307)) as [Hok Hm].
  destruct (clones_told demo_options (fun _ => 0) demo_registered (one_entry 7 (Host (str "db2") 3307)) demo_hosts [7] 9 true
    (snd demo_started)) as (sent & r & E & HF & Hr).
  - reflexivity.
  - exact Hok.
  - apply (started_weaken _ demo_hosts 2 2), demo_is_started.
  - intros _. reflexivity.
  - intros i Hi. apply list_elem_of_singleton in Hi as ->. exists (Host (str "db2") 3307).
    split; [rewrite Hm; vm_compute; reflexivity|]. apply elem_of_cons. right. by apply list_elem_of_singleton.
  - assert (Hfst : proxy_backend_clone_complete (fun _ => 0) demo_registered [7] 9 true (snd demo_started) =
      Ret ([(1, 1, commit_message true 9)], inr (false, snd demo_started))) by (vm_compute; reflexivity).
    destruct (Ret_pair_inj _ _ _ _ (eq_trans (eq_sym Hfst) E)) as [<- _]. eexists. split; [exact Hfst|exact HF].
Defined.
