(* ===== verification/Query.v ===== *)
(** * Queries (src/src/proxy_backend.c: [proxy_backend_query], [backend_query_idx],
      [backend_query], [proxy_backend_new_thread])

    What one thread does with a query: the choice of the backends, the command
    sent, the decision of [backend_check_commit] and the packets forwarded to
    the client.  The waits of a replicated query are the transition systems of
    TwoPhase.v and Trans.v: what the other threads add to the bit set and the
    decision of a transaction are arguments of [backend_check_commit], and
    [backend_query] takes the decision as an argument. *)

From S2P Require Import Prelude CString Status TwoPhase Wire Forward Options Pool Hashtable QueryMap.
From S2P Require Import Trans Clone Cmd Net BackendArrays.
Local Open Scope Z_scope.

(** A number of [n] bits is all ones if each of its bits is set. *)
Lemma ones_bits n x : 0 <= n -> 0 <= x < 2 ^ n ->
  x = Z.ones n <-> forall i, 0 <= i < n -> Z.testbit x i = true.
Proof.
  intros Hn Hx. split.
  - intros -> i Hi. by apply Z.ones_spec_low.
  - intros Hall. apply Z.bits_inj'. intros i Hi. destruct (Z.lt_ge_cases i n).
    + rewrite Hall, Z.ones_spec_low by lia. done.
    + rewrite Z.ones_spec_high by lia. destruct (Z.eq_dec x 0) as [->|]; [apply Z.testbit_0_l|].
      apply Z.bits_above_log2; [lia|]. apply Z.log2_lt_pow2; [lia|].
      assert (2 ^ n <= 2 ^ i) by (apply Z.pow_le_mono_r; lia). lia.
Qed.

Lemma lor_range n a b : 0 <= n -> 0 <= a < 2 ^ n -> 0 <= b < 2 ^ n -> 0 <= Z.lor a b < 2 ^ n.
Proof.
  intros Hn Ha Hb. split; [apply Z.lor_nonneg; lia|].
  destruct (Z.eq_dec (Z.lor a b) 0) as [->|Hne]; [lia|].
  assert (0 <= Z.lor a b) by (apply Z.lor_nonneg; lia).
  apply Z.log2_lt_pow2; [lia|]. rewrite Z.log2_lor by lia.
  assert (0 < n).
  { destruct (Z.eq_dec n 0) as [->|]; [|lia]. change (2 ^ 0) with 1 in *.
    assert (a = 0) as -> by lia. assert (b = 0) as -> by lia. done. }
  assert (Hl : forall c, 0 <= c < 2 ^ n -> Z.log2 c < n).
  { intros c Hc. destruct (Z.eq_dec c 0) as [->|]; [done|]. apply Z.log2_lt_pow2; lia. }
  pose proof (Hl a Ha). pose proof (Hl b Hb). lia.
Qed.

(** ** Choice of the backends *)

(** Where a query goes: to the connection of the client, or to all backends. *)
Inductive target :=
| ToAny (query : list Z) (replicated : bool)
| ToAll (query : list Z) (replicated : bool).

(** [proxy_backend_query] up to its switch, with the next transaction
    identifier.  [query] points into the read buffer of the connection: a mapper that
    replaces the query makes the proxy free a pointer that was not allocated. *)
Definition dispatch (o : options_t) (backend_mapper : option proxy_map_query_t) (backend_num : Z)
  (query : list Z) (replicated : bool) (transaction_id : Z) : outcome (target * Z) :=
  '(map, query) ← (match backend_mapper with
                   | None => Ret (QUERY_MAP_ANY, query)
                   | Some f =>
                       let '(map, length, newq) := f query (zlength query) in
                       match newq with
                       | Some _ => Undef
                       | None => Ret (map, take (Z.to_nat length) query)
                       end
                   end);
  let '(query, transaction_id) :=
    if bool_decide (map = QUERY_MAP_ALL) && add_ids o
    then (add_id query transaction_id, u64 (transaction_id + 1))
    else (query, transaction_id) in
  let replicated := if coordinator o then bool_decide (map = QUERY_MAP_ALL) else replicated in
  let map := if backend_num =? 1 then QUERY_MAP_ANY else map in
  Ret (match map with QUERY_MAP_ANY => ToAny query replicated | QUERY_MAP_ALL => ToAll query replicated end,
       transaction_id).

(** ** The decision of one thread

    [backend_check_commit]: TRUE for an error, [needs_commit] and [success].
    [results] is the value of the bit set before the thread adds its bit and [others]
    what the other threads add until it is read again; [trans] is the decision
    of the transaction once all clones have reported, or [None] if the generation
    was taken back. *)
Definition backend_check_commit (o : options_t) (server_id0 server_id1 gen0 gen1 : Z) (bi : Z)
  (commit : option (Z * Z)) (others : Z) (trans : option bool) (success : bool) : outcome (bool * bool * bool) :=
  if cloneable o && negb (server_id1 =? server_id0) then Ret (true, false, success)
  else
    results ← (match commit with
               | Some (r, _) => if (success : bool) then b ← result_bit bi; Ret (Z.lor r b) else Ret r
               | None => Ret 0
               end);
    let '(needs_commit, success) :=
      if gen1 =? gen0 then (false, success)
      else match trans with None => (false, success) | Some d => (true, d) end in
    match commit with
    | Some (_, backends) =>
        if two_pc o then
          m ← full_mask backends;
          Ret (false, true, success && (Z.lor results others =? m))
        else Ret (false, needs_commit, success)
    | None => Ret (false, needs_commit, success)
    end.

(** The decision of a thread.  In a two-phase commit that no cloning operation
    interrupts, a thread commits exactly when its own backend succeeded and the
    bits of all backends are set; the bit set is that of [n] backends, of which
    there are at most 30. *)
Theorem check_commit_all o n bi r others (success : bool) sid gen :
  two_pc o = true -> 1 <= n <= 30 -> 0 <= bi < n -> 0 <= r < 2 ^ n -> 0 <= others < 2 ^ n ->
  exists d, backend_check_commit o sid sid gen gen bi (Some (r, n)) others None success = Ret (false, true, d) /\
    (d = true <-> success = true /\
       forall i, 0 <= i < n -> i = bi \/ Z.testbit r i = true \/ Z.testbit others i = true).
Proof.
  intros Hpc Hn Hbi Hr Ho. unfold backend_check_commit. rewrite !Z.eqb_refl, andb_false_r, Hpc.
  rewrite full_mask_ones by done. destruct success; cbn [mbind outcome_bind andb].
  - rewrite result_bit_pow by lia. cbn [mbind outcome_bind]. eexists. split; [done|].
    rewrite Z.eqb_eq. rewrite (ones_bits n) by (lia || (apply lor_range; [lia|apply lor_range; [lia|done|]|done]; split;
      [apply Z.pow_nonneg; lia|apply Z.pow_lt_mono_r; lia])).
    split.
    + intros Hall. split; [done|]. intros i Hi. specialize (Hall i Hi). rewrite !Z.lor_spec, !orb_true_iff in Hall.
      rewrite Z.pow2_bits_eqb in Hall by lia. destruct Hall as [[?|?%Z.eqb_eq]|?]; auto.
    + intros [_ Hall] i Hi. rewrite !Z.lor_spec, !orb_true_iff, Z.pow2_bits_eqb by lia.
      destruct (Hall i Hi) as [->|[?|?]]; rewrite ?Z.eqb_refl; auto.
  - eexists. split; [done|]. naive_solver.
Qed.

Lemma check_commit_all_witness :
  exists d, backend_check_commit (set_two_pc true set_option_defaults) 0 0 0 0 1 (Some (1, 3)) 4 None true =
    Ret (false, true, d) /\ d = true.
Proof.
  destruct (check_commit_all (set_two_pc true set_option_defaults) 3 1 1 4 true 0 0) as (d & E & Hd);
    [reflexivity|lia|lia|lia|lia|].
  exists d. split; [exact E|]. apply Hd. split; [reflexivity|]. intros i Hi.
  assert (i = 0 \/ i = 1 \/ i = 2) as [->|[->| ->]] by lia; auto.
Defined.

(** ** A query on one backend *)

(** Commands sent to a backend, with the query. *)
Record qstate := QState { q_fwd : fwd; q_sent : list (Z * list Z) }.

Definition set_fwd (f : fwd) (s : qstate) : qstate := QState f (q_sent s).
Definition send (c : Z) (q : list Z) (s : qstate) : qstate := QState (q_fwd s) (q_sent s ++ [(c, q)]).
Definition set_px (m : option MYSQL) (f : fwd) : fwd := Fwd (be f) m (st f).

Section backend_query.
Context `{Protocol}.
Variable o : options_t.
Variable COM_END : Z.
Variable er_code : er -> Z.

(** The packets that [mysql_real_query] reads. *)
Variable real_query : list Z -> backend -> backend.

(** The bytes behind a packet in the read buffer, and [field_count] of the
    object of the connection. *)
Variable after : list Z.
Variable field_count : nat.

(** [backend_check_commit]: TRUE for an error, [needs_commit] and [success]. *)
Variable check_commit : bool -> bool * bool * bool.

(** [server_id] at the start and at the end of the query. *)
Variable server_id0 server_id1 : Z.

(** The end of a two-phase commit. *)
Definition commit_reply (success : bool) (warnings affected_rows insert_id : Z) (s : qstate) : bool * qstate :=
  let f := q_fwd s in
  let '(error, m) :=
    match px f with
    | None => (false, None)
    | Some m =>
        let '(e, m) :=
          if success then proxy_net_send_ok m warnings affected_rows insert_id
          else proxy_net_send_error m (er_code ER_ERROR_DURING_COMMIT) (str "Couldn't commit transaction") in
        (e, Some m)
    end in
  let q := if success then str "COMMIT" else str "ROLLBACK" in
  (error, send COM_QUERY q (set_fwd (Fwd (real_query q (be f)) m (st f)) s)).

(** The results of a query that is not committed here. *)
Definition forward_reply (success : bool) (pkt_len : Z) (f : fwd) : outcome (bool * fwd) :=
  let '(error, f) := backend_proxy_write f pkt_len in
  let f := flush f in
  if negb success then Ret (error, f)
  else
    '(n, pos) ← net_field_length (read_pos (be f) ++ after);
    let f := Fwd (Backend (b_vio (be f)) (reads (be f)) pos) (px f) (st f) in
    if n =? 0 then Ret (error, f)
    else
      '(e, f) ← backend_read_rows f 7;
      if (e : bool) then Ret (true, f)
      else
        '(e, f) ← backend_read_rows f field_count;
        if (e : bool) then Ret (true, f) else Ret (error, f).

(** The reply of the backend. *)
Definition query_reply (replicated commit : bool) (s : qstate) : outcome (bool * qstate) :=
  let '(pkt_len, f) := backend_read_to_proxy (set_px None (q_fwd s)) in
  let f := set_px (px (q_fwd s)) f in
  '(warnings, affected_rows, insert_id) ← (
    match px f with
    | Some _ =>
        if commit && two_pc o then
          '(_, rows, id, _, w) ← read_ok_header (read_pos (be f) ++ after);
          Ret (w, rows, id)
        else Ret (0, 0, 0)
    | None => Ret (0, 0, 0)
    end);
  if pkt_len =? packet_error then Ret (true, set_fwd f s)
  else
    c ← aget (read_pos (be f)) 0;
    let success := negb (c =? 255) in
    if replicated && two_pc o && (negb (cloneable o) || negb (server_id1 =? 0)) then
      let '(e, needs_commit, success) := check_commit success in
      if e then Ret (true, set_fwd f s)
      else if needs_commit then
        Ret (commit_reply success warnings affected_rows insert_id (set_fwd f s))
      else '(e, f) ← forward_reply success pkt_len f; Ret (e, set_fwd f s)
    else
      let f := if server_id1 =? server_id0 then f else set_px None f in
      '(e, f) ← forward_reply success pkt_len f; Ret (e, set_fwd f s).

(** [backend_query]: the error, the connection (freed at the end when it is
    marked) and the state. *)
Definition backend_query (c : conn) (query : list Z) (replicated commit : bool) (s : qstate)
  : outcome (bool * option conn * qstate) :=
  let close := fun c : conn => if freed c then None else Some c in
  if negb (mysql c) then Ret (true, close c, s)
  else
    let cmd := if replicated && coordinator o then COM_PROXY_QUERY COM_END else COM_QUERY in
    '(e, s) ← query_reply replicated commit (send cmd query s);
    Ret (e, close c, s).

(** [backend_conns[bi][ci]]. *)
Definition conn_at (bi ci : Z) (arr : backend_state) : outcome conn :=
  cs ← nonnull (backend_conns arr); row ← aget cs bi; row ← nonnull row; aget row ci.

(** A query for one backend: [backend_query_idx] takes the connection from the
    arrays, without commit data.  [proxy_backend_query] reports no error. *)
Definition backend_query_idx (bi ci : Z) (query : list Z) (replicated : bool) (arr : backend_state) (s : qstate)
  : outcome (bool * qstate) :=
  c ← conn_at bi ci arr;
  '(e, _, s) ← backend_query c query replicated false s;
  Ret (e, s).

Definition query_any (idx : conn_idx) (query : list Z) (replicated : bool) (arr : backend_state) (s : qstate)
  : outcome (bool * qstate) :=
  let f := q_fwd s in
  '(_, s) ← backend_query_idx (bi idx) (ci idx) query replicated arr (set_fwd (Fwd (be f) (px f) (inc_any (st f))) s);
  Ret (false, s).

(** ** Transparency *)

(** The replies of a backend: an error, an OK packet, or a result set of fields and
    rows, each ended by a marker. *)
Inductive response : list (list Z) -> Prop :=
| response_error p : accepted p = true -> hd0 p = 255 -> response [p]
| response_ok p r :
    accepted p = true -> hd0 p <> 255 -> net_field_length (p ++ after) = Ret (0, r) -> response [p]
| response_rows p n r fields e1 rows e2 :
    accepted p = true -> hd0 p <> 255 -> net_field_length (p ++ after) = Ret (n, r) -> n <> 0 ->
    Forall (row_ok 7) fields -> accepted e1 = true -> is_eof e1 = true ->
    Forall (row_ok field_count) rows -> accepted e2 = true -> is_eof e2 = true ->
    response (p :: (fields ++ [e1]) ++ (rows ++ [e2])).

Lemma response_head ps : response ps -> exists p l, ps = p :: l /\ accepted p = true.
Proof. destruct 1; eauto. Qed.

(** The first packet is at [read_pos], the others are to come. *)
Lemma reply_forward b m st p l rest :
  response (p :: l) -> good m -> b_vio b = true -> read_pos b = p -> reads b = (Some <$> l) ++ rest ->
  exists f, forward_reply (negb (hd0 p =? 255)) (zlength p) (Fwd b (Some m) st) = Ret (false, f) /\
    forwarded (p :: l) (Fwd (Backend true (Some p :: reads b) []) (Some m) st) f.
Proof.
  intros Hresp Hg Hv Hp Hr. unfold forward_reply.
  destruct (write_forward b m st p Hg Hp) as (m' & -> & Hvm' & Hw'). pose proof (proj1 Hvm') as Hg'.
  assert (H1 : forwarded [p] (Fwd (Backend true (Some p :: reads b) []) (Some m) st)
                 (flush (Fwd b (Some m') (add_sent (zlength p) st)))).
  { change [p] with ([p] ++ []). eapply forwarded_trans; [|by apply flush_forwarded]. by split; simpl; rewrite ?Hv. }
  remember (flush (Fwd b (Some m') (add_sent (zlength p) st))) as f eqn:Ef.
  assert (Hpx : px f <> None).
  { rewrite Ef. unfold flush, proxy_net_flush. simpl. by destruct (net_do CFlush m'). }
  assert (Hbe : be f = b) by by rewrite Ef. rewrite Hbe.
  inversion Hresp as [p' Ha H255|p' r Ha H255 Hlen|p' n r fields e1 rows e2 Ha H255 Hlen Hn Hf Ha1 He1 Hrow Ha2 He2]; subst p' l.
  - rewrite H255. simpl. eauto.
  - destruct (Z.eqb_spec (hd0 p) 255); [done|]. simpl. rewrite Hp, Hlen. simpl. eexists. split; [done|].
    destruct H1 as [[? ?] ? ?]. by split; simpl in *; rewrite <-?Hbe.
  - destruct (Z.eqb_spec (hd0 p) 255); [done|]. simpl. rewrite Hp, Hlen. cbn [mbind outcome_bind].
    destruct (Z.eqb_spec n 0); [done|].
    set (f1 := Fwd (Backend (b_vio b) (reads b) r) (px f) (Forward.st f)).
    assert (Hf1 : forwarded [p] (Fwd (Backend true (Some p :: reads b) []) (Some m) st) f1).
    { destruct H1 as [[? ?] ? ?]. rewrite Hbe in *. by split. }
    destruct (read_rows_forward 7 fields e1 ((Some <$> rows ++ [e2]) ++ rest) f1) as (f2 & -> & Hf2);
      [by eapply forwarded_good|done|done| |done..|].
    { simpl. rewrite Hr, fmap_app, <-!app_assoc. done. }
    cbn [mbind outcome_bind].
    assert (Hr2 : reads (be f2) = (Some <$> rows ++ [e2]) ++ rest).
    { pose proof (f_reads _ _ _ Hf2) as [_ E]. simpl in E. rewrite Hr, fmap_app, <-!app_assoc in E.
      by apply app_inv_head in E. }
    destruct (read_rows_forward field_count rows e2 rest f2) as (f3 & -> & Hf3); [by eapply forwarded_good| | | |done..|].
    + by rewrite <-(forwarded_px _ _ _ Hf2).
    + rewrite (proj1 (f_reads _ _ _ Hf2)). done.
    + done.
    + cbn [mbind outcome_bind]. eexists. split; [done|].
      change (p :: (fields ++ [e1]) ++ rows ++ [e2]) with ([p] ++ (fields ++ [e1]) ++ rows ++ [e2]).
      eapply forwarded_trans; [done|]. by eapply forwarded_trans.
Qed.

(** The connection after a query. *)
Definition after_query (c : conn) : option conn := if freed c then None else Some c.

(** A query whose reply is forwarded. *)
Lemma query_forwards c query replicated commit ps rest m s :
  two_pc o = false \/ (replicated = false /\ commit = false) -> server_id1 = server_id0 ->
  mysql c = true -> px (q_fwd s) = Some m -> good m -> b_vio (be (q_fwd s)) = true ->
  response ps -> reads (be (q_fwd s)) = (Some <$> ps) ++ rest ->
  exists s', backend_query c query replicated commit s = Ret (false, after_query c, s') /\
    forwarded ps (q_fwd s) (q_fwd s') /\ reads (be (q_fwd s')) = rest /\
    q_sent s' = q_sent s ++ [(if replicated && coordinator o then COM_PROXY_QUERY COM_END else COM_QUERY, query)].
Proof.
  intros Hpc Hid Hc Hpx Hg Hv Hresp Hr. destruct (response_head _ Hresp) as (p & l & -> & Ha).
  destruct s as [[b px0 st0] sent]. simpl in *. subst px0. unfold backend_query, query_reply. rewrite Hc. simpl.
  unfold set_px at 1. simpl. rewrite (read_no_client b st0 p ((Some <$> l) ++ rest)) by done.
  assert (commit && two_pc o = false) as -> by (destruct Hpc as [->|[_ ->]]; [by rewrite andb_false_r|done]).
  assert (replicated && two_pc o = false) as -> by (destruct Hpc as [->|[-> _]]; [by rewrite andb_false_r|done]).
  cbn [mbind outcome_bind px be read_pos set_px]. rewrite accepted_length by done.
  rewrite (accepted_head p Ha). cbn [mbind outcome_bind andb].
  rewrite (proj2 (Z.eqb_eq server_id1 server_id0) Hid).
  destruct (reply_forward (Backend true ((Some <$> l) ++ rest) p) m st0 p l rest) as (f & E & Hf); try done.
  unfold set_px. cbn [be px Forward.st]. rewrite E. cbn [mbind outcome_bind]. eexists. split; [done|]. simpl.
  pose proof (f_reads _ _ _ Hf) as [Hv' Hr']. simpl in Hr'. injection Hr' as Hr'. apply app_inv_head in Hr'.
  split; [|done]. destruct Hf as [[? ?] ? ?]. split; simpl in *; [|done..]. rewrite Hr, Hv. done.
Qed.

(** C6: a query is transparent.  When no commit is to be decided on (no two-phase
    commit, or a query that is not replicated), [backend_query] sends the query
    unchanged as one command, and forwards the whole reply, an error, an OK packet
    or a result set, to the client packet by packet and in order, reads
    nothing behind it, and reports no error. *)
Theorem query_transparent c query replicated commit ps rest m s :
  two_pc o = false \/ (replicated = false /\ commit = false) -> server_id1 = server_id0 ->
  mysql c = true -> px (q_fwd s) = Some m -> good m -> b_vio (be (q_fwd s)) = true ->
  response ps -> reads (be (q_fwd s)) = (Some <$> ps) ++ rest ->
  exists s', backend_query c query replicated commit s = Ret (false, after_query c, s') /\
    forwarded ps (q_fwd s) (q_fwd s') /\ reads (be (q_fwd s')) = rest /\
    q_sent s' = q_sent s ++ [(if replicated && coordinator o then COM_PROXY_QUERY COM_END else COM_QUERY, query)].
Proof. apply query_forwards. Qed.

(** A thread that is told to commit or to roll back, after any reply of its backend.  The header of the
    reply is read for the client only. *)
Lemma query_committed c query p rest s (d : bool) fc rows id srv warnings :
  two_pc o = true -> (cloneable o = false \/ server_id1 <> 0) -> check_commit (negb (hd0 p =? 255)) = (false, true, d) ->
  mysql c = true -> b_vio (be (q_fwd s)) = true -> accepted p = true -> reads (be (q_fwd s)) = Some p :: rest ->
  match px (q_fwd s) with
  | Some m => good m /\ vio m = true /\ read_ok_header (p ++ after) = Ret (fc, rows, id, srv, warnings)
  | None => True
  end ->
  exists s', backend_query c query true true s = Ret (false, after_query c, s') /\
    q_sent s' = q_sent s ++ [(if coordinator o then COM_PROXY_QUERY COM_END else COM_QUERY, query);
                             (COM_QUERY, if d then str "COMMIT" else str "ROLLBACK")] /\
    match px (q_fwd s), px (q_fwd s') with
    | Some m, Some m' =>
        written m' = written m ++ [if d then ok_packet m warnings rows id
                                   else 255 :: error_packet (er_code ER_ERROR_DURING_COMMIT) (str "Couldn't commit transaction")]
    | None, None => True
    | _, _ => False
    end.
Proof.
  intros Hpc Hcl Hd Hc Hv Ha Hr Hpx. destruct s as [[b px0 st0] sent]. simpl in *. unfold backend_query, query_reply. rewrite Hc. simpl.
  unfold set_px at 1. simpl. rewrite (read_no_client b st0 p rest) by done. rewrite Hpc. cbn [mbind outcome_bind px be read_pos set_px andb].
  assert (negb (cloneable o) || negb (server_id1 =? 0) = true) as ->.
  { destruct Hcl as [->|Hne]; [done|]. apply Z.eqb_neq in Hne. by rewrite Hne, orb_true_r. }
  destruct px0 as [m|].
  - destruct Hpx as (Hg & Hvio & ->). cbn [mbind outcome_bind]. rewrite accepted_length, (accepted_head p Ha) by done. cbn [mbind outcome_bind].
    rewrite Hd. unfold commit_reply. cbn [px q_fwd set_fwd be set_px]. destruct d.
    + destruct (send_ok_good m warnings rows id Hg) as (m' & E & _ & Hw'). rewrite E.
      eexists. split_and!; [done| |done]. simpl. by rewrite <-app_assoc.
    + destruct (send_error_good m (er_code ER_ERROR_DURING_COMMIT) (str "Couldn't commit transaction") Hg Hvio)
        as (m' & E & _ & Hw'). rewrite E. eexists. split_and!; [done| |done]. simpl. by rewrite <-app_assoc.
  - cbn [mbind outcome_bind]. rewrite accepted_length, (accepted_head p Ha) by done. cbn [mbind outcome_bind].
    rewrite Hd. unfold commit_reply. cbn [px q_fwd set_fwd be set_px].
    destruct d; eexists; (split; [done|]); (split; [|done]); simpl; by rewrite <-app_assoc.
Qed.

Context `{!ProtocolLaws}.

Lemma read_ok_after m0 warnings rows id rest :
  0 <= warnings <= 65535 -> 0 <= rows < 2 ^ 64 -> 0 <= id < 2 ^ 64 ->
  read_ok_header (ok_packet m0 warnings rows id ++ rest) = Ret (0, rows, id, server_status m0 mod 2 ^ 16, warnings).
Proof.
  intros Hw Hr Hi. unfold read_ok_header, ok_packet. rewrite <-(store_length_small 0) by lia. rewrite <-!app_assoc.
  rewrite field_length_ll_store by lia. simpl. rewrite field_length_ll_store by lia. simpl.
  rewrite field_length_ll_store by lia. simpl. rewrite uint2korr_store. simpl.
  rewrite drop_app_length' by (by rewrite int2store_length). rewrite uint2korr_store. simpl.
  rewrite Z.min_l, (Z.mod_small warnings) by lia. done.
Qed.

(** The answer after a two-phase commit.  When all backends agree to commit,
    the client gets an OK packet with the counts of the reply of its own backend
    (affected rows, insert id, warnings), and the backend gets COMMIT after the
    query; otherwise the client gets an error packet and the backend ROLLBACK. *)
Theorem commit_answer c query m0 warnings rows id rest m s (d : bool) :
  two_pc o = true -> (cloneable o = false \/ server_id1 <> 0) -> check_commit true = (false, true, d) ->
  0 <= warnings <= 65535 -> 0 <= rows < 2 ^ 64 -> 0 <= id < 2 ^ 64 ->
  mysql c = true -> px (q_fwd s) = Some m -> good m -> vio m = true -> b_vio (be (q_fwd s)) = true ->
  let p := ok_packet m0 warnings rows id in
  accepted p = true -> reads (be (q_fwd s)) = Some p :: rest ->
  exists s' m', backend_query c query true true s = Ret (false, after_query c, s') /\
    q_sent s' = q_sent s ++ [(if coordinator o then COM_PROXY_QUERY COM_END else COM_QUERY, query);
                             (COM_QUERY, if d then str "COMMIT" else str "ROLLBACK")] /\
    px (q_fwd s') = Some m' /\
    written m' = written m ++ [if d then ok_packet m warnings rows id
                               else 255 :: error_packet (er_code ER_ERROR_DURING_COMMIT) (str "Couldn't commit transaction")].
Proof.
  intros Hpc Hcl Hd Hw Hrows Hi Hc Hpx Hg Hvio Hv p Ha Hr.
  destruct (query_committed c query p rest s d 0 rows id (server_status m0 mod 2 ^ 16) warnings) as (s' & E & Hs & Hpx'); try done.
  { rewrite Hpx. split_and!; [done|done|]. by apply read_ok_after. }
  rewrite Hpx in Hpx'. destruct (px (q_fwd s')) as [m'|] eqn:E'; [|done]. by exists s', m'.
Qed.

End backend_query.

(** C12: where a query goes.  With the read-one-write-all mapper and more than one
    backend, exactly the queries that begin with a read keyword go to the
    connection of the client, unchanged; every other query goes to all backends,
    and when identifiers are added it carries the current transaction
    identifier, which the backends read back from it; the next identifier is the
    next number.  With one backend every query goes to it.  This holds for every
    proxy; a coordinator marks exactly the queries that are no reads as replicated, any other
    proxy keeps the mark that came with the query. *)
Theorem dispatch_rowa o n query replicated id :
  NUL ∉ query -> 0 <= id < LONG_MAX ->
  let write := negb (is_read query) in
  let query' := if write && add_ids o then add_id query id else query in
  let replicated' := if coordinator o then write else replicated in
  dispatch o (Some proxy_map_query) n query replicated id =
    Ret (if write && negb (n =? 1) then ToAll query' replicated' else ToAny query' replicated',
         if write && add_ids o then id + 1 else id) /\
  (write && add_ids o = true -> id_from_query query' = id).
Proof.
  intros Hq Hid write query' replicated'. unfold dispatch. rewrite rowa_map by done. split.
  - unfold zlength. rewrite Nat2Z.id, take_ge by done. cbn [mbind outcome_bind].
    assert (u64 (id + 1) = id + 1) as -> by (apply wrap_small; unfold LONG_MAX in *; lia).
    unfold query', replicated', write. destruct (is_read query), (add_ids o), (n =? 1), (coordinator o); done.
  - intros Hw. unfold query'. rewrite Hw. apply add_id_read. lia.
Qed.

(** Two backends, a mapper and identifiers. *)
Definition demo_coordinator : options_t := set_add_ids true (set_coordinator true set_option_defaults).

Lemma dispatch_rowa_witness :
  dispatch demo_coordinator (Some proxy_map_query) 2 (str "UPDATE t SET a=1") false 7 =
    Ret (ToAll (str "UPDATE t SET a=1-- 7") true, 8) /\ id_from_query (str "UPDATE t SET a=1-- 7") = 7 /\
  dispatch set_option_defaults (Some proxy_map_query) 2 (str "UPDATE t SET a=1") false 7 =
    Ret (ToAll (str "UPDATE t SET a=1") false, 7).
Proof.
  assert (Hn : NUL ∉ str "UPDATE t SET a=1") by (apply no_NUL; vm_compute; reflexivity).
  destruct (dispatch_rowa demo_coordinator 2 (str "UPDATE t SET a=1") false 7 Hn ltac:(unfold LONG_MAX; lia)) as [E H].
  split; [exact E|]. split; [apply H; reflexivity|].
  apply (dispatch_rowa set_option_defaults 2 (str "UPDATE t SET a=1") false 7 Hn). unfold LONG_MAX. lia.
Defined.

Import Encoding.

(** A result set of one field and two rows, followed by something else. *)
Definition demo_reply : list (list Z) :=
  [1] :: ([row_of [str "def"; []; str "t"; str "t"; str "a"; str "a"; str "x"]] ++ [eof_packet]) ++ (demo_rows ++ [eof_packet]).
Definition demo_query (ps : list (list Z)) : qstate := QState (demo ps) [].
Definition demo_backend_query (o : options_t) (check : bool -> bool * bool * bool) :=
  backend_query o 30 (fun _ => 1180) (fun _ b => b) [] 2 check 0 0.

Lemma query_transparent_witness :
  exists s', demo_backend_query set_option_defaults (fun b => (false, false, b)) (Conn true false) (str "SELECT 1")
      false false (demo_query (demo_reply ++ [[7]])) = Ret (false, Some (Conn true false), s') /\
    forwarded demo_reply (demo (demo_reply ++ [[7]])) (q_fwd s') /\ reads (be (q_fwd s')) = [Some [7]] /\
    q_sent s' = [(COM_QUERY, str "SELECT 1")].
Proof.
  apply (query_transparent set_option_defaults 30 (fun _ => 1180) (fun _ b => b) [] 2 (fun b => (false, false, b)) 0 0
    (Conn true false) (str "SELECT 1") false false demo_reply [Some [7]] fresh (demo_query (demo_reply ++ [[7]]))).
  - left. reflexivity.
  - reflexivity.
  - reflexivity.
  - reflexivity.
  - reflexivity.
  - reflexivity.
  - apply (response_rows [] 2 [1] 1 [] [row_of [str "def"; []; str "t"; str "t"; str "a"; str "a"; str "x"]] eof_packet
      demo_rows eof_packet);
      [vm_compute; reflexivity|vm_compute; discriminate|vm_compute; reflexivity|discriminate
      |repeat constructor; vm_compute; reflexivity|vm_compute; reflexivity|vm_compute; reflexivity
      |repeat constructor; vm_compute; reflexivity|vm_compute; reflexivity|vm_compute; reflexivity].
  - reflexivity.
Defined.

Lemma commit_answer_witness :
  exists s' m', demo_backend_query (set_two_pc true set_option_defaults) (fun b => (false, true, b)) (Conn true false)
      (str "UPDATE t SET a=1") true true (demo_query [ok_packet fresh 0 3 9]) =
    Ret (false, Some (Conn true false), s') /\
    q_sent s' = [(COM_QUERY, str "UPDATE t SET a=1"); (COM_QUERY, str "COMMIT")] /\
    px (q_fwd s') = Some m' /\ written m' = [ok_packet fresh 0 3 9].
Proof.
  apply (commit_answer (set_two_pc true set_option_defaults) 30 (fun _ => 1180) (fun _ b => b) [] 2
    (fun b => (false, true, b)) 0 0 (Conn true false) (str "UPDATE t SET a=1") fresh 0 3 9 [] fresh
    (demo_query [ok_packet fresh 0 3 9]) true); try reflexivity; try lia.
  left. reflexivity.
Defined.
