(* ===== verification/Replicated.v ===== *)
(** * A replicated query on all backends
      (src/src/proxy_backend.c: [proxy_backend_query], [backend_query], [backend_check_commit])

    TwoPhase.v has the threads of a query with their synchronisation and none of the data;
    Query.v has what one thread does with the packets, and leaves the decision open.  Here the two are
    put together: the decision that a thread takes in a reachable state of the threads is that of
    [backend_check_commit], and with it every backend is told to commit, or every backend is
    told to roll back. *)

From S2P Require Import Prelude CString Status Wire Forward Options Pool Hashtable.
From S2P Require Import Trans Clone Cmd Net BackendArrays Query TwoPhase.
Local Open Scope Z_scope.

Section replicated.
Context `{Protocol}.
Variable o : options_t.
Variable COM_END : Z.
Variable er_code : er -> Z.
Variable real_query : list Z -> backend -> backend.
Variable after : list Z.
Variable field_count : nat.

(** The backends, the value of [rand() % backend_num], the server identifier and the generation, which do not
    change during the query. *)
Variable n start : nat.
Variable sid gen : Z.
Hypothesis some_backends : (1 <= n <= 30)%nat.
Hypothesis two_phase : two_pc o = true.
Hypothesis not_master : cloneable o = false \/ sid <> 0.

(** The first packet of the reply of each backend; [None] for a read error. *)
Variable reply : nat -> option (list Z).

Definition success (i : nat) : bool := match reply i with Some p => negb (hd0 p =? 255) | None => false end.

(** The threads read these replies. *)
Definition consistent (s : TwoPhase.state) : Prop :=
  forall i q, wk s !! i = Some q ->
    match heard q with Some ok => ok = success i | None => has_arrived q = true -> reply i = None end.

(** What thread [i] gets from [backend_check_commit] when the results are [r]. *)
Definition check_commit (i : nat) (r : Z) (ok : bool) : bool * bool * bool :=
  match backend_check_commit o sid sid gen gen (Z.of_nat i) (Some (r, Z.of_nat n)) 0 None ok with
  | Ret x => x
  | Undef => (true, false, ok)
  end.

Local Abbreviation reachable := (TwoPhase.reachable n true start).
Local Abbreviation query_on i r :=
  (backend_query o COM_END er_code real_query after field_count (check_commit i r) sid sid).

(** A thread that arrived recorded the reply of its backend. *)
Lemma arrived_recorded s i q :
  inv n true start s -> consistent s -> wk s !! i = Some q -> has_arrived q = true -> rec_ok q = success i.
Proof.
  intros Hi Hc Hq Ha. specialize (Hc i q Hq). pose proof (i_mode _ _ _ _ Hi i q Hq) as Hm.
  destruct q; simpl in *; try done; unfold success; by rewrite Hc.
Qed.

(** Past the barrier the bit set is complete exactly if all backends succeeded. *)
Lemma results_complete s i q :
  reachable s -> consistent s -> wk s !! i = Some q -> past q = true ->
  (TwoPhase.results (sh s) =? Z.ones (Z.of_nat n)) = forallb success (seq 0 n).
Proof.
  intros Hr Hc Hq Hp. pose proof (reachable_inv n true start some_backends s Hr) as Hi.
  pose proof (proj1 (released_all _ _ _ _ Hi (i_past _ _ _ _ Hi i q Hq Hp))) as Hall. pose proof (i_len _ _ _ _ Hi) as Hl.
  rewrite (full_iff n _ (wk s) Hl (i_bits _ _ _ _ Hi)). apply eq_true_iff_eq. rewrite !forallb_elem. split.
  - intros Hrec k j Hk. apply lookup_seq in Hk as [-> Hk]. cbn. destruct (lookup_lt_is_Some_2 (wk s) k) as [p Hp']; [lia|].
    rewrite <- (arrived_recorded s k p Hi Hc Hp' (Hall k p Hp')). by eapply Hrec.
  - intros Hs k p Hk. rewrite (arrived_recorded s k p Hi Hc Hk (Hall k p Hk)). apply (Hs k).
    apply lookup_seq. pose proof (lookup_lt_Some _ _ _ Hk). lia.
Qed.

(** The decision of [backend_check_commit] is the one of the transition system, and is the same
    for all threads. *)
Lemma decision_is s i ok :
  reachable s -> consistent s -> wk s !! i = Some (WDecide ok) ->
  check_commit i (TwoPhase.results (sh s)) ok = (false, true, forallb success (seq 0 n)) /\
  ok && (TwoPhase.results (sh s) =? Z.ones (Z.of_nat n)) = forallb success (seq 0 n).
Proof.
  intros Hr Hc Hw. pose proof (reachable_inv n true start some_backends s Hr) as Hi.
  pose proof (results_complete s i _ Hr Hc Hw eq_refl) as Hres. pose proof (i_len _ _ _ _ Hi) as Hl.
  pose proof (lookup_lt_Some _ _ _ Hw) as Hlt. pose proof (Hc i _ Hw) as Hok. cbn in Hok.
  assert (ok && (TwoPhase.results (sh s) =? Z.ones (Z.of_nat n)) = forallb success (seq 0 n)) as E.
  { rewrite Hres, Hok. destruct (forallb success (seq 0 n)) eqn:Ef; [|by rewrite andb_false_r].
    rewrite andb_true_r. apply (proj1 (forallb_elem _ _) Ef i). apply lookup_seq. lia. }
  split; [|done]. unfold check_commit, backend_check_commit. rewrite !Z.eqb_refl, andb_false_r, two_phase.
  destruct (i_bits _ _ _ _ Hi) as [_ Hbit]. specialize (Hbit i). rewrite Hw in Hbit. cbn in Hbit.
  destruct ok; cbn [mbind outcome_bind].
  - rewrite result_bit_pow by lia. cbn [mbind outcome_bind]. rewrite full_mask_ones by lia. cbn [mbind outcome_bind].
    rewrite Z.lor_0_r. replace (Z.lor (TwoPhase.results (sh s)) (2 ^ Z.of_nat i)) with (TwoPhase.results (sh s)); [by rewrite E|].
    apply Z.bits_inj'. intros k Hk. rewrite Z.lor_spec, Z.pow2_bits_eqb by lia.
    destruct (Z.eqb_spec (Z.of_nat i) k) as [<-|]; [by rewrite Hbit|by rewrite orb_false_r].
  - rewrite full_mask_ones by lia. cbn [mbind outcome_bind]. cbn [andb] in E |- *. by rewrite E.
Qed.

(** C3: a replicated query is committed on all backends or on none, while the client thread is
    still in the query.  In a reachable state of the threads of a two-phase commit in which it is, a
    thread that is past the barrier takes the decision that all backends have succeeded, or not; running
    the code of that thread with it, its backend gets the query and then COMMIT in the first
    case, ROLLBACK in the second, whatever this backend itself replied.  (Once the client thread has
    left, the results the threads read are gone: [dangling_results_disagree] of TwoPhase.v.)  The thread with the client
    connection sends an OK packet with the counts of its backend, or an error; the others send nothing. *)
Theorem commit_everywhere s i ok c query p rest qs fc rows id srv warnings :
  reachable s -> live (disp s) = true -> wk s !! i = Some (WDecide ok) -> consistent s ->
  reply i = Some p -> accepted p = true -> mysql c = true -> b_vio (be (q_fwd qs)) = true -> reads (be (q_fwd qs)) = Some p :: rest ->
  match px (q_fwd qs) with
  | Some m => good m /\ vio m = true /\ read_ok_header (p ++ after) = Ret (fc, rows, id, srv, warnings)
  | None => True
  end ->
  let d := forallb success (seq 0 n) in
  TwoPhase.step n true start s (State (sh s) (disp s) (<[i := WReply ok d]> (wk s))) /\
  exists qs', query_on i (TwoPhase.results (sh s)) c query true true qs = Ret (false, after_query c, qs') /\
    q_sent qs' = q_sent qs ++ [(if coordinator o then COM_PROXY_QUERY COM_END else COM_QUERY, query);
                               (COM_QUERY, if d then str "COMMIT" else str "ROLLBACK")] /\
    match px (q_fwd qs), px (q_fwd qs') with
    | Some m, Some m' =>
        written m' = written m ++ [if d then ok_packet m warnings rows id
                                   else 255 :: error_packet (er_code ER_ERROR_DURING_COMMIT) (str "Couldn't commit transaction")]
    | None, None => True
    | _, _ => False
    end.
Proof.
  intros Hr Hlv Hw Hc Hp Ha Hm Hv Hrd Hpx d. destruct (decision_is s i ok Hr Hc Hw) as [Hd E]. fold d in Hd, E. split.
  - destruct s as [sh0 d0 w0]. apply s_worker with (WDecide ok); [exact Hw|]. rewrite <- E. cbn [sh disp] in *. rewrite Hlv.
    apply w_decide; [done|]. apply full_mask_ones. lia.
  - apply (query_committed o COM_END er_code real_query after field_count (check_commit i (TwoPhase.results (sh s))) sid sid
      c query p rest qs d fc rows id srv warnings); try done.
    pose proof (Hc i _ Hw) as Hok. cbn in Hok. unfold success in Hok. rewrite Hp in Hok. by rewrite <- Hok.
Qed.

End replicated.

Import Encoding.

(** Two backends reply with different counts; the threads have passed the barrier. *)
Definition demo_ok_reply (i : nat) : option (list Z) :=
  match i with O => Some (ok_packet fresh 0 1 4) | 1%nat => Some (ok_packet fresh 0 3 9) | _ => None end.
Definition decided : TwoPhase.state := end_of true (both_wait ++ [w_ok 1; w_ok 0]).

Lemma decided_consistent : consistent demo_ok_reply decided.
Proof.
  intros i q Hq. assert (wk decided = [WDecide true; WDecide true]) as E by (vm_compute; reflexivity).
  rewrite E in Hq. destruct i as [|[|i]]; [injection Hq as <-..|discriminate]; vm_compute; reflexivity.
Qed.

Lemma commit_everywhere_witness :
  exists qs', backend_query (set_two_pc true set_option_defaults) 30 (fun _ => 1180) (fun _ b => b) [] 2
      (check_commit (set_two_pc true set_option_defaults) 2 0 0 1 (TwoPhase.results (sh decided))) 0 0
      (Conn true false) (str "UPDATE t SET a=1") true true (demo_query [ok_packet fresh 0 3 9]) =
        Ret (false, Some (Conn true false), qs') /\
    q_sent qs' = [(COM_QUERY, str "UPDATE t SET a=1"); (COM_QUERY, str "COMMIT")] /\
    match px (q_fwd qs') with Some m => written m = [ok_packet fresh 0 3 9] | None => False end.
Proof.
  refine (proj2 (commit_everywhere (set_two_pc true set_option_defaults) 30 (fun _ => 1180) (fun _ b => b) [] 2
    2 0 0 0 ltac:(lia) eq_refl (or_introl eq_refl) demo_ok_reply decided 1 true (Conn true false) (str "UPDATE t SET a=1")
    (ok_packet fresh 0 3 9) [] (demo_query [ok_packet fresh 0 3 9]) 0 3 9 2 0 _ _ _ _ _ _ _ _ _ _)).
  - apply end_reachable. vm_compute. eauto.
  - vm_compute. reflexivity.
  - vm_compute. reflexivity.
  - apply decided_consistent.
  - reflexivity.
  - vm_compute. reflexivity.
  - reflexivity.
  - reflexivity.
  - reflexivity.
  - split; [reflexivity|]. split; vm_compute; reflexivity.
Defined.
