(* ===== verification/Server.v ===== *)
(** * The server and its client threads
      (src/src/proxy.c: [server_run], [client_threads_start];
      src/src/proxy_net.c: [proxy_net_new_thread], [client_destroy];
      src/src/proxy_threading.c)

    The server thread accepts clients and hands each of them to a thread of a
    pool; the thread serves the client, adds its counters to the global ones and
    returns itself to the pool.  The model is a transition system in which a step
    is one access of the pool, of the work of a thread or of the counters; clients
    are numbered in the order in which they are accepted. *)

From S2P Require Import Prelude Status Pool.
Local Open Scope Z_scope.

(** ** The end of the threads ([proxy_threading_cancel]) *)

(** The loop that returns locked items; it ends at the first search that finds
    none. *)
Fixpoint drain (fuel : nat) (p : pool_t) : outcome pool_t :=
  match fuel with
  | O => Undef
  | S fuel =>
      i ← proxy_pool_get_locked p;
      if i <? 0 then Ret p else p ← proxy_pool_return p i; drain fuel p
  end.

(** The exit flags of the threads and the pool.  Each iteration returns an item,
    so that one search more than there are locked items is enough. *)
Definition proxy_threading_cancel (exits : list bool) (p : pool_t) : outcome (list bool * pool_t) :=
  p ← drain (S (Z.to_nat (plocked p))) p;
  Ret ((fun _ => true) <$> exits, p).

Lemma drain_spec fuel p :
  pool_ok p -> plocked p < Z.of_nat fuel ->
  exists p', drain fuel p = Ret p' /\ pool_ok p' /\ psize p' = psize p /\ (forall i, ~ taken p' i).
Proof.
  revert p. induction fuel as [|fuel IH]; intros p Hok Hf.
  { pose proof (ok_locked p Hok). pose proof (count_bounds negb (pavail p)). lia. }
  cbn [drain]. destruct (get_locked_cases p Hok) as [(i & E & Ht & _)|[E Hn]]; rewrite E; cbn [mbind outcome_bind].
  - pose proof (proj1 Ht). destruct (Z.ltb_spec i 0); [lia|]. rewrite return_taken by done. cbn [mbind outcome_bind].
    destruct (IH (give_item p i)) as (p' & E' & Hok' & Hsz & Hall); [by apply give_item_ok|simpl; lia|].
    exists p'. split_and!; done.
  - exists p. split_and!; done.
Qed.

(** Shutting the threads down.  [proxy_threading_cancel] ends, tells every thread
    to exit, and leaves a pool of the same size in which every item is free. *)
Theorem cancel_frees_all exits p :
  pool_ok p ->
  exists p', proxy_threading_cancel exits p = Ret (replicate (length exits) true, p') /\
    pool_ok p' /\ psize p' = psize p /\ plocked p' = 0 /\ (forall i, 0 <= i < psize p -> free p' i).
Proof.
  intros Hok. unfold proxy_threading_cancel.
  destruct (drain_spec (S (Z.to_nat (plocked p))) p Hok) as (p' & -> & Hok' & Hsz & Hn); [lia|].
  exists p'. split_and!; try done.
  - cbn [mbind outcome_bind]. by rewrite (const_fmap _ _ true).
  - rewrite (ok_locked p' Hok'). apply count_all_true. intros i b Hi. destruct b; [done|exfalso].
    destruct (Z.lt_ge_cases (Z.of_nat i) (psize p')) as [Hlt|Hge].
    + apply (Hn (Z.of_nat i)). split; [lia|]. by rewrite Nat2Z.id.
    + apply (ok_tail p' Hok' (Z.of_nat i) Hge). by rewrite Nat2Z.id.
  - intros i Hi. rewrite <-Hsz in Hi. destruct (ok_cell p' i Hok' Hi) as [?|Ht]; [done|]. by apply Hn in Ht.
Qed.

Lemma cancel_frees_all_witness :
  exists p', proxy_threading_cancel [false; false; false] pool_3 = Ret ([true; true; true], p') /\ plocked p' = 0.
Proof.
  destruct (cancel_frees_all [false; false; false] pool_3 pool_3_ok) as (p' & E & _ & _ & Hl & _).
  exists p'. split; [exact E|exact Hl].
Defined.

(** ** The system *)

(** A client thread waits for work, serves a client, has closed the connection
    of a client, or has added its counters. *)
Inductive phase :=
| PWait
| PServe (c : nat)
| PClean (c : nat)
| PMerged.

(** A thread: its phase, its work (no client is a null address) and its
    counters. *)
Record slot := Slot { ph : phase; work : option nat; stat : status_t }.

(** The server thread: waits for a client, asks for a thread, or gives the client
    to the thread. *)
Inductive server_pc :=
| SAccept
| SGet (c : nat)
| SGive (c : nat) (i : Z).

Record server := Server {
  thread_pool : pool_t;
  net_threads : list slot;
  spc : server_pc;
  naccepted : nat;
  served : list (nat * status_t);
  global_status : status_t
}.

Definition status0 : status_t := Status 0 0 0 0 0.

(** [st] are the counters at the end of a connection, [r] a value of [rand()]. *)
Inductive server_step : server -> server -> Prop :=
| sv_accept p ts n sv g :
    server_step (Server p ts SAccept n sv g) (Server p ts (SGet n) (S n) sv g)
| sv_pick p ts c n sv g r i p' :
    0 <= r -> pool_try_locks p r = Ret (i, p') -> 0 <= i ->
    server_step (Server p ts (SGet c) n sv g) (Server p' ts (SGive c i) n sv g)
| sv_give p ts c i n sv g x w st :
    ts !! Z.to_nat i = Some (Slot x w st) ->
    server_step (Server p ts (SGive c i) n sv g) (Server p (<[Z.to_nat i := Slot x (Some c) st]> ts) SAccept n sv g)
| sv_start p ts pc n sv g i c st :
    ts !! i = Some (Slot PWait (Some c) st) ->
    server_step (Server p ts pc n sv g) (Server p (<[i := Slot (PServe c) (Some c) st]> ts) pc n sv g)
| sv_end p ts pc n sv g i c w st st' :
    ts !! i = Some (Slot (PServe c) w st) ->
    server_step (Server p ts pc n sv g) (Server p (<[i := Slot (PClean c) None st']> ts) pc n sv g)
| sv_merge p ts pc n sv g i c w st :
    ts !! i = Some (Slot (PClean c) w st) ->
    server_step (Server p ts pc n sv g)
      (Server p (<[i := Slot PMerged w (proxy_status_reset st)]> ts) pc n (sv ++ [(c, st)]) (proxy_status_add st g))
| sv_return p ts pc n sv g i w st p' :
    ts !! i = Some (Slot PMerged w st) -> proxy_pool_return p (Z.of_nat i) = Ret p' ->
    server_step (Server p ts pc n sv g) (Server p' (<[i := Slot PWait w st]> ts) pc n sv g).

(** [client_threads_start] *)
Definition client_threads_start (client_threads : Z) : outcome server :=
  p ← proxy_pool_new client_threads;
  match p with
  | None => Undef
  | Some p => Ret (Server p (replicate (Z.to_nat client_threads) (Slot PWait None status0)) SAccept 0 [] status0)
  end.

Definition server_reachable (client_threads : Z) (s : server) : Prop :=
  exists s0, client_threads_start client_threads = Ret s0 /\ rtc server_step s0 s.

(** ** Invariant *)

Definition slot_clients (t : slot) : list nat :=
  match ph t with
  | PWait => match work t with Some c => [c] | None => [] end
  | PServe c | PClean c => [c]
  | PMerged => []
  end.

Definition busy (t : slot) : bool :=
  match ph t, work t with PWait, None => false | _, _ => true end.

Definition slot_ok (t : slot) : Prop :=
  match ph t with
  | PWait => True
  | PServe c => work t = Some c
  | PClean _ | PMerged => work t = None
  end.

Definition pending (pc : server_pc) : list nat :=
  match pc with SAccept => [] | SGet c | SGive c _ => [c] end.

Definition clients (s : server) : list nat :=
  pending (spc s) ++ mjoin (slot_clients <$> net_threads s) ++ (fst <$> served s).

Definition given (pc : server_pc) (i : nat) : bool :=
  match pc with SGive _ j => Z.to_nat j =? i | _ => false end%nat.

Record server_ok (s : server) : Prop := {
  so_pool : pool_ok (thread_pool s);
  so_len : psize (thread_pool s) = zlength (net_threads s);
  so_slots : Forall slot_ok (net_threads s);
  so_taken : forall i t, net_threads s !! i = Some t ->
    (taken (thread_pool s) (Z.of_nat i) <-> busy t = true \/ given (spc s) i = true);
  so_given : forall c i, spc s = SGive c i ->
    exists t, net_threads s !! Z.to_nat i = Some t /\ busy t = false;
  so_clients : clients s ≡ₚ seq 0 (naccepted s);
  so_global : global_status s = merge_all (snd <$> served s) status0
}.

(** One thread changes. *)
Lemma join_insert ts i t t' :
  ts !! i = Some t ->
  slot_clients t' ++ mjoin (slot_clients <$> ts) ≡ₚ slot_clients t ++ mjoin (slot_clients <$> <[i := t']> ts).
Proof.
  intros Hi. rewrite <-(take_drop_middle ts i t Hi) at 1.
  assert (<[i := t']> ts = take i ts ++ t' :: drop (S i) ts) as -> by (apply insert_take_drop; eauto using lookup_lt_Some).
  rewrite !fmap_app, !join_app. simpl. solve_Permutation.
Qed.

Lemma clients_insert ts i t t' l :
  ts !! i = Some t -> slot_clients t' ≡ₚ l ++ slot_clients t ->
  mjoin (slot_clients <$> <[i := t']> ts) ≡ₚ l ++ mjoin (slot_clients <$> ts).
Proof.
  intros Hi Hp. pose proof (join_insert ts i t t' Hi) as Hj. rewrite Hp in Hj.
  apply (Permutation_app_inv_l (slot_clients t)). rewrite <-Hj. solve_Permutation.
Qed.

Lemma insert_cases {A} (l : list A) i x j y :
  <[i := x]> l !! j = Some y -> (i = j /\ y = x) \/ (i <> j /\ l !! j = Some y).
Proof.
  intros H. destruct (decide (i = j)) as [->|Hne].
  - left. split; [done|]. rewrite list_lookup_insert_eq in H; [congruence|].
    apply lookup_lt_Some in H. by rewrite length_insert in H.
  - right. by rewrite list_lookup_insert_ne in H.
Qed.

(** A busy thread goes on. *)
Lemma ok_slot p ts pc n sv g i t t' sv' g' :
  server_ok (Server p ts pc n sv g) -> ts !! i = Some t -> busy t = true -> busy t' = true -> slot_ok t' ->
  slot_clients t' ++ (fst <$> sv') ≡ₚ slot_clients t ++ (fst <$> sv) ->
  g' = merge_all (snd <$> sv') status0 ->
  server_ok (Server p (<[i := t']> ts) pc n sv' g').
Proof.
  intros [Hp Hl Hs Ht Hg Hc Hm] Hi Hb Hb' Hok Hperm ->. split; simpl in *; try done.
  - by rewrite zlength_insert.
  - by apply Forall_insert.
  - intros j u [[-> ->]|[Hne Hj]]%insert_cases; [|by apply Ht].
    rewrite (Ht _ _ Hi), Hb, Hb'. done.
  - intros c j E. destruct (Hg c j E) as (u & Hu & Hbu). exists u.
    rewrite list_lookup_insert_ne; [done|]. intros ->. congruence.
  - unfold clients in *. simpl in *. rewrite <-Hc. apply Permutation_app_head.
    apply (Permutation_app_inv_l (slot_clients t)).
    rewrite (app_assoc (slot_clients t) (mjoin (slot_clients <$> <[i := t']> ts))), <-(join_insert ts i t t' Hi).
    transitivity (mjoin (slot_clients <$> ts) ++ (slot_clients t' ++ (fst <$> sv'))); [solve_Permutation|].
    rewrite Hperm. solve_Permutation.
Qed.

(** The server takes a thread. *)
Lemma ok_pick p ts c n sv g i :
  server_ok (Server p ts (SGet c) n sv g) -> free p i -> server_ok (Server (take_item p i) ts (SGive c i) n sv g).
Proof.
  intros [Hp Hl Hs Ht Hg Hc Hm] Hf. pose proof (proj1 Hf) as Hi. simpl in *. split; simpl; try done.
  - by apply take_item_ok.
  - intros j t Hj. unfold taken. simpl. rewrite (cell_update p i (Z.of_nat j)) by (done || lia).
    rewrite <-(Nat2Z.id j) in Hj at 1. specialize (Ht j t). rewrite Nat2Z.id in Hj. specialize (Ht Hj).
    destruct (Nat.eqb_spec (Z.to_nat i) j) as [E|E].
    + subst j. rewrite Z2Nat.id by lia. rewrite decide_True by done. split; [by right|done].
    + rewrite decide_False by lia. unfold taken in Ht. rewrite Ht. done.
  - intros c' j [= <- <-]. destruct (lookup_lt_is_Some_2 ts (Z.to_nat i)) as [t Hti]; [unfold zlength in *; lia|].
    exists t. split; [done|]. destruct (busy t) eqn:E; [|done].
    exfalso. apply (free_not_taken p i Hf). specialize (Ht _ _ Hti). rewrite Z2Nat.id in Ht by lia. apply Ht. by left.
Qed.

(** The server gives the client to the thread it took. *)
Lemma ok_give p ts c i n sv g x w st :
  server_ok (Server p ts (SGive c i) n sv g) -> ts !! Z.to_nat i = Some (Slot x w st) ->
  server_ok (Server p (<[Z.to_nat i := Slot x (Some c) st]> ts) SAccept n sv g).
Proof.
  intros [Hp Hl Hs Ht Hg Hc Hm] Hi. simpl in *.
  destruct (Hg c i eq_refl) as (t & Hti & Hbt). rewrite Hi in Hti. injection Hti as <-.
  destruct x, w; try discriminate Hbt. split; simpl; try done.
  - by rewrite zlength_insert.
  - by apply Forall_insert.
  - intros j u [[<- ->]|[Hne Hj]]%insert_cases.
    + rewrite (Ht _ _ Hi). simpl. rewrite Nat.eqb_refl. naive_solver.
    + rewrite (Ht _ _ Hj). simpl. rewrite (proj2 (Nat.eqb_neq _ _) Hne). done.
  - unfold clients in *. simpl in *. rewrite <-Hc.
    rewrite (clients_insert ts (Z.to_nat i) _ (Slot PWait (Some c) st) [c] Hi) by done. done.
Qed.

(** A thread returns to the pool. *)
Lemma ok_return p ts pc n sv g i w st :
  server_ok (Server p ts pc n sv g) -> ts !! i = Some (Slot PMerged w st) ->
  taken p (Z.of_nat i) /\ server_ok (Server (give_item p (Z.of_nat i)) (<[i := Slot PWait w st]> ts) pc n sv g).
Proof.
  intros [Hp Hl Hs Ht Hg Hc Hm] Hi. simpl in *. pose proof (proj1 (Forall_lookup _ _) Hs _ _ Hi) as Hw.
  unfold slot_ok in Hw. simpl in Hw. subst w.
  assert (Htk : taken p (Z.of_nat i)) by (apply (Ht _ _ Hi); by left). split; [done|].
  assert (Hng : given pc i = false).
  { destruct pc as [| |c j]; [done..|]. destruct (Hg c j eq_refl) as (t & Htj & Hb). simpl.
    apply Nat.eqb_neq. intros E. rewrite E, Hi in Htj. injection Htj as <-. discriminate Hb. }
  split; simpl; try done.
  - by apply give_item_ok.
  - by rewrite zlength_insert.
  - by apply Forall_insert.
  - intros j u Hu. unfold taken. simpl. rewrite (cell_update p (Z.of_nat i) (Z.of_nat j)) by (done || apply Htk || lia).
    apply insert_cases in Hu as [[<- ->]|[Hne Hj]].
    + rewrite decide_True by done. rewrite Hng. simpl. split; [by intros [_ ?]|by intros [?|?]].
    + rewrite decide_False by lia. apply (Ht _ _ Hj).
  - intros c j E. destruct (Hg c j E) as (t & Htj & Hb). exists t. rewrite list_lookup_insert_ne; [done|].
    intros ->. rewrite Hi in Htj. injection Htj as <-. discriminate Hb.
  - unfold clients in *. simpl in *.
    by rewrite (clients_insert ts i _ (Slot PWait None st) [] Hi).
Qed.

Lemma server_step_ok s s' : server_step s s' -> server_ok s -> server_ok s'.
Proof.
  intros Hstep Hok. pose proof (so_pool _ Hok) as Hp. pose proof (so_slots _ Hok) as Hs. destruct Hstep; simpl in Hp, Hs.
  - destruct Hok as [? ? ? Ht ? Hc ?]. split; simpl in *; try done. unfold clients in *. simpl in *.
    pose proof (seq_S n 0) as E. simpl in E. rewrite E, <-Hc. solve_Permutation.
  - destruct (try_locks_cases p r Hp) as [(j & Hf & E)|[E _]]; [done| |]; rewrite E in *; simplify_eq; [|lia].
    by apply ok_pick.
  - eapply ok_give; done.
  - eapply ok_slot; [done|done|done|done|done|done|]. apply (so_global _ Hok).
  - pose proof (proj1 (Forall_lookup _ _) Hs _ _ H) as Hw. unfold slot_ok in Hw. simpl in Hw. subst w.
    eapply ok_slot; [done|done|done|done|done|done|]. apply (so_global _ Hok).
  - pose proof (proj1 (Forall_lookup _ _) Hs _ _ H) as Hw. unfold slot_ok in Hw. simpl in Hw. subst w.
    eapply ok_slot; [done|done|done|done|done| |].
    + rewrite fmap_app. simpl. solve_Permutation.
    + pose proof (so_global _ Hok) as Hg. simpl in Hg. rewrite Hg, fmap_app. unfold merge_all.
      by rewrite fold_left_app.
  - destruct (ok_return _ _ _ _ _ _ _ _ _ Hok H) as [Ht Hr].
    rewrite return_taken in * by done. by simplify_eq.
Qed.

Lemma server_reachable_ok n s : 1 <= n <= 2 ^ 30 -> server_reachable n s -> server_ok s.
Proof.
  intros Hn (s0 & Hi & Hr). unfold client_threads_start in Hi.
  destruct (new_spec n Hn) as (p & Hp & Hok & Hsz & _ & Hfree & _). rewrite Hp in Hi. simpl in Hi. simplify_eq.
  assert (server_ok (Server p (replicate (Z.to_nat (psize p)) (Slot PWait None status0)) SAccept 0 [] status0)) as H0.
  { split; simpl; try done.
    - unfold zlength. rewrite length_replicate. lia.
    - by apply Forall_replicate.
    - intros i t Hi. apply lookup_replicate in Hi as [-> Hi]. simpl. split; [|by intros [?|?]].
      intros Ht. exfalso. apply (free_not_taken p (Z.of_nat i)); [apply Hfree; lia|done].
    - unfold clients. simpl. rewrite app_nil_r.
      assert (forall k, mjoin (slot_clients <$> replicate k (Slot PWait None status0)) = []) as -> by by induction k. done. }
  clear Hp Hok Hfree. induction Hr; eauto using server_step_ok.
Qed.

(** C7: every client is served exactly once, by a thread of its own.  In every
    state of the server and its threads, each client accepted so far is in exactly one
    place: with the server, with one thread, or served; a thread the server is
    about to give a client to is waiting and has no client; and the global
    counters are the sum of the counters of the served connections. *)
Theorem clients_served_once n s :
  1 <= n <= 2 ^ 30 -> server_reachable n s ->
  NoDup (clients s) /\ (forall c, c ∈ clients s <-> (c < naccepted s)%nat) /\
  (forall c i, spc s = SGive c i -> exists st, net_threads s !! Z.to_nat i = Some (Slot PWait None st)) /\
  global_status s = merge_all (snd <$> served s) status0.
Proof.
  intros Hn Hr. destruct (server_reachable_ok n s Hn Hr) as [_ _ _ _ Hg Hc Hm]. split_and!.
  - rewrite Hc. apply NoDup_seq.
  - intros c. rewrite Hc, elem_of_seq. lia.
  - intros c i E. destruct (Hg c i E) as ([x w st] & Ht & Hb). exists st. rewrite Ht. by destruct x, w.
  - done.
Qed.

(** A run with one thread: a client is accepted, served and counted. *)
Definition one_pool (b : bool) : pool_t := Pool 1 1 (if b then 0 else 1) [b] (RMutex None 0).
Definition demo_status : status_t := Status 10 20 1 1 0.

Lemma one_client_run :
  server_reachable 1 (Server (one_pool true) [Slot PWait None status0] SAccept 1 [(0%nat, demo_status)] demo_status).
Proof.
  exists (Server (one_pool true) [Slot PWait None status0] SAccept 0 [] status0). split; [vm_compute; reflexivity|].
  eapply rtc_l; [apply sv_accept|].
  eapply rtc_l; [apply (sv_pick _ _ _ _ _ _ 0 0 (one_pool false)); [lia|vm_compute; reflexivity|lia]|].
  eapply rtc_l; [by apply (sv_give _ _ _ 0 _ _ _ PWait None status0)|].
  eapply rtc_l; [by apply (sv_start _ _ _ _ _ _ 0 0 status0)|].
  eapply rtc_l; [by apply (sv_end _ _ _ _ _ _ 0 0 (Some 0%nat) status0 demo_status)|].
  eapply rtc_l; [by apply (sv_merge _ _ _ _ _ _ 0 0 None demo_status)|].
  eapply rtc_l; [by apply (sv_return _ _ _ _ _ _ 0 None status0 (one_pool true))|].
  apply rtc_refl.
Qed.

Lemma clients_served_once_witness :
  demo_status = merge_all [demo_status] status0 /\ NoDup [0%nat].
Proof.
  destruct (clients_served_once 1 _ ltac:(lia) one_client_run) as (Hd & _ & _ & Hg).
  split; [exact Hg|exact Hd].
Defined.
