(* ===== verification/Shutdown.v ===== *)
(** * Shutting the backends down
      (src/src/proxy_backend.c: [proxy_backend_close], [conn_free], [backend_free],
      [backends_free]; src/src/proxy_threading.c: [proxy_threading_cleanup];
      src/src/proxy_pool.c: [proxy_pool_destroy])

    Freed memory is visible: a pointer is null, live, or freed, and using a freed
    one is undefined.  What is done with the mapper library is [close_mapper] in
    Exit.v; the administrative connections are not part of the model. *)

From S2P Require Import Prelude CString Options Pool Hashtable Clone Backend BackendArrays Server.
Local Open Scope Z_scope.

Inductive ptr (A : Type) :=
| Null
| Live (a : A)
| Freed.
Arguments Null {A}.
Arguments Live {A} a.
Arguments Freed {A}.

Definition to_ptr {A} (x : option A) : ptr A := match x with Some a => Live a | None => Null end.

Definition deref_ptr {A} (x : ptr A) : outcome A := match x with Live a => Ret a | _ => Undef end.

Definition proxy_pool_destroy (p : ptr pool_t) : outcome (ptr pool_t) :=
  match p with Null => Ret Null | Live _ => Ret Freed | Freed => Undef end.

(** The threads are joined and their array is freed, then the pool is destroyed. *)
Definition proxy_threading_cleanup (threads : ptr (list bool)) (pool : ptr pool_t) : outcome (ptr (list bool) * ptr pool_t) :=
  threads ← (match threads with Null => Ret Null | Live _ => Ret Freed | Freed => Undef end);
  pool ← proxy_pool_destroy pool;
  Ret (threads, pool).

(** The connections that are closed. *)
Definition conn_free (c : option conn) : nat := match c with Some c => if mysql c then 1 else 0 | None => 0 end.

(** [free] of the address of a backend, which has to be live or null. *)
Definition backend_free (b : ptr proxy_host_t) : outcome (ptr proxy_host_t) :=
  match b with Null => Ret Null | Live _ => Ret Freed | Freed => Undef end.

(** The array is left dangling for the caller: [backends = NULL] at the end of the function sets
    its parameter. *)
Definition backends_free (bs : ptr (list (ptr proxy_host_t))) (num : Z) : outcome (ptr (list (ptr proxy_host_t))) :=
  match bs with
  | Null => Ret Null
  | Freed => Undef
  | Live l =>
      _ ← for_range 0 num (fun i l => b ← aget l i; b ← backend_free b; aset l i b) l;
      Ret Freed
  end.

(** The array of hosts as memory. *)
Definition hosts_ptr (s : backend_state) : ptr (list (ptr proxy_host_t)) := to_ptr ((fun l : list (option proxy_host_t) => to_ptr <$> l) <$> backends s).

Section close.
Variable o : options_t.

(** [num_conns] connections of a row, then the row; the number of connections
    closed so far. *)
Definition close_conns (n : Z) (row : list conn) (closed : nat) : outcome nat :=
  for_range 0 n (fun j k => c ← aget row j; Ret (k + conn_free (Some c))%nat) closed.

Definition close_backend (i : Z) (st : backend_state * nat) : outcome (backend_state * nat) :=
  let '(s, closed) := st in
  cs ← nonnull (backend_conns s); row ← aget cs i; row ← nonnull row;
  closed ← close_conns (num_conns o) row closed;
  cs ← aset cs i None;
  let s := set_conns (Some cs) s in
  match backend_pools s with
  | None => Ret (s, closed)
  | Some ps => p ← aget ps i; _ ← proxy_pool_destroy (to_ptr p); Ret (s, closed)
  end.

(** The threads of a backend, with the pool shared by the threads of all
    backends. *)
Definition close_threads (ts : list (option (list conn))) (i : Z) (st : ptr pool_t * nat) : outcome (ptr pool_t * nat) :=
  let '(pool, closed) := st in
  row ← aget ts i; row ← nonnull row;
  closed ← close_conns (Options.backend_threads o) row closed;
  p ← deref_ptr pool;
  '(exits, p) ← proxy_threading_cancel (replicate (length row) false) p;
  '(_, pool) ← proxy_threading_cleanup (Live exits) (Live p);
  Ret (pool, closed).

(** [proxy_backend_close]: the number of connections that were closed. *)
Definition proxy_backend_close (s : backend_state) : outcome nat :=
  '(s, closed) ← for_range 0 (backend_num s) close_backend (s, 0%nat);
  _ ← backends_free (hosts_ptr s) (backend_num s);
  match backend_threads s with
  | None => Ret closed
  | Some ts =>
      '(_, closed) ← for_range 0 (backend_num s) (close_threads ts) (to_ptr (backend_thread_pool s), closed);
      Ret closed
  end.

(** ** Closing *)

(** The hosts of a complete array are freed once each, and the global pointer then dangles. *)
Lemma backends_free_spec (l : list (option proxy_host_t)) :
  backends_free (Live (to_ptr <$> l)) (zlength l) = Ret Freed.
Proof.
  unfold backends_free.
  destruct (for_range_inv (fun i (m : list (ptr proxy_host_t)) => length m = length l /\
      forall j, (Z.to_nat i <= j)%nat -> m !! j = to_ptr <$> l !! j)
    (fun i m => b ← aget m i; b ← backend_free b; aset m i b) 0 (zlength l) (to_ptr <$> l)) as (m & -> & _); [unfold zlength; lia| | |done].
  - rewrite length_fmap. split; [done|]. intros j _. apply list_lookup_fmap.
  - intros i m Hi [Hl Hm]. unfold zlength in *.
    destruct (lookup_lt_is_Some_2 l (Z.to_nat i)) as [b Hb]; [lia|].
    rewrite (proj2 (aget_Ret m i (to_ptr b))) by (rewrite Hm, Hb by lia; split; [lia|done]).
    cbn [mbind outcome_bind].
    assert (E : exists b', backend_free (to_ptr b) = Ret b') by (destruct b; eexists; reflexivity).
    destruct E as [b' ->]. cbn [mbind outcome_bind]. rewrite aset_in by (unfold zlength; lia).
    eexists. split; [done|]. rewrite length_insert. split; [done|].
    intros j Hj. rewrite list_lookup_insert_ne by lia. apply Hm. lia.
Qed.

(** When an allocation of [backends_alloc] fails it calls [proxy_backend_close] (at its
    label [error]), and [main], which is told that the start failed, calls it again on its way
    out: the second call passes the array that the first one freed to
    [backends_free] again.  (The model of [backends_alloc] in BackendArrays.v has allocations that
    succeed, so this is stated of [backends_free] alone.) *)
Theorem hosts_freed_twice (l : list (option proxy_host_t)) :
  (bs ← backends_free (Live (to_ptr <$> l)) (zlength l); backends_free bs (zlength l)) = Undef.
Proof. by rewrite backends_free_spec. Qed.

(** The open connections of a row and of an array of rows. *)
Definition row_conns (row : option (list conn)) : nat := length (filter (fun c => mysql c = true) (default [] row)).
Definition open_conns (rows : option (list (option (list conn)))) : nat := sum_list_with row_conns (default [] rows).

Lemma close_conns_count n row closed :
  length row = Z.to_nat n -> 0 <= n -> close_conns n row closed = Ret (closed + row_conns (Some row))%nat.
Proof.
  intros Hl Hn. unfold close_conns.
  destruct (for_range_inv (fun j k => k = (closed + row_conns (Some (take (Z.to_nat j) row)))%nat)
    (fun j k => c ← aget row j; Ret (k + conn_free (Some c))%nat) 0 n closed) as (k & -> & ->).
  - done.
  - unfold row_conns. simpl. lia.
  - intros j t Hj ->. destruct (lookup_lt_is_Some_2 row (Z.to_nat j)) as [c Hc]; [lia|].
    rewrite (proj2 (aget_Ret row j c)) by (split; [lia|done]). cbn [mbind outcome_bind].
    eexists. split; [done|]. replace (Z.to_nat (j + 1)) with (S (Z.to_nat j)) by lia.
    rewrite (take_S_r _ _ _ Hc). unfold row_conns, conn_free. simpl. rewrite filter_app, length_app, filter_cons, filter_nil.
    destruct (mysql c); simpl; lia.
  - by rewrite <-Hl, firstn_all.
Qed.

(** The rows of the backends from [i] on are still there. *)
Definition closing (hs : list proxy_host_t) (s : backend_state) (i : Z) (st : backend_state * nat) : Prop :=
  let '(s', closed) := st in
  backends s' = backends s /\ backend_pools s' = backend_pools s /\
  backend_threads s' = backend_threads s /\ backend_thread_pool s' = backend_thread_pool s /\ backend_num s' = backend_num s /\
  exists cs cs0, backend_conns s = Some cs0 /\ backend_conns s' = Some cs /\ length cs = length hs /\
    (forall j, (Z.to_nat i <= j)%nat -> cs !! j = cs0 !! j) /\ closed = sum_list_with row_conns (take (Z.to_nat i) cs0).

Lemma close_backends_spec hs th s :
  allocated o hs th s -> 0 <= num_conns o ->
  exists st, for_range 0 (backend_num s) close_backend (s, 0%nat) = Ret st /\ closing hs s (backend_num s) st.
Proof.
  intros [Hb Hnum (cs & Hcs & Hlc & Hoc) Hps _] Hc.
  apply (for_range_inv (closing hs s)).
  - rewrite Hnum. unfold zlength. lia.
  - split_and!; try done. exists cs, cs. done.
  - intros i [s' closed] Hi (Eh & Ep & Et & Etp & En & cs' & cs0 & E0 & Ec & Hlc' & Hsame & ->).
    rewrite Hcs in E0. injection E0 as <-. unfold close_backend. rewrite Ec. cbn [nonnull mbind outcome_bind].
    assert (Hin : (Z.to_nat i < length hs)%nat) by (unfold zlength in *; lia).
    destruct (Hoc (Z.to_nat i)) as (row & Hrow & Hrl & _); [lia|].
    rewrite (proj2 (aget_Ret cs' i (Some row))) by (rewrite Hsame by lia; split; [lia|done]).
    cbn [nonnull mbind outcome_bind]. rewrite close_conns_count by done.
    cbn [mbind outcome_bind]. rewrite aset_in by (unfold zlength; lia). cbn [mbind outcome_bind backend_pools set_conns].
    assert (Hend : forall k, k = (sum_list_with row_conns (take (Z.to_nat i) cs) + row_conns (Some row))%nat ->
      closing hs s (i + 1) (set_conns (Some (<[Z.to_nat i := None]> cs')) s', k)).
    { intros k ->. split_and!; try done. exists (<[Z.to_nat i := None]> cs'), cs. rewrite length_insert. split_and!; try done.
      - intros j Hj. rewrite list_lookup_insert_ne by lia. apply Hsame. lia.
      - replace (Z.to_nat (i + 1)) with (S (Z.to_nat i)) by lia. rewrite (take_S_r _ _ _ Hrow), sum_list_with_app. simpl. lia. }
    rewrite Ep. destruct (backend_pools s) as [ps|]; [|eexists; split; [done|by apply Hend]].
    destruct (lookup_lt_is_Some_2 ps (Z.to_nat i)) as [p Hp]; [rewrite (Hps ps); [lia|done]|].
    rewrite (proj2 (aget_Ret ps i p)) by (split; [lia|done]). cbn [mbind outcome_bind].
    destruct p; cbn [to_ptr proxy_pool_destroy mbind outcome_bind]; (eexists; split; [done|by apply Hend]).
Qed.

Lemma close_threads_freed ts i closed : close_threads ts i (Freed, closed) = Undef.
Proof.
  unfold close_threads. destruct (aget ts i) as [[row|]|]; [|done|done]. cbn [nonnull mbind outcome_bind].
  by destruct (close_conns _ _ _).
Qed.

Lemma close_threads_first ts row p closed :
  ts !! 0%nat = Some (Some row) -> length row = Z.to_nat (Options.backend_threads o) ->
  0 <= Options.backend_threads o -> pool_ok p ->
  close_threads ts 0 (Live p, closed) = Ret (Freed, (closed + row_conns (Some row))%nat).
Proof.
  intros Hrow Hl Hb Hp. unfold close_threads. rewrite (proj2 (aget_Ret ts 0 (Some row))) by done.
  cbn [nonnull mbind outcome_bind]. rewrite close_conns_count by done. cbn [deref_ptr mbind outcome_bind].
  unfold proxy_threading_cancel.
  by destruct (drain_spec (S (Z.to_nat (plocked p))) p Hp) as (p' & -> & _); [lia|].
Qed.

(** The threads of the first backend are closed; with a second backend their pool is used again. *)
Lemma close_workers ts p closed :
  ts <> [] -> rows_ok (Options.backend_threads o) 0 ts -> 0 <= Options.backend_threads o -> pool_ok p ->
  for_range 0 (zlength ts) (close_threads ts) (Live p, closed) =
  if (1 <? length ts)%nat then Undef else Ret (Freed, (closed + sum_list_with row_conns ts)%nat).
Proof.
  intros Hne Hr Hb Hp. destruct (Hr 0%nat) as (row & Hrow & Hrl & _); [destruct ts; [done|simpl; lia]|].
  unfold for_range, zlength. rewrite Z.sub_0_r, Nat2Z.id.
  destruct ts as [|t ts]; [done|]. injection Hrow as ->. cbn [length for_].
  rewrite (close_threads_first _ row) by done. cbn [mbind outcome_bind].
  destruct ts as [|t' ts]; cbn [length for_]; [simpl; by rewrite Nat.add_0_r|by rewrite close_threads_freed].
Qed.

(** Closing the backends works without backend threads or with one backend only.
    [proxy_backend_close] then closes every open connection of the backends and of the backend
    threads.  With backend threads for two backends or more it uses the pool of
    the threads after it was destroyed: the pool is shared by all backends but is
    destroyed in the loop over them. *)
Theorem backend_close_spec hs th s :
  allocated o hs th s -> hs <> [] -> 0 <= num_conns o -> 0 <= Options.backend_threads o ->
  proxy_backend_close s =
  if th && (1 <? length hs)%nat then Undef else Ret (open_conns (backend_conns s) + open_conns (backend_threads s))%nat.
Proof.
  intros Hs Hne Hc Hb. unfold proxy_backend_close.
  destruct (close_backends_spec hs th s Hs Hc) as ([s' closed] & -> & Eh & _ & Et & Etp & En & cs' & cs & Ecs & _ & Hl & _ & ->).
  destruct Hs as [Hh Hn (cs0 & E0 & Hl0 & _) _ Hw]. cbn [mbind outcome_bind].
  rewrite En, Hn. unfold hosts_ptr. rewrite Eh, Hh. cbn [fmap option_fmap option_map to_ptr].
  pose proof (backends_free_spec (Some <$> hs)) as Ef. unfold zlength in Ef. rewrite length_fmap in Ef. unfold zlength.
  rewrite Ef, Nat2Z.id. cbn [mbind outcome_bind]. rewrite Et, Etp.
  assert (Ec : sum_list_with row_conns (take (length hs) cs) = open_conns (backend_conns s)).
  { assert (cs0 = cs) as -> by congruence. rewrite Ecs. unfold open_conns. simpl. by rewrite take_ge by (rewrite Hl0; reflexivity). }
  rewrite Ec. destruct th.
  - destruct Hw as (ts & q & Ets & Hlt & Hr & Eq & Hq). rewrite Ets, Eq. cbn [to_ptr].
    pose proof (close_workers ts q (open_conns (backend_conns s))) as Hcw. unfold zlength in Hcw. rewrite Hlt in Hcw.
    rewrite Hcw; [|by destruct ts, hs|done..]. cbn [andb]. by destruct (1 <? length hs)%nat.
  - rewrite Hw. cbn [andb]. f_equal. change (open_conns None) with 0%nat. lia.
Qed.

End close.

Lemma demo_allocated : allocated demo_options demo_hosts true (snd demo_started).
Proof.
  destruct (file_allocated demo_options (fun _ _ _ _ => true) demo_hosts) as (e & s & E & Hs & _).
  - discriminate.
  - repeat constructor; vm_compute; try discriminate; reflexivity.
  - repeat constructor; vm_compute; reflexivity.
  - split; [left; discriminate|vm_compute; split; discriminate..].
  - unfold demo_started. rewrite E. exact Hs.
Qed.

Lemma backend_close_spec_witness : proxy_backend_close demo_options (snd demo_started) = Undef.
Proof.
  apply (backend_close_spec demo_options demo_hosts true (snd demo_started) demo_allocated).
  - discriminate.
  - vm_compute. discriminate.
  - vm_compute. discriminate.
Defined.
