(* ===== verification/Exec.v ===== *)
(** * Execution of PROXY commands (src/src/proxy_cmd.c)

    What the handlers do after a command was parsed (Cmd.v): the reports they
    send, the cloning operation of a coordinator and of a cloneable server, the
    registration of clones, and the dispatch of a parsed command.  The calls of the
    MySQL library, the SnowFlock library and the waits are parameters. *)

From S2P Require Import Prelude CString Status Wire Options Pool Hashtable Clone Trans Cmd BackendArrays Complete.
Local Open Scope Z_scope.

Section exec.
Context `{Protocol} {T : Type -> Type} `{!MapTable T}.
Variable o : options_t.
Variable charset_number : Z.
Variable er_code : er -> Z.

Definition send_err (m : MYSQL) (e : er) (msg : list Z) : bool * MYSQL := proxy_net_send_error m (er_code e) msg.

(** ** Result sets *)

(** Header, field list and end marker. *)
Definition result_fields (fields : list (list Z * list Z)) (m : MYSQL) (status : status_t) : MYSQL * status_t :=
  let '(m, status) := net_result_header m (zlength fields) status in
  let '(m, status) := fold_left (fun '(m, status) '(name, org) => send_status_field charset_number m name org status)
                        fields (m, status) in
  proxy_net_send_eof m status.

(** Rows; a value is read when its row is sent. *)
Definition result_rows (rows : list (list Z * (status_t -> Z))) (m : MYSQL) (status : status_t) : MYSQL * status_t :=
  fold_left (fun '(m, status) '(name, val) => add_row m name (val status) status) rows (m, status).

Definition result_end (m : MYSQL) (status : status_t) : MYSQL * status_t :=
  let '(m, status) := proxy_net_send_eof m status in
  (snd (net_flush m), status).

(** ** PROXY STATUS *)

(** The numbers that are not counters of connections. *)
Record gauges := Gauges { g_connections : Z; g_locked : Z; g_running : Z; g_uptime : Z }.

(** [f] is where the counters are read. *)
Definition status_rows (g : gauges) (f : status_t -> status_t) : list (list Z * (status_t -> Z)) :=
  [(str "Connections", fun _ => g_connections g);
   (str "Bytes_received", fun s => bytes_recv (f s));
   (str "Bytes_sent", fun s => bytes_sent (f s));
   (str "Queries", fun s => queries (f s));
   (str "Queries_any", fun s => queries_any (f s));
   (str "Queries_all", fun s => queries_all (f s));
   (str "Threads_connected", fun _ => g_locked g);
   (str "Threads_running", fun _ => g_running g);
   (str "Uptime", fun _ => g_uptime g)].

(** The totals: the global counters and those of the client threads.  The thread
    that executes the command is one of them; its counters are taken after the
    field list was sent ([threads] gives the counters of all threads when those
    of this one are known). *)
Definition total_status (global : status_t) (threads : list status_t) : status_t :=
  merge_all threads (proxy_status_add global (proxy_status_reset global)).

Definition net_status (is_global : bool) (g : gauges) (global_status : status_t) (threads : status_t -> list status_t)
  (m : MYSQL) (status : status_t) : bool * MYSQL * status_t :=
  let '(m, status) :=
    result_fields [(str "Variable_name", str "VARIABLE_NAME"); (str "Value", str "VARIABLE_VALUE")] m status in
  let total := total_status global_status (threads status) in
  let '(m, status) := result_rows (status_rows g (if is_global then fun _ => total else fun s => s)) m status in
  let '(m, status) := result_end m status in
  (false, m, status).

(** ** PROXY CLONES, with the SnowFlock library

    [tickets] is what [LIST_TICKETS] returns: NULL, or the tickets with the
    machines of each. *)
Fixpoint clone_rows (tickets : list (list Z * list Z)) : list (list Z * (status_t -> Z)) :=
  match tickets with
  | [] => []
  | (ticket, vms) :: tickets => ((fun vm => (ticket, fun _ => vm)) <$> vms) ++ clone_rows tickets
  end.

Definition net_show_clones (tickets : option (list (list Z * list Z))) (m : MYSQL) (status : status_t)
  : bool * MYSQL * status_t :=
  let m := if cloneable o then m
           else snd (send_err m ER_NOT_ALLOWED_COMMAND (str "Proxy server not started as cloneable")) in
  match tickets with
  | None =>
      let '(e, m) := send_err m ER_ERROR_WHEN_EXECUTING_COMMAND (str "Could not get list of tickets") in (e, m, status)
  | Some [] => let '(e, m) := proxy_net_send_ok m 0 0 0 in (e, m, status)
  | Some tickets =>
      let '(m, status) := result_fields [(str "Ticket", str "TICKET"); (str "VMID", str "VMID")] m status in
      let rows := clone_rows tickets in
      let '(m, status) := result_rows rows m status in
      let '(m, status) := if decide (rows = []) then add_row m [] 0 status else (m, status) in
      let '(m, status) := result_end m status in
      (false, m, status)
  end.

(** ** PROXY CLONE *)

(** The coordinator.  [polls] are the values of [committing] that the loop which waits for the end of
    all commit phases reads; the result is [None] while none of them is zero.  [answer] is the error
    of the master, if any.  [early] is the number of clones that notify the coordinator after
    [proxy_clone_prepare] and before [proxy_clone_wait] (the lock of their notification is taken to succeed, although
    the mutex is not initialised then), [wakes] are the wake-ups of the wait for the clones. *)
Definition clone_coordinator (nclones : Z) (polls : list Z) (answer : option (Z * list Z)) (early : nat) (wakes : list (nat * Z))
  (m : MYSQL) (cs : clone_state (T := T)) : outcome (option (bool * MYSQL * clone_state (T := T) * list (list Z))) :=
  let cs := set_cloning 1 cs in
  if negb (existsb (Z.eqb 0) polls) then Ret None
  else
  let '(ready, cs) := proxy_clone_prepare nclones cs in
  if negb ready then
    let '(e, m) := send_err m ER_CANT_LOCK (str "Previous cloning operation not complete") in Ret (Some (e, m, cs, []))
  else
    let sent := [clone_message nclones] in
    let cs := Nat.iter early proxy_clone_notify cs in
    match answer with
    | Some (code, msg) => let '(e, m) := proxy_net_send_error m code msg in Ret (Some (e, m, cs, sent))
    | None =>
        let cs := set_clone_generation (i32 (clone_generation cs + 1)) cs in
        '(ret, cs) ← proxy_clone_wait wakes cs;
        let cs := set_cloning 0 cs in
        let '(e, m) := if (ret : bool) then send_err m ER_LOCK_WAIT_TIMEOUT (str "Error waiting for new clones")
                       else proxy_net_send_ok m 0 0 0 in
        Ret (Some (e, m, cs, sent))
    end.

(** Up to five attempts to reach the coordinator from a clone; a second attempt
    uses the object that was closed after the first. *)
Definition reconnect (ok : bool) : outcome unit := if ok then Ret () else Undef.

(** A cloneable server: the messages sent to the coordinator. *)
Definition clone_cloneable (sf : snowflock) (hosts : list (list Z)) (err : list Z) (ok : bool) (nclones : Z)
  (m : MYSQL) (opts : options_t) (cs : clone_state (T := T))
  : outcome (bool * MYSQL * options_t * clone_state (T := T) * list (list Z)) :=
  '(ret, opts, cs) ← proxy_do_clone sf hosts nclones opts cs;
  if ret <? 0 then
    let '(e, m) := send_err m ER_ERROR_WHEN_EXECUTING_COMMAND err in Ret (e, m, opts, proxy_clone_complete cs, [])
  else if ret =? 0 then
    let '(e, m) := proxy_net_send_ok m 0 0 0 in Ret (e, m, opts, proxy_clone_complete cs, [])
  else
    _ ← reconnect ok;
    let cs := proxy_clone_complete cs in
    Ret (true, m, opts, cs, [add_message (server_id cs) (phost opts) (pport opts)]).

(** ** PROXY ADD *)

Definition HOST_NAME_MAX : nat := 64.

Definition add_clone (real_connect : nat -> option (list Z) -> list Z -> Z -> bool) (tid : nat)
  (clone_id : Z) (hst : list Z) (prt : Z) (m : MYSQL) (cs : clone_state (T := T)) (bs : backend_state)
  : outcome (bool * MYSQL * clone_state (T := T) * backend_state) :=
  '(_, cs) ← proxy_clone_insert cs clone_id (Host (take (S HOST_NAME_MAX) hst) prt);
  '(e, cs, bs) ← proxy_backend_add o real_connect tid hst prt cs bs;
  let '(e, m) := if (e : bool) then send_err m ER_BAD_HOST_ERROR (str "Error adding new host")
                 else proxy_net_send_ok m 0 0 0 in
  Ret (e, m, cs, bs).

(** ** PROXY COORDINATOR *)

(** [resolve] is [gethostbyname] with [inet_ntop], [connect] the error of the
    connection to the address, if any. *)
Definition change_coordinator (resolve : list Z -> option (list Z)) (connect : list Z -> Z -> option (Z * list Z))
  (hst : list Z) (prt : Z) (m : MYSQL) (coord : option (list Z * Z)) : bool * MYSQL * option (list Z * Z) :=
  let addr := default hst (resolve hst) in
  match connect addr prt with
  | Some (code, msg) => let '(e, m) := proxy_net_send_error m code msg in (e, m, coord)
  | None => let '(e, m) := proxy_net_send_ok m 0 0 0 in (e, m, Some (addr, prt))
  end.

Definition show_coordinator (m : MYSQL) (status : status_t) (coord : option (list Z * Z)) : bool * MYSQL * status_t :=
  match coord with
  | None => let '(e, m) := proxy_net_send_ok m 0 0 0 in (e, m, status)
  | Some (hst, prt) =>
      let '(m, status) := result_fields [(str "Coordinator", str "COORDINATOR")] m status in
      let p := net_store_data (hst ++ str ":" ++ fmt_d prt) in
      let m := snd (net_do (CWrite p) m) in
      let '(m, status) := result_end m (add_sent (zlength p) status) in
      (false, m, status)
  end.

(** ** PROXY SUCCESS, FAILURE, COMMIT and ROLLBACK *)

(** Local threads that take the decision while the handler waits for them. *)
Fixpoint local_threads (n : nat) (p : Z) (s : trans_state (T := T)) : outcome (trans_state (T := T)) :=
  match n with
  | O => Ret s
  | S n =>
      d ← local_decision p s;
      match d with None => Ret s | Some (_, s) => local_threads n p s end
  end.

(** The result of a clone: the messages to the backends; [None] while the handler
    waits for a connection to a clone (see Complete.v) or for local threads. *)
Definition result_received (rand : nat -> Z) (ok : bool) (clone_id transaction_id : Z) (locals : nat) (m : MYSQL)
  (cs : clone_state (T := T)) (bs : backend_state) (ts : trans_state (T := T))
  : outcome (option (bool * MYSQL * backend_state * trans_state (T := T) * list (Z * Z * list Z))) :=
  let '(error, m) := proxy_net_send_ok m 0 0 0 in
  '(ts, complete) ← trans_result cs clone_id transaction_id ok ts;
  match complete with
  | None => Ret (Some (error, m, bs, ts, []))
  | Some (ids, total, decision) =>
      '(sent, r) ← proxy_backend_clone_complete rand cs (take (Z.to_nat total) ids) transaction_id decision bs;
      match r with
      | inl _ => Ret None
      | inr (_, bs) =>
          found ← proxy_trans_search ts transaction_id;
          p ← nonnull found;
          ts ← local_threads locals p ts;
          ts ← trans_finish transaction_id p (proxy_backend_num bs) ts;
          match ts with None => Ret None | Some ts => Ret (Some (error, m, bs, ts, sent)) end
      end
  end.

(** The decision for a clone; [None] while the transaction is not in the table. *)
Definition commit_received (ok : bool) (transaction_id : Z) (m : MYSQL) (ts : trans_state (T := T))
  : outcome (option (bool * MYSQL * trans_state (T := T))) :=
  found ← proxy_trans_search ts transaction_id;
  match found with
  | None => Ret None
  | Some p =>
      t ← deref ts p;
      let t := Trans.Trans 1 (Trans.total t) (Trans.done t) (Some ok) (clone_ids t) in
      let '(e, m) := proxy_net_send_ok m 0 0 0 in
      Ret (Some (e, m, set_heap (<[p := t]> (heap ts)) ts))
  end.

(** ** The dispatch of a parsed command *)

(** The state of the proxy the commands work on. *)
Record pstate := PState {
  ps_opts : options_t;
  ps_clone : clone_state (T := T);
  ps_backend : backend_state;
  ps_trans : trans_state (T := T);
  ps_coordinator : option (list Z * Z);
  ps_global : status_t
}.

(** What the rest of the world does during a command. *)
Record env := Env {
  e_gauges : gauges;
  e_threads : status_t -> list status_t;
  e_tickets : option (list (list Z * list Z));
  e_committing : list Z;
  e_answer : option (Z * list Z);
  e_early : nat;
  e_wakes : list (nat * Z);
  e_snowflock : snowflock;
  e_hosts : list (list Z);
  e_error : list Z;
  e_reconnect : bool;
  e_connect : nat -> option (list Z) -> list Z -> Z -> bool;
  e_resolve : list Z -> option (list Z);
  e_coordinator : list Z -> Z -> option (Z * list Z);
  e_rand : nat -> Z;
  e_locals : nat;
  e_tid : nat
}.

(** A result, with the messages to other proxies: by backend, or to the master
    or the coordinator. *)
Definition result : Type := bool * MYSQL * status_t * pstate * list (option nat * list Z).

Definition execute (ev : env) (r : request) (m : MYSQL) (status : status_t) (s : pstate) : outcome (option result) :=
  let '(PState opts cs bs ts coord global) := s in
  match r with
  | QError e msg => let '(e, m) := send_err m e (str msg) in Ret (Some (e, m, status, s, []))
  | QStatus is_global =>
      let '(e, m, status) := net_status is_global (e_gauges ev) global (e_threads ev) m status in
      Ret (Some (e, m, status, s, []))
  | QShowClones =>
      let '(e, m, status) := net_show_clones (e_tickets ev) m status in
      Ret (Some (e, m, status, s, []))
  | QCloneCoordinator n =>
      x ← clone_coordinator n (e_committing ev) (e_answer ev) (e_early ev) (e_wakes ev) m cs;
      match x with
      | None => Ret None
      | Some (e, m, cs, sent) => Ret (Some (e, m, status, PState opts cs bs ts coord global, List.map (pair None) sent))
      end
  | QCloneMaster n =>
      '(e, m, opts, cs, sent) ← clone_cloneable (e_snowflock ev) (e_hosts ev) (e_error ev) (e_reconnect ev) n m opts cs;
      Ret (Some (e, m, status, PState opts cs bs ts coord global, List.map (pair None) sent))
  | QAdd id h p =>
      '(e, m, cs, bs) ← add_clone (e_connect ev) (e_tid ev) id h p m cs bs;
      Ret (Some (e, m, status, PState opts cs bs ts coord global, []))
  | QSetCoordinator h p =>
      let '(e, m, coord) := change_coordinator (e_resolve ev) (e_coordinator ev) h p m coord in
      Ret (Some (e, m, status, PState opts cs bs ts coord global, []))
  | QShowCoordinator =>
      let '(e, m, status) := show_coordinator m status coord in Ret (Some (e, m, status, s, []))
  | QResult ok clone_id tr =>
      x ← result_received (e_rand ev) ok clone_id tr (e_locals ev) m cs bs ts;
      match x with
      | None => Ret None
      | Some (e, m, bs, ts, sent) =>
          Ret (Some (e, m, status, PState opts cs bs ts coord global,
            List.map (fun '(bi, _, msg) => (Some (Z.to_nat bi), msg)) sent))
      end
  | QCommit ok tr =>
      x ← commit_received ok tr m ts;
      match x with
      | None => Ret None
      | Some (e, m, ts) => Ret (Some (e, m, status, PState opts cs bs ts coord global, []))
      end
  end.

(** [proxy_cmd] on the command at offset [query] of a packet: its length, without
    semicolons, is added to the received bytes. *)
Definition run_cmd (ev : env) (buf : list Z) (query query_len : nat) (m : MYSQL) (status : status_t) (s : pstate)
  : outcome (option result) :=
  '(_, n) ← strip buf query query_len;
  r ← proxy_cmd o buf query query_len;
  execute ev r m (add_recv (Z.of_nat n) status) s.

(** ** Reports *)

(** One call on a good connection. *)
Lemma do_good c m : good m -> exists m', net_do c m = (false, m') /\ good m' /\ written m' = written m ++ payload c.
Proof.
  intros Hg. pose proof (good_do c m Hg) as [Hg1 Hok]. pose proof (written_do c m) as Hw.
  destruct (net_do c m) as [e m1]. simpl in *. subst e. eauto.
Qed.

(** A report writes packets: [w] are those written from [m] to [m']. *)
Definition wrote (w : list (list Z)) (m m' : MYSQL) : Prop := good m -> good m' /\ written m' = written m ++ w.

Lemma wrote_trans w1 w2 m1 m2 m3 : wrote w1 m1 m2 -> wrote w2 m2 m3 -> wrote (w1 ++ w2) m1 m3.
Proof.
  intros H1 H2 Hg. destruct (H1 Hg) as [Hg2 E1]. destruct (H2 Hg2) as [Hg3 E2]. by rewrite E2, E1, app_assoc.
Qed.

Lemma wrote_call c m : wrote (payload c) m (snd (net_do c m)).
Proof. intros Hg. by destruct (do_good c m Hg) as (m' & -> & ? & ?). Qed.

Lemma wrote_flush w m m' : wrote w m m' -> wrote w m (snd (net_flush m')).
Proof. intros H1. rewrite <-(app_nil_r w). eapply wrote_trans; [done|]. apply (wrote_call CFlush). Qed.

(** The counters after packets were sent. *)
Definition counted (w : list (list Z)) (s : status_t) : status_t := fold_left (fun s p => add_sent (zlength p) s) w s.

(** Packets are written, and counted. *)
Definition sends (w : list (list Z)) (m : MYSQL) (s : status_t) (x : MYSQL * status_t) : Prop :=
  wrote w m (fst x) /\ snd x = counted w s.

Lemma sends_trans w1 w2 m s m1 s1 x : sends w1 m s (m1, s1) -> sends w2 m1 s1 x -> sends (w1 ++ w2) m s x.
Proof.
  intros [H1 E1] [H2 E2]. split; [by eapply wrote_trans|]. rewrite E2. simpl in E1. rewrite E1. unfold counted. by rewrite fold_left_app.
Qed.

Lemma sends_eof m s : sends [eof_packet] m s (proxy_net_send_eof m s).
Proof. split; [|done]. apply wrote_flush, (wrote_call (CWrite eof_packet)). Qed.

Lemma sends_field m name org s :
  sends [field_packet charset_number name org] m s (send_status_field charset_number m name org s).
Proof. split; [|done]. apply wrote_flush, (wrote_call (CWrite _)). Qed.

(** The packets before the rows of a result with two columns. *)
Definition header2 (n1 o1 n2 o2 : list Z) : list (list Z) :=
  [net_store_length 2 ++ net_store_length 0; field_packet charset_number n1 o1; field_packet charset_number n2 o2; eof_packet].

Lemma sends_fields n1 o1 n2 o2 m s : sends (header2 n1 o1 n2 o2) m s (result_fields [(n1, o1); (n2, o2)] m s).
Proof.
  unfold result_fields. cbn [fold_left].
  assert (H0 : sends [net_store_length 2 ++ net_store_length 0] m s (net_result_header m 2 s)) by (split; [apply (wrote_call (CWrite _))|done]).
  change (zlength [(n1, o1); (n2, o2)]) with 2. destruct (net_result_header m 2 s) as [m1 s1].
  pose proof (sends_field m1 n1 o1 s1) as H1. destruct (send_status_field charset_number m1 n1 o1 s1) as [m2 s2].
  pose proof (sends_field m2 n2 o2 s2) as H2. destruct (send_status_field charset_number m2 n2 o2 s2) as [m3 s3].
  exact (sends_trans _ _ _ _ _ _ _ H0 (sends_trans _ _ _ _ _ _ _ H1 (sends_trans _ _ _ _ _ _ _ H2 (sends_eof m3 s3)))).
Qed.

Lemma sends_rows (vals : list (list Z * Z)) m s :
  sends ((fun x => row_packet (fst x) (snd x)) <$> vals) m s
    (result_rows ((fun x : list Z * Z => (fst x, fun _ => snd x)) <$> vals) m s).
Proof.
  revert m s. induction vals as [|[n v] vals IH]; intros m s; unfold result_rows in *; simpl.
  - split; [|done]. intros Hg. by rewrite app_nil_r.
  - change (row_packet n v :: ?l) with ([row_packet n v] ++ l).
    eapply sends_trans; [|apply IH]. split; [apply (wrote_call (CWrite _))|done].
Qed.

Lemma sends_end m s : sends [eof_packet] m s (result_end m s).
Proof.
  unfold result_end. pose proof (sends_eof m s) as He. destruct (proxy_net_send_eof m s) as [m' s'].
  destruct He as [He ?]. split; [by apply wrote_flush|done].
Qed.

(** The totals are the sums, at 64 bits. *)
Lemma total_status_sums global threads :
  let sum (f : status_t -> Z) := u64 (f global + Status.total f threads) in
  total_status global threads = Status (sum bytes_recv) (sum bytes_sent) (sum queries) (sum queries_any) (sum queries_all).
Proof.
  cbv zeta. unfold total_status, proxy_status_reset. remember (proxy_status_add global (Status 0 0 0 0 0)) as g eqn:Eg.
  assert (Hg : forall a b c d e, (let sum (f : status_t -> Z) x := u64 (x + Status.total f threads) in
    merge_all threads (Status (u64 a) (u64 b) (u64 c) (u64 d) (u64 e)) =
    Status (sum bytes_recv a) (sum bytes_sent b) (sum queries c) (sum queries_any d) (sum queries_all e))).
  { clear. cbv zeta. induction threads as [|t ts IH]; intros a b c d e; cbn [Status.total fold_right merge_all fold_left].
    - by rewrite !Z.add_0_r.
    - unfold merge_all in IH. unfold proxy_status_add. cbn [bytes_recv bytes_sent queries queries_any queries_all].
      assert (Hu : forall x y, u64 (u64 x + y) = u64 (x + y)) by (intros x y; unfold u64; apply wrap_add_l).
      rewrite !Hu, IH. unfold Status.total. f_equal; f_equal; lia. }
  rewrite Eg. unfold proxy_status_add. cbn [bytes_recv bytes_sent queries queries_any queries_all]. apply Hg.
Qed.

Context `{!ProtocolLaws}.

(** C34: PROXY STATUS reports the totals.  The client gets a result set: a header for two columns, the
    fields Variable_name and Value and an end marker, then nine rows and an end marker.  The rows
    decode to these names, in this order, and the decimal values of: the connections so far; the sums of the
    five counters over the finished connections (the global counters) and all client threads, modulo 2^64, as they are when the
    field list has been sent; the number of locked threads, of running queries, and the uptime; when
    the values have at most 19 digits.  All bytes sent are counted. *)
Theorem status_report g global threads m status :
  let hdr := header2 (str "Variable_name") (str "VARIABLE_NAME") (str "Value") (str "VARIABLE_VALUE") in
  let sum (f : status_t -> Z) := u64 (f global + Status.total f (threads (counted hdr status))) in
  let vals := [(str "Connections", g_connections g); (str "Bytes_received", sum bytes_recv); (str "Bytes_sent", sum bytes_sent);
               (str "Queries", sum queries); (str "Queries_any", sum queries_any); (str "Queries_all", sum queries_all);
               (str "Threads_connected", g_locked g); (str "Threads_running", g_running g); (str "Uptime", g_uptime g)] in
  good m -> Forall (fun x => 0 <= snd x < 10 ^ 19) vals ->
  exists m' rows, net_status true g global threads m status = (false, m', counted (hdr ++ rows ++ [eof_packet]) status) /\
    written m' = written m ++ hdr ++ rows ++ [eof_packet] /\
    read_row <$> rows = (fun x => Ret (fst x, fmt_lu (snd x), [])) <$> vals.
Proof.
  intros hdr sum vals Hg Hv. unfold net_status.
  pose proof (sends_fields (str "Variable_name") (str "VARIABLE_NAME") (str "Value") (str "VARIABLE_VALUE") m status) as H1.
  fold hdr in H1. destruct (result_fields _ m status) as [m1 s1]. pose proof (proj2 H1) as Hs1. cbn [snd] in Hs1. subst s1.
  set (s1 := counted hdr status) in *. rewrite total_status_sums. fold (sum bytes_recv) (sum bytes_sent) (sum queries) (sum queries_any) (sum queries_all).
  pose proof (sends_rows vals m1 s1) as H2. set (rows := _ <$> vals) in H2.
  assert (Er : forall t, t = Status (sum bytes_recv) (sum bytes_sent) (sum queries) (sum queries_any) (sum queries_all) ->
    result_rows (status_rows g (fun _ => t)) m1 s1 = result_rows ((fun x : list Z * Z => (fst x, fun _ => snd x)) <$> vals) m1 s1)
    by (intros t ->; reflexivity).
  rewrite Er by done. destruct (result_rows _ m1 s1) as [m2 s2].
  pose proof (sends_end m2 s2) as H3. destruct (result_end m2 s2) as [m3 s3].
  destruct (sends_trans _ _ _ _ _ _ _ H1 (sends_trans _ _ _ _ _ _ _ H2 H3)) as [Hw Hs]. cbn [fst snd] in Hw, Hs. subst s3.
  exists m3, rows. split_and!; [done|apply (Hw Hg)|].
  unfold rows. rewrite <-list_fmap_compose. apply list_fmap_ext. intros i x Hx. cbn [compose].
  pose proof (proj1 (Forall_lookup _ _) Hv _ _ Hx) as Hr. simpl in Hr.
  assert (Hn : Forall (fun x => zlength (fst x) < 2 ^ 32) vals) by by repeat constructor.
  rewrite status_row_decodes; [|by apply (proj1 (Forall_lookup _ _) Hn _ _ Hx)|lia].
  pose proof (fmt_lu_small (snd x) 19 ltac:(done) ltac:(lia) ltac:(lia)) as Hl.
  destruct (Z.leb_spec (zlength (fmt_lu (snd x))) 19); [done|lia].
Qed.

(** ** Cloning on the coordinator *)


(** A cloning operation that the master refuses is never ended.  [net_clone]
    returns without [proxy_clone_complete]: [cloning] stays set, so every
    replicated query waits forever, and the clones stay requested, so every later
    cloning operation is refused, whatever the master would answer, and changes
    nothing. *)
Theorem clone_refused_stuck n polls code msg wakes m cs :
  0 < n -> req_clones cs = 0 -> 0 ∈ polls ->
  exists e m' cs', clone_coordinator n polls (Some (code, msg)) 0 wakes m cs = Ret (Some (e, m', cs', [clone_message n])) /\
    cloning cs' = 1 /\ req_clones cs' = n /\
    forall n2 polls2 answer2 early2 wakes2 m2, 0 ∈ polls2 -> exists e2 m2',
      clone_coordinator n2 polls2 answer2 early2 wakes2 m2 cs' = Ret (Some (e2, m2', cs', [])).
Proof.
  assert (Hex : forall l, 0 ∈ l -> existsb (Z.eqb 0) l = true)
    by (intros l Hl; apply existsb_exists; exists 0; split; [by apply list_elem_of_In|done]).
  intros Hn Hreq Hp. unfold clone_coordinator, proxy_clone_prepare. rewrite Hex by done. cbn [req_clones set_cloning]. rewrite Hreq.
  cbn [negb Z.eqb Nat.iter nat_rect]. destruct (proxy_net_send_error m code msg) as [e m'].
  eexists e, m', _. split_and!; [done..|]. intros n2 polls2 answer2 early2 wakes2 m2 Hp2. rewrite Hex by done.
  cbn [req_clones set_new_clones set_req_clones set_cloning].
  destruct (Z.eqb_spec n 0); [lia|]. cbn [negb]. unfold send_err.
  destruct (proxy_net_send_error m2 _ _) as [e2 m2']. eexists e2, m2'. done.
Qed.

End exec.

Import Encoding.

Definition demo_gauges : gauges := Gauges 1 1 0 60.

Lemma status_report_witness :
  exists m' status' rows,
    net_status 8 true demo_gauges (Status 1 2 3 4 5) (fun s => [s; Status 10 20 30 40 50]) fresh (Status 0 0 0 0 0) = (false, m', status') /\
    written m' = header2 8 (str "Variable_name") (str "VARIABLE_NAME") (str "Value") (str "VARIABLE_VALUE") ++ rows ++ [eof_packet] /\
    read_row <$> rows = [Ret (str "Connections", str "1", []); Ret (str "Bytes_received", str "11", []); Ret (str "Bytes_sent", str "130", []);
      Ret (str "Queries", str "33", []); Ret (str "Queries_any", str "44", []); Ret (str "Queries_all", str "55", []);
      Ret (str "Threads_connected", str "1", []); Ret (str "Threads_running", str "0", []); Ret (str "Uptime", str "60", [])].
Proof.
  destruct (status_report 8 demo_gauges (Status 1 2 3 4 5) (fun s => [s; Status 10 20 30 40 50]) fresh (Status 0 0 0 0 0))
    as (m' & rows & E & Hw & Hr).
  - reflexivity.
  - repeat constructor; vm_compute; reflexivity || discriminate.
  - eexists m', _, rows. split_and!; [exact E|exact Hw|]. rewrite Hr. vm_compute. reflexivity.
Defined.

(** A coordinator without clones. *)
Definition demo_coordinator : clone_state (T := hashtable) := set_clone_num_table (mt_create 16) clone_state0.



Lemma clone_refused_stuck_witness :
  exists e m' cs', clone_coordinator (fun _ => 1205) 2 [0] (Some (1203, str "no")) 0 [] fresh demo_coordinator =
    Ret (Some (e, m', cs', [str "PROXY CLONE 2;"])) /\ cloning cs' = 1.
Proof.
  destruct (clone_refused_stuck (fun _ => 1205) 2 [0] 1203 (str "no") [] fresh demo_coordinator) as (e & m' & cs' & E & Hc & _).
  - lia.
  - reflexivity.
  - left.
  - exists e, m', cs'. split; [exact E|exact Hc].
Defined.
