(* ===== verification/Startup.v ===== *)
(** * Start and end of the proxy
      (src/src/proxy.c: [main]; src/src/proxy_logging.c; src/src/proxy_monitor.c;
      [proxy_backend_init] of src/src/proxy_backend.c)

    [main] as a function of the options and of what the system and the other threads do: the
    exit code, or that it never returns, and the actions in their order.  The options
    are parsed by Options.v, the backends connected by BackendArrays.v and closed by
    Shutdown.v.  The log files are explicit, since the end of the program closes them. *)

From Stdlib Require Import Ascii.
From S2P Require Import Prelude CString Options Pool Clone Backend BackendArrays Shutdown.
Local Open Scope Z_scope.

(** ** Log files *)

Inductive file := Stdout | Stderr | LogFile.

#[export] Instance file_eq_dec : EqDecision file.
Proof. solve_decision. Defined.

(** [info_log] and [err_log]. *)
Record logs := Logs { info_log : option file; err_log : option file }.

Definition logs0 : logs := Logs None None.

(** TRUE on error; [fopen] tells if the file can be opened. *)
Definition proxy_log_open (daemonize fopen : bool) (l : logs) : bool * logs :=
  if daemonize then
    if fopen then (false, Logs (Some LogFile) (Some LogFile)) else (true, Logs None None)
  else match info_log l with
       | Some _ => (false, l)
       | None => (false, Logs (Some Stdout) (Some Stderr))
       end.

(** Closing one log file; a file that is closed may not be used again. *)
Definition close_log (f : option file) (closed : list file) : outcome (list file) :=
  match f with
  | None => Ret closed
  | Some f => if decide (f ∈ closed) then Undef else Ret (f :: closed)
  end.

Definition proxy_log_close (l : logs) : outcome (list file) :=
  closed ← close_log (info_log l) []; close_log (err_log l) closed.

(** The levels, in the order of their numbers. *)
Inductive log_level_t := LOG_ERROR | LOG_INFO | LOG_DEBUG.

Definition level_number (l : log_level_t) : Z := match l with LOG_ERROR => 0 | LOG_INFO => 1 | LOG_DEBUG => 2 end.

(** [_proxy_log] in a build that logs up to [log_level]: the file that is written;
    writing to a null file is undefined. *)
Definition _proxy_log (log_level level : log_level_t) (l : logs) : outcome (option file) :=
  if level_number log_level <? level_number level then Ret None
  else
    match (match level with LOG_ERROR => err_log l | _ => info_log l end) with
    | Some f => Ret (Some f)
    | None => Undef
    end.

(** ** The mapper library *)

(** [proxy_backend_init]: TRUE on error, and whether there is a mapper.  [lt_*] is
    what the calls of libltdl return. *)
Definition proxy_backend_init (mapper : option (list Z)) (lt_init_error lt_open lt_sym : bool) : bool * bool :=
  match mapper with
  | None => (false, false)
  | Some _ =>
      if lt_init_error then (true, false)
      else if negb lt_open then (true, false)
      else (negb lt_sym, lt_sym)
  end.

(** ** [main] *)

Definition EX_SOFTWARE : Z := 70.
Definition EX_OSERR : Z := 71.

(** [BackendClose] with the number of connections that were closed. *)
Inductive action :=
| WritePid
| ThreadingInit
| StartClients
| BackendInit
| BackendConnect
| StatusReset
| MonitorInit
| TransInit
| CloneInit
| StartAdmin
| Serve
| JoinAdmin
| CancelClients
| BackendClose (closed : nat)
| TransEnd
| CloneEnd
| MonitorEnd
| ThreadingEnd
| UnlinkPid.

#[export] Instance action_eq_dec : EqDecision action.
Proof. solve_decision. Defined.

(** What happens:
    - the options as [getopt_long] returns them;
    - whether the PID file exists, can the log be opened, can the process become a
      daemon, can the PID file be written;
    - what the calls of libltdl return, the content of the file of backends, and
      which connection attempts succeed;
    - whether the server can bind its socket, and, if the server and then the
      administrative thread end (see Listen.v for when they do), the arrays of backends as
      the clients and the administrators leave them;
    - whether the client threads, the backend threads and the monitor end when they are
      joined. *)
Record world := World {
  w_args : list (Ascii.ascii * option (list Z));
  w_pid_exists : bool;
  w_fopen : bool;
  w_daemon : bool;
  w_pid : bool;
  w_lt_init_error : bool;
  w_lt_open : bool;
  w_lt_sym : bool;
  w_file : option (list Z);
  w_connect : nat -> option (list Z) -> list Z -> Z -> bool;
  w_bind : bool;
  w_run : backend_state -> option backend_state;
  w_clients : bool;
  w_workers : bool;
  w_monitor : bool
}.

(** From label [out_free] on. *)
Definition finish (wrote_pid : bool) (l : logs) (ret : Z) (acts : list action) : outcome (option Z * list action) :=
  let acts := if wrote_pid then acts ++ [UnlinkPid] else acts in
  _ ← proxy_log_close l;
  Ret (Some ret, acts).

(** From label [out] on; [monitor_started] tells if there is a monitor to join.  [None]: the
    program never ends. *)
Definition shutdown (w : world) (o : options_t) (s : backend_state) (monitor_started : bool) (l : logs) (ret : Z)
  (acts : list action) : outcome (option Z * list action) :=
  let acts := acts ++ [CancelClients] in
  if negb (w_clients w) then Ret (None, acts)
  else if is_some (backend_threads s) && negb (w_workers w) then Ret (None, acts)
  else
    closed ← proxy_backend_close o s;
    let acts := acts ++ [BackendClose closed; TransEnd; CloneEnd] in
    if monitor_started && negb (w_monitor w) then Ret (None, acts)
    else finish (w_pid w) l ret (acts ++ [MonitorEnd; ThreadingEnd]).

(** The backends of a file, or the one of the options. *)
Definition backends_start (w : world) (o : options_t) : outcome (bool * backend_state) :=
  match backend_file o with
  | Some _ => proxy_backends_connect o (w_connect w) (w_file w) backend_state0
  | None => proxy_backend_connect o (w_connect w) backend_state0
  end.

(** From the reset of the status to the end of the administrative thread.  It waits until the
    server runs; [server_run] sets [run] only after its socket is bound, so that
    the join does not return when it is not. *)
Definition serve (w : world) (o : options_t) (s : backend_state) (l : logs) (acts : list action)
  : outcome (option Z * list action) :=
  let acts := acts ++ [StatusReset; MonitorInit; TransInit; CloneInit; StartAdmin; Serve] in
  if negb (w_bind w) then Ret (None, acts)
  else match w_run w s with
       | None => Ret (None, acts)
       | Some s => shutdown w o s true l EXIT_SUCCESS (acts ++ [JoinAdmin])
       end.

Section main.
(** As in Options.v: the default socket, the address of an interface, and the files
    that can be read. *)
Variable MYSQL_UNIX_ADDR : list Z.
Variable iface_ip : list Z -> list Z.
Variable readable : list Z -> bool.

Definition main (w : world) : outcome (option Z * list action) :=
  let '(ret, o) := proxy_options_parse MYSQL_UNIX_ADDR iface_ip readable (w_args w) in
  if negb (ret =? EXIT_SUCCESS) then finish false logs0 ret []
  else if w_pid_exists w then finish false logs0 EX_SOFTWARE []
  else
    let '(log_error, l) := proxy_log_open (daemonize o) (w_fopen w) logs0 in
    if log_error then finish false l EXIT_SUCCESS []
    else if daemonize o && negb (w_daemon w) then finish false l EX_OSERR []
    else
      let acts := (if w_pid w then [WritePid] else []) ++ [ThreadingInit; StartClients; BackendInit] in
      let '(error, _) := proxy_backend_init (mapper o) (w_lt_init_error w) (w_lt_open w) (w_lt_sym w) in
      if error then shutdown w o backend_state0 false l EX_SOFTWARE acts
      else
        '(error, s) ← backends_start w o;
        let acts := acts ++ [BackendConnect] in
        if (error : bool) then shutdown w o s false l EX_SOFTWARE acts
        else serve w o s l acts.

(** ** Properties *)







(** A daemon never ends properly.  Both log variables are the same file, and
    [proxy_log_close] closes each of them: whenever [main] reaches its end with
    an open log file, it closes the file twice.  And when the log file cannot be
    opened, [main] returns zero, as if it had succeeded. *)
Theorem daemon_ends w o :
  proxy_options_parse MYSQL_UNIX_ADDR iface_ip readable (w_args w) = (EXIT_SUCCESS, o) ->
  daemonize o = true -> w_pid_exists w = false ->
  if w_fopen w then main w = Undef \/ exists acts, main w = Ret (None, acts)
  else main w = Ret (Some EXIT_SUCCESS, []).
Proof.
  intros Hp Hd Hx. unfold main. rewrite Hp, Hx, Hd. cbn [Z.eqb EXIT_SUCCESS negb proxy_log_open logs0 info_log andb].
  destruct (w_fopen w); [|done].
  assert (Hsh : forall s m ret acts, shutdown w o s m (Logs (Some LogFile) (Some LogFile)) ret acts = Undef \/
    exists acts', shutdown w o s m (Logs (Some LogFile) (Some LogFile)) ret acts = Ret (None, acts')).
  { intros s m ret acts. unfold shutdown. destruct (negb (w_clients w)); [eauto|]. destruct (_ && _); [eauto|].
    destruct (proxy_backend_close o s); [|eauto]. cbn [mbind outcome_bind]. destruct (_ && _); eauto. }
  destruct (w_daemon w); [cbn [negb andb]|by left].
  destruct (proxy_backend_init _ _ _ _) as [[] m]; [apply Hsh|].
  destruct (backends_start w o) as [[e s]|]; [|by left]. cbn [mbind outcome_bind].
  destruct e; [apply Hsh|]. unfold serve. destruct (w_bind w); [|eauto]. destruct (w_run w s); [|eauto]. apply Hsh.
Qed.

End main.

Definition demo_main (w : world) : outcome (option Z * list action) :=
  main (str "/tmp/mysql.sock") (fun _ => str "10.0.0.1") (fun _ => true) w.
Definition daemon_opts : options_t := Eval vm_compute in
  snd (proxy_options_parse (str "/tmp/mysql.sock") (fun _ => str "10.0.0.1") (fun _ => true) [("d"%char, None)]).


Lemma daemon_ends_witness :
  demo_main (World [("d"%char, None)] false false true true false true true None (fun _ _ _ _ => true) true (fun s => Some s)
    true true true) = Ret (Some EXIT_SUCCESS, []).
Proof.
  apply (daemon_ends (str "/tmp/mysql.sock") (fun _ => str "10.0.0.1") (fun _ => true)
    (World [("d"%char, None)] false false true true false true true None (fun _ _ _ _ => true) true (fun s => Some s) true true true)
    daemon_opts); vm_compute; reflexivity.
Defined.
