(* ===== verification/Workers.v ===== *)
(** * Backend threads (src/src/proxy_backend.c: [proxy_backend_new_thread] and the
      hand-over of a query in [proxy_backend_query]; src/src/proxy_threading.c:
      the hand-shake of [proxy_threading_cancel])

    Every backend has the same number of threads.  A client thread with a
    replicated query takes an index [t] from the pool of the backend threads and
    gives the query to thread [t] of each backend, one after the other: it writes
    the query under the lock of the thread and signals its condition variable.  The
    thread holds its lock all the time except in [proxy_cond_wait].  A step of
    the model is one access of a shared variable, of a lock or of the pool;
    waits on a condition variable may end at any time, as POSIX allows. *)

From S2P Require Import Prelude Pool TwoPhase.

(** ** State *)

(** The query [jk] (a number) of client thread [jc]; [jproxy] tells if
    [bquery->proxy] is the client connection or NULL. *)
Record job := Job { jc : nat; jk : nat; jproxy : bool }.

Definition key (j : job) : nat * nat := (jc j, jk j).

#[export] Instance job_eq_dec : EqDecision job.
Proof. solve_decision. Defined.

(** A backend thread in [proxy_backend_new_thread]. *)
Inductive tpc :=
| TStart                      (* has not taken its lock yet *)
| TTop                        (* tests thread->exit *)
| TLoop                       (* tests query->query and thread->exit *)
| TSleep                      (* in proxy_cond_wait *)
| TWake                       (* woken, waits for the lock *)
| TTest                       (* tests thread->exit again *)
| TRun (j : job)              (* in backend_query, before the barrier *)
| TTail (j : job)             (* in backend_query, has arrived at the barrier *)
| TClear                      (* sets query->query to NULL *)
| TExit.

#[export] Instance tpc_eq_dec : EqDecision tpc.
Proof. solve_decision. Defined.

Inductive holder := HWorker | HClient (c : nat).

#[export] Instance holder_eq_dec : EqDecision holder.
Proof. solve_decision. Defined.

(** A [proxy_thread_t]: [query] is [data.backend.query], [tstat] is [status],
    the client whose counters it points to.  [given] and [ran] record what was
    written to [query] and the calls of [backend_query]. *)
Record slot := Slot {
  pc : tpc;
  lock : option holder;
  exit : bool;
  query : option job;
  tstat : option nat;
  given : list job;
  ran : list (job * option nat)
}.

Definition slot0 : slot := Slot TStart None false None None [] [].

(** A client thread in the loop that gives the query to backend number [i]:
    it sets [thread->status], waits for the lock, writes the query, signals, and
    unlocks. *)
Inductive phase := PStatus | PLock | PFill | PSignal | PUnlock.

#[export] Instance phase_eq_dec : EqDecision phase.
Proof. solve_decision. Defined.

Inductive cpc :=
| CIdle
| CDisp (t start i : nat) (ph : phase)
| CWait (t start : nat)       (* in the barrier *)
| CReturn (t start : nat).    (* returns the threads to the pool *)

(** [hist] are the thread index and the start of each query that has ended, [bar]
    the backends that arrived at the barrier of the current one. *)
Record client := Client { hist : list (nat * nat); cst : cpc; bar : gset nat }.

(** [proxy_threading_cancel] on one thread: it sets [exit], takes the lock and
    signals, and takes the lock once more. *)
Inductive xpc := XIdle | XSignal (b t : nat) | XAgain (b t : nat).

Record state := State {
  pool : pool_t;
  clients : list client;
  slots : gmap (nat * nat) slot;
  canc : xpc
}.

(** Signalling the condition variable of a thread. *)
Definition wake (p : tpc) : tpc := match p with TSleep => TWake | p => p end.

Definition set_pc (p : tpc) (s : slot) : slot :=
  Slot p (lock s) (exit s) (query s) (tstat s) (given s) (ran s).
Definition set_lck (h : option holder) (s : slot) : slot :=
  Slot (pc s) h (exit s) (query s) (tstat s) (given s) (ran s).

Section system.
(** [nb] backends. *)
Variable nb : nat.

(** ** Steps of a backend thread *)

Inductive tstep : slot -> slot -> Prop :=
| t_start s : pc s = TStart -> lock s = None -> tstep s (set_pc TTop (set_lck (Some HWorker) s))
| t_top_exit s : pc s = TTop -> exit s = true -> tstep s (set_pc TExit (set_lck None s))
| t_top s : pc s = TTop -> exit s = false -> tstep s (set_pc TLoop s)
| t_sleep s : pc s = TLoop -> query s = None -> exit s = false -> tstep s (set_pc TSleep (set_lck None s))
| t_ready s : pc s = TLoop -> query s <> None \/ exit s = true -> tstep s (set_pc TTest s)
| t_spurious s : pc s = TSleep -> tstep s (set_pc TWake s)
| t_wake s : pc s = TWake -> lock s = None -> tstep s (set_pc TLoop (set_lck (Some HWorker) s))
| t_exit s : pc s = TTest -> exit s = true -> tstep s (set_pc TExit (set_lck None s))
| t_call s j :
    pc s = TTest -> exit s = false -> query s = Some j ->
    tstep s (Slot (TRun j) (lock s) (exit s) (query s) (tstat s) (given s) (ran s ++ [(j, tstat s)]))
| t_skip s j : pc s = TRun j -> tstep s (set_pc TClear s)
| t_tail s j : pc s = TTail j -> tstep s (set_pc TClear s)
| t_clear s :
    pc s = TClear -> tstep s (Slot TTop (lock s) (exit s) None (tstat s) (given s) (ran s)).

(** The client thread goes on to the next backend, or to the barrier. *)
Definition next (t start i : nat) : cpc := if S i =? nb then CWait t start else CDisp t start (S i) PStatus.

(** ** Steps of the whole system *)

Inductive step : state -> state -> Prop :=
| s_thread p cls sl x k s s' :
    sl !! k = Some s -> tstep s s' -> step (State p cls sl x) (State p cls (<[k := s']> sl) x)
| s_arrive p cls sl x b t s j h cp r :
    sl !! (b, t) = Some s -> pc s = TRun j -> cls !! jc j = Some (Client h cp r) ->
    step (State p cls sl x)
         (State p (<[jc j := Client h cp ({[b]} ∪ r)]> cls) (<[(b, t) := set_pc (TTail j) s]> sl) x)
| s_get p cls sl x c h r rnd i p' start :
    cls !! c = Some (Client h CIdle r) -> (0 <= rnd)%Z -> pool_try_locks p rnd = Ret (i, p') -> (0 <= i)%Z ->
    step (State p cls sl x)
         (State p' (<[c := Client h (CDisp (Z.to_nat i) start 0 PStatus) ∅]> cls) sl x)
| s_status p cls sl x c h r t start i s :
    cls !! c = Some (Client h (CDisp t start i PStatus) r) -> sl !! (target nb start i, t) = Some s ->
    step (State p cls sl x)
         (State p (<[c := Client h (CDisp t start i PLock) r]> cls)
            (<[(target nb start i, t) := Slot (pc s) (lock s) (exit s) (query s) (Some c) (given s) (ran s)]> sl) x)
| s_lock p cls sl x c h r t start i s :
    cls !! c = Some (Client h (CDisp t start i PLock) r) -> sl !! (target nb start i, t) = Some s ->
    lock s = None ->
    step (State p cls sl x)
         (State p (<[c := Client h (CDisp t start i PFill) r]> cls)
            (<[(target nb start i, t) := set_lck (Some (HClient c)) s]> sl) x)
| s_fill p cls sl x c h r t start i s :
    cls !! c = Some (Client h (CDisp t start i PFill) r) -> sl !! (target nb start i, t) = Some s ->
    step (State p cls sl x)
         (State p (<[c := Client h (CDisp t start i PSignal) r]> cls)
            (<[(target nb start i, t) :=
                 Slot (pc s) (lock s) (exit s) (Some (Job c (length h) (i =? 0))) (tstat s)
                   (given s ++ [Job c (length h) (i =? 0)]) (ran s)]> sl) x)
| s_signal p cls sl x c h r t start i s :
    cls !! c = Some (Client h (CDisp t start i PSignal) r) -> sl !! (target nb start i, t) = Some s ->
    step (State p cls sl x)
         (State p (<[c := Client h (CDisp t start i PUnlock) r]> cls)
            (<[(target nb start i, t) := set_pc (wake (pc s)) s]> sl) x)
| s_unlock p cls sl x c h r t start i s :
    cls !! c = Some (Client h (CDisp t start i PUnlock) r) -> sl !! (target nb start i, t) = Some s ->
    step (State p cls sl x)
         (State p (<[c := Client h (next t start i) r]> cls)
            (<[(target nb start i, t) := set_lck None s]> sl) x)
| s_barrier p cls sl x c h r t start :
    cls !! c = Some (Client h (CWait t start) r) -> (forall b, b < nb -> b ∈ r) ->
    step (State p cls sl x) (State p (<[c := Client h (CReturn t start) r]> cls) sl x)
| s_return p cls sl x c h r t start p' :
    cls !! c = Some (Client h (CReturn t start) r) -> proxy_pool_return p (Z.of_nat t) = Ret p' ->
    step (State p cls sl x) (State p' (<[c := Client (h ++ [(t, start)]) CIdle r]> cls) sl x)
| s_cancel p cls sl b t s :
    sl !! (b, t) = Some s -> exit s = false ->
    step (State p cls sl XIdle)
         (State p cls (<[(b, t) := Slot (pc s) (lock s) true (query s) (tstat s) (given s) (ran s)]> sl) (XSignal b t))
| s_cancel_signal p cls sl b t s :
    sl !! (b, t) = Some s -> lock s = None ->
    step (State p cls sl (XSignal b t)) (State p cls (<[(b, t) := set_pc (wake (pc s)) s]> sl) (XAgain b t))
| s_cancel_again p cls sl b t s :
    sl !! (b, t) = Some s -> lock s = None ->
    step (State p cls sl (XAgain b t)) (State p cls sl XIdle).


(** The threads are created, idle; [n] client threads. *)
Definition slots0 (nt : nat) : gmap (nat * nat) slot :=
  gset_to_gmap slot0 (list_to_set (list_prod (seq 0 nb) (seq 0 nt))).

Definition init (nt : Z) (n : nat) : outcome state :=
  p ← proxy_pool_new nt;
  match p with
  | Some p => Ret (State p (replicate n (Client [] CIdle ∅)) (slots0 (Z.to_nat nt)) XIdle)
  | None => Undef
  end.

Definition reachable (nt : Z) (n : nat) (st : state) : Prop :=
  exists s0, init nt n = Ret s0 /\ rtc step s0 st.

(** ** Invariant *)

(** What a client thread means for thread [t] of backend [b]. *)
Definition tst (cl : client) : tstate :=
  match cst cl with
  | CIdle => TIdle
  | CDisp t _ _ _ | CWait t _ | CReturn t _ => THeld (Z.of_nat t)
  end.

(** The phase in which it works on that thread. *)
Definition at_slot (cp : cpc) (b t : nat) : option phase :=
  match cp with
  | CDisp t' start i ph => if decide (t' = t /\ target nb start i = b) then Some ph else None
  | _ => None
  end.

Definition locks (o : option phase) : bool :=
  match o with Some PFill | Some PSignal | Some PUnlock => true | _ => false end.

(** The thread has got the current query, from iteration number [j]. *)
Definition filled (cp : cpc) (b t : nat) (start j : nat) : Prop :=
  target nb start j = b /\ j < nb /\
  match cp with
  | CIdle => False
  | CDisp t' start' i ph =>
      t' = t /\ start' = start /\ (j < i \/ (j = i /\ (ph = PSignal \/ ph = PUnlock)))
  | CWait t' start' | CReturn t' start' => t' = t /\ start' = start
  end.

(** It was given query [k], with [start]. *)
Definition gave (cl : client) (b t k start : nat) : Prop :=
  hist cl !! k = Some (t, start) \/ (k = length (hist cl) /\ exists j, filled (cst cl) b t start j).

(** It was given the current query [k] and has not arrived at the barrier. *)
Definition open_ (cl : client) (b t k : nat) : Prop :=
  k = length (hist cl) /\ (exists start j, filled (cst cl) b t start j) /\ (b ∉ bar cl) /\
  match cst cl with CReturn _ _ => False | _ => True end.

(** The query that a thread has got and has not begun. *)
Definition pending (s : slot) : list job :=
  match pc s, query s with
  | (TRun _ | TTail _ | TClear), _ | _, None => []
  | _, Some j => [j]
  end.

Definition worker_holds (p : tpc) : bool :=
  match p with TStart | TSleep | TWake | TExit => false | _ => true end.

Definition unarrived (s : slot) (j : job) : Prop := j ∈ pending s \/ pc s = TRun j.

(** A job as it should be when it is given. *)
Definition job_ok (cls : list client) (b t : nat) (j : job) : Prop :=
  exists cl start, cls !! jc j = Some cl /\ gave cl b t (jk j) start /\ jproxy j = bool_decide ((target nb start 0) = b).

Record slot_ok (cls : list client) (x : xpc) (b t : nat) (s : slot) : Prop := {
  k_worker : lock s = Some HWorker <-> worker_holds (pc s) = true;
  k_client : forall c, lock s = Some (HClient c) <->
    exists cl, cls !! c = Some cl /\ locks (at_slot (cst cl) b t) = true;
  k_query : match pc s with
            | TRun j | TTail j => query s = Some j
            | TTest => query s <> None \/ exit s = true
            | _ => True
            end;
  k_given : given s = (fst <$> ran s) ++ pending s;
  k_open : forall j, unarrived s j -> exists cl, cls !! jc j = Some cl /\ open_ cl b t (jk j);
  k_jobs : Forall (job_ok cls b t) (given s);
  k_once : NoDup (key <$> given s);
  k_gave : forall c cl k start, cls !! c = Some cl -> gave cl b t k start -> (c, k) ∈ (key <$> given s);
  k_sleep : pc s = TSleep -> query s <> None ->
    exists c cl, cls !! c = Some cl /\ at_slot (cst cl) b t = Some PSignal;
  k_exit : pc s = TSleep -> exit s = true -> x = XSignal b t;
  k_pend : forall j, j ∈ pending s -> tstat s = Some (jc j);
  k_tstat : forall c cl ph, cls !! c = Some cl -> at_slot (cst cl) b t = Some ph -> ph <> PStatus ->
    tstat s = Some c;
  k_ran : Forall (fun r => snd r = Some (jc (fst r))) (ran s)
}.

Definition client_ok (nt : nat) (cl : client) : Prop :=
  Forall (fun h => (fst h < nt)%nat) (hist cl) /\
  (cst cl <> CIdle -> forall b, b ∈ bar cl -> exists t start j, filled (cst cl) b t start j) /\
  match cst cl with
  | CIdle => True
  | CDisp t _ i _ => t < nt /\ i < nb
  | CWait t _ | CReturn t _ => t < nt
  end.

Record inv (nt : nat) (st : state) : Prop := {
  v_sys : sys_ok (Sys (pool st) (tst <$> clients st));
  v_size : psize (pool st) = Z.of_nat nt;
  v_client : Forall (client_ok nt) (clients st);
  v_dom : forall b t, is_Some (slots st !! (b, t)) <-> b < nb /\ t < nt;
  v_slot : forall b t s, slots st !! (b, t) = Some s -> slot_ok (clients st) (canc st) b t s
}.

(** Two client threads do not hold the same index. *)
Lemma client_excl nt st c c' cl cl' t :
  inv nt st -> clients st !! c = Some cl -> clients st !! c' = Some cl' ->
  tst cl = THeld (Z.of_nat t) -> tst cl' = THeld (Z.of_nat t) -> c = c'.
Proof.
  intros [Hs _ _ _ _] Hc Hc' E E'. apply (sys_excl _ Hs c c' (Z.of_nat t)); simpl;
    rewrite list_lookup_fmap; [rewrite Hc|rewrite Hc']; simpl; by rewrite ?E, ?E'.
Qed.

Lemma at_slot_tst cl b t ph : at_slot (cst cl) b t = Some ph -> tst cl = THeld (Z.of_nat t).
Proof. unfold at_slot, tst. destruct (cst cl); try done. case_decide; naive_solver. Qed.

Lemma filled_tst cl b t start j : filled (cst cl) b t start j -> tst cl = THeld (Z.of_nat t).
Proof. unfold filled, tst. destruct (cst cl); naive_solver. Qed.

(** A client thread changes without a meaning for this slot. *)
Definition same_view (cl cl' : client) (b t : nat) : Prop :=
  locks (at_slot (cst cl') b t) = locks (at_slot (cst cl) b t) /\
  (at_slot (cst cl) b t = Some PSignal -> at_slot (cst cl') b t = Some PSignal) /\
  (forall ph, at_slot (cst cl') b t = Some ph -> ph <> PStatus ->
     exists ph', at_slot (cst cl) b t = Some ph' /\ ph' <> PStatus) /\
  (forall k start, gave cl' b t k start <-> gave cl b t k start).

Lemma ins_cases {A} (l : list A) i x y j z :
  l !! i = Some x -> <[i := y]> l !! j = Some z -> (j = i /\ z = y) \/ (j <> i /\ l !! j = Some z).
Proof.
  intros Hi H. destruct (decide (i = j)) as [->|Hne].
  - left. split; [done|]. rewrite list_lookup_insert_eq in H by eauto using lookup_lt_Some. congruence.
  - right. by rewrite list_lookup_insert_ne in H.
Qed.

Lemma insert_other {A} (l : list A) i x (P : A -> A -> Prop) y j z :
  l !! i = Some x -> P x y -> (forall z, P z z) -> l !! j = Some z -> exists z', <[i := y]> l !! j = Some z' /\ P z z'.
Proof.
  intros Hi HP Hr Hj. destruct (decide (i = j)) as [->|Hne].
  - exists y. rewrite list_lookup_insert_eq by eauto using lookup_lt_Some. naive_solver.
  - exists z. by rewrite list_lookup_insert_ne.
Qed.


Lemma slot_ok_client cls x b t s c cl cl' :
  slot_ok cls x b t s -> cls !! c = Some cl -> same_view cl cl' b t ->
  (forall j, unarrived s j -> open_ cl b t (jk j) -> open_ cl' b t (jk j)) ->
  slot_ok (<[c := cl']> cls) x b t s.
Proof.
  intros [Hw Hc Hq Hg Ho Hj Hn Hgv Hsl He Hp Ht Hr] Hcl V Vo.
  assert (Hlk : forall c' z, <[c := cl']> cls !! c' = Some z ->
    exists z0, cls !! c' = Some z0 /\ same_view z0 z b t).
  { intros c' z [[-> ->]|[Hne Hz]]%(ins_cases _ _ _ _ _ _ Hcl); [eauto|].
    exists z. split; [done|]. split_and!; eauto. }
  assert (Hkl : forall c' z0, cls !! c' = Some z0 -> exists z, <[c := cl']> cls !! c' = Some z /\ same_view z0 z b t).
  { intros c' z0 Hz. eapply (insert_other cls c cl (fun u v => same_view u v b t)); [done..| |done].
    intros z. split_and!; eauto. }
  split; try done.
  - intros c'. rewrite Hc. split.
    + intros (z & Hz & HL). destruct (Hkl _ _ Hz) as (z' & Hz' & V' & _). exists z'. by rewrite V'.
    + intros (z & Hz & HL). destruct (Hlk _ _ Hz) as (z' & Hz' & V' & _). exists z'. by rewrite <-V'.
  - intros j Hu. destruct (Ho j Hu) as (z & Hz & HL). destruct (decide (c = jc j)) as [->|Hne].
    + exists cl'. rewrite Hcl in Hz. injection Hz as <-.
      rewrite list_lookup_insert_eq by eauto using lookup_lt_Some. eauto.
    + exists z. by rewrite list_lookup_insert_ne.
  - eapply Forall_impl; [exact Hj|]. intros j (z & start & Hz & HL & HP).
    destruct (Hkl _ _ Hz) as (z' & Hz' & _ & _ & _ & V'). exists z', start. by rewrite V'.
  - intros c' z k start (z0 & Hz & _ & _ & _ & V')%Hlk HG%V'. eauto.
  - intros H1 H2. destruct (Hsl H1 H2) as (c' & z & Hz & HL). destruct (Hkl _ _ Hz) as (z' & Hz' & _ & V' & _).
    exists c', z'. eauto.
  - intros c' z ph (z0 & Hz & _ & _ & V' & _)%Hlk Ha Hph. destruct (V' ph Ha Hph) as (ph' & Ha' & Hph'). eauto.
Qed.

(** Two slots that differ where no client thread looks. *)
Lemma slot_ok_mono cls x b t s s' :
  slot_ok cls x b t s ->
  (lock s' = lock s \/ (lock s = None /\ lock s' = Some HWorker) \/ (lock s = Some HWorker /\ lock s' = None)) ->
  (lock s' = Some HWorker <-> worker_holds (pc s') = true) ->
  match pc s' with
  | TRun j | TTail j => query s' = Some j
  | TTest => query s' <> None \/ exit s' = true
  | _ => True
  end ->
  given s' = given s -> given s' = (fst <$> ran s') ++ pending s' ->
  (forall j, unarrived s' j -> unarrived s j) ->
  (pc s' = TSleep -> query s' <> None -> exists c cl, cls !! c = Some cl /\ at_slot (cst cl) b t = Some PSignal) ->
  (pc s' = TSleep -> exit s' = true -> x = XSignal b t) ->
  (forall j, j ∈ pending s' -> j ∈ pending s) -> tstat s' = tstat s ->
  Forall (fun r => snd r = Some (jc (fst r))) (ran s') -> slot_ok cls x b t s'.
Proof.
  intros [Hw Hc Hq Hg Ho Hj Hn Hgv Hsl He Hp Ht Hr] Hl Hw' Hq' Hg' Hg2 Ho' Hsl' He' Hp' Ht' Hr'.
  split; rewrite ?Hg'; rewrite ?Ht'; try done; try congruence; eauto.
  intros c. rewrite <-Hc. destruct Hl as [->|[[-> ->]|[-> ->]]]; naive_solver.
Qed.

Lemma tstep_ok cls x b t s s' : slot_ok cls x b t s -> tstep s s' -> slot_ok cls x b t s'.
Proof.
  intros Hok Hst. pose proof Hok as [Hw Hc Hq Hg Ho Hj Hn Hgv Hsl He Hp Ht Hr]. clear Hc Ho Hj Hn Hgv Ht.
  destruct Hst as [s E El|s E Ex|s E Ex|s E Eq Ex|s E Eq|s E|s E El|s E Ex|s j E Ex Eq|s j E|s j E|s E];
    rewrite E in Hw, Hq; apply (slot_ok_mono cls x b t s _ Hok); clear Hok; simpl;
    unfold unarrived, pending in *; simpl in *; rewrite ?E in *; simpl in *; try done; try tauto.
  all: try (intros ? [?|?]; [by left|done]); try congruence.
  - rewrite Eq in Hg. by rewrite app_nil_r, fmap_app, Hg.
  - rewrite Eq. intros j' [?%elem_of_nil|[= ->]]; [done|]. left. by apply list_elem_of_singleton.
  - by intros ? ?%elem_of_nil.
  - rewrite Eq in Hp. apply Forall_app. split; [done|]. constructor; [|done]. apply Hp. by apply list_elem_of_singleton.
Qed.

(** The condition variable of the thread is signalled. *)
Lemma wake_ok cls x b t s : slot_ok cls x b t s -> slot_ok cls x b t (set_pc (wake (pc s)) s).
Proof.
  intros Hok. destruct (decide (pc s = TSleep)) as [E|E].
  - apply (tstep_ok cls x b t s); [done|]. rewrite E. by constructor.
  - replace (set_pc (wake (pc s)) s) with s; [done|]. destruct s; simpl in *. destruct pc0; by simplify_eq.
Qed.

(** The canceller works on another slot. *)
Lemma slot_ok_canc cls x x' b t s :
  slot_ok cls x b t s -> x <> XSignal b t \/ pc s <> TSleep -> slot_ok cls x' b t s.
Proof. intros [] Hx. split; try done. intros H1 H2. naive_solver. Qed.


(** ** The invariant is preserved *)

Hypothesis Hnb : 1 <= nb.

(** A step of the threads of one slot keeps the rest. *)
Lemma inv_slot nt p cls sl x x' b t s s' :
  inv nt (State p cls sl x) -> sl !! (b, t) = Some s ->
  (slot_ok cls x b t s -> slot_ok cls x' b t s') ->
  (forall b' t' s', (b', t') <> (b, t) -> slot_ok cls x b' t' s' -> slot_ok cls x' b' t' s') ->
  inv nt (State p cls (<[(b, t) := s']> sl) x').
Proof.
  intros [Hs Hz Hc Hd Hsl] Hb Hok Hother. split; simpl in *; try done.
  - intros b' t'. rewrite <-Hd. destruct (decide ((b, t) = (b', t'))) as [<-|Hne].
    + rewrite lookup_insert_eq. naive_solver.
    + by rewrite lookup_insert_ne.
  - intros b' t' u. destruct (decide ((b, t) = (b', t'))) as [E|Hne].
    + injection E as <- <-. rewrite lookup_insert_eq. intros [= <-]. eauto.
    + rewrite lookup_insert_ne by done. intros Hu. apply Hother; [congruence|]. eauto.
Qed.

(** A step of a client thread that keeps its index of the pool. *)
Lemma inv_client nt p cls sl x c cl cl' :
  inv nt (State p cls sl x) -> cls !! c = Some cl -> tst cl' = tst cl -> client_ok nt cl' ->
  (forall b t s, sl !! (b, t) = Some s -> b < nb -> slot_ok cls x b t s ->
     same_view cl cl' b t /\ (forall j, unarrived s j -> open_ cl b t (jk j) -> open_ cl' b t (jk j))) ->
  inv nt (State p (<[c := cl']> cls) sl x).
Proof.
  intros [Hs Hz Hc Hd Hsl] Hcl Et Hok Hv. split; simpl in *; try done.
  - rewrite list_fmap_insert, Et. rewrite list_insert_id; [done|]. by rewrite list_lookup_fmap, Hcl.
  - by apply Forall_insert.
  - intros b t s Hs'. assert (b < nb) as Hb by (apply (Hd b t); eauto).
    destruct (Hv b t s Hs' Hb (Hsl _ _ _ Hs')) as [V Vo]. eapply slot_ok_client; eauto.
Qed.

(** A client thread works on its slot: the slot it works on, and the others. *)
Lemma inv_both nt p cls sl x c cl cl' b t s s' :
  inv nt (State p cls sl x) -> cls !! c = Some cl -> tst cl' = tst cl -> client_ok nt cl' ->
  sl !! (b, t) = Some s ->
  (slot_ok cls x b t s -> slot_ok (<[c := cl']> cls) x b t s') ->
  (forall b' t', (b', t') <> (b, t) -> b' < nb -> same_view cl cl' b' t' /\
     (forall k, open_ cl b' t' k -> open_ cl' b' t' k)) ->
  inv nt (State p (<[c := cl']> cls) (<[(b, t) := s']> sl) x).
Proof.
  intros Hi Hcl Et Hok Hb Hslot Hv. destruct Hi as [Hs Hz Hc Hd Hsl]. split; simpl in *; try done.
  - rewrite list_fmap_insert, Et. rewrite list_insert_id; [done|]. by rewrite list_lookup_fmap, Hcl.
  - by apply Forall_insert.
  - intros b' t'. rewrite <-Hd. destruct (decide ((b, t) = (b', t'))) as [<-|Hne].
    + rewrite lookup_insert_eq. naive_solver.
    + by rewrite lookup_insert_ne.
  - intros b' t' u. destruct (decide ((b, t) = (b', t'))) as [E|Hne].
    + injection E as <- <-. rewrite lookup_insert_eq. intros [= <-]. eauto.
    + rewrite lookup_insert_ne by done. intros Hu.
      assert (b' < nb) as Hb' by (apply (Hd b' t'); eauto).
      destruct (Hv b' t' ltac:(congruence) Hb') as [V Vo]. eapply slot_ok_client; eauto.
Qed.

(** While a client thread works on a slot, nothing is pending there before it
    writes its query. *)
Lemma not_filled_pending nt p cls sl x c h r t start i ph s :
  inv nt (State p cls sl x) -> cls !! c = Some (Client h (CDisp t start i ph) r) ->
  sl !! (target nb start i, t) = Some s -> ph <> PSignal -> ph <> PUnlock ->
  forall j, ~ unarrived s j.
Proof.
  intros Hi Hc Hs H1 H2 j Hu.
  pose proof (v_slot _ _ Hi _ _ _ Hs) as Hok. simpl in Hok.
  destruct (k_open _ _ _ _ _ Hok j Hu) as (cl & Hcl & _ & (start' & j' & Hf) & _ & _).
  pose proof (client_excl nt _ c (jc j) _ _ t Hi Hc Hcl eq_refl (filled_tst _ _ _ _ _ Hf)) as ->.
  simpl in Hcl. rewrite Hc in Hcl. injection Hcl as <-. destruct Hf as (Ht & Hj & _ & -> & Hlt).
  pose proof (v_client _ _ Hi) as Hco. simpl in Hco.
  pose proof (proj1 (Forall_lookup _ _) Hco _ _ Hc) as (_ & _ & _ & Hin). simpl in Hin.
  apply target_inj in Ht; [|lia..]. naive_solver lia.
Qed.


(** The slot a client thread works on.  No other client thread works on it. *)
Lemma slot_ok_both cls x b t s s' c cl cl' :
  slot_ok cls x b t s -> cls !! c = Some cl ->
  (forall c' z, c' <> c -> cls !! c' = Some z -> at_slot (cst z) b t = None) ->
  (lock s' = Some HWorker <-> worker_holds (pc s') = true) ->
  (lock s' = Some (HClient c) <-> locks (at_slot (cst cl') b t) = true) ->
  (forall c', c' <> c -> lock s' <> Some (HClient c')) ->
  match pc s' with
  | TRun j | TTail j => query s' = Some j
  | TTest => query s' <> None \/ exit s' = true
  | _ => True
  end ->
  given s' = (fst <$> ran s') ++ pending s' ->
  (forall j, unarrived s' j -> jc j = c /\ open_ cl' b t (jk j)) ->
  (forall k start, gave cl b t k start -> gave cl' b t k start) ->
  (forall k start, gave cl' b t k start -> (c, k) ∈ (key <$> given s')) ->
  (given s' = given s \/ exists j, given s' = given s ++ [j] /\ jc j = c /\ (key j ∉ (key <$> given s)) /\
     exists start, gave cl' b t (jk j) start /\ jproxy j = bool_decide (target nb start 0 = b)) ->
  (pc s' = TSleep -> query s' <> None -> at_slot (cst cl') b t = Some PSignal) ->
  (pc s' = TSleep -> exit s' = true -> pc s = TSleep /\ exit s = true) ->
  (forall j, j ∈ pending s' -> tstat s' = Some (jc j)) ->
  (forall ph, at_slot (cst cl') b t = Some ph -> ph <> PStatus -> tstat s' = Some c) ->
  ran s' = ran s -> slot_ok (<[c := cl']> cls) x b t s'.
Proof.
  intros [Hw Hc Hq Hg Ho Hj Hn Hgv Hsl He Hp Ht Hr] Hcl Hex H1 H2 H2' H3 H4 H5 H6 H7 H8 H9 H10 H11 H12 H13.
  assert (Hnew : <[c := cl']> cls !! c = Some cl').
  { apply list_lookup_insert_eq. eauto using lookup_lt_Some. }
  assert (Hold : forall j, job_ok cls b t j -> job_ok (<[c := cl']> cls) b t j).
  { intros j (z & start & Hz & HG & HP). destruct (decide (c = jc j)) as [->|Hne].
    - exists cl', start. rewrite Hcl in Hz. injection Hz as <-. eauto.
    - exists z, start. by rewrite list_lookup_insert_ne. }
  split; try done.
  - intros c'. destruct (decide (c' = c)) as [->|Hne].
    + rewrite H2. split; [eauto|]. intros (z & Hz & HL). rewrite Hnew in Hz. by injection Hz as <-.
    + split; [by intros ?%H2'|]. intros (z & Hz & HL). rewrite list_lookup_insert_ne in Hz by done.
      by rewrite (Hex c' z Hne Hz) in HL.
  - intros j [<- HO]%H5. eauto.
  - destruct H8 as [->|(j & -> & E & _ & start & HG & HP)]; [by eapply Forall_impl|].
    apply Forall_app. split; [by eapply Forall_impl|]. constructor; [|done]. exists cl', start. by rewrite E.
  - destruct H8 as [->|(j & -> & _ & Hni & _)]; [done|]. rewrite fmap_app. apply NoDup_app. split_and!; [done| |].
    + intros k Hk Hk'%list_elem_of_singleton. subst. done.
    + apply NoDup_singleton.
  - intros c' z k start Hz HG. destruct (decide (c' = c)) as [->|Hne].
    + rewrite Hnew in Hz. injection Hz as <-. eauto.
    + rewrite list_lookup_insert_ne in Hz by done. pose proof (Hgv c' z k start Hz HG) as Hin.
      destruct H8 as [->|(j & -> & _)]; [done|]. rewrite fmap_app. apply elem_of_app. by left.
  - intros Ha Hb. exists c, cl'. eauto.
  - intros Ha Hb. destruct (H10 Ha Hb). eauto.
  - intros c' z ph Hz HA Hph. destruct (decide (c' = c)) as [->|Hne].
    + rewrite Hnew in Hz. injection Hz as <-. eauto.
    + rewrite list_lookup_insert_ne in Hz by done. by rewrite (Hex c' z Hne Hz) in HA.
  - by rewrite H13.
Qed.

(** The phases of a client thread at one backend. *)
Lemma at_here t start i ph : at_slot (CDisp t start i ph) (target nb start i) t = Some ph.
Proof. unfold at_slot. by rewrite decide_True. Qed.

Lemma filled_here t start i ph s0 j :
  i < nb -> filled (CDisp t start i ph) (target nb start i) t s0 j <->
  j = i /\ s0 = start /\ (ph = PSignal \/ ph = PUnlock).
Proof.
  intros Hi. unfold filled. split.
  - intros (Ht & Hj & _ & -> & Hlt). apply target_inj in Ht; [|lia..]. naive_solver lia.
  - intros (-> & -> & Hph). naive_solver.
Qed.

Lemma gave_here h t start i ph r k s0 :
  i < nb -> gave (Client h (CDisp t start i ph) r) (target nb start i) t k s0 <->
  h !! k = Some (t, s0) \/ (k = length h /\ s0 = start /\ (ph = PSignal \/ ph = PUnlock)).
Proof.
  intros Hi. unfold gave. simpl. apply or_iff_compat_l. split.
  - intros [-> [j Hf]]. apply filled_here in Hf; naive_solver.
  - intros (-> & -> & Hph). split; [done|]. exists i. apply filled_here; naive_solver.
Qed.

Lemma alone nt p cls sl x c h t start i ph r c' z b :
  inv nt (State p cls sl x) -> cls !! c = Some (Client h (CDisp t start i ph) r) ->
  c' <> c -> cls !! c' = Some z -> at_slot (cst z) b t = None.
Proof.
  intros Hi Hc Hne Hz. destruct (at_slot (cst z) b t) eqn:E; [|done]. exfalso. apply Hne.
  by eapply (client_excl nt _ c' c z _ t Hi Hz Hc); [eapply at_slot_tst|].
Qed.

(** A new phase at the same backend says nothing about the other slots. *)
Lemma view_phase h t start i ph ph' r b' t' :
  (b', t') <> (target nb start i, t) ->
  same_view (Client h (CDisp t start i ph) r) (Client h (CDisp t start i ph') r) b' t' /\
  (forall k, open_ (Client h (CDisp t start i ph) r) b' t' k -> open_ (Client h (CDisp t start i ph') r) b' t' k).
Proof.
  intros Hne.
  assert (Hf : forall q q' s0 j, filled (CDisp t start i q) b' t' s0 j -> filled (CDisp t start i q') b' t' s0 j).
  { intros q q' s0 j (Ht & Hj & -> & -> & [Hlt|[-> _]]); [by repeat split; auto|]. congruence. }
  assert (Ha : forall q, at_slot (CDisp t start i q) b' t' = None).
  { intros q. unfold at_slot. rewrite decide_False; [done|]. intros [-> <-]. done. }
  unfold same_view, gave, open_. cbn [cst hist bar]. rewrite !Ha. split_and!; try done.
  - intros k s0. split; (intros [?|[? [j ?]]]; [by left|right; eauto]).
  - intros k (-> & (s0 & j & ?) & ? & _). split_and!; eauto.
Qed.


(** What the invariant says about the slot a client thread works on. *)
Lemma here nt p cls sl x c h r t start i ph s :
  inv nt (State p cls sl x) ->
  cls !! c = Some (Client h (CDisp t start i ph) r) -> sl !! (target nb start i, t) = Some s ->
  let b := target nb start i in
  i < nb /\ slot_ok cls x b t s /\
  (lock s = Some (HClient c) <-> locks (Some ph) = true) /\
  (forall c', c' <> c -> lock s <> Some (HClient c')) /\
  (pc s = TSleep -> query s <> None -> ph = PSignal) /\
  (ph <> PStatus -> tstat s = Some c) /\
  (forall j, unarrived s j -> jc j = c /\ jk j = length h /\ (ph = PSignal \/ ph = PUnlock)) /\
  (b ∈ r -> ph = PSignal \/ ph = PUnlock) /\
  (forall k s0, gave (Client h (CDisp t start i ph) r) b t k s0 -> (c, k) ∈ (key <$> given s)).
Proof.
  intros Hi Hc Hs b.
  pose proof (v_client _ _ Hi) as Hco. simpl in Hco.
  pose proof (proj1 (Forall_lookup _ _) Hco _ _ Hc) as (_ & Hbar & _ & Hin). simpl in Hbar, Hin. clear Hco.
  pose proof (v_slot _ _ Hi _ _ _ Hs) as Hok. simpl in Hok. fold b in Hok.
  assert (Hat : forall c' z o, cls !! c' = Some z -> at_slot (cst z) b t = Some o -> c' = c /\ o = ph).
  { intros c' z o Hz Ha. destruct (decide (c' = c)) as [->|Hne].
    - rewrite Hc in Hz. injection Hz as <-. cbn [cst] in Ha. unfold b in Ha. rewrite at_here in Ha. by injection Ha.
    - by rewrite (alone nt p cls sl x c h t start i ph r c' z b Hi Hc Hne Hz) in Ha. }
  split_and!; try done.
  - rewrite (k_client _ _ _ _ _ Hok c). split.
    + intros (z & Hz & HL). rewrite Hc in Hz. injection Hz as <-. cbn [cst] in HL. unfold b in HL. by rewrite at_here in HL.
    + intros HL. eexists. split; [exact Hc|]. cbn [cst]. unfold b. by rewrite at_here.
  - intros c' Hne (z & Hz & HL)%(k_client _ _ _ _ _ Hok).
    destruct (at_slot (cst z) b t) as [o|] eqn:E; [|done]. by destruct (Hat _ _ _ Hz E).
  - intros H1 H2. destruct (k_sleep _ _ _ _ _ Hok H1 H2) as (c' & z & Hz & HL). by destruct (Hat _ _ _ Hz HL).
  - intros Hph. apply (k_tstat _ _ _ _ _ Hok c _ ph Hc); [|done]. apply at_here.
  - intros j Hu. destruct (k_open _ _ _ _ _ Hok j Hu) as (z & Hz & Hk & (s0 & j' & Hf) & _).
    assert (jc j = c) as E.
    { by eapply (client_excl nt _ (jc j) c z _ t Hi Hz Hc); [eapply filled_tst|]. }
    rewrite E, Hc in Hz. injection Hz as <-. apply filled_here in Hf; [|done]. simpl in Hk. naive_solver.
  - intros Hb. destruct (Hbar ltac:(done) b Hb) as (t0 & s0 & j' & Hf).
    assert (t0 = t) as -> by (destruct Hf as (_ & _ & ? & _); done). apply filled_here in Hf; [|done]. naive_solver.
  - intros k s0 HG. by eapply (k_gave _ _ _ _ _ Hok c).
Qed.

(** A client thread keeps its facts in the next phase. *)
Lemma client_phase nt h t start i ph ph' r :
  client_ok nt (Client h (CDisp t start i ph) r) ->
  (ph' = PSignal \/ ph' = PUnlock \/ (ph <> PSignal /\ ph <> PUnlock)) ->
  client_ok nt (Client h (CDisp t start i ph') r).
Proof.
  unfold client_ok. simpl. intros (Hh & Hb & Ht) Hph. split_and!; try done; try tauto.
  intros _ b Hbr. destruct (Hb ltac:(done) b Hbr) as (t0 & s0 & j & Hf). exists t0, s0, j.
  destruct Hf as (H1 & H2 & -> & -> & H3). split_and!; try done. naive_solver.
Qed.

(** The frame of the steps of a client thread at one backend. *)
Ltac phase_step Hi Hc Hs Hok Hco :=
  pose proof (proj1 (Forall_lookup _ _) (v_client _ _ Hi) _ _ Hc) as Hco;
  eapply inv_both; [exact Hi|exact Hc|done|eapply client_phase; [exact Hco|tauto || (right; right; done)]|exact Hs| |by intros; apply view_phase];
  intros _; eapply slot_ok_both; [exact Hok|exact Hc|by intros ??; eapply alone| ..];
  cbn [cst pc lock exit query tstat given ran set_lck set_pc]; rewrite ?at_here; try done; try (by left).

Lemma inv_status nt p cls sl x c h r t start i s :
  inv nt (State p cls sl x) ->
  cls !! c = Some (Client h (CDisp t start i PStatus) r) -> sl !! (target nb start i, t) = Some s ->
  inv nt (State p (<[c := Client h (CDisp t start i PLock) r]> cls)
    (<[(target nb start i, t) := Slot (pc s) (lock s) (exit s) (query s) (Some c) (given s) (ran s)]> sl) x).
Proof.
  intros Hi Hc Hs. destruct (here nt p cls sl x c h r t start i PStatus s Hi Hc Hs)
    as (Hin & Hok & HL & HL' & Hsl & _ & Hun & _ & HG).
  assert (Hnu : forall j, ~ unarrived s j) by (intros j (_ & _ & [?|?])%Hun; done).
  phase_step Hi Hc Hs Hok Hco.
  - apply Hok.
  - apply Hok.
  - apply (k_given _ _ _ _ _ Hok).
  - by intros j ?%(Hnu j).
  - intros k s0. rewrite !gave_here by done. naive_solver.
  - intros k s0 HG'. apply (HG k s0). revert HG'. rewrite !gave_here by done. naive_solver.
  - intros H1 H2. by pose proof (Hsl H1 H2).
  - intros j Hj. destruct (Hnu j). by left.
Qed.

Lemma inv_lock nt p cls sl x c h r t start i s :
  inv nt (State p cls sl x) ->
  cls !! c = Some (Client h (CDisp t start i PLock) r) -> sl !! (target nb start i, t) = Some s -> lock s = None ->
  inv nt (State p (<[c := Client h (CDisp t start i PFill) r]> cls)
    (<[(target nb start i, t) := set_lck (Some (HClient c)) s]> sl) x).
Proof.
  intros Hi Hc Hs Hl. destruct (here nt p cls sl x c h r t start i PLock s Hi Hc Hs)
    as (Hin & Hok & HL & HL' & Hsl & Hst & Hun & _ & HG).
  assert (Hnu : forall j, ~ unarrived s j) by (intros j (_ & _ & [?|?])%Hun; done).
  pose proof (k_worker _ _ _ _ _ Hok) as Hw. rewrite Hl in Hw.
  phase_step Hi Hc Hs Hok Hco.
  - rewrite <-Hw. done.
  - intros c' Hne [= ?]. congruence.
  - apply Hok.
  - apply (k_given _ _ _ _ _ Hok).
  - by intros j ?%(Hnu j).
  - intros k s0. rewrite !gave_here by done. naive_solver.
  - intros k s0 HG'. apply (HG k s0). revert HG'. rewrite !gave_here by done. naive_solver.
  - intros H1 H2. by pose proof (Hsl H1 H2).
  - intros j Hj. destruct (Hnu j). by left.
  - intros ph _ _. by apply Hst.
Qed.

Lemma inv_signal nt p cls sl x c h r t start i s :
  inv nt (State p cls sl x) ->
  cls !! c = Some (Client h (CDisp t start i PSignal) r) -> sl !! (target nb start i, t) = Some s ->
  inv nt (State p (<[c := Client h (CDisp t start i PUnlock) r]> cls)
    (<[(target nb start i, t) := set_pc (wake (pc s)) s]> sl) x).
Proof.
  intros Hi Hc Hs. destruct (here nt p cls sl x c h r t start i PSignal s Hi Hc Hs)
    as (Hin & Hok & HL & HL' & Hsl & Hst & Hun & _ & HG).
  pose proof (wake_ok _ _ _ _ _ Hok) as Hok'.
  assert (Hu : forall j, unarrived (set_pc (wake (pc s)) s) j <-> unarrived s j).
  { intros j. unfold unarrived, pending. destruct s as [[] ? ? ? ? ? ?]; simpl; naive_solver. }
  phase_step Hi Hc Hs Hok Hco.
  - apply Hok'.
  - apply (k_query _ _ _ _ _ Hok').
  - apply (k_given _ _ _ _ _ Hok').
  - intros j Hj%Hu. destruct (k_open _ _ _ _ _ Hok j Hj) as (z & Hz & HO). destruct (Hun j Hj) as (E & Ek & _).
    rewrite E, Hc in Hz. injection Hz as <-. split; [done|]. destruct HO as (Hk & _ & Hb & _).
    split_and!; [done| |done..]. exists start, i. apply filled_here; auto.
  - intros k s0. rewrite !gave_here by done. naive_solver.
  - intros k s0 HG'. apply (HG k s0). revert HG'. rewrite !gave_here by done. naive_solver.
  - by destruct (pc s).
  - by destruct (pc s).
  - intros j Hj. apply (k_pend _ _ _ _ _ Hok' j Hj).
  - intros ph _ _. by apply Hst.
Qed.

Lemma inv_fill nt p cls sl x c h r t start i s :
  inv nt (State p cls sl x) ->
  cls !! c = Some (Client h (CDisp t start i PFill) r) -> sl !! (target nb start i, t) = Some s ->
  inv nt (State p (<[c := Client h (CDisp t start i PSignal) r]> cls)
    (<[(target nb start i, t) := Slot (pc s) (lock s) (exit s) (Some (Job c (length h) (i =? 0))) (tstat s)
         (given s ++ [Job c (length h) (i =? 0)]) (ran s)]> sl) x).
Proof.
  intros Hi Hc Hs. destruct (here nt p cls sl x c h r t start i PFill s Hi Hc Hs)
    as (Hin & Hok & HL & HL' & Hsl & Hst & Hun & Hbar & HG).
  assert (Hnu : forall j, ~ unarrived s j) by (intros j (_ & _ & [?|?])%Hun; done).
  pose proof (proj2 HL eq_refl) as Hl. pose proof (k_worker _ _ _ _ _ Hok) as Hw. rewrite Hl in Hw.
  assert (Hp : pending s = []).
  { destruct (pending s) as [|j l] eqn:E; [done|]. destruct (Hnu j). left. rewrite E. apply list_elem_of_here. }
  pose proof (k_given _ _ _ _ _ Hok) as Hg. rewrite Hp, app_nil_r in Hg.
  set (j0 := Job c (length h) (i =? 0)).
  assert (Hp' : forall pc', pc' = pc s -> pending (Slot pc' (lock s) (exit s) (Some j0) (tstat s) (given s ++ [j0]) (ran s)) = [j0]).
  { intros ? ->. unfold pending. simpl. destruct (pc s); try done; by destruct Hw as [_ Hw]; discriminate Hw. }
  phase_step Hi Hc Hs Hok Hco.
  - rewrite Hl. apply Hw.
  - destruct (pc s); try done; by destruct Hw as [_ Hw]; discriminate Hw.
  - rewrite Hp' by done. by rewrite Hg.
  - intros j [Hj|Hj].
    + rewrite Hp' in Hj by done. apply list_elem_of_singleton in Hj as ->. split; [done|].
      split_and!; [done| | |done].
      * exists start, i. apply filled_here; auto.
      * simpl. intros [?|?]%Hbar; done.
    + simpl in Hj. rewrite Hj in Hw. by destruct Hw as [_ Hw]; discriminate Hw.
  - intros k s0. rewrite !gave_here by done. naive_solver.
  - intros k s0 HG'. rewrite fmap_app. apply elem_of_app. revert HG'. rewrite gave_here by done.
    intros [Hh|(-> & -> & _)].
    + left. apply (HG k s0). rewrite gave_here by done. by left.
    + right. by apply list_elem_of_singleton.
  - right. exists j0. split_and!; try done.
    + intros (j & Ek & Hj)%list_elem_of_fmap.
      destruct (proj1 (Forall_forall _ _) (k_jobs _ _ _ _ _ Hok) j Hj) as (z & s0 & Hz & HGz & _).
      injection Ek as Ec Ek. rewrite <-Ec, Hc in Hz. injection Hz as <-. rewrite <-Ek in HGz.
      apply gave_here in HGz; [|done]. destruct HGz as [Hh|(_ & _ & [?|?])]; try done.
      apply lookup_lt_Some in Hh. lia.
    + exists start. split; [apply gave_here; naive_solver|]. simpl. destruct (Nat.eqb_spec i 0) as [->|Hne].
      * by rewrite bool_decide_true.
      * rewrite bool_decide_false; [done|]. intros E%target_inj; lia.
  - intros j Hj. rewrite Hp' in Hj by done. apply list_elem_of_singleton in Hj as ->. simpl. by apply Hst.
  - intros ph _ _. by apply Hst.
Qed.

Lemma filled_next t start i b t' s0 j :
  i < nb -> filled (next t start i) b t' s0 j <-> filled (CDisp t start i PUnlock) b t' s0 j.
Proof.
  intros Hi. unfold next, filled.
  assert (D : j < i \/ (j = i /\ (PUnlock = PSignal \/ PUnlock = PUnlock)) <-> j < S i).
  { split; [intros [?|[? _]]; lia|]. intros Hj. destruct (decide (j = i)); [right; tauto|left; lia]. }
  assert (D' : j < S i \/ (j = S i /\ (PStatus = PSignal \/ PStatus = PUnlock)) <-> j < S i) by naive_solver.
  destruct (Nat.eqb_spec (S i) nb) as [E|E]; rewrite D, ?D'; [|tauto].
  split; intros H; decompose [and] H; repeat split; lia || done.
Qed.

Lemma at_next t start i b t' : at_slot (next t start i) b t' = None \/ at_slot (next t start i) b t' = Some PStatus.
Proof. unfold next, at_slot. destruct (S i =? nb); [by left|]. case_decide; auto. Qed.

Lemma open_cong cl cl' b t k :
  hist cl' = hist cl -> bar cl' = bar cl -> (forall s0 j, filled (cst cl) b t s0 j -> filled (cst cl') b t s0 j) ->
  (forall t' s', cst cl' <> CReturn t' s') -> open_ cl b t k -> open_ cl' b t k.
Proof.
  intros Hh Hb Hf Hr (-> & (s0 & j & Hj) & Hn & _). unfold open_. rewrite Hh, Hb. split_and!; eauto.
  destruct (cst cl') eqn:E; try done. by eapply Hr.
Qed.

Lemma gave_cong cl cl' b t k s0 :
  hist cl' = hist cl -> (forall s0 j, filled (cst cl) b t s0 j -> filled (cst cl') b t s0 j) ->
  gave cl b t k s0 -> gave cl' b t k s0.
Proof. intros Hh Hf [H|[H [j Hj]]]; unfold gave; rewrite Hh; [by left|]. right. eauto. Qed.

Lemma inv_unlock nt p cls sl x c h r t start i s :
  inv nt (State p cls sl x) ->
  cls !! c = Some (Client h (CDisp t start i PUnlock) r) -> sl !! (target nb start i, t) = Some s ->
  inv nt (State p (<[c := Client h (next t start i) r]> cls)
    (<[(target nb start i, t) := set_lck None s]> sl) x).
Proof.
  intros Hi Hc Hs. destruct (here nt p cls sl x c h r t start i PUnlock s Hi Hc Hs)
    as (Hin & Hok & HL & HL' & Hsl & Hst & Hun & Hbar & HG).
  pose proof (proj1 (Forall_lookup _ _) (v_client _ _ Hi) _ _ Hc) as Hco.
  pose proof (proj2 HL eq_refl) as Hl. pose proof (k_worker _ _ _ _ _ Hok) as Hw. rewrite Hl in Hw.
  assert (Hnr : forall t' s', next t start i <> CReturn t' s') by (intros; unfold next; by destruct (S i =? nb)).
  assert (Hhere : at_slot (next t start i) (target nb start i) t = None).
  { unfold next, at_slot. destruct (Nat.eqb_spec (S i) nb); [done|]. rewrite decide_False; [done|].
    intros [_ E%target_inj]; lia. }
  eapply inv_both; [exact Hi|exact Hc| | |exact Hs| |].
  - unfold next, tst. cbn [cst]. by destruct (S i =? nb).
  - destruct Hco as (H1 & H2 & H3 & H4). split_and!; [done| |].
    + intros _ b Hb. cbn [cst bar] in *. destruct (H2 ltac:(discriminate) b Hb) as (t0 & s0 & j & Hf).
      exists t0, s0, j. by apply filled_next.
    + simpl in H3, H4. cbn [cst]. unfold next. destruct (Nat.eqb_spec (S i) nb); [done|]. split; [done|lia].
  - intros _. eapply slot_ok_both; [exact Hok|exact Hc|by intros ??; eapply alone| ..];
      cbn [cst pc lock exit query tstat given ran set_lck set_pc]; rewrite ?Hhere; try done; try (by left).
    + by rewrite <-Hw.
    + apply Hok.
    + apply (k_given _ _ _ _ _ Hok).
    + intros j Hj. assert (unarrived s j) as Hj' by done.
      destruct (k_open _ _ _ _ _ Hok j Hj') as (z & Hz & HO). destruct (Hun j Hj') as (E & Ek & _).
      rewrite E, Hc in Hz. injection Hz as <-. split; [done|].
      eapply (open_cong _ (Client h (next t start i) r)); [..|exact HO]; simpl; try done.
      intros s0 j'. by rewrite filled_next.
    + intros k s0. apply gave_cong; [done|]. intros s1 j. simpl. by rewrite filled_next.
    + intros k s0 HG'. apply (HG k s0). eapply gave_cong; [..|exact HG']; [done|]. intros s1 j. simpl. by rewrite filled_next.
    + intros H1 H2. by pose proof (Hsl H1 H2).
    + intros j Hj. apply (k_pend _ _ _ _ _ Hok j Hj).
  - intros b' t' Hne Hb'. split.
    + assert (at_slot (CDisp t start i PUnlock) b' t' = None) as E.
      { unfold at_slot. rewrite decide_False; [done|]. intros [-> <-]. done. }
      unfold same_view. cbn [cst]. rewrite E. split_and!; try done.
      * by destruct (at_next t start i b' t') as [->| ->].
      * intros ph Ha Hph. destruct (at_next t start i b' t') as [E'|E']; rewrite E' in Ha; naive_solver.
      * intros k s0. split; (apply gave_cong; [done|]; intros s1 j; simpl; by rewrite filled_next).
    + intros k. apply open_cong; [done..| |done]. intros s1 j. simpl. by rewrite filled_next.
Qed.

(** The worker arrives at the barrier. *)
Lemma inv_arrive nt p cls sl x b t s j h cp r :
  inv nt (State p cls sl x) ->
  sl !! (b, t) = Some s -> pc s = TRun j -> cls !! jc j = Some (Client h cp r) ->
  inv nt (State p (<[jc j := Client h cp ({[b]} ∪ r)]> cls) (<[(b, t) := set_pc (TTail j) s]> sl) x).
Proof.
  intros Hi Hs Hpc Hc. pose proof (v_slot _ _ Hi _ _ _ Hs) as Hok. simpl in Hok.
  destruct (k_open _ _ _ _ _ Hok j (or_intror Hpc)) as (z & Hz & Hk & (s0 & j0 & Hf) & _ & Hnr).
  rewrite Hc in Hz. injection Hz as <-. simpl in Hk, Hf, Hnr.
  pose proof (proj1 (Forall_lookup _ _) (v_client _ _ Hi) _ _ Hc) as (Hh & Hbar & Hrest). simpl in Hbar, Hrest.
  assert (V : forall b' t', same_view (Client h cp r) (Client h cp ({[b]} ∪ r)) b' t').
  { intros b' t'. unfold same_view, gave. simpl. split_and!; eauto. }
  eapply inv_both; [exact Hi|exact Hc|done| |exact Hs| |].
  - split_and!; [done| |done]. intros Hne b' [->%elem_of_singleton|Hb']%elem_of_union; [by eauto|]. simpl. eauto.
  - intros _. eapply slot_ok_client; [|exact Hc|apply V|].
    + eapply slot_ok_mono; [exact Hok|..]; simpl.
      * by left.
      * rewrite (k_worker _ _ _ _ _ Hok), Hpc. done.
      * pose proof (k_query _ _ _ _ _ Hok) as Hq. by rewrite Hpc in Hq.
      * done.
      * pose proof (k_given _ _ _ _ _ Hok) as Hg. unfold pending in *. simpl. by rewrite Hpc in Hg.
      * intros j' [?%elem_of_nil|?]; done.
      * done.
      * done.
      * by intros j' ?%elem_of_nil.
      * done.
      * apply Hok.
    + intros j' [?%elem_of_nil|?]; done.
  - intros b' t' Hne Hb'. split; [apply V|]. intros k (-> & (s1 & j1 & Hf') & Hn & _). split_and!; eauto.
    simpl. intros [->%elem_of_singleton|?]%elem_of_union; [|done]. apply Hne. f_equal.
    pose proof (filled_tst (Client h cp r) _ _ _ _ Hf) as E1. pose proof (filled_tst (Client h cp r) _ _ _ _ Hf') as E2.
    rewrite E1 in E2. injection E2. lia.
Qed.

(** The client thread takes an index of the pool. *)
Lemma inv_get nt p cls sl x c h r i start :
  inv nt (State p cls sl x) -> cls !! c = Some (Client h CIdle r) -> free p i ->
  inv nt (State (take_item p i) (<[c := Client h (CDisp (Z.to_nat i) start 0 PStatus) ∅]> cls) sl x).
Proof.
  intros [Hs Hz Hc Hd Hsl] Hcl Hf. pose proof Hf as [Hr _]. simpl in *. split; simpl; try done.
  - rewrite list_fmap_insert. replace (tst (Client h (CDisp (Z.to_nat i) start 0 PStatus) ∅)) with (THeld i).
    + eapply sys_ok_take; [done|by rewrite list_lookup_fmap, Hcl|done|done].
    + unfold tst. simpl. by rewrite Z2Nat.id by lia.
  - apply Forall_insert; [done|]. pose proof (proj1 (Forall_lookup _ _) Hc _ _ Hcl) as (Hh & _).
    split_and!; [done| |simpl; split; lia]. intros _ b Hb. by apply elem_of_empty in Hb.
  - intros b t s Hs'. eapply slot_ok_client; [eauto|exact Hcl| |].
    + assert (Ha : at_slot (CDisp (Z.to_nat i) start 0 PStatus) b t = None \/
                   at_slot (CDisp (Z.to_nat i) start 0 PStatus) b t = Some PStatus).
      { unfold at_slot. case_decide; auto. }
      unfold same_view. cbn [cst]. change (at_slot CIdle b t) with (@None phase). split_and!; try done.
      * by destruct Ha as [->| ->].
      * intros ph E. destruct Ha as [E'|E']; rewrite E' in E; naive_solver.
      * intros k s0. unfold gave. simpl. apply or_iff_compat_l. unfold filled. split; naive_solver lia.
    + intros j _ (_ & (s0 & j' & _ & _ & []) & _).
Qed.

Lemma inv_barrier nt p cls sl x c h r t start :
  inv nt (State p cls sl x) -> cls !! c = Some (Client h (CWait t start) r) -> (forall b, b < nb -> b ∈ r) ->
  inv nt (State p (<[c := Client h (CReturn t start) r]> cls) sl x).
Proof.
  intros Hi Hc Hall. pose proof (proj1 (Forall_lookup _ _) (v_client _ _ Hi) _ _ Hc) as (Hh & Hb & Ht).
  eapply inv_client; [exact Hi|exact Hc|done| |].
  { split; [done|]. split; [|done]. intros _. by apply Hb. }
  intros b t' s Hs Hlt _. split; [by split_and!|]. intros j _ (_ & _ & Hn & _). destruct Hn. simpl. eauto.
Qed.

Lemma inv_return nt p cls sl x c h r t start :
  inv nt (State p cls sl x) -> cls !! c = Some (Client h (CReturn t start) r) ->
  inv nt (State (give_item p (Z.of_nat t)) (<[c := Client (h ++ [(t, start)]) CIdle r]> cls) sl x).
Proof.
  intros [Hs Hz Hc Hd Hsl] Hcl. pose proof (proj1 (Forall_lookup _ _) Hc _ _ Hcl) as (Hh & _ & Ht).
  simpl in *. split; simpl; try done.
  - rewrite list_fmap_insert.
    assert (Hlt : c < length (tst <$> cls)) by (rewrite length_fmap; eauto using lookup_lt_Some).
    rewrite <-(list_insert_insert_eq _ _ _ TReturned).
    apply (sys_ok_other _ _ _ TReturned); [|by apply list_lookup_insert_eq|done|done].
    apply sys_ok_give; [exact Hs|]. by rewrite list_lookup_fmap, Hcl.
  - apply Forall_insert; [done|]. split_and!; [|done..]. simpl. apply Forall_app. split; [done|].
    by constructor.
  - intros b t' s Hs'. assert (b < nb) as Hb by (apply (Hd b t'); eauto).
    eapply slot_ok_client; [eauto|exact Hcl| |by intros j _ (_ & _ & _ & [])].
    unfold same_view. cbn [cst]. split_and!; try done. intros k s0. unfold gave. cbn [hist cst]. split.
    + intros [Hk|[_ [j (_ & _ & [])]]]. apply lookup_app_Some in Hk as [Hk|[Hge Hk]]; [by left|]. right.
      assert (k = length h) as ->.
      { apply lookup_lt_Some in Hk. simpl in Hk. lia. }
      rewrite Nat.sub_diag in Hk. injection Hk as <- <-. split; [done|].
      destruct (target_surj nb start b Hnb Hb) as (j & Hj & E). exists j. by split_and!.
    + intros [Hk|[-> [j (_ & _ & -> & ->)]]]; left; [by apply lookup_app_l_Some|].
      rewrite lookup_app_r, Nat.sub_diag by done. done.
Qed.

Lemma workers_step_inv nt st st' : inv nt st -> step st st' -> inv nt st'.
Proof.
  intros Hi Hst. destruct Hst.
  - destruct k as [b t]. eapply inv_slot; [exact Hi|done| |done]. intros Hok. by eapply tstep_ok.
  - by apply inv_arrive.
  - pose proof (sys_pool _ (v_sys _ _ Hi)) as Hp. simpl in Hp.
    destruct (try_locks_cases p rnd Hp) as [(j & Hf & E)|[E _]]; [done| |]; rewrite E in *; simplify_eq; [|lia].
    by eapply inv_get.
  - by apply inv_status.
  - by apply inv_lock.
  - by apply inv_fill.
  - by apply inv_signal.
  - by apply inv_unlock.
  - by eapply inv_barrier.
  - pose proof (sys_held _ (v_sys _ _ Hi) c (Z.of_nat t)) as Ht. simpl in Ht.
    pose proof (sys_pool _ (v_sys _ _ Hi)) as Hp. simpl in Hp.
    rewrite return_taken in H0 by (done || (apply Ht; by rewrite list_lookup_fmap, H)). simplify_eq. by eapply inv_return.
  - eapply inv_slot; [exact Hi|exact H| |].
    + intros [Hw Hc Hq Hg Ho Hj Hn Hgv Hsl He Hp Ht Hr]. split; simpl; try done.
      destruct (pc s); naive_solver.
    + intros b' t' s' _ Hok. eapply slot_ok_canc; [exact Hok|by left].
  - eapply inv_slot; [exact Hi|exact H| |].
    + intros Hok. eapply slot_ok_canc; [by apply wake_ok|]. right. simpl. by destruct (pc s).
    + intros b' t' s' Hne Hok. eapply slot_ok_canc; [exact Hok|left]. congruence.
  - destruct Hi as [Hs Hz Hc Hd Hsl]. split; try done. simpl in *. intros b' t' s' Hs'.
    eapply slot_ok_canc; [eauto|by left].
Qed.

Lemma slots0_lookup nt b t s : slots0 nt !! (b, t) = Some s <-> (b < nb /\ t < nt) /\ s = slot0.
Proof.
  unfold slots0. rewrite lookup_gset_to_gmap_Some, elem_of_list_to_set, list_elem_of_In, List.in_prod_iff, !List.in_seq.
  naive_solver lia.
Qed.

Lemma workers_reachable_inv nt n st : (1 <= nt <= 2 ^ 30)%Z -> reachable nt n st -> inv (Z.to_nat nt) st.
Proof.
  intros Hnt (s0 & Hini & Hr). unfold init in Hini.
  destruct (new_spec nt Hnt) as (p & Hp & Hok & Hsz & _ & Hfree & _). rewrite Hp in Hini. simpl in Hini.
  injection Hini as <-.
  assert (H0 : inv (Z.to_nat nt) (State p (replicate n (Client [] CIdle ∅)) (slots0 (Z.to_nat nt)) XIdle)).
  { split; simpl.
    - rewrite fmap_replicate. split; simpl; [done|..].
      + intros t i Ht. by apply lookup_replicate in Ht as [? _].
      + intros i Hi. destruct (free_not_taken p i); [apply Hfree; destruct Hi; lia|done].
      + intros t u i Ht. by apply lookup_replicate in Ht as [? _].
    - lia.
    - apply Forall_replicate. split; [constructor|]. by split.
    - intros b t. split; [by intros [s [? _]%slots0_lookup]|]. intros Hbt. exists slot0. by apply slots0_lookup.
    - intros b t s [_ ->]%slots0_lookup. split; simpl; try done; try (by constructor).
      + intros c. split; [done|]. intros (cl & [-> _]%lookup_replicate & HL). done.
      + intros j [?%elem_of_nil|?]; done.
      + intros c cl k start [-> _]%lookup_replicate [?|[_ [j (_ & _ & [])]]]. done.
      + by intros j ?%elem_of_nil.
      + by intros c cl ph [-> _]%lookup_replicate. }
  clear Hp Hok Hsz Hfree. induction Hr; eauto using workers_step_inv.
Qed.

(** ** Properties *)

(** The calls of [backend_query] of a thread for query [k] of client thread [c]. *)
Definition runs (s : slot) (c k : nat) : list (job * option nat) :=
  filter (fun r => key (fst r) = (c, k)) (ran s).

Lemma filter_none {A} (P : A -> Prop) `{forall x, Decision (P x)} (l : list A) :
  (forall x, x ∈ l -> ~ P x) -> filter P l = [].
Proof.
  intros Hl. destruct (filter P l) as [|x l'] eqn:E; [done|].
  assert (Hx : x ∈ filter P l) by (rewrite E; apply list_elem_of_here).
  apply list_elem_of_filter in Hx as [HP Hx]. by destruct (Hl x Hx).
Qed.

Lemma filter_key {A K} `{EqDecision K} (f : A -> K) (l : list A) (x : A) :
  NoDup (f <$> l) -> x ∈ l -> filter (fun y => f y = f x) l = [x].
Proof.
  induction l as [|a l IH]; intros Hn Hx; [by apply elem_of_nil in Hx|].
  apply NoDup_cons in Hn as [Ha Hn]. rewrite filter_cons. apply elem_of_cons in Hx as [->|Hx].
  - rewrite decide_True by done. f_equal. apply filter_none. intros y Hy E.
    apply Ha. rewrite <-E. by apply list_elem_of_fmap_2.
  - rewrite decide_False; [by apply IH|]. intros E. apply Ha. rewrite E. by apply list_elem_of_fmap_2.
Qed.

(** C8: every replicated query runs exactly once on every backend.  When a client
    thread has got through a query, thread [t] of each backend, with the index the
    client thread had taken, has called [backend_query] for that query exactly
    once, with the counters of that client, and with the client connection exactly
    on the first backend of the round; no other thread has run it. *)
Theorem workers_exactly_once nt n st c cl k t start b :
  (1 <= nt <= 2 ^ 30)%Z -> reachable nt n st -> clients st !! c = Some cl -> hist cl !! k = Some (t, start) -> b < nb ->
  exists s, slots st !! (b, t) = Some s /\
    runs s c k = [(Job c k (bool_decide (target nb start 0 = b)), Some c)] /\
    (forall t' s', t' <> t -> slots st !! (b, t') = Some s' -> runs s' c k = []).
Proof.
  intros Hnt Hr Hc Hk Hb. pose proof (workers_reachable_inv nt n st Hnt Hr) as Hi.
  pose proof (proj1 (Forall_lookup _ _) (v_client _ _ Hi) _ _ Hc) as (Hh & _ & _).
  pose proof (proj1 (Forall_lookup _ _) Hh _ _ Hk) as Ht. simpl in Ht.
  destruct (proj2 (v_dom _ _ Hi b t) (conj Hb Ht)) as [s Hs]. pose proof (v_slot _ _ Hi _ _ _ Hs) as Hok.
  assert (Hlen : k < length (hist cl)) by eauto using lookup_lt_Some.
  assert (Hgv : forall t' start', gave cl b t' k start' -> t' = t /\ start' = start).
  { intros t' start' [E|[E _]]; [|lia]. rewrite Hk in E. by injection E as <- <-. }
  assert (Hjob : forall b' t' s' r, slots st !! (b', t') = Some s' -> b' = b -> r ∈ ran s' -> key (fst r) = (c, k) ->
    t' = t /\ r = (Job c k (bool_decide (target nb start 0 = b)), Some c)).
  { intros b' t' s' [[c' k' pr] st'] Hs' -> Hin [= -> ->]. pose proof (v_slot _ _ Hi _ _ _ Hs') as Hok'.
    pose proof (proj1 (Forall_forall _ _) (k_ran _ _ _ _ _ Hok') _ Hin) as Est. simpl in Est. subst st'.
    assert (Hg : Job c k pr ∈ given s').
    { rewrite (k_given _ _ _ _ _ Hok'). apply elem_of_app. left. apply list_elem_of_fmap. by exists (Job c k pr, Some (jc (Job c k pr))). }
    destruct (proj1 (Forall_forall _ _) (k_jobs _ _ _ _ _ Hok') _ Hg) as (cl' & s0 & Hc' & HG & HP).
    simpl in Hc', HG, HP. rewrite Hc in Hc'. injection Hc' as <-. apply Hgv in HG as [-> ->]. by rewrite HP. }
  exists s. split; [done|]. split.
  - assert (Hin : (c, k) ∈ (key <$> given s)).
    { apply (k_gave _ _ _ _ _ Hok c cl k start Hc). by left. }
    rewrite (k_given _ _ _ _ _ Hok), fmap_app in Hin. apply elem_of_app in Hin as [Hin|Hin].
    2: { apply list_elem_of_fmap in Hin as (j & Ej & Hj).
         destruct (k_open _ _ _ _ _ Hok j (or_introl Hj)) as (z & Hz & Ek & _). injection Ej as -> ->.
         rewrite Hc in Hz. injection Hz as <-. lia. }
    rewrite <-list_fmap_compose in Hin. apply list_elem_of_fmap in Hin as (r & Er & Hr').
    destruct (Hjob b t s r Hs eq_refl Hr' (eq_sym Er)) as [_ E]. rewrite <-E.
    unfold runs. simpl in Er. rewrite Er. apply (filter_key (fun r => key (fst r))); [|done].
    pose proof (k_once _ _ _ _ _ Hok) as Hn. rewrite (k_given _ _ _ _ _ Hok), fmap_app in Hn.
    apply NoDup_app in Hn as [Hn _]. by rewrite <-list_fmap_compose in Hn.
  - intros t' s' Hne Hs'. apply filter_none. intros r Hr' E.
    by destruct (Hjob b t' s' r Hs' eq_refl Hr' E).
Qed.

(** C14: no wake-up of a backend thread is lost.  A backend thread that sleeps has
    no query to run, unless a client thread that holds its lock is about to
    signal it, and is not to exit, unless [proxy_threading_cancel] is about to
    signal it.  (Unlike in [proxy_pool_get], the test and the wait are under the
    same lock as the change and the signal.) *)
Theorem workers_wake nt n st b t s :
  (1 <= nt <= 2 ^ 30)%Z -> reachable nt n st -> slots st !! (b, t) = Some s -> pc s = TSleep ->
  (query s = None \/ exists c cl start i, clients st !! c = Some cl /\ lock s = Some (HClient c) /\
     cst cl = CDisp t start i PSignal /\ target nb start i = b) /\
  (exit s = false \/ canc st = XSignal b t).
Proof.
  intros Hnt Hr Hs Hpc. pose proof (v_slot _ _ (workers_reachable_inv nt n st Hnt Hr) _ _ _ Hs) as Hok. split.
  - destruct (query s) as [j|] eqn:Eq; [right|by left].
    destruct (k_sleep _ _ _ _ _ Hok Hpc) as (c & cl & Hc & Ha); [by rewrite Eq|]. exists c, cl.
    assert (Hl : lock s = Some (HClient c)) by (apply (k_client _ _ _ _ _ Hok); exists cl; by rewrite Ha).
    unfold at_slot in Ha. destruct (cst cl) as [|t' start i ph| |]; try done.
    case_decide as Hd; [|done]. destruct Hd as [-> Ht]. injection Ha as ->. by exists start, i.
  - destruct (exit s) eqn:Ex; [right|by left]. by apply (k_exit _ _ _ _ _ Hok).
Qed.

End system.

(** ** A run: one client thread, two backends with one thread each *)

Ltac run_thread b R :=
  eapply rtc_l; [eapply (s_thread 2 _ _ _ _ (b, 0)); [vm_compute; reflexivity|eapply R; vm_compute; (reflexivity || (left; discriminate))]|].
Ltac run R := eapply rtc_l; [eapply R; vm_compute; (reflexivity || discriminate)|].

(** Thread [b] starts and sleeps; the client thread gives it a query; it runs
    the query. *)
Ltac run_sleep b := run_thread b t_start; run_thread b t_top; run_thread b t_sleep.
Ltac run_client R := eapply rtc_l; [eapply R with (c := 0); vm_compute; (reflexivity || discriminate)|].
Ltac run_give :=
  run_client s_status; run_client s_lock; run_client s_fill; run_client s_signal; run_client s_unlock.
Ltac run_query b := run_thread b t_wake; run_thread b t_ready; run_thread b t_call;
  eapply rtc_l; [eapply (s_arrive 2 _ _ _ _ b 0); vm_compute; reflexivity|].

Lemma one_query_run : exists st cl, reachable 2 1 1 st /\ clients st !! 0 = Some cl /\ hist cl = [(0, 0)].
Proof.
  eexists _, _. split.
  - eexists. split; [vm_compute; reflexivity|].
    run_sleep 0. run_sleep 1.
    eapply rtc_l; [eapply (s_get 2 _ _ _ _ 0 _ _ 0 _ _ 0); vm_compute; (reflexivity || discriminate)|].
    run_give. run_give. run_query 0. run_query 1.
    eapply rtc_l; [eapply (s_barrier 2 _ _ _ _ 0); [vm_compute; reflexivity|]|].
    { intros b Hb. destruct b as [|[|b]]; [vm_compute; reflexivity..|lia]. }
    run_client s_return. apply rtc_refl.
  - split; vm_compute; reflexivity.
Qed.

Lemma workers_exactly_once_witness :
  exists st s, slots st !! (1, 0) = Some s /\ runs s 0 0 = [(Job 0 0 true, Some 0)].
Proof.
  destruct one_query_run as (st & cl & Hr & Hc & Hh).
  destruct (workers_exactly_once 2 ltac:(lia) 1 1 st 0 cl 0 0 0 1) as (s & Hs & Hruns & _);
    [lia|exact Hr|exact Hc|rewrite Hh; reflexivity|lia|].
  exists st, s. split; [exact Hs|exact Hruns].
Defined.

(** A thread that sleeps while the client thread is about to signal it. *)
Lemma one_signal_run : exists st s, reachable 2 1 1 st /\ slots st !! (1, 0) = Some s /\ pc s = TSleep /\ query s <> None.
Proof.
  eexists _, _. split.
  - eexists. split; [vm_compute; reflexivity|]. run_sleep 1.
    eapply rtc_l; [eapply (s_get 2 _ _ _ _ 0 _ _ 0 _ _ 0); vm_compute; (reflexivity || discriminate)|].
    run_client s_status. run_client s_lock. run_client s_fill. apply rtc_refl.
  - split; [vm_compute; reflexivity|]. split; [reflexivity|discriminate].
Qed.

Lemma workers_wake_witness :
  exists st s, slots st !! (1, 0) = Some s /\ pc s = TSleep /\ query s <> None /\
    exists c, lock s = Some (HClient c).
Proof.
  destruct one_signal_run as (st & s & Hr & Hs & Hp & Hq). exists st, s. split; [exact Hs|]. split; [exact Hp|].
  split; [exact Hq|].
  destruct (workers_wake 2 ltac:(lia) 1 1 st 1 0 s ltac:(lia) Hr Hs Hp) as [[H|(c & _ & _ & _ & _ & Hl & _)] _].
  - destruct (Hq H).
  - exists c. exact Hl.
Defined.

(** [proxy_threading_cancel] takes the lock again to make sure that the thread has
    exited, but it may get the lock before the thread it woke. *)
Lemma cancel_before_exit :
  exists st s, reachable 2 1 1 st /\ canc st = XIdle /\ slots st !! (0, 0) = Some s /\ exit s = true /\ pc s = TWake.
Proof.
  eexists _, _. split.
  - eexists. split; [vm_compute; reflexivity|]. run_sleep 0.
    eapply rtc_l; [eapply (s_cancel 2 _ _ _ 0 0); vm_compute; reflexivity|].
    run s_cancel_signal. run s_cancel_again. apply rtc_refl.
  - split; [reflexivity|]. split; [vm_compute; reflexivity|]. done.
Qed.
