(* ===== verification/Session.v ===== *)
(** * The life of a client connection
      (src/src/proxy_net.c: [client_init], [proxy_net_client_do_work],
      [client_destroy], [proxy_net_new_thread], [net_thread_destroy];
      src/src/proxy_cmd.c: [cmd_admin_new_thread])

    A connection from the accepted socket to the end of its thread's work: the
    objects that are made for it, the handshake, the loop over its commands, and
    what is closed at the end.  The calls that make and close objects are recorded
    in a log; the results of the system calls and of the MySQL library are part
    of the description of a client. *)

From S2P Require Import Prelude CString Status Wire Options Pool Hashtable Clone Trans Cmd SqlString Net BackendArrays.
Local Open Scope Z_scope.

(** ** Resources *)

(** The calls that make, configure and close the objects of a connection. *)
Inductive res :=
| VioNew (fd : Z)
| SetOpt (fd : Z) (name : string) (value : Z)
| MysqlInit (fd : Z)
| VioClose (fd : Z)
| VioDelete (fd : Z)
| NetEnd (fd : Z)
| MysqlClose (fd : Z)
| SpinDestroy
| FreeStatus
| FreeThread.

Definition vio_opened (log : list res) : list Z :=
  omap (fun e => match e with VioNew fd => Some fd | _ => None end) log.
Definition vio_closed (log : list res) : list Z :=
  omap (fun e => match e with VioClose fd => Some fd | _ => None end) log.
Definition mysql_made (log : list res) : list Z :=
  omap (fun e => match e with MysqlInit fd => Some fd | _ => None end) log.
Definition mysql_freed (log : list res) : list Z :=
  omap (fun e => match e with MysqlClose fd => Some fd | _ => None end) log.

(** A client: its socket, whether [mysql_init] returns an object, the results
    of the writes, the random string of the handshake, the packet it answers with
    (or a read error) and the bytes behind it in the buffer, and what [poll]
    and [my_net_read] give later. *)
Record peer := Peer {
  clientfd : Z;
  mysql_ok : bool;
  writes : list bool;
  scramble : list Z;
  hello : option (list Z);
  behind : list Z;
  events : list client_event
}.

(** [client_init]: the options make the kernel probe a silent client every minute
    and give it up after four probes. *)
Definition client_init (c : peer) (log : list res) : option MYSQL * list res :=
  let fd := clientfd c in
  let log := log ++ [VioNew fd; SetOpt fd "SO_KEEPALIVE" 1; SetOpt fd "TCP_KEEPCNT" 4;
                     SetOpt fd "TCP_KEEPIDLE" 60; SetOpt fd "TCP_KEEPINTVL" 60] in
  if mysql_ok c then (Some (Mysql true 0 (writes c) []), log ++ [MysqlInit fd]) else (None, log).

(** [client_destroy]: [proxy] is [thread->data.work.proxy]. *)
Definition client_destroy (fd : Z) (proxy : option MYSQL) (log : list res) : option MYSQL * list res :=
  match proxy with
  | Some m => (None, log ++ [VioClose fd; VioDelete fd; NetEnd fd; MysqlClose fd])
  | None => (None, log)
  end.

(** [net_thread_destroy], at the exit of the thread. *)
Definition net_thread_destroy (fd : Z) (proxy : option MYSQL) (log : list res) : option MYSQL * list res :=
  let '(proxy, log) := client_destroy fd proxy log in (proxy, log ++ [SpinDestroy; FreeStatus]).

Section session.
Context `{Protocol}.
Variable o : options_t.
Variable COM_END SERVER_STATUS_CLEAR_SET : Z.

(** The rest of the proxy and its state.  [proxy_backend_query] gets the connection of the client,
    [None] if [work->conn_idx] was not set, and whether there are commit data. *)
Context {W : Type}.
Variable backend_query : option conn_idx -> bool -> bool -> list Z -> W -> MYSQL -> status_t -> outcome (bool * W * MYSQL * status_t).
Variable command : request -> W -> MYSQL -> status_t -> outcome (bool * W * MYSQL * status_t).
Variable er_code : er -> Z.
Variable get_charset : Z -> charset.
Variable system_charset : charset.
Variable CLIENT_BASIC_FLAGS charset_number er_handshake : Z.

(** The error flag that the library keeps in [mysql->net]. *)
Variable net_error : MYSQL -> bool.

Definition PROTOCOL_VERSION : Z := 10.
Definition server_version : list Z := str "5.1-sfsql_proxy".

(** [proxy_net_handshake] with its first packet. *)
Definition handshake (c : peer) (m : MYSQL) : outcome (bool * MYSQL) :=
  let '(e, m) := net_do (CCommand PROTOCOL_VERSION
                   (handshake_packet CLIENT_BASIC_FLAGS server_version (scramble c) charset_number)) m in
  if e then Ret (true, m)
  else '(e, m, _) ← proxy_net_handshake get_charset system_charset CLIENT_BASIC_FLAGS (hello c) (behind c) m er_handshake;
       Ret (e, m).

(** The work of a connection: [conn_idx], the commit data, and the restriction to PROXY commands. *)
Section work.
Variable idx : option conn_idx.
Variable commit proxy_only : bool.

(** One round of the loop: a command, and a flush. *)
Definition serve_one (ev : client_event) (w : W) (m : MYSQL) (status : status_t)
  : outcome (conn_error_t * W * MYSQL * status_t * handled) :=
  '(e, w, m', status, h) ← proxy_net_read_query o COM_END SERVER_STATUS_CLEAR_SET (backend_query idx commit) command
                              er_code proxy_only ev w (Some m) status;
  Ret (e, w, match m' with Some m' => snd (net_flush m') | None => m end, status, h).

(** The loop of [proxy_net_client_do_work]; a client that sends nothing more is
    disconnected after the timeout of [poll]. *)
Fixpoint work_loop (evs : list client_event) (w : W) (m : MYSQL) (status : status_t)
  : outcome (W * MYSQL * status_t * list handled) :=
  if net_error m || negb (vio m) then Ret (w, m, status, [])
  else
    match evs with
    | [] => '(_, w, m, status, h) ← serve_one EvTimeout w m status; Ret (w, m, status, [h])
    | ev :: evs =>
        '(e, w, m, status, h) ← serve_one ev w m status;
        match e with
        | ERROR_OK => '(w, m, status, hs) ← work_loop evs w m status; Ret (w, m, status, h :: hs)
        | ERROR_CLOSE | ERROR_CLIENT | ERROR_BACKEND | ERROR_OTHER => Ret (w, m, status, [h])
        end
    end.

(** [work->proxy] afterwards, the state of the rest, the counters, the commands and the log. *)
Definition proxy_net_client_do_work (c : peer) (w : W) (status : status_t) (log : list res)
  : outcome (W * option MYSQL * status_t * list handled * list res) :=
  let '(m, log) := client_init c log in
  match m with
  | None => Ret (w, None, status, [], log)
  | Some m =>
      '(e, m) ← handshake c m;
      if (e : bool) then Ret (w, Some m, status, [], log)
      else '(w, m, status, hs) ← work_loop (events c) w m status; Ret (w, Some m, status, hs, log)
  end.

End work.

(** [cmd_admin_new_thread]; [status] is a variable on the stack that is not
    initialised, [conn_idx] is not set either, and there are no commit data. *)
Definition cmd_admin_new_thread (c : peer) (w : W) (status : status_t) (log : list res)
  : outcome (W * list handled * list res) :=
  '(w, _, _, hs, log) ← proxy_net_client_do_work None false true c w status log;
  Ret (w, hs, log ++ [FreeThread]).

(** ** A client thread *)

(** A [proxy_thread_t] of a client thread: its client ([None] if [work.addr] is
    NULL), [work.proxy] and its counters. *)
Record nthread := NThread { addr : option peer; proxy : option MYSQL; nstatus : status_t }.

(** What client threads share. *)
Record shared := Shared {
  bstate : backend_state;
  tpool : pool_t;
  global_connections : Z;
  global_status : status_t;
  rlog : list res
}.

(** The body of the loop of [proxy_net_new_thread] for thread [id] once it was
    signalled; [None] while the pool of connections has none that is free.  [r]
    and [r'] are values of [rand()]. *)
Definition net_thread_body (id : Z) (r r' : Z) (c : peer) (w : W) (t : nthread) (g : shared)
  : outcome (option (W * nthread * shared * list handled)) :=
  let connections := i64 (global_connections g + 1) in
  get ← proxy_backend_get_connection r r' id (bstate g);
  match get with
  | None => Ret None
  | Some (idx, bs) =>
      '(w, m, status, hs, log) ← proxy_net_client_do_work (Some idx) true false c w (nstatus t) (rlog g);
      '(_, bs) ← proxy_backend_release_connection idx bs;
      let '(m, log) := client_destroy (clientfd c) m log in
      p ← proxy_pool_return (tpool g) id;
      Ret (Some (w, NThread None m (proxy_status_reset status),
                 Shared bs p connections (proxy_status_add status (global_status g)) log, hs))
  end.

(** ** Properties *)

(** What the commands of a session have in common: a property of each round holds for all of its commands. *)
Lemma work_loop_all idx commit proxy_only (P : handled -> Prop) evs w m status w' m' status' hs :
  (forall ev w m status e w' m' status' h, serve_one idx commit proxy_only ev w m status = Ret (e, w', m', status', h) -> P h) ->
  work_loop idx commit proxy_only evs w m status = Ret (w', m', status', hs) -> Forall P hs /\ (length hs <= S (length evs))%nat.
Proof.
  intros Hone. revert w m status hs. induction evs as [|ev evs IH]; intros w m status hs; cbn [work_loop].
  - destruct (net_error m || negb (vio m)); [intros [= <- <- <- <-]; simpl; split; [done|lia]|].
    intros Hw. inv_bind. destruct x as [[[[e w1] m1] s1] h]. injection Hw as <- <- <- <-. apply Hone in H0.
    split; [by constructor|done].
  - destruct (net_error m || negb (vio m)); [intros [= <- <- <- <-]; simpl; split; [done|lia]|].
    intros Hw. inv_bind. destruct x as [[[[e w1] m1] s1] h]. apply Hone in H0.
    destruct e; try (injection Hw as <- <- <- <-; simpl; split; [by constructor|lia]).
    inv_bind. destruct x as [[[w2 m2] s2] hs2]. injection Hw as <- <- <- <-. apply IH in H1 as [H1 Hl].
    split; [by constructor|simpl; lia].
Qed.

(** What a session leaves in the log, and that its object is there exactly if
    [mysql_init] gave one. *)
Lemma do_work_log idx commit proxy_only c w status log w' m status' hs log' :
  proxy_net_client_do_work idx commit proxy_only c w status log = Ret (w', m, status', hs, log') ->
  log' = snd (client_init c log) /\ (is_Some m <-> mysql_ok c = true).
Proof.
  unfold proxy_net_client_do_work, client_init. destruct (mysql_ok c).
  - intros Hw. inv_bind. destruct x as [e m1]. destruct e.
    + injection Hw as <- <- <- <- <-. simpl. naive_solver.
    + inv_bind. destruct x as [[[w2 m2] s2] hs2]. injection Hw as <- <- <- <- <-. simpl. naive_solver.
  - intros [= <- <- <- <- <-]. simpl. split; [done|]. split; [by intros []|done].
Qed.

(** C13: a round of a client thread.  A thread that was signalled takes a free
    connection, serves the client whatever it sends, and afterwards everything is
    as before: the connection is back in its pool, the thread has no client and
    no client object, its counters are zero and were added to the global ones, one
    more connection is counted, and it is back in the pool of the threads.  The socket of the client is closed and
    its object freed, exactly once, if the object could be allocated; if not, the
    socket is never closed. *)
Theorem client_round hosts id r r' idx bs c w t g w' status hs log m :
  started o hosts (length hosts) (length hosts) (bstate g) -> hosts <> [] -> 0 <= r -> 0 <= r' ->
  proxy_backend_get_connection r r' id (bstate g) = Ret (Some (idx, bs)) ->
  pool_ok (tpool g) -> taken (tpool g) id ->
  proxy_net_client_do_work (Some idx) true false c w (nstatus t) (rlog g) = Ret (w', m, status, hs, log) ->
  exists log', net_thread_body id r r' c w t g =
      Ret (Some (w', NThread None None (Status 0 0 0 0 0),
        Shared (bstate g) (give_item (tpool g) id) (i64 (global_connections g + 1))
          (proxy_status_add status (global_status g)) log', hs)) /\
    vio_opened log' = vio_opened (rlog g) ++ [clientfd c] /\
    vio_closed log' = vio_closed (rlog g) ++ (if mysql_ok c then [clientfd c] else []) /\
    mysql_made log' = mysql_made (rlog g) ++ (if mysql_ok c then [clientfd c] else []) /\
    mysql_freed log' = mysql_freed (rlog g) ++ (if mysql_ok c then [clientfd c] else []).
Proof.
  intros Hst Hne Hr Hr' Hget Hok Ht Hw.
  destruct (get_release o hosts r r' id (bstate g) Hst Hne Hr Hr')
    as (p & b & ps & _ & _ & _ & [(ci' & bs' & cs & row & cn & Hget' & _ & _ & _ & _ & _ & Hrel)|[Hn _]]).
  2: { rewrite Hget in Hn. done. }
  rewrite Hget in Hget'. injection Hget' as -> ->.
  unfold net_thread_body. rewrite Hget. cbn [mbind outcome_bind]. rewrite Hw. cbn [mbind outcome_bind].
  rewrite Hrel. cbn [mbind outcome_bind]. rewrite return_taken by done. cbn [mbind outcome_bind].
  destruct (do_work_log _ _ _ _ _ _ _ _ _ _ _ _ Hw) as [-> Hm].
  unfold client_init in *. destruct (mysql_ok c); destruct m as [m|]; try (by destruct Hm as [Hm1 Hm2]; destruct Hm2).
  - eexists. split; [reflexivity|]. cbn [snd]. unfold vio_opened, vio_closed, mysql_made, mysql_freed.
    rewrite !omap_app. simpl. by rewrite !app_nil_r.
  - destruct Hm as [Hm _]. discriminate Hm. by eexists.
  - eexists. split; [reflexivity|]. cbn [snd]. unfold vio_opened, vio_closed, mysql_made, mysql_freed.
    rewrite !omap_app. simpl. by rewrite !app_nil_r.
Qed.

(** A restricted session passes on to the backends only what came as
    COM_PROXY_QUERY. *)
Definition replicated_only (h : handled) : Prop := forall repl q, h = HBackend repl q -> repl = true.

Lemma restricted_queries idx commit evs w m status w' m' status' hs :
  COM_PING < COM_END -> work_loop idx commit true evs w m status = Ret (w', m', status', hs) -> Forall replicated_only hs.
Proof.
  intros Hend Hw. refine (proj1 (work_loop_all idx commit true replicated_only evs w m status w' m' status' hs _ Hw)).
  clear Hw w m w' m' status status' hs. intros ev w m status e w' m' status' h Hs repl q ->. unfold serve_one in Hs. inv_bind.
  destruct x as [[[[e1 w1] m1'] s1'] h1]. injection Hs as <- <- <- <- Hh. subst h1. destruct ev; try (by injection H0).
  destruct (proj1 (queries_of_packet o COM_END SERVER_STATUS_CLEAR_SET (backend_query idx commit) command er_code true p w m status
    _ _ _ _ _ repl q Hend H0) eq_refl) as (cmd & _ & [[_ ?]|(_ & _ & ? & _)]); done.
Qed.

(** An administrative connection.  Whatever the client sends, only the queries
    it sends as COM_PROXY_QUERY reach the backends, as replicated queries; and
    the connection is never closed: the socket stays open and its object is not
    freed, although the thread ends. *)
Theorem admin_session c w status log w' hs log' :
  COM_PING < COM_END -> cmd_admin_new_thread c w status log = Ret (w', hs, log') ->
  (forall repl q, HBackend repl q ∈ hs -> repl = true) /\
  vio_opened log' = vio_opened log ++ [clientfd c] /\ vio_closed log' = vio_closed log /\
  mysql_made log' = mysql_made log ++ (if mysql_ok c then [clientfd c] else []) /\
  mysql_freed log' = mysql_freed log.
Proof.
  intros Hend Hw. unfold cmd_admin_new_thread in Hw. inv_bind. destruct x as [[[[w1 m] st'] hs'] l]. injection Hw as <- <- <-.
  destruct (do_work_log _ _ _ _ _ _ _ _ _ _ _ _ H0) as [-> _]. split.
  - intros repl q Hin. unfold proxy_net_client_do_work in H0. destruct (client_init c log) as [[mm|] l0].
    + inv_bind. destruct x as [e m1]. destruct e; [simplify_eq/=; by apply elem_of_nil in Hin|].
      inv_bind. destruct x as [[[w2 m2] s2] hs2]. simplify_eq/=. match goal with Hl : work_loop _ _ _ _ _ _ _ = _ |- _ => apply restricted_queries in Hl as Hall; [|done] end.
      exact (proj1 (Forall_forall _ _) Hall _ Hin repl q eq_refl).
    + simplify_eq/=. by apply elem_of_nil in Hin.
  - unfold client_init, vio_opened, vio_closed, mysql_made, mysql_freed.
    destruct (mysql_ok c); cbn [snd]; rewrite !omap_app; simpl; by rewrite !app_nil_r.
Qed.

End session.

(** ** A client that logs in, pings, and goes away *)

Module Demo.
Import Encoding.

Definition guest (ok : bool) : peer :=
  Peer 7 ok [] (str "0123456789abcdefghij") (Some demo_pkt) [] [EvPacket [COM_PING]; EvPacket (31 :: str "DROP"); EvHangup].

Definition nothing (idx : option conn_idx) (commit replicated : bool) (q : list Z) (w : unit) (m : MYSQL) (s : status_t)
  : outcome (bool * unit * MYSQL * status_t) := Ret (false, w, m, s).
Definition no_command (r : request) (w : unit) (m : MYSQL) (s : status_t) : outcome (bool * unit * MYSQL * status_t) :=
  Ret (false, w, m, s).

Definition work (c : peer) (idx : option conn_idx) (commit proxy_only : bool) :=
  proxy_net_client_do_work demo_options 30 0 nothing no_command (fun _ => 1148) (fun _ => latin) latin 0 8 1043
    (fun _ => false) idx commit proxy_only c tt (Status 0 0 0 0 0) [].

Definition group : shared := Shared (snd demo_started) pool_1of2 41 (Status 0 0 0 0 0) [].

(** The connection that the thread gets. *)
Definition got : conn_idx * backend_state :=
  match proxy_backend_get_connection 5 7 0 (bstate group) with Ret (Some x) => x | _ => (ConnIdx 0 0, bstate group) end.

(** The object, counters, commands and log of the session. *)
Definition work_result (ok : bool) : unit * option MYSQL * status_t * list handled * list res :=
  match work (guest ok) (Some (fst got)) true false with Ret x => x | Undef => (tt, None, Status 0 0 0 0 0, [], []) end.

End Demo.

Lemma client_round_witness :
  exists log', net_thread_body (H := Encoding.mysql) demo_options 30 0 Demo.nothing Demo.no_command (fun _ => 1148) (fun _ => latin) latin 0 8 1043
      (fun _ => false) 0 5 7 (Demo.guest true) tt (NThread (Some (Demo.guest true)) None (Status 0 0 0 0 0)) Demo.group =
    Ret (Some (tt, NThread None None (Status 0 0 0 0 0),
      Shared (snd demo_started) (give_item pool_1of2 0) 42 (Status 6 0 1 0 0) log',
      [HReply; HBackend true (str "DROP"); HNone])) /\ vio_closed log' = [7].
Proof.
  destruct (Demo.work_result true) as [[[[w m] st] hs] log] eqn:E.
  destruct (client_round (H := Encoding.mysql) demo_options 30 0 Demo.nothing Demo.no_command (fun _ => 1148) (fun _ => latin) latin 0 8 1043
    (fun _ => false) demo_hosts 0 5 7 (fst Demo.got) (snd Demo.got) (Demo.guest true) tt
    (NThread (Some (Demo.guest true)) None (Status 0 0 0 0 0)) Demo.group
    w st hs log m) as (log' & E' & _ & Hc & _).
  - apply demo_is_started.
  - discriminate.
  - lia.
  - lia.
  - vm_compute. reflexivity.
  - apply pool_1of2_ok.
  - split; [simpl; lia|reflexivity].
  - vm_compute in E. injection E as <- <- <- <- <-. vm_compute. reflexivity.
  - exists log'. split; [|exact Hc]. rewrite E'. vm_compute in E. injection E as <- _ <- <- _. reflexivity.
Defined.

Lemma admin_session_witness :
  exists hs log', cmd_admin_new_thread (H := Encoding.mysql) demo_options 30 0 Demo.nothing Demo.no_command (fun _ => 1148) (fun _ => latin) latin 0 8 1043
      (fun _ => false) (Demo.guest true) tt (Status 0 0 0 0 0) [] = Ret (tt, hs, log') /\
    vio_opened log' = [7] /\ vio_closed log' = [].
Proof.
  eexists _, _. split; [vm_compute; reflexivity|].
  match goal with |- vio_opened ?l = _ /\ _ =>
    destruct (admin_session (H := Encoding.mysql) demo_options 30 0 Demo.nothing Demo.no_command (fun _ => 1148) (fun _ => latin) latin 0 8 1043
      (fun _ => false) (Demo.guest true) tt (Status 0 0 0 0 0) [] tt [HReply; HBackend true (str "DROP"); HNone] l
      ltac:(reflexivity) ltac:(vm_compute; reflexivity)) as (_ & Ho & Hc & _)
  end.
  split; [exact Ho|exact Hc].
Defined.
