(* ===== verification/Proxy.v ===== *)
(** * From the client to the backend and back
      (src/src/proxy_backend.c: [proxy_backend_query]; src/src/proxy_net.c: [proxy_net_client_do_work])

    Session.v has the life of a connection and leaves open what happens to a query; Query.v has
    what happens to a query on the connection of its client.  Here the two are put together: [proxy_backend_query] as
    the loop of a client calls it, and a whole session through the proxy. *)

From S2P Require Import Prelude CString Status Wire Forward Options Pool Hashtable QueryMap.
From S2P Require Import Clone Trans Cmd SqlString Net BackendArrays Query Session.
Local Open Scope Z_scope.

(** What a session changes beside its client: the backend's side of its connection, the commands sent
    there, and the next transaction identifier. *)
Record wstate := World { w_be : backend; w_sent : list (Z * list Z); w_trans : Z }.

Section proxy.
Context `{Protocol}.
Variable o : options_t.
Variable COM_END SERVER_STATUS_CLEAR_SET : Z.
Variable er_code : er -> Z.
Variable real_query : list Z -> backend -> backend.
Variable after : wstate -> list Z.
Variable field_count : nat.
Variable check_commit : wstate -> bool -> bool * bool * bool.
Variable server_id0 server_id1 : Z.

(** The mapper, the number of backends and the connections. *)
Variable backend_mapper : option proxy_map_query_t.
Variable backend_num : Z.
Variable arr : backend_state.

(** A query on all backends: the threads of TwoPhase.v and Replicated.v. *)
Variable query_all : list Z -> bool -> wstate -> MYSQL -> status_t -> outcome (bool * wstate * MYSQL * status_t).

(** [proxy_backend_query]: a query for one backend reads [conn_idx], a query for all backends
    writes to [*commit].  When the proxy was cloned meanwhile the result is dropped, and the object of the client
    is as it was. *)
Definition proxy_backend_query (idx : option conn_idx) (commit replicated : bool) (query : list Z)
  (w : wstate) (m : MYSQL) (status : status_t) : outcome (bool * wstate * MYSQL * status_t) :=
  '(t, id) ← dispatch o backend_mapper backend_num query replicated (w_trans w);
  let w := World (w_be w) (w_sent w) id in
  match t with
  | ToAny q r =>
      idx ← nonnull idx;
      '(e, s) ← query_any o COM_END er_code real_query (after w) field_count (check_commit w) server_id0 server_id1
                  idx q r arr (QState (Fwd (w_be w) (Some m) status) (w_sent w));
      Ret (e, World (be (q_fwd s)) (q_sent s) id, default m (px (q_fwd s)), st (q_fwd s))
  | ToAll q r => if commit then query_all q r w m (inc_all status) else Undef
  end.

Variable command : request -> wstate -> MYSQL -> status_t -> outcome (bool * wstate * MYSQL * status_t).
Variable get_charset : Z -> charset.
Variable system_charset : charset.
Variable CLIENT_BASIC_FLAGS charset_number er_handshake : Z.
Variable net_error : MYSQL -> bool.

(** The error flag of the library is set by calls that fail only. *)
Hypothesis no_error : forall m, failed m = false -> net_error m = false.
Hypothesis com_end : COM_PING < COM_END.

Local Abbreviation serve := (serve_one o COM_END SERVER_STATUS_CLEAR_SET proxy_backend_query command er_code).
Local Abbreviation loop := (work_loop o COM_END SERVER_STATUS_CLEAR_SET proxy_backend_query command er_code net_error).
Local Abbreviation do_work :=
  (proxy_net_client_do_work o COM_END SERVER_STATUS_CLEAR_SET proxy_backend_query command er_code get_charset system_charset
     CLIENT_BASIC_FLAGS charset_number er_handshake net_error).
Local Abbreviation admin :=
  (cmd_admin_new_thread o COM_END SERVER_STATUS_CLEAR_SET proxy_backend_query command er_code get_charset system_charset
     CLIENT_BASIC_FLAGS charset_number er_handshake net_error).
Local Abbreviation login := (read_login get_charset system_charset CLIENT_BASIC_FLAGS).

(** ** A query of a client *)

(** A query for the backend of the client: no PROXY command, and no mapper, or the
    read-one-write-all mapper and a read. *)
Definition for_one (q : list Z) : Prop :=
  strncasecmp (cstr q 0) (str "PROXY") 5 <> 0 /\
  (backend_mapper = None \/ (backend_mapper = Some proxy_map_query /\ is_read q = true /\ NUL ∉ q)).

Lemma dispatch_one q id : for_one q -> dispatch o backend_mapper backend_num q false id = Ret (ToAny q false, id).
Proof.
  intros [_ [->|(-> & Hr & Hn)]]; unfold dispatch.
  - cbn. by destruct (coordinator o), (backend_num =? 1).
  - rewrite rowa_map, Hr by done. cbn [mbind outcome_bind]. unfold zlength. rewrite Nat2Z.id, take_ge by done.
    cbn. by destruct (coordinator o), (backend_num =? 1).
Qed.

(** The counters after a query [q] with the reply [ps]. *)
Definition account (s : status_t) (x : list Z * list (list Z)) : status_t :=
  sent_by (snd x) (inc_any (inc_queries (add_recv (zlength (COM_QUERY :: fst x)) s))).

(** The connection of a client is in use: nothing failed on it. *)
Definition serving (m : MYSQL) : Prop := good m /\ vio m = true /\ failed m = false.

Lemma serving_serves m m' : serving m -> serves m m' -> serving m'.
Proof. intros (_ & Hv & Hf) (? & Hv' & Hf'). split_and!; [done|congruence..]. Qed.

Lemma serving_open m : serving m -> net_error m || negb (vio m) = false.
Proof. intros (_ & Hv & Hf). by rewrite Hv, no_error. Qed.

Lemma flush_serves m : good m -> serves m (snd (net_flush m)) /\ written (snd (net_flush m)) = written m.
Proof.
  intros Hg. split; [by apply serves_do|]. unfold net_flush. rewrite written_do, (proj2 (good_do CFlush m Hg)). simpl. by rewrite app_nil_r.
Qed.

(** One round of the loop with such a query. *)
Lemma query_round idx w m status q ps rest :
  for_one q -> server_id1 = server_id0 -> conn_at (bi idx) (ci idx) arr = Ret (Conn true false) -> serving m ->
  b_vio (w_be w) = true -> (forall a, response a field_count ps) -> reads (w_be w) = (Some <$> ps) ++ rest ->
  exists w' m', serve (Some idx) true false (EvPacket (COM_QUERY :: q)) w m status =
      Ret (ERROR_OK, w', m', account status (q, ps), HBackend false q) /\
    serving m' /\ written m' = written m ++ ps /\
    b_vio (w_be w') = true /\ reads (w_be w') = rest /\ w_sent w' = w_sent w ++ [(COM_QUERY, q)].
Proof.
  intros Hq Hid Hc Hm Hv Hresp Hr. set (m0 := reset_status SERVER_STATUS_CLEAR_SET m).
  assert (Hm0 : serving m0) by exact Hm. assert (Hw0 : written m0 = written m) by done.
  set (st0 := inc_queries (add_recv (zlength (COM_QUERY :: q)) status)).
  destruct (query_forwards o COM_END er_code real_query (after w) field_count (check_commit w) server_id0 server_id1
    (Conn true false) q false false ps rest m0 (QState (Fwd (w_be w) (Some m0) (inc_any st0)) (w_sent w)))
    as (s' & E & [[Hbv Hbr] Hst Hpx] & Hrest & Hsent); try done; [by right|apply Hm0|].
  cbn [q_fwd px be st] in *. destruct (px (q_fwd s')) as [m1|] eqn:Epx; [|done]. destruct Hpx as [Hs1 Hw1].
  destruct (flush_serves m1 (proj1 Hs1)) as [Hs2 Hw2].
  exists (World (be (q_fwd s')) (q_sent s') (w_trans w)), (snd (net_flush m1)). split_and!.
  - unfold serve_one, proxy_net_read_query. cbn [hd0 tail]. fold m0. unfold do_command.
    destruct (Z.eqb_spec COM_QUERY (COM_PROXY_QUERY COM_END)) as [Heq|_];
      [unfold COM_QUERY, COM_PROXY_QUERY, COM_PING in *; lia|].
    change (COM_QUERY =? COM_QUERY) with true. cbv iota. fold st0.
    rewrite (proj2 (Z.eqb_neq _ 0) (proj1 Hq)). cbn [negb].
    unfold proxy_backend_query. rewrite (dispatch_one q _ Hq). destruct w as [wb ws wt]. cbn [w_be w_sent w_trans] in *.
    cbn [mbind outcome_bind nonnull]. unfold query_any, backend_query_idx. cbn [q_fwd be px Forward.st set_fwd q_sent].
    rewrite Hc. cbn [mbind outcome_bind]. unfold set_fwd. cbn [q_sent]. rewrite E. cbn [mbind outcome_bind default]. rewrite Epx.
    cbn [default]. by rewrite Hst.
  - eapply serving_serves; [|exact Hs2]. by eapply serving_serves.
  - by rewrite Hw2, Hw1, Hw0.
  - cbn [w_be]. by rewrite Hbv.
  - done.
  - done.
Qed.

(** ** A session *)

Definition query_events (qs : list (list Z * list (list Z))) : list client_event :=
  (fun x : list Z * list (list Z) => EvPacket (COM_QUERY :: fst x)) <$> qs.

Lemma queries_loop idx qs w m status evs rest :
  Forall (fun x => for_one (fst x) /\ forall a, response a field_count (snd x)) qs ->
  server_id1 = server_id0 -> conn_at (bi idx) (ci idx) arr = Ret (Conn true false) -> serving m ->
  b_vio (w_be w) = true -> reads (w_be w) = (Some <$> mjoin (snd <$> qs)) ++ rest ->
  exists w' m', loop (Some idx) true false (query_events qs ++ EvPacket [COM_QUIT] :: evs) w m status =
      Ret (w', m', add_recv 1 (fold_left account qs status), (HBackend false <$> (fst <$> qs)) ++ [HNone]) /\
    serving m' /\ written m' = written m ++ mjoin (snd <$> qs) /\
    reads (w_be w') = rest /\ w_sent w' = w_sent w ++ ((COM_QUERY,.) <$> (fst <$> qs)).
Proof.
  intros Hqs Hid Hc. revert w m status. induction Hqs as [|[q ps] qs [Hq Hresp] Hqs IH]; intros w m status Hm Hv Hr.
  - cbn in Hr. set (m0 := reset_status SERVER_STATUS_CLEAR_SET m).
    assert (Hm0 : serving m0) by exact Hm. destruct (flush_serves m0 (proj1 Hm0)) as [Hs2 Hw2].
    exists w, (snd (net_flush m0)). cbn [query_events fmap list_fmap app work_loop fold_left]. rewrite serving_open by done. split_and!.
    + unfold serve_one, proxy_net_read_query. cbn [hd0 tail]. fold m0. unfold do_command.
      destruct (Z.eqb_spec COM_QUIT (COM_PROXY_QUERY COM_END)) as [Heq|_];
        [unfold COM_QUIT, COM_PROXY_QUERY, COM_PING in *; lia|]. done.
    + by eapply serving_serves.
    + rewrite Hw2. cbn. by rewrite app_nil_r.
    + done.
    + by rewrite app_nil_r.
  - cbn in Hr. rewrite fmap_app, <-app_assoc in Hr.
    destruct (query_round idx w m status q ps _ Hq Hid Hc Hm Hv Hresp Hr) as (w1 & m1 & E & Hm1 & Hw1 & Hv1 & Hr1 & Hs1).
    destruct (IH w1 m1 (account status (q, ps)) Hm1 Hv1 Hr1) as (w2 & m2 & E2 & Hm2 & Hw2 & Hr2 & Hs2).
    exists w2, m2. cbn [query_events fmap list_fmap app work_loop fold_left fst snd]. rewrite serving_open by done.
    rewrite E. cbn [mbind outcome_bind]. unfold query_events in E2. rewrite E2. cbn [mbind outcome_bind]. split_and!; [done|done| |done|].
    + rewrite Hw2, Hw1. cbn. by rewrite app_assoc.
    + rewrite Hs2, Hs1. cbn. by rewrite <-app_assoc.
Qed.

(** The login of a client on whose connection no write fails. *)
Lemma login_ok c pkt l log :
  mysql_ok c = true -> writes c = [] -> hello c = Some pkt -> login pkt (behind c) = Ret (Some l) ->
  exists m m', client_init c log = (Some m, snd (client_init c log)) /\
    handshake get_charset system_charset CLIENT_BASIC_FLAGS charset_number er_handshake c m = Ret (false, m') /\
    serving m' /\
    written m' = [PROTOCOL_VERSION :: handshake_packet CLIENT_BASIC_FLAGS server_version (scramble c) charset_number;
                  ok_packet (Mysql true 0 [] []) 0 0 0].
Proof.
  intros Hok Hw Hh Hl. unfold client_init. rewrite Hok, Hw. set (m := Mysql true 0 [] []). exists m.
  unfold handshake. rewrite Hh. unfold proxy_net_handshake. rewrite Hl. cbn [mbind outcome_bind check_user].
  set (p := CCommand _ _). assert (Hg : good m) by done. pose proof (serves_do p m Hg) as Hs. pose proof (good_do p m Hg) as [_ He].
  pose proof (written_do p m) as Hw1. assert (Hss : server_status (snd (net_do p m)) = 0) by done.
  destruct (net_do p m) as [e m1]. cbn [fst snd] in *. subst e.
  destruct (send_ok_good m1 0 0 0 (proj1 Hs)) as (m2 & E & Hs2 & Hw2). rewrite E. cbn [snd].
  exists m2. split_and!; [done|done| |].
  - eapply serving_serves; [|exact Hs2]. by eapply serving_serves; [|exact Hs].
  - rewrite Hw2, Hw1. unfold ok_packet. rewrite Hss. done.
Qed.

(** C4: the proxy is transparent for a whole session.  A client logs in, sends queries for one
    backend, and quits.  Then the session ends without undefined behaviour; after the greeting and the OK of
    the login the client has received the backend's replies to its queries, packet by packet
    and in order, and nothing else; the backend has received the queries, unchanged and in order, one command
    each; nothing behind the last reply was read from it, nothing the client sent after
    its quit was looked at, and the counters are those of the queries and replies. *)
Theorem session_transparent idx c pkt l w status log qs evs rest :
  mysql_ok c = true -> writes c = [] -> hello c = Some pkt -> login pkt (behind c) = Ret (Some l) ->
  events c = query_events qs ++ EvPacket [COM_QUIT] :: evs ->
  Forall (fun x => for_one (fst x) /\ forall a, response a field_count (snd x)) qs ->
  server_id1 = server_id0 -> conn_at (bi idx) (ci idx) arr = Ret (Conn true false) ->
  b_vio (w_be w) = true -> reads (w_be w) = (Some <$> mjoin (snd <$> qs)) ++ rest ->
  exists w' m', do_work (Some idx) true false c w status log =
      Ret (w', Some m', add_recv 1 (fold_left account qs status), (HBackend false <$> (fst <$> qs)) ++ [HNone],
           snd (client_init c log)) /\
    written m' = [PROTOCOL_VERSION :: handshake_packet CLIENT_BASIC_FLAGS server_version (scramble c) charset_number;
                  ok_packet (Mysql true 0 [] []) 0 0 0] ++ mjoin (snd <$> qs) /\
    w_sent w' = w_sent w ++ ((COM_QUERY,.) <$> (fst <$> qs)) /\ reads (w_be w') = rest.
Proof.
  intros Hok Hwr Hh Hl Hev Hqs Hid Hc Hv Hr. destruct (login_ok c pkt l log Hok Hwr Hh Hl) as (m & m1 & Ei & Eh & Hm & Hw).
  destruct (queries_loop idx qs w m1 status evs rest Hqs Hid Hc Hm Hv Hr) as (w' & m' & E & _ & Hw' & Hr' & Hs').
  exists w', m'. split; [|by rewrite Hw', Hw]. unfold proxy_net_client_do_work. rewrite Ei. cbn [snd]. rewrite Eh.
  cbn [mbind outcome_bind]. by rewrite Hev, E.
Qed.

(** C40: a query on an administrative connection is undefined.  [cmd_admin_new_thread] has no
    connection to a backend and no commit data; [proxy_net_read_query] accepts COM_PROXY_QUERY there,
    and [proxy_backend_query] then uses [conn_idx], which was never set, or writes through the null pointer [commit]. *)
Theorem admin_query_undefined c pkt l w status log q evs :
  mysql_ok c = true -> writes c = [] -> hello c = Some pkt -> login pkt (behind c) = Ret (Some l) ->
  events c = EvPacket (COM_PROXY_QUERY COM_END :: q) :: evs ->
  admin c w status log = Undef.
Proof.
  intros Hok Hwr Hh Hl Hev. destruct (login_ok c pkt l log Hok Hwr Hh Hl) as (m & m1 & Ei & Eh & Hm & _).
  unfold cmd_admin_new_thread, proxy_net_client_do_work. rewrite Ei, Eh. cbn [mbind outcome_bind]. rewrite Hev. cbn [work_loop].
  rewrite serving_open by done. unfold serve_one, proxy_net_read_query, do_command. cbn [hd0 tail]. rewrite Z.eqb_refl.
  unfold proxy_backend_query. destruct (dispatch _ _ _ _ _ _) as [[[] id]|]; done.
Qed.

End proxy.

(** ** Two reads through the proxy *)

Module ProxyDemo.
Import Encoding.

Definition queries : list (list Z * list (list Z)) :=
  [(str "SELECT a FROM t", demo_reply); (str "select 0", [ok_packet fresh 0 0 0])].

Definition reader (evs : list client_event) : peer :=
  Peer 7 true [] (str "0123456789abcdefghij") (Some demo_pkt) [] evs.

Definition start : wstate := World (Backend true ((Some <$> mjoin (snd <$> queries)) ++ [Some [7]]) []) [] 1.

Lemma queries_for_one :
  Forall (fun x => for_one (Some proxy_map_query) (fst x) /\ forall a, response a 2 (snd x)) queries.
Proof.
  assert (Hq : forall q, strncasecmp (cstr q 0) (str "PROXY") 5 <> 0 -> is_read q = true ->
    forallb (fun c => negb (c =? NUL)) q = true -> for_one (Some proxy_map_query) q).
  { intros q Hp Hr Hn. split; [exact Hp|]. right. split; [reflexivity|]. split; [exact Hr|]. by apply no_NUL. }
  constructor; [split|constructor; [split|constructor]]; cbn [fst snd].
  - apply Hq; vm_compute; [discriminate|reflexivity|reflexivity].
  - intros a. apply (response_rows a 2 [1] 1 a [row_of [str "def"; []; str "t"; str "t"; str "a"; str "a"; str "x"]] eof_packet
      demo_rows eof_packet);
      [vm_compute; reflexivity|vm_compute; discriminate|reflexivity|discriminate
      |repeat constructor; vm_compute; reflexivity|vm_compute; reflexivity|vm_compute; reflexivity
      |repeat constructor; vm_compute; reflexivity|vm_compute; reflexivity|vm_compute; reflexivity].
  - apply Hq; vm_compute; [discriminate|reflexivity|reflexivity].
  - intros a. eapply response_ok; [vm_compute; reflexivity|vm_compute; discriminate|reflexivity].
Qed.

Definition all_backends (q : list Z) (r : bool) (w : wstate) (m : MYSQL) (s : status_t) : outcome (bool * wstate * MYSQL * status_t) :=
  Ret (false, w, m, s).
Definition no_proxy_command (r : request) (w : wstate) (m : MYSQL) (s : status_t) : outcome (bool * wstate * MYSQL * status_t) :=
  Ret (false, w, m, s).

Definition query := proxy_backend_query demo_options 30 (fun _ => 1148) (fun _ b => b) (fun _ => [9]) 2
  (fun _ b => (false, false, b)) 0 0 (Some proxy_map_query) 2 (snd Demo.got) all_backends.

End ProxyDemo.

Lemma session_transparent_witness :
  exists w' m', proxy_net_client_do_work (H := Encoding.mysql) demo_options 30 0 ProxyDemo.query ProxyDemo.no_proxy_command (fun _ => 1148)
      (fun _ => latin) latin 0 8 1043 failed (Some (fst Demo.got)) true false
      (ProxyDemo.reader (query_events ProxyDemo.queries ++ [EvPacket [COM_QUIT]; EvPacket [COM_PING]]))
      ProxyDemo.start (Status 0 0 0 0 0) [] =
    Ret (w', Some m', Status 26 40 2 2 0,
      [HBackend false (str "SELECT a FROM t"); HBackend false (str "select 0"); HNone],
      [VioNew 7; SetOpt 7 "SO_KEEPALIVE" 1; SetOpt 7 "TCP_KEEPCNT" 4; SetOpt 7 "TCP_KEEPIDLE" 60; SetOpt 7 "TCP_KEEPINTVL" 60; MysqlInit 7]) /\
    drop 2 (written m') = demo_reply ++ [ok_packet (H := Encoding.mysql) fresh 0 0 0] /\
    w_sent w' = [(COM_QUERY, str "SELECT a FROM t"); (COM_QUERY, str "select 0")] /\ reads (w_be w') = [Some [7]].
Proof.
  destruct (session_transparent (H := Encoding.mysql) demo_options 30 0 (fun _ => 1148) (fun _ b => b) (fun _ => [9]) 2
    (fun _ b => (false, false, b)) 0 0 (Some proxy_map_query) 2 (snd Demo.got) ProxyDemo.all_backends ProxyDemo.no_proxy_command
    (fun _ => latin) latin 0 8 1043 failed ltac:(done) ltac:(reflexivity) (fst Demo.got)
    (ProxyDemo.reader (query_events ProxyDemo.queries ++ [EvPacket [COM_QUIT]; EvPacket [COM_PING]])) demo_pkt
    (Login (str "bob") [7; 8] None) ProxyDemo.start (Status 0 0 0 0 0) [] ProxyDemo.queries [EvPacket [COM_PING]] [Some [7]])
    as (w' & m' & E & Hw & Hs & Hr).
  - reflexivity.
  - reflexivity.
  - reflexivity.
  - vm_compute. reflexivity.
  - reflexivity.
  - apply ProxyDemo.queries_for_one.
  - reflexivity.
  - vm_compute. reflexivity.
  - reflexivity.
  - reflexivity.
  - exists w', m'. split; [etransitivity; [exact E|]|].
    + vm_compute. reflexivity.
    + rewrite Hw. split; [reflexivity|]. split; [exact Hs|exact Hr].
Defined.

Lemma admin_query_undefined_witness :
  cmd_admin_new_thread (H := Encoding.mysql) demo_options 30 0 ProxyDemo.query ProxyDemo.no_proxy_command (fun _ => 1148)
    (fun _ => latin) latin 0 8 1043 failed (ProxyDemo.reader [EvPacket (31 :: str "SELECT 1")]) ProxyDemo.start (Status 0 0 0 0 0) [] = Undef.
Proof.
  apply (admin_query_undefined (H := Encoding.mysql) demo_options 30 0 (fun _ => 1148) (fun _ b => b) (fun _ => [9]) 2
    (fun _ b => (false, false, b)) 0 0 (Some proxy_map_query) 2 (snd Demo.got) ProxyDemo.all_backends ProxyDemo.no_proxy_command
    (fun _ => latin) latin 0 8 1043 failed ltac:(done)
    (ProxyDemo.reader [EvPacket (31 :: str "SELECT 1")]) demo_pkt (Login (str "bob") [7; 8] None) ProxyDemo.start
    (Status 0 0 0 0 0) [] (str "SELECT 1") []); try reflexivity.
Defined.
