(* ===== verification/Listen.v ===== *)
(** * Listening sockets and the shutdown by a signal
      (src/src/proxy_net.c: [proxy_net_bind_new_socket]; src/src/proxy.c: the loop
      of [server_run], [catch_sig], the end of [main]; src/src/proxy_cmd.c: the
      loop of [proxy_cmd_admin_start])

    The main thread accepts clients until a signal clears [run], then interrupts
    the administrative thread and waits for its end.  Both threads test [run]
    and wait in [select] for the next connection.  A signal interrupts [select]
    only if the thread is already in it.  SIGINT and SIGTERM are blocked by
    [proxy_threading_mask] in all threads but the main thread and the monitor (see
    Threading.v), so that one of these two handles them. *)

From S2P Require Import Prelude CString.
Local Open Scope Z_scope.

(** ** Opening a socket *)

Definition QUEUE_LENGTH : Z := 10.
Definition INADDR_ANY : Z := 0.

Inductive syscall :=
| Socket (fd : Z)
| Bind (fd addr port : Z)
| Listen (fd backlog : Z)
| Close (fd : Z).

Section bind.
(** What the system calls give: the address of a host name, the new socket, and
    whether [bind] and [listen] succeed. *)
Variable gethostbyname : list Z -> option Z.
Variable socket : Z.
Variable bind_ok : Z -> Z -> bool.
Variable listen_ok : bool.

(** The address to bind to. *)
Definition addr_of (host : option (list Z)) : option Z :=
  match host with Some h => gethostbyname h | None => Some INADDR_ANY end.

(** The value returned and the calls that were made; the port is cast to
    [unsigned short]. *)
Definition proxy_net_bind_new_socket (host : option (list Z)) (port : Z) : Z * list syscall :=
  match addr_of host with
  | None => (-1, [Socket socket])
  | Some a =>
      if negb ((0 <=? socket) && bind_ok a (u16 port)) then (-1, [Socket socket; Bind socket a (u16 port)])
      else if negb listen_ok then (-1, [Socket socket; Bind socket a (u16 port); Listen socket QUEUE_LENGTH])
      else (socket, [Socket socket; Bind socket a (u16 port); Listen socket QUEUE_LENGTH])
  end.

(** Opening a socket.  A socket is returned exactly if the host has an address and
    [bind] and [listen] succeed for the address and the port modulo 2^16; in every
    other case the result is -1 and a socket that was opened is not closed. *)
Theorem bind_spec host port r calls :
  proxy_net_bind_new_socket host port = (r, calls) ->
  (0 <= r <-> exists a, addr_of host = Some a /\ 0 <= socket /\ bind_ok a (u16 port) = true /\ listen_ok = true) /\
  (0 <= r -> r = socket /\ exists a, calls = [Socket r; Bind r a (u16 port); Listen r QUEUE_LENGTH]) /\
  (r < 0 -> r = -1) /\ Socket socket ∈ calls /\ (forall fd, Close fd ∉ calls).
Proof.
  unfold proxy_net_bind_new_socket. destruct (addr_of host) as [a|] eqn:E.
  - destruct (Z.leb_spec 0 socket), (bind_ok a (u16 port)) eqn:Eb; simpl; [destruct listen_ok eqn:El|..];
      intros [= <- <-]; (split; [split; [|intros (a' & Ha & ? & ? & ?)]; [|injection Ha as <-]; try lia; try congruence; eauto 10|]);
      (split_and!; [lia || eauto|lia|set_solver|set_solver]).
  - intros [= <- <-]. split; [split; [lia|by intros (a & ? & _)]|]. split_and!; [lia|lia|set_solver|set_solver].
Qed.

End bind.

(** ** The two accepting threads *)

(** The main thread: [server_run], then the end of the administrative thread. *)
Inductive mpc :=
| MBind                       (* opens the socket *)
| MTest                       (* while (run) *)
| MEnter                      (* about to call select *)
| MSelect                     (* in select *)
| MAccept                     (* calls accept *)
| MGet                        (* waits in proxy_pool_get for a client thread *)
| MHand                       (* gives the client to the thread *)
| MClose                      (* closes the socket *)
| MKill                       (* sends SIGPOLL to the administrative thread *)
| MJoin                       (* waits for its end *)
| MDone.

(** The administrative thread. *)
Inductive apc :=
| AWait                       (* while (!run) *)
| ABind
| ATest
| AEnter
| ASelect
| AAccept
| ACreate                     (* creates a thread for the client *)
| ADone.

#[export] Instance mpc_eq_dec : EqDecision mpc.
Proof. solve_decision. Defined.
#[export] Instance apc_eq_dec : EqDecision apc.
Proof. solve_decision. Defined.

(** [mq] and [aq] are the connections that wait at the two sockets, [nserved] and
    [nadmins] those that were given to a thread, [idle] the client threads that are free in
    [thread_pool]. *)
Record lstate := LState {
  run : bool;
  main_pc : mpc;
  admin_pc : apc;
  mq : nat;
  aq : nat;
  nserved : nat;
  nadmins : nat;
  idle : nat
}.

(** [catch_sig] for SIGINT and SIGTERM: [run] and the client threads that get
    SIGPOLL. *)
Definition catch_sig (client_threads : Z) : bool * list nat := (false, seq 0 (Z.to_nat client_threads)).

(** The main thread in [server_run].  [proxy_pool_get] returns only when a client
    thread is free; an [accept] that fails may leave the connection in the queue. *)
Inductive main_step : lstate -> lstate -> Prop :=
| l_bind r a mq aq s n f : main_step (LState r MBind a mq aq s n f) (LState true MTest a mq aq s n f)
| l_bind_fail r a mq aq s n f : main_step (LState r MBind a mq aq s n f) (LState r MKill a mq aq s n f)
| l_test a mq aq s n f : main_step (LState true MTest a mq aq s n f) (LState true MEnter a mq aq s n f)
| l_stop a mq aq s n f : main_step (LState false MTest a mq aq s n f) (LState false MClose a mq aq s n f)
| l_enter r a mq aq s n f : main_step (LState r MEnter a mq aq s n f) (LState r MSelect a mq aq s n f)
| l_select r a mq aq s n f : main_step (LState r MSelect a (S mq) aq s n f) (LState r MAccept a (S mq) aq s n f)
| l_accept r a mq aq s n f : main_step (LState r MAccept a (S mq) aq s n f) (LState r MGet a mq aq s n f)
| l_accept_fail r a mq aq s n f : main_step (LState r MAccept a (S mq) aq s n f) (LState r MTest a mq aq s n f)
| l_accept_kept r a mq aq s n f : main_step (LState r MAccept a (S mq) aq s n f) (LState r MTest a (S mq) aq s n f)
| l_get r a mq aq s n f : main_step (LState r MGet a mq aq s n (S f)) (LState r MHand a mq aq s n f)
| l_hand r a mq aq s n f : main_step (LState r MHand a mq aq s n f) (LState r MTest a mq aq (S s) n f)
| l_close r a mq aq s n f : main_step (LState r MClose a mq aq s n f) (LState r MKill a mq aq s n f).

(** The main thread after [server_run]: SIGPOLL interrupts the administrative
    thread in [select], and has no effect elsewhere. *)
Inductive join_step : lstate -> lstate -> Prop :=
| l_kill r a mq aq s n f :
    join_step (LState r MKill a mq aq s n f) (LState r MJoin (if decide (a = ASelect) then ATest else a) mq aq s n f)
| l_join r mq aq s n f : join_step (LState r MJoin ADone mq aq s n f) (LState r MDone ADone mq aq s n f).

(** The administrative thread. *)
Inductive admin_step : lstate -> lstate -> Prop :=
| l_awake m mq aq s n f : admin_step (LState true m AWait mq aq s n f) (LState true m ABind mq aq s n f)
| l_abind r m mq aq s n f : admin_step (LState r m ABind mq aq s n f) (LState r m ATest mq aq s n f)
| l_abind_fail r m mq aq s n f : admin_step (LState r m ABind mq aq s n f) (LState r m ADone mq aq s n f)
| l_atest m mq aq s n f : admin_step (LState true m ATest mq aq s n f) (LState true m AEnter mq aq s n f)
| l_astop m mq aq s n f : admin_step (LState false m ATest mq aq s n f) (LState false m ADone mq aq s n f)
| l_aenter r m mq aq s n f : admin_step (LState r m AEnter mq aq s n f) (LState r m ASelect mq aq s n f)
| l_aselect r m mq aq s n f : admin_step (LState r m ASelect mq (S aq) s n f) (LState r m AAccept mq (S aq) s n f)
| l_aaccept r m mq aq s n f : admin_step (LState r m AAccept mq (S aq) s n f) (LState r m ACreate mq aq s n f)
| l_aaccept_fail r m mq aq s n f : admin_step (LState r m AAccept mq (S aq) s n f) (LState r m ATest mq aq s n f)
| l_aaccept_kept r m mq aq s n f : admin_step (LState r m AAccept mq (S aq) s n f) (LState r m ATest mq (S aq) s n f)
| l_acreate r m mq aq s n f : admin_step (LState r m ACreate mq aq s n f) (LState r m ATest mq aq s (S n) f).

Definition lstep (x y : lstate) : Prop := main_step x y \/ join_step x y \/ admin_step x y.

Ltac lstep_cases H := destruct H as [H|[H|H]]; destruct H.
Ltac lstep_with R := first [left; apply R | right; left; apply R | right; right; apply R].
Ltac lstep_some := first [left; by constructor | right; left; by constructor | right; right; by constructor].

Section listening.
Variable client_threads : Z.

(** [run] is zero, the administrative thread was just started, and all client
    threads are free. *)
Definition linit : lstate := LState false MBind AWait 0 0 0 0 (Z.to_nat client_threads).

(** What comes from outside: connections, a client thread that has finished with its
    client and returns to the pool, and a signal.  The main thread that
    handles it is interrupted in [select]; if the monitor handles it, the main
    thread is not. *)
Inductive lenv : lstate -> lstate -> Prop :=
| e_client r m a mq aq s n f : lenv (LState r m a mq aq s n f) (LState r m a (S mq) aq s n f)
| e_admin r m a mq aq s n f : lenv (LState r m a mq aq s n f) (LState r m a mq (S aq) s n f)
| e_return r m a mq aq s n f : (f < Z.to_nat client_threads)%nat ->
    lenv (LState r m a mq aq s n f) (LState r m a mq aq s n (S f))
| e_signal r m a mq aq s n f :
    lenv (LState r m a mq aq s n f)
         (LState (fst (catch_sig client_threads)) (if decide (m = MSelect) then MTest else m) a mq aq s n f)
| e_signal_monitor r m a mq aq s n f :
    lenv (LState r m a mq aq s n f) (LState (fst (catch_sig client_threads)) m a mq aq s n f).

Definition lreachable (s : lstate) : Prop := rtc (fun x y => lstep x y \/ lenv x y) linit s.

(** ** After the signal *)

(** Steps that the threads still take once [run] is zero. *)
Definition mrank (m : mpc) : nat :=
  match m with
  | MBind => 100 | MEnter => 12 | MSelect => 11 | MAccept => 10 | MGet => 9 | MHand => 8 | MTest => 7 | MClose => 6
  | MKill => 5 | MJoin => 1 | MDone => 0
  end.
Definition arank (a : apc) : nat :=
  match a with
  | AWait => 9 | ABind => 8 | AEnter => 7 | ASelect => 6 | AAccept => 5 | ACreate => 4 | ATest => 3 | ADone => 0
  end.

Definition stopped (s : lstate) : Prop := run s = false /\ main_pc s <> MBind.

Lemma stopped_step s s' :
  stopped s -> lstep s s' ->
  stopped s' /\ (mrank (main_pc s') + arank (admin_pc s') < mrank (main_pc s) + arank (admin_pc s))%nat.
Proof.
  intros [Hr Hm] Hst. lstep_cases Hst; simpl in *; try done; subst; try (split; [by split|simpl; lia]).
  case_decide; subst; (split; [by split|simpl; lia]).
Qed.

(** The states in which nothing goes on: the end, or the main thread waits
    for a connection or for a client thread, or the administrative thread, which the main
    thread waits for, waits for a connection or for [run]. *)
Definition ended (s : lstate) : Prop := main_pc s = MDone /\ admin_pc s = ADone.
Definition main_hangs (s : lstate) : Prop := main_pc s = MSelect /\ mq s = O.
Definition pool_hangs (s : lstate) : Prop := main_pc s = MGet /\ idle s = O.
Definition admin_hangs (s : lstate) : Prop :=
  main_pc s = MJoin /\ (admin_pc s = AWait \/ (admin_pc s = ASelect /\ aq s = O)).

Lemma accept_pending s : lreachable s -> (main_pc s = MAccept -> mq s <> O) /\ (admin_pc s = AAccept -> aq s <> O) /\
  (main_pc s = MDone -> admin_pc s = ADone).
Proof.
  intros Hr. unfold lreachable in Hr.
  assert (H0 : (main_pc linit = MAccept -> mq linit <> O) /\ (admin_pc linit = AAccept -> aq linit <> O) /\
    (main_pc linit = MDone -> admin_pc linit = ADone)) by done.
  induction Hr as [|x y z Hxy Hyz IH]; [done|]. apply IH. clear IH Hyz.
  destruct H0 as (H1 & H2 & H3). destruct Hxy as [Hst|Hst]; [lstep_cases Hst|destruct Hst]; simpl in *;
    repeat case_decide; subst; split_and!; try done; intros E; simplify_eq; naive_solver.
Qed.

Lemma stopped_stuck s :
  lreachable s -> stopped s -> (forall s', ~ lstep s s') -> ended s \/ main_hangs s \/ pool_hangs s \/ admin_hangs s.
Proof.
  intros Hre [Hr Hm] Hno. destruct (accept_pending s Hre) as (H1 & H2 & H3).
  destruct s as [r m a mq aq sv ad f]. simpl in *. subst r. unfold ended, main_hangs, pool_hangs, admin_hangs. simpl.
  destruct m; try done; try (exfalso; eapply Hno; lstep_some).
  - destruct mq as [|mq]; [tauto|]. exfalso. eapply Hno. lstep_with l_select.
  - destruct mq as [|mq]; [by destruct H1|]. exfalso. eapply Hno. lstep_with l_accept.
  - destruct f as [|f]; [tauto|]. exfalso. eapply Hno. lstep_with l_get.
  - destruct a; try (exfalso; eapply Hno; lstep_some); try tauto.
    + destruct aq as [|aq]; [tauto|]. exfalso. eapply Hno. lstep_with l_aselect.
    + destruct aq as [|aq]; [by destruct H2|]. exfalso. eapply Hno. lstep_with l_aaccept.
  - left. split; [done|]. by apply H3.
Qed.

(** Both threads were in [select] when the signal came. *)
Definition clean (s : lstate) : Prop :=
  run s = false /\
  match main_pc s, admin_pc s with
  | (MTest | MClose | MKill), (ASelect | AAccept | ACreate | ATest | ADone) => True
  | (MJoin | MDone), (AAccept | ACreate | ATest | ADone) => True
  | _, _ => False
  end.

Lemma clean_step s s' : clean s -> lstep s s' -> clean s'.
Proof.
  intros [Hr Hc] Hst. lstep_cases Hst; simpl in *; subst; try done; unfold clean; simpl; (split; [done|]);
    repeat (case_match; simplify_eq; try done).
Qed.

Lemma stopped_sn s : stopped s -> sn lstep s.
Proof.
  intros Hst. remember (mrank (main_pc s) + arank (admin_pc s))%nat as k eqn:Ek.
  revert s Hst Ek. induction (lt_wf k) as [k _ IH]. intros s Hst ->. constructor. intros s' Hs'.
  destruct (stopped_step s s' Hst Hs') as [Hst' Hlt]. by eapply IH.
Qed.

Lemma stopped_run s s' : lreachable s -> stopped s -> rtc lstep s s' -> lreachable s' /\ stopped s'.
Proof.
  intros Hre Hst Hr. induction Hr as [|x y z Hxy _ IH]; [done|]. apply IH.
  - eapply rtc_r; [exact Hre|]. by left.
  - by apply (stopped_step x y).
Qed.

Lemma clean_run s s' : clean s -> rtc lstep s s' -> clean s'.
Proof. intros Hc Hr. induction Hr as [|x y z Hxy _ IH]; [done|]. by eapply IH, clean_step. Qed.

(** C28: the end of the proxy after a signal.  Once the signal has cleared [run] of
    a server whose socket was opened (or could not be), every run of the main and the
    administrative thread is finite.  It ends with the administrative thread
    joined, or in one of four places where a thread waits: the main thread in
    [select] with no connection in its queue, the main thread in [proxy_pool_get] with a
    client it accepted and no free client thread, or the administrative thread, which
    main waits for, in [select] with no connection in its queue or in its wait
    [while (!run)] for the start of the server.  If both threads were in [select] when the
    signal came to the main thread, the proxy always ends. *)
Theorem shutdown_ends s :
  lreachable s -> stopped s ->
  sn lstep s /\
  (forall s', rtc lstep s s' -> nf lstep s' -> ended s' \/ main_hangs s' \/ pool_hangs s' \/ admin_hangs s') /\
  (main_pc s = MTest -> admin_pc s = ASelect -> forall s', rtc lstep s s' -> nf lstep s' -> ended s').
Proof.
  intros Hre Hst.
  assert (Hend : forall s', rtc lstep s s' -> nf lstep s' -> ended s' \/ main_hangs s' \/ pool_hangs s' \/ admin_hangs s').
  { intros s' Hr Hn. destruct (stopped_run s s' Hre Hst Hr). apply stopped_stuck; [done..|].
    intros s2 Hs2. apply Hn. by exists s2. }
  split_and!; [by apply stopped_sn|done|].
  intros Hm Ha s' Hr Hn. assert (Hc : clean s').
  { eapply clean_run, Hr. split; [apply Hst|]. by rewrite Hm, Ha. }
  destruct Hc as [_ Hc]. destruct (Hend s' Hr Hn) as [?|[[E _]|[[E _]|[E [E'|[E' _]]]]]]; [done|..];
    rewrite ?E, ?E' in Hc; try done; by destruct (admin_pc s').
Qed.

Lemma hang_nf s :
  stopped s -> (main_hangs s \/ pool_hangs s) /\ admin_pc s = ADone \/ admin_hangs s -> nf lstep s.
Proof.
  intros [Hr _] Hh [s' Hs']. unfold main_hangs, pool_hangs, admin_hangs in Hh. lstep_cases Hs'; simpl in *; subst; naive_solver.
Qed.

Lemma main_hangs_step s s' : main_hangs s -> lstep s s' -> main_hangs s'.
Proof. intros [Hm Hq] Hs. unfold main_hangs. lstep_cases Hs; simpl in *; done. Qed.

End listening.

(** Runs. *)
Ltac lrun R := eapply rtc_l; [left; lstep_with R|simpl].
Ltac lsignal := eapply rtc_l; [right; apply e_signal|simpl].

Lemma both_waiting : lreachable 4 (LState false MTest ASelect 0 0 0 0 4).
Proof.
  unfold lreachable, linit. lrun l_bind. lrun l_test. lrun l_enter. lrun l_awake. lrun l_abind. lrun l_atest. lrun l_aenter.
  lsignal. apply rtc_refl.
Qed.

Lemma shutdown_ends_witness :
  stopped (LState false MTest ASelect 0 0 0 0 4) /\ sn lstep (LState false MTest ASelect 0 0 0 0 4).
Proof.
  assert (Hst : stopped (LState false MTest ASelect 0 0 0 0 4)) by (split; [reflexivity|discriminate]).
  split; [exact Hst|]. apply (shutdown_ends 4 _ both_waiting Hst).
Defined.

(** A signal can be lost.  The test of [run] and the call of [select] are two
    steps.  A signal between them is not seen until the next connection: the main
    thread hangs in [select]; or the administrative thread does, after main has sent
    its SIGPOLL; or the administrative thread starts only after [run] was set
    and cleared, and waits for it forever.  With one client thread, which is busy, the main
    thread hangs with the second client it accepted.  A signal before [run] is set is
    overwritten: the proxy goes on to serve.  And a signal that the monitor handles
    never ends a proxy whose main thread waits in [select]. *)
Theorem shutdown_hangs :
  (exists s, lreachable 4 s /\ stopped s /\ main_hangs s /\ nf lstep s) /\
  (exists s, lreachable 4 s /\ stopped s /\ admin_pc s = ASelect /\ admin_hangs s /\ nf lstep s) /\
  (exists s, lreachable 4 s /\ stopped s /\ admin_pc s = AWait /\ admin_hangs s /\ nf lstep s) /\
  (exists s, lreachable 1 s /\ stopped s /\ pool_hangs s /\ nserved s = 1%nat /\ nf lstep s) /\
  (exists s s1, lreachable 4 s /\ lenv 4 s s1 /\ run s1 = false /\ main_pc s1 = MBind /\
     forall s2, lstep s1 s2 -> main_pc s2 = MTest -> run s2 = true) /\
  (forall s ct, lreachable ct s -> main_pc s = MSelect -> mq s = O ->
     exists s', lenv ct s s' /\ run s' = fst (catch_sig ct) /\ forall s2, rtc lstep s' s2 -> main_hangs s2).
Proof.
  split_and!.
  - exists (LState false MSelect ADone 0 0 0 0 4). split_and!; try done.
    + unfold lreachable, linit. lrun l_bind. lrun l_awake. lrun l_abind_fail. lrun l_test. lsignal. lrun l_enter. apply rtc_refl.
    + apply hang_nf; [done|by left; split; [left|]].
  - exists (LState false MJoin ASelect 0 0 0 0 4). split_and!; try done; [|by split; auto|].
    + unfold lreachable, linit. lrun l_bind. lrun l_awake. lrun l_abind. lrun l_atest. lsignal. lrun l_stop. lrun l_close.
      lrun l_kill. lrun l_aenter. apply rtc_refl.
    + apply hang_nf; [done|]. right. split; auto.
  - exists (LState false MJoin AWait 0 0 0 0 4). split_and!; try done; [|by split; auto|].
    + unfold lreachable, linit. lrun l_bind. lsignal. lrun l_stop. lrun l_close. lrun l_kill. apply rtc_refl.
    + apply hang_nf; [done|]. right. split; auto.
  - exists (LState false MGet ADone 0 0 1 0 0). split_and!; try done.
    + unfold lreachable, linit. lrun l_bind. lrun l_awake. lrun l_abind_fail.
      do 2 (eapply rtc_l; [right; apply e_client|]).
      lrun l_test. lrun l_enter. lrun l_select. lrun l_accept. lrun l_get. lrun l_hand.
      lrun l_test. lrun l_enter. lrun l_select. lrun l_accept. lsignal. apply rtc_refl.
    + apply hang_nf; [done|by left; split; [right|]].
  - exists (linit 4), (LState false MBind AWait 0 0 0 0 4). split_and!; try done.
    + apply rtc_refl.
    + apply (e_signal 4 false MBind AWait 0 0 0 0 4).
    + intros s2 Hs2. destruct Hs2 as [Hs2|[Hs2|Hs2]]; inversion Hs2; subst; simpl; done.
  - intros [r m a mq aq s n f] ct _ Hm Hq. simpl in Hm, Hq. subst.
    eexists. split; [apply e_signal_monitor|]. split; [done|].
    set (s' := LState _ _ _ _ _ _ _ _). assert (Hh : main_hangs s') by done. intros s2 Hs2.
    induction Hs2 as [|x y z Hxy _ IH]; [done|]. by eapply IH, main_hangs_step.
Qed.
