(* ===== verification/Monitor.v ===== *)
(** * Monitoring (src/src/proxy_monitor.c)

    A thread that tells the master who its coordinator is, and writes the number
    of executed queries to a file once a second.  What the master does with the
    message is in Net.v, Cmd.v and Exec.v. *)

From S2P Require Import Prelude CString Status Wire Options Hashtable Clone Trans Cmd Net BackendArrays Exec.
Local Open Scope Z_scope.

(** ** The message to the master *)

(** The buffer after [snprintf]. *)
Definition coordinator_message (o : options_t) : list Z :=
  take (Z.to_nat (BUFSIZ - 1)) (str "PROXY COORDINATOR " ++ phost o ++ str ":" ++ fmt_d (admin_port o) ++ str ";").


(** ** The statistics file *)





(** [proxy_monitor_init] and [proxy_monitor_end]: TRUE on error and
    [monitor_started]; whether the thread is joined. *)
Definition proxy_monitor_init (create_ok : bool) : bool * bool :=
  let monitor_started := create_ok in (negb monitor_started, monitor_started).
Definition proxy_monitor_end (monitor_started : bool) : bool := monitor_started.

(** ** Properties *)












Lemma strtok_none_buf buf s d : fst (fst (strtok_r buf s d)) = None -> snd (fst (strtok_r buf s d)) = buf.
Proof. unfold strtok_r. repeat case_match; done. Qed.

(** A coordinator on all interfaces ([--interface any]) has no address: the master
    takes the port for the host name, and the port of its backends for the port. *)
Theorem coordinator_without_address o om :
  cloneable om = true -> phost o = [] -> 0 < admin_port o <= INT_MAX -> 0 <= backend_port om ->
  cmd_of_query om (coordinator_message o) = Ret (QSetCoordinator (fmt_lu (admin_port o)) (backend_port om)).
Proof.
  intros Ho Hh Hp Hb. unfold coordinator_message. rewrite Hh.
  assert (Hp64 : 0 <= admin_port o < 2 ^ 64) by (unfold INT_MAX in Hp; lia). set (p := admin_port o) in *.
  rewrite take_ge.
  2: { rewrite fmt_d_lu by done. pose proof (fmt_lu_length p) as Hf. unfold zlength in *.
       rewrite !length_app. apply Nat2Z.inj_le. rewrite Z2Nat.id by done. cbn [length str]. unfold BUFSIZ. lia. }
  rewrite fmt_d_lu by done.
  destruct (cmd_word om (str "COORDINATOR") ([] ++ 58 :: fmt_lu p) 1) as [l E].
  { apply tokenb_token. by vm_compute. }
  1-2: by apply last_digits_app.
  replace (str "PROXY COORDINATOR " ++ _) with (str "PROXY " ++ str "COORDINATOR" ++ str " "
    ++ ([] ++ 58 :: fmt_lu p) ++ replicate 1 59) by (by app_norm).
  rewrite E. unfold cmd_dispatch. repeat (rewrite prefix_no by (vm_compute; discriminate)).
  rewrite prefix_yes; [|unfold zlength; cbn [length str]; lia|vm_compute; reflexivity]. clear E.
  unfold net_proxy_coordinator, cut_buf. rewrite Ho, <-cut_pos_length. simpl negb. cbn iota.
  set (pre := str "PROXY" ++ [32] ++ str "COORDINATOR" ++ [NUL]). rewrite app_nil_l.
  destruct (digits_token space p space_digit Hp64) as [Hne Hd].
  destruct (tok_last space pre (58 :: fmt_lu p) 1 _ eq_refl eq_refl) as [E1 _]; [split; [done|by constructor]|].
  rewrite E1. unfold parse_host.
  pose proof (digits_token colon p colon_digit Hp64) as Ht.
  change (pre ++ (58 :: fmt_lu p) ++ replicate 2 NUL) with (pre ++ [58] ++ fmt_lu p ++ replicate 2 NUL).
  rewrite (strtok_end colon pre [58] (fmt_lu p) (replicate 2 NUL)); [|done|by repeat constructor|done|done].
  pose proof (strtok_none colon eq_refl (pre ++ [58] ++ fmt_lu p) [] (replicate 2 NUL)
    (length pre + length [58] + length (fmt_lu p)) ltac:(rewrite !length_app; simpl; lia) ltac:(constructor) eq_refl) as Hn.
  rewrite <-!app_assoc, app_nil_l in Hn.
  pose proof (strtok_none_buf _ _ _ Hn) as Hbuf.
  destruct (strtok_r (pre ++ [58] ++ fmt_lu p ++ replicate 2 NUL) (length pre + length [58] + length (fmt_lu p)) colon)
    as [[q b] t]. simpl in Hn, Hbuf. subst q b. cbn [fmap option_fmap option_map].
  rewrite (cstr_token_at colon _ (length pre + length [58]) (pre ++ [58]) (fmt_lu p) (replicate 2 NUL));
    [|by app_norm|by rewrite length_app|done|done].
  destruct (Z.ltb_spec (backend_port om) 0); [lia|done].
Qed.


Import Encoding.

