(* ===== verification/Threading.v ===== *)
(** * Threads, mutexes and condition variables
      (src/src/proxy_threading.h, src/src/proxy_threading.c)

    In a build with THREADING_DEBUG every call of a mutex or a condition variable
    goes through a wrapper that writes a message for some errors, and mutexes check
    for errors.  The model of the mutexes is that of POSIX: a thread that locks a
    normal mutex it holds waits for itself, and unlocking a normal mutex that the
    thread does not hold is undefined, also in the wait on a condition variable; a mutex that
    checks for errors returns EDEADLK and EPERM instead.  There are no timed waits:
    [proxy_cond_timedwait] passes two arguments to a function of three and is not used. *)

From S2P Require Import Prelude.

(** ** Mutexes *)

Inductive errno := OK | EAGAIN | ENOMEM | EPERM | EBUSY | EINVAL | EFAULT | EDEADLK | ETIMEDOUT.

#[export] Instance errno_eq_dec : EqDecision errno.
Proof. solve_decision. Defined.

Inductive kind := NORMAL | ERRORCHECK.

(** A mutex: not initialised, free, or held by a thread. *)
Inductive mutex := MNone | MFree (k : kind) | MHeld (k : kind) (t : nat).

(** A call returns, or it has begun and other threads go on, or the thread waits and nothing has
    changed, or its behaviour is undefined. *)
Inductive call (A : Type) := Return (r : errno) (a : A) | Sleeps (a : A) | Wait | Undefined.
Arguments Return {A} r a.
Arguments Sleeps {A} a.
Arguments Wait {A}.
Arguments Undefined {A}.

Definition pthread_mutex_init (k : kind) (m : mutex) : call mutex :=
  match m with MHeld _ _ => Undefined | _ => Return OK (MFree k) end.

Definition pthread_mutex_destroy (m : mutex) : call mutex :=
  match m with MFree _ => Return OK MNone | MHeld ERRORCHECK t => Return EBUSY m | _ => Undefined end.

Definition pthread_mutex_lock (t : nat) (m : mutex) : call mutex :=
  match m with
  | MNone => Undefined
  | MFree k => Return OK (MHeld k t)
  | MHeld k u =>
      if decide (t = u) then match k with ERRORCHECK => Return EDEADLK m | NORMAL => Wait end else Wait
  end.

Definition pthread_mutex_trylock (t : nat) (m : mutex) : call mutex :=
  match m with
  | MNone => Undefined
  | MFree k => Return OK (MHeld k t)
  | MHeld k u => Return EBUSY m
  end.

Definition pthread_mutex_unlock (t : nat) (m : mutex) : call mutex :=
  match m with
  | MNone => Undefined
  | MFree ERRORCHECK => Return EPERM m
  | MFree NORMAL => Undefined
  | MHeld k u =>
      if decide (t = u) then Return OK (MFree k)
      else match k with ERRORCHECK => Return EPERM m | NORMAL => Undefined end
  end.

(** ** The wrappers *)

(** A call, its result and the messages; [at_] is the place in the source. *)
Section wrappers.
Variable at_ : string.

(** [__proxy_error] *)
Definition proxy_error (msg : string) : list (string * string) := [(msg, at_)].

Definition proxy_mutex_init (m : mutex) : call mutex * list (string * string) :=
  let c := pthread_mutex_init ERRORCHECK m in
  (c, match c with
      | Return EAGAIN _ => proxy_error "No resources for initializing mutex"
      | Return ENOMEM _ => proxy_error "No memory for initializing mutex"
      | Return EPERM _ => proxy_error "Invalid privilege to initialize mutex"
      | _ => []
      end).

Definition proxy_mutex_destroy (m : mutex) : call mutex * list (string * string) :=
  let c := pthread_mutex_destroy m in
  (c, match c with
      | Return EBUSY _ => proxy_error "Destroying locked mutex"
      | Return EINVAL _ => proxy_error "Destroying invalid mutex"
      | _ => []
      end).

(** [__proxy_get_mutex]; [try] tells if [func] is [pthread_mutex_trylock]. *)
Definition proxy_get_mutex (try : bool) (t : nat) (m : mutex) : call mutex * list (string * string) :=
  let c := if try then pthread_mutex_trylock t m else pthread_mutex_lock t m in
  (c, match c with
      | Return EBUSY _ => if try then [] else proxy_error "Locking already locked mutex"
      | Return EINVAL _ => proxy_error "Locking uninitialized mutex"
      | Return EFAULT _ => proxy_error "Locking mutex with invalid pointer"
      | Return EDEADLK _ => proxy_error "Relocking already held mutex"
      | _ => []
      end).

Definition proxy_mutex_unlock (t : nat) (m : mutex) : call mutex * list (string * string) :=
  let c := pthread_mutex_unlock t m in
  (c, match c with
      | Return EINVAL _ => proxy_error "Unlocking uninitialized mutex"
      | Return EFAULT _ => proxy_error "Unlocking mutex with invalid pointer"
      | Return EPERM _ => proxy_error "Unlocking unowned mutex"
      | _ => []
      end).

(** The wrappers of condition variables: the result of the call and the messages. *)
Definition proxy_cond_init (ret : errno) : errno * list (string * string) :=
  (ret, match ret with
        | EAGAIN => proxy_error "No resources to initialize condition variable"
        | ENOMEM => proxy_error "No memory for initializing condition variable"
        | EBUSY => proxy_error "Reinitializing condition variable in use"
        | EINVAL => proxy_error "Invalid condition variable attribute"
        | _ => []
        end).

Definition proxy_cond_destroy (ret : errno) : errno * list (string * string) :=
  (ret, match ret with
        | EBUSY => proxy_error "Trying to destroy condition variable in use"
        | EINVAL => proxy_error "Trying to destroy invalid condition variable"
        | _ => []
        end).

Definition proxy_cond_signal (ret : errno) : errno * list (string * string) :=
  (ret, match ret with EINVAL => proxy_error "Trying to signal invalid condition variable" | _ => [] end).

Definition proxy_cond_wait (ret : errno) : errno * list (string * string) :=
  (ret, match ret with
        | EINVAL => proxy_error "Error waiting on condition variable"
        | ETIMEDOUT => proxy_error "Timeout waiting for condition variable"
        | _ => []
        end).

End wrappers.

(** ** The two builds *)

(** The mutexes; the condition variables that are initialised, each with the threads that wait
    and the mutex they gave up; and the threads that were woken and have not returned, with that
    mutex. *)
Record sync := Sync {
  mutexes : gmap nat mutex;
  conds : gmap nat (list (nat * nat));
  woken : gmap nat nat
}.

(** What a thread calls, on numbered mutexes and condition variables.  [OSignal] has the number of the
    thread that is chosen, and [OWake] is the return of a wait.  [OSpurious] is no
    call: a thread that waits is woken without a signal. *)
Inductive op :=
| OInit (m : nat)
| ODestroy (m : nat)
| OLock (m : nat)
| OTryLock (m : nat)
| OUnlock (m : nat)
| OCondInit (c : nat)
| OCondDestroy (c : nat)
| OSignal (c choice : nat)
| OBroadcast (c : nat)
| OWait (c m : nat)
| OWake
| OSpurious (c choice : nat).

Record event := Event { e_thread : nat; e_op : op }.

Definition get_mutex (s : sync) (m : nat) : mutex := default MNone (mutexes s !! m).
Definition set_mutex (m : nat) (x : mutex) (s : sync) : sync := Sync (<[m := x]> (mutexes s)) (conds s) (woken s).

Definition lift (m : nat) (s : sync) (c : call mutex) : call sync :=
  match c with
  | Return r x => Return r (set_mutex m x s)
  | Sleeps x => Sleeps (set_mutex m x s)
  | Wait => Wait
  | Undefined => Undefined
  end.

(** The threads of [ts] no longer wait for [c]; [rest] still do. *)
Definition wake_up (c : nat) (ts rest : list (nat * nat)) (s : sync) : sync :=
  Sync (mutexes s) (<[c := rest]> (conds s)) (list_to_map ts ∪ woken s).

Definition wake_one (c choice : nat) (ws : list (nat * nat)) (s : sync) : sync :=
  let i := (choice mod length ws)%nat in
  match ws !! i with Some w => wake_up c [w] (delete i ws) s | None => s end.

Definition pthread_cond_init (c : nat) (s : sync) : call sync :=
  match conds s !! c with
  | None => Return OK (Sync (mutexes s) (<[c := []]> (conds s)) (woken s))
  | Some _ => Undefined
  end.

Definition pthread_cond_destroy (c : nat) (s : sync) : call sync :=
  match conds s !! c with
  | Some [] => Return OK (Sync (mutexes s) (delete c (conds s)) (woken s))
  | _ => Undefined
  end.

Definition pthread_cond_signal (c choice : nat) (s : sync) : call sync :=
  match conds s !! c with Some ws => Return OK (wake_one c choice ws s) | None => Undefined end.

Definition pthread_cond_broadcast (c : nat) (s : sync) : call sync :=
  match conds s !! c with Some ws => Return OK (wake_up c ws [] s) | None => Undefined end.

(** The wait until the thread sleeps: it gives up the mutex as [pthread_mutex_unlock] does. *)
Definition pthread_cond_wait (t c m : nat) (s : sync) : call sync :=
  match conds s !! c with
  | None => Undefined
  | Some ws =>
      match pthread_mutex_unlock t (get_mutex s m) with
      | Return OK x => Sleeps (Sync (<[m := x]> (mutexes s)) (<[c := ws ++ [(t, m)]]> (conds s)) (woken s))
      | Return r _ => Return r s
      | _ => Undefined
      end
  end.

(** The rest of the wait: the thread was woken and takes the mutex. *)
Definition cond_wake (t : nat) (s : sync) : call sync :=
  match woken s !! t with
  | None => Wait
  | Some m =>
      match get_mutex s m with
      | MFree k => Return OK (Sync (<[m := MHeld k t]> (mutexes s)) (conds s) (delete t (woken s)))
      | MHeld _ _ => Wait
      | MNone => Undefined
      end
  end.

Definition spurious (c choice : nat) (s : sync) : call sync :=
  match conds s !! c with Some ws => Sleeps (wake_one c choice ws s) | None => Undefined end.

Definition release (e : event) (s : sync) : call sync :=
  let t := e_thread e in
  match e_op e with
  | OInit m => lift m s (pthread_mutex_init NORMAL (get_mutex s m))
  | ODestroy m => lift m s (pthread_mutex_destroy (get_mutex s m))
  | OLock m => lift m s (pthread_mutex_lock t (get_mutex s m))
  | OTryLock m => lift m s (pthread_mutex_trylock t (get_mutex s m))
  | OUnlock m => lift m s (pthread_mutex_unlock t (get_mutex s m))
  | OCondInit c => pthread_cond_init c s
  | OCondDestroy c => pthread_cond_destroy c s
  | OSignal c choice => pthread_cond_signal c choice s
  | OBroadcast c => pthread_cond_broadcast c s
  | OWait c m => pthread_cond_wait t c m s
  | OWake => cond_wake t s
  | OSpurious c choice => spurious c choice s
  end.

Definition lift_logged (m : nat) (s : sync) (x : call mutex * list (string * string)) : call sync * list (string * string) :=
  (lift m s (fst x), snd x).

(** A wrapper that looks at the value a call returns. *)
Definition logged (wrapper : errno -> errno * list (string * string)) (c : call sync) : call sync * list (string * string) :=
  match c with
  | Return r s => let '(r, l) := wrapper r in (Return r s, l)
  | c => (c, [])
  end.

Definition debug (at_ : string) (e : event) (s : sync) : call sync * list (string * string) :=
  let t := e_thread e in
  match e_op e with
  | OInit m => lift_logged m s (proxy_mutex_init at_ (get_mutex s m))
  | ODestroy m => lift_logged m s (proxy_mutex_destroy at_ (get_mutex s m))
  | OLock m => lift_logged m s (proxy_get_mutex at_ false t (get_mutex s m))
  | OTryLock m => lift_logged m s (proxy_get_mutex at_ true t (get_mutex s m))
  | OUnlock m => lift_logged m s (proxy_mutex_unlock at_ t (get_mutex s m))
  | OCondInit c => logged (proxy_cond_init at_) (pthread_cond_init c s)
  | OCondDestroy c => logged (proxy_cond_destroy at_) (pthread_cond_destroy c s)
  | OSignal c choice => logged (proxy_cond_signal at_) (pthread_cond_signal c choice s)
  | OBroadcast c => logged (proxy_cond_signal at_) (pthread_cond_broadcast c s)
  | OWait c m => logged (proxy_cond_wait at_) (pthread_cond_wait t c m s)
  | OWake => logged (proxy_cond_wait at_) (cond_wake t s)
  | OSpurious c choice => (spurious c choice s, [])
  end.

(** A run of the program: the results of the calls in the order in which they
    return, and the mutexes and condition variables.  It is not possible in this order if a call
    waits, and nothing is known about it if a call is undefined. *)
Inductive run_result (A : Type) := Runs (a : A) | Blocks | Undefs.
Arguments Runs {A} a.
Arguments Blocks {A}.
Arguments Undefs {A}.

Fixpoint run_release (es : list event) (s : sync) : run_result (list errno * sync) :=
  match es with
  | [] => Runs ([], s)
  | e :: es =>
      match release e s with
      | Return r s =>
          match run_release es s with
          | Runs (rs, s) => Runs (r :: rs, s)
          | Blocks => Blocks
          | Undefs => Undefs
          end
      | Sleeps s => run_release es s
      | Wait => Blocks
      | Undefined => Undefs
      end
  end.

Fixpoint run_debug (at_ : string) (es : list event) (s : sync) : run_result (list errno * sync * list (string * string)) :=
  match es with
  | [] => Runs ([], s, [])
  | e :: es =>
      match debug at_ e s with
      | (Return r s, l) =>
          match run_debug at_ es s with
          | Runs (rs, s, l') => Runs (r :: rs, s, l ++ l')
          | Blocks => Blocks
          | Undefs => Undefs
          end
      | (Sleeps s, l) =>
          match run_debug at_ es s with
          | Runs (rs, s, l') => Runs (rs, s, l ++ l')
          | Blocks => Blocks
          | Undefs => Undefs
          end
      | (Wait, _) => Blocks
      | (Undefined, _) => Undefs
      end
  end.

(** The same mutexes in the two builds. *)
Definition to_debug (m : mutex) : mutex :=
  match m with MNone => MNone | MFree _ => MFree ERRORCHECK | MHeld _ t => MHeld ERRORCHECK t end.
Definition debugging (s : sync) : sync := Sync (to_debug <$> mutexes s) (conds s) (woken s).

Definition normal (m : mutex) : Prop :=
  match m with MNone => True | MFree k | MHeld k _ => k = NORMAL end.
Definition all_normal (s : sync) : Prop := map_Forall (fun _ => normal) (mutexes s).

Lemma get_debugging s m : get_mutex (debugging s) m = to_debug (get_mutex s m).
Proof. unfold get_mutex. simpl. rewrite lookup_fmap. by destruct (mutexes s !! m). Qed.

Lemma set_debugging m x s : set_mutex m (to_debug x) (debugging s) = debugging (set_mutex m x s).
Proof. unfold set_mutex, debugging. simpl. by rewrite fmap_insert. Qed.

Lemma get_normal s m : all_normal s -> normal (get_mutex s m).
Proof. intros Hn. unfold get_mutex. destruct (mutexes s !! m) eqn:E; [|done]. by eapply Hn. Qed.

Lemma set_normal m x s : normal x -> all_normal s -> all_normal (set_mutex m x s).
Proof. intros Hx Hn. by apply map_Forall_insert_2. Qed.

Lemma set_same s m {x} : get_mutex s m = x -> x <> MNone -> set_mutex m (to_debug x) (debugging s) = debugging s.
Proof.
  intros Hm Hx. rewrite set_debugging. f_equal. unfold set_mutex, get_mutex in *. destruct s as [ms cs ws]. simpl in *. f_equal.
  destruct (ms !! m) eqn:E; simpl in Hm; subst x; [|done]. by apply insert_id.
Qed.

(** What the two builds have to agree on for a call that ends or begins to wait. *)
Definition agrees (c : call sync) (d : call sync * list (string * string)) : Prop :=
  match c with
  | Return r s => all_normal s /\ d = (Return r (debugging s), [])
  | Sleeps s => all_normal s /\ d = (Sleeps (debugging s), [])
  | Wait | Undefined => True
  end.

(** The mutexes. *)
Lemma mutex_agrees m s (f : mutex -> call mutex) (g : mutex -> call mutex * list (string * string)) :
  all_normal s ->
  (forall x, normal x -> match f x with
                         | Return r y => normal y /\ g (to_debug x) = (Return r (to_debug y), [])
                         | Sleeps _ => False
                         | _ => True
                         end) ->
  agrees (lift m s (f (get_mutex s m))) (lift_logged m (debugging s) (g (get_mutex (debugging s) m))).
Proof.
  intros Hn Hf. specialize (Hf _ (get_normal s m Hn)). rewrite get_debugging. unfold lift_logged.
  destruct (f (get_mutex s m)) as [r y| | |]; simpl; try done. destruct Hf as [Hy ->]. simpl.
  split; [by apply set_normal|]. by rewrite set_debugging.
Qed.

Lemma wake_one_debugging c i ws s :
  wake_one c i ws (debugging s) = debugging (wake_one c i ws s) /\ (all_normal s -> all_normal (wake_one c i ws s)).
Proof. unfold wake_one. by destruct (ws !! _). Qed.

Lemma release_debug at_ e s : all_normal s -> agrees (release e s) (debug at_ e (debugging s)).
Proof.
  intros Hn. destruct e as [t o]. unfold release, debug. simpl. destruct o as [m|m|m|m|m|c|c|c i|c|c m| |c i].
  1-5: apply mutex_agrees; [done|]; intros x Hx; unfold proxy_mutex_init, proxy_mutex_destroy, proxy_get_mutex,
    proxy_mutex_unlock, pthread_mutex_init, pthread_mutex_destroy, pthread_mutex_lock, pthread_mutex_trylock, pthread_mutex_unlock;
    destruct x as [|[]|[] u]; simpl in *; try done; by repeat case_decide.
  - unfold pthread_cond_init. simpl. by destruct (conds s !! c).
  - unfold pthread_cond_destroy. simpl. by destruct (conds s !! c) as [[]|].
  - unfold pthread_cond_signal. simpl. destruct (conds s !! c); [|done]. simpl.
    destruct (wake_one_debugging c i l s) as [-> H]. auto.
  - unfold pthread_cond_broadcast. simpl. by destruct (conds s !! c).
  - unfold pthread_cond_wait. rewrite get_debugging. simpl. destruct (conds s !! c); [|done].
    pose proof (get_normal s m Hn) as Hm. unfold pthread_mutex_unlock. destruct (get_mutex s m) as [|[]|[] u]; simpl in *; try done.
    case_decide; [|done]. simpl. split; [by apply map_Forall_insert_2|]. unfold debugging. simpl. by rewrite fmap_insert.
  - unfold cond_wake. simpl. destruct (woken s !! t) as [m|]; [|done]. rewrite get_debugging.
    pose proof (get_normal s m Hn) as Hm. destruct (get_mutex s m) as [|[]|[] u]; simpl in *; try done.
    split; [by apply map_Forall_insert_2|]. unfold debugging. simpl. by rewrite fmap_insert.
  - unfold spurious. simpl. destruct (conds s !! c); [|done]. simpl. destruct (wake_one_debugging c i l s) as [-> H]. auto.
Qed.

(** C27: the debugging build does what the release build does.  Every order of calls on
    mutexes and condition variables (with waits that are woken by a signal or without one) that
    the release build can run without undefined behaviour runs in the
    debugging build, with the same results, the same owners of the mutexes, the same threads
    waiting and woken, and no message.  Conversely, a thread that locks a mutex it holds, which
    never goes on in the release build, or unlocks one it does not hold, which is undefined
    there, gets an error and a message, and nothing is changed; a thread that
    waits on a condition variable without holding the mutex, which is undefined there, gets an error,
    but there is no message for it. *)
Theorem debug_build_equiv at_ (es : list event) (s : sync) :
  (forall rs s', all_normal s -> run_release es s = Runs (rs, s') ->
     run_debug at_ es (debugging s) = Runs (rs, debugging s', [])) /\
  (forall t m, all_normal s -> get_mutex s m = MHeld NORMAL t ->
     release (Event t (OLock m)) s = Wait /\
     debug at_ (Event t (OLock m)) (debugging s) =
       (Return EDEADLK (debugging s), [("Relocking already held mutex"%string, at_)])) /\
  (forall t m, all_normal s -> get_mutex s m <> MNone -> get_mutex s m <> MHeld NORMAL t ->
     release (Event t (OUnlock m)) s = Undefined /\
     debug at_ (Event t (OUnlock m)) (debugging s) = (Return EPERM (debugging s), [("Unlocking unowned mutex"%string, at_)])) /\
  (forall t c m, all_normal s -> is_Some (conds s !! c) -> get_mutex s m <> MNone -> get_mutex s m <> MHeld NORMAL t ->
     release (Event t (OWait c m)) s = Undefined /\
     debug at_ (Event t (OWait c m)) (debugging s) = (Return EPERM (debugging s), [])).
Proof.
  split; [|split_and!].
  - revert s. induction es as [|e es IH]; intros s rs s' Hn; cbn [run_release run_debug]; [by intros [= <- <-]|].
    pose proof (release_debug at_ e s Hn) as Ha. destruct (release e s) as [r s1|s1| |]; simpl in Ha; [| |done..].
    + destruct Ha as [Hn1 ->]. destruct (run_release es s1) as [[rs1 s2]| |] eqn:E1; [|done..].
      intros [= <- <-]. by rewrite (IH s1 rs1 s2).
    + destruct Ha as [Hn1 ->]. intros E1. by rewrite (IH s1 rs s').
  - intros t m Hn Hm. unfold release, debug. simpl. rewrite get_debugging, Hm. unfold proxy_get_mutex. simpl.
    rewrite !decide_True by done. split; [done|]. unfold lift_logged. simpl. rewrite <-(set_same s m Hm) at 2 by done. done.
  - intros t m Hn H0 Ht. unfold release, debug. simpl. rewrite get_debugging. pose proof (get_normal s m Hn) as Hm.
    unfold proxy_mutex_unlock, pthread_mutex_unlock.
    destruct (get_mutex s m) as [|k|k u] eqn:E; [done|..]; simpl in Hm; subst k; simpl.
    + split; [done|]. unfold lift_logged. simpl. rewrite <-(set_same s m E) at 2 by done. done.
    + rewrite !decide_False by congruence. split; [done|]. unfold lift_logged. simpl. rewrite <-(set_same s m E) at 2 by done. done.
  - intros t c m Hn [ws Hc] H0 Ht. unfold release, debug. simpl. unfold pthread_cond_wait. rewrite get_debugging. simpl. rewrite Hc.
    pose proof (get_normal s m Hn) as Hm. unfold pthread_mutex_unlock.
    destruct (get_mutex s m) as [|k|k u] eqn:E; [done|..]; simpl in Hm; subst k; simpl; [done|].
    by rewrite !decide_False by congruence.
Qed.

(** A thread waits for another, which signals; the other threads of the run are those of a release build. *)
Definition demo_events : list event :=
  [Event 1 (OInit 0); Event 1 (OCondInit 0); Event 1 (OLock 0); Event 1 (OWait 0 0); Event 2 (OLock 0); Event 2 (OSignal 0 0);
   Event 2 (OUnlock 0); Event 1 OWake; Event 3 (OTryLock 0); Event 1 (OUnlock 0)].

Lemma debug_build_equiv_witness :
  run_debug "here" demo_events (debugging (Sync ∅ ∅ ∅)) =
  Runs ([OK; OK; OK; OK; OK; OK; OK; EBUSY; OK], debugging (Sync {[0%nat := MFree NORMAL]} {[0%nat := []]} ∅), []).
Proof.
  apply (proj1 (debug_build_equiv "here" demo_events (Sync ∅ ∅ ∅))).
  - apply map_Forall_empty.
  - vm_compute. reflexivity.
Defined.

(** ** Signals *)

Inductive signal := SIGINT | SIGTERM | SIGPOLL.

#[export] Instance signal_eq_dec : EqDecision signal.
Proof. solve_decision. Defined.

Inductive thread_kind := TMain | TMonitor | TAdmin | TAdminClient | TClient | TBackend.

(** [handle_sigs] of [proxy_threading_init]. *)
Definition handle_set : list signal := [SIGINT; SIGTERM].

(** [proxy_threading_mask]: the signals blocked in the thread. *)
Definition proxy_threading_mask (blocked : list signal) : list signal := blocked ++ handle_set.

(** The signals blocked in a thread once its start function has begun its work; a
    thread inherits those of the thread that creates it.  The start function of
    the monitor does not call [proxy_threading_mask]. *)
Definition blocked (k : thread_kind) : list signal :=
  match k with
  | TMain | TMonitor => []
  | TAdmin | TClient | TBackend => proxy_threading_mask []
  | TAdminClient => proxy_threading_mask []
  end.

(** The threads that may handle SIGINT and SIGTERM are the main thread and the
    monitor; all threads get SIGPOLL. *)
Lemma signal_receivers k :
  (SIGINT ∉ blocked k <-> k = TMain \/ k = TMonitor) /\ (SIGTERM ∉ blocked k <-> k = TMain \/ k = TMonitor) /\
  SIGPOLL ∉ blocked k.
Proof. destruct k; simpl; split_and!; set_solver. Qed.

(** [proxy_threading_create] sets the size of the stack if there are attributes. *)
Definition STACK_SIZE : Z := 65536.
Definition proxy_threading_create (attr : option Z) : option Z := (fun _ => STACK_SIZE) <$> attr.

(** ** Start and end *)

(** The static data: the set of signals, the key of the buffers with the threads that have one (none before the
    key is created), and the attribute of the mutexes of a debugging build. *)
Record threading := Threads { sigs : list signal; thread_bufs : option (gset nat); mutexattr : option kind }.

Definition threading0 : threading := Threads [] None None.

Definition proxy_threading_init (debugging : bool) (s : threading) : threading :=
  Threads (foldl (fun set g => if decide (g ∈ set) then set else set ++ [g]) [] handle_set) (Some ∅)
    (if debugging then Some ERRORCHECK else mutexattr s).

(** [pthread_setspecific] in [proxy_threading_mask]: the thread gets a buffer. *)
Definition thread_begins (t : nat) (s : threading) : outcome threading :=
  match thread_bufs s with Some ts => Ret (Threads (sigs s) (Some ({[t]} ∪ ts)) (mutexattr s)) | None => Undef end.

(** The destructor of the key, [free], runs when a thread exits. *)
Definition thread_exits (t : nat) (s : threading) : threading :=
  Threads (sigs s) ((fun ts => ts ∖ {[t]}) <$> thread_bufs s) (mutexattr s).

(** Deleting the key runs no destructors: the result has the threads whose buffers are leaked. *)
Definition proxy_threading_end (s : threading) : outcome (gset nat * threading) :=
  match thread_bufs s with Some ts => Ret (ts, Threads (sigs s) None None) | None => Undef end.

Inductive thread_event := Begins (t : nat) | Exits (t : nat).

Fixpoint thread_run (es : list thread_event) (s : threading) : outcome threading :=
  match es with
  | [] => Ret s
  | Begins t :: es => s ← thread_begins t s; thread_run es s
  | Exits t :: es => thread_run es (thread_exits t s)
  end.

(** The threads that began and have not exited. *)
Fixpoint live_threads (es : list thread_event) (ts : gset nat) : gset nat :=
  match es with
  | [] => ts
  | Begins t :: es => live_threads es ({[t]} ∪ ts)
  | Exits t :: es => live_threads es (ts ∖ {[t]})
  end.

(** Between the start and the end threads may begin and exit in any order; the buffers that are left at
    the end are those of the threads that still run, and the set of signals is [handle_sigs] in all of them. *)
Theorem threading_life debugging es :
  exists s, thread_run es (proxy_threading_init debugging threading0) = Ret s /\ sigs s = handle_set
    /\ exists s', proxy_threading_end s = Ret (live_threads es ∅, s').
Proof.
  assert (forall s ts, thread_bufs s = Some ts -> sigs s = handle_set ->
    exists s1, thread_run es s = Ret s1 /\ sigs s1 = handle_set /\ thread_bufs s1 = Some (live_threads es ts)) as H.
  { induction es as [|[t|t] es IH]; intros s ts Hb Hs; cbn [thread_run live_threads]; [by exists s| |].
    - unfold thread_begins. rewrite Hb. cbn [mbind outcome_bind]. by apply IH.
    - apply IH; [|done]. cbn. by rewrite Hb. }
  destruct (H (proxy_threading_init debugging threading0) ∅ eq_refl) as (s & E & Hs & Hb); [by vm_compute|].
  exists s. split; [done|]. split; [done|]. unfold proxy_threading_end. rewrite Hb. by eexists.
Qed.
