(* ===== verification/Slist.v ===== *)
(** * Linked lists of libltdl (src/libltdl/slist.c)

    The library that loads the query mapper keeps its modules and loaders in singly
    linked lists that are changed in place.  The model has a heap from addresses to
    nodes; zero is NULL, and an access to an address without a node is undefined.
    Loops and recursion have fuel: [Fuel] is a run that has not ended yet, and
    the theorems show which runs end. *)

From S2P Require Import Prelude.
From stdpp Require Import sorting.
Local Open Scope Z_scope.

Inductive run (A : Type) := Done (a : A) | Stuck | Fuel.
Arguments Done {A} a.
Arguments Stuck {A}.
Arguments Fuel {A}.

#[export] Instance run_bind : MBind run := fun A B f m =>
  match m with Done a => f a | Stuck => Stuck | Fuel => Fuel end.

(** A node: [next] and [userdata] (or the fields behind [next] of an item that is
    not boxed). *)
Record node (A : Type) := Node { nxt : Z; item : A }.
Arguments Node {A} _ _.
Arguments nxt {A} _.
Arguments item {A} _.

Section slist.
Context {A : Type}.
Local Abbreviation heap := (gmap Z (node A)).
Implicit Types (h : heap).

Definition get h (p : Z) : run (node A) := match h !! p with Some n => Done n | None => Stuck end.

(** [p->next = q] *)
Definition set_next h (p q : Z) : run heap := n ← get h p; Done (<[p := Node q (item n)]> h).

(** ** Functions that read *)

Fixpoint slist_length (fuel : nat) h (slist n : Z) : run Z :=
  match fuel with
  | O => Fuel
  | S fuel => if slist =? 0 then Done n else nd ← get h slist; slist_length fuel h (nxt nd) ((n + 1) `mod` 2 ^ 64)
  end.

Definition slist_tail h (slist : Z) : run Z :=
  if slist =? 0 then Done 0 else nd ← get h slist; Done (nxt nd).

Fixpoint slist_nth (fuel : nat) h (slist n : Z) : run Z :=
  match fuel with
  | O => Fuel
  | S fuel =>
      if (1 <? n) && negb (slist =? 0) then nd ← get h slist; slist_nth fuel h (nxt nd) (n - 1) else Done slist
  end.

(** [find] gets the address and the node; zero is NULL. *)
Fixpoint slist_find (fuel : nat) h (slist : Z) (find : Z -> node A -> Z) : run Z :=
  match fuel with
  | O => Fuel
  | S fuel =>
      if slist =? 0 then Done 0
      else nd ← get h slist;
           let result := find slist nd in
           if result =? 0 then slist_find fuel h (nxt nd) find else Done result
  end.

(** ** Functions that change the list *)

(** [foreach] and [delete_fct] may change the heap (and free the item they get): the
    next address is read before the call. *)
Fixpoint slist_foreach (fuel : nat) h (slist : Z) (foreach : heap -> Z -> run (Z * heap)) : run (Z * heap) :=
  match fuel with
  | O => Fuel
  | S fuel =>
      if slist =? 0 then Done (0, h)
      else nd ← get h slist;
           '(result, h) ← foreach h slist;
           if result =? 0 then slist_foreach fuel h (nxt nd) foreach else Done (result, h)
  end.

Fixpoint slist_delete (fuel : nat) h (head : Z) (delete_fct : heap -> Z -> run heap) : run (Z * heap) :=
  match fuel with
  | O => Fuel
  | S fuel =>
      if head =? 0 then Done (0, h)
      else nd ← get h head; h ← delete_fct h head; slist_delete fuel h (nxt nd) delete_fct
  end.

(** [free] *)
Definition free_item h (p : Z) : run heap := n ← get h p; Done (delete p h).

Fixpoint remove_loop (fuel : nat) h (head : Z) (find : Z -> node A -> Z) : run (Z * heap) :=
  match fuel with
  | O => Fuel
  | S fuel =>
      nd ← get h head;
      if nxt nd =? 0 then Done (0, h)
      else
        nd' ← get h (nxt nd);
        let result := find (nxt nd) nd' in
        if result =? 0 then remove_loop fuel h (nxt nd) find
        else h ← set_next h head (nxt nd'); Done (result, h)
  end.

(** The result of [find], the new head and the heap. *)
Definition slist_remove (fuel : nat) h (head : Z) (find : Z -> node A -> Z) : run (Z * Z * heap) :=
  if head =? 0 then Done (0, 0, h)
  else
    nd ← get h head;
    let result := find head nd in
    if negb (result =? 0) then Done (result, nxt nd, h)
    else '(result, h) ← remove_loop fuel h head find; Done (result, head, h).

Fixpoint last_loop (fuel : nat) h (last : Z) : run Z :=
  match fuel with
  | O => Fuel
  | S fuel => nd ← get h last; if nxt nd =? 0 then Done last else last_loop fuel h (nxt nd)
  end.

Definition slist_concat (fuel : nat) h (head tail : Z) : run (Z * heap) :=
  if head =? 0 then Done (tail, h)
  else last ← last_loop fuel h head; h ← set_next h last tail; Done (head, h).

(** An assertion fails if the item is in a list already. *)
Definition slist_cons h (item slist : Z) : run (Z * heap) :=
  if item =? 0 then Done (slist, h)
  else nd ← get h item; if nxt nd =? 0 then h ← set_next h item slist; Done (item, h) else Stuck.

Fixpoint reverse_loop (fuel : nat) h (slist result : Z) : run (Z * heap) :=
  match fuel with
  | O => Fuel
  | S fuel =>
      if slist =? 0 then Done (result, h)
      else nd ← get h slist; h ← set_next h slist result; reverse_loop fuel h (nxt nd) slist
  end.

Definition slist_reverse (fuel : nat) h (slist : Z) : run (Z * heap) := reverse_loop fuel h slist 0.

(** [insert->next = q] in [slist_sort_merge]: [insert] is the last node of the merged
    list, or zero for the variable [merged] on the stack, whose [next] is [first]. *)
Definition link h (first insert q : Z) : run (Z * heap) :=
  if insert =? 0 then Done (q, h) else h ← set_next h insert q; Done (first, h).

Fixpoint merge_loop (fuel : nat) (compare : A -> A -> Z) h (first insert left right : Z) : run (Z * heap) :=
  match fuel with
  | O => Fuel
  | S fuel =>
      if negb (left =? 0) && negb (right =? 0) then
        l ← get h left; r ← get h right;
        if compare (item l) (item r) <=? 0 then
          '(first, h) ← link h first insert left; l ← get h left; merge_loop fuel compare h first left (nxt l) right
        else
          '(first, h) ← link h first insert right; r ← get h right; merge_loop fuel compare h first right left (nxt r)
      else link h first insert (if left =? 0 then right else left)
  end.

Definition slist_sort_merge (fuel : nat) (compare : A -> A -> Z) h (left right : Z) : run (Z * heap) :=
  merge_loop fuel compare h 0 0 left right.

(** The loop that finds the middle: two steps with [right] for one with [slist]. *)
Fixpoint split_loop (fuel : nat) h (slist right : Z) : run Z :=
  match fuel with
  | O => Fuel
  | S fuel =>
      if right =? 0 then Done slist
      else r1 ← get h right;
           if nxt r1 =? 0 then Done slist
           else r2 ← get h (nxt r1);
                if nxt r2 =? 0 then Done slist
                else nd ← get h slist; split_loop fuel h (nxt nd) (nxt r2)
  end.

Fixpoint slist_sort (fuel : nat) (compare : A -> A -> Z) h (slist : Z) : run (Z * heap) :=
  match fuel with
  | O => Fuel
  | S fuel =>
      if slist =? 0 then Done (slist, h)
      else
        nd ← get h slist;
        mid ← split_loop fuel h slist (nxt nd);
        m ← get h mid;
        let right := nxt m in
        h ← set_next h mid 0;
        '(l, h) ← slist_sort fuel compare h slist;
        '(r, h) ← slist_sort fuel compare h right;
        slist_sort_merge fuel compare h l r
  end.

(** [malloc] gives an address that is not in use, or NULL. *)
Definition slist_box h (addr : Z) (userdata : A) : Z * heap :=
  if addr =? 0 then (0, h) else (addr, <[addr := Node 0 userdata]> h).

Definition slist_unbox h (item_ : Z) : run (option A * heap) :=
  if item_ =? 0 then Done (None, h) else nd ← get h item_; Done (Some (item nd), delete item_ h).

(** ** Lists in the heap *)

(** The addresses of the nodes from [p] on. *)
Fixpoint chain h (p : Z) (l : list Z) : Prop :=
  match l with
  | [] => p = 0
  | a :: l => p = a /\ a <> 0 /\ exists n, h !! a = Some n /\ chain h (nxt n) l
  end.

Lemma chain_det h p l l' : chain h p l -> chain h p l' -> l = l'.
Proof.
  revert p l'. induction l as [|a l IH]; intros p [|b l']; simpl; try done.
  - by intros -> (<- & ? & _).
  - by intros (-> & ? & _) ->.
  - intros (-> & _ & n & Hn & Hl) (<- & _ & n' & Hn' & Hl'). rewrite Hn in Hn'. injection Hn' as <-.
    f_equal. eauto.
Qed.

Lemma chain_app h p l1 a l2 : chain h p (l1 ++ a :: l2) -> chain h a (a :: l2).
Proof.
  revert p. induction l1 as [|b l1 IH]; intros p; simpl.
  - by intros (_ & ? & ?).
  - intros (_ & _ & n & _ & Hc). exact (IH _ Hc).
Qed.

(** A finite chain has no address twice. *)
Lemma chain_NoDup h p l : chain h p l -> NoDup l.
Proof.
  revert p. induction l as [|a l IH]; intros p Hc; [constructor|].
  destruct Hc as (-> & Ha & n & Hn & Hl). constructor; [|eauto]. intros Hin.
  apply list_elem_of_split in Hin as (l1 & l2 & ->). apply chain_app in Hl as Hl'.
  assert (Hc : chain h a (a :: l1 ++ a :: l2)) by (simpl; eauto).
  pose proof (chain_det _ _ _ _ Hc Hl') as E. apply (f_equal length) in E. simpl in E. rewrite length_app in E. simpl in E. lia.
Qed.

Lemma chain_node h p l a : chain h p l -> a ∈ l -> a <> 0 /\ is_Some (h !! a).
Proof.
  revert p. induction l as [|b l IH]; intros p Hc Hin; [by apply elem_of_nil in Hin|].
  destruct Hc as (_ & Hb & n & Hn & Hl). apply elem_of_cons in Hin as [->|Hin]; eauto.
Qed.

(** Changes elsewhere do not matter. *)
Lemma chain_frame h h' p l : chain h p l -> (forall a, a ∈ l -> h' !! a = h !! a) -> chain h' p l.
Proof.
  revert p. induction l as [|a l IH]; intros p Hc Hf; [done|]. destruct Hc as (-> & Ha & n & Hn & Hl).
  split; [done|]. split; [done|]. exists n. split; [by rewrite Hf by apply list_elem_of_here|].
  apply IH; [done|]. intros b Hb. apply Hf. by apply list_elem_of_further.
Qed.

Lemma chain_zero h l : chain h 0 l -> l = [].
Proof. destruct l; [done|]. by intros (<- & ? & _). Qed.

Lemma chain_nz h p a l : chain h p (a :: l) -> p = a /\ (p =? 0) = false.
Proof. intros (-> & Ha & _). split; [done|]. by apply Z.eqb_neq. Qed.

(** [h'] differs from [h] in the [next] fields of nodes of [l] only. *)
Definition relinked (l : list Z) h h' : Prop :=
  forall a, (a ∉ l -> h' !! a = h !! a) /\ item <$> h' !! a = item <$> h !! a.

#[export] Instance relinked_refl l : Reflexive (relinked l).
Proof. by intros h a. Qed.

#[export] Instance relinked_trans l : Transitive (relinked l).
Proof.
  intros h1 h2 h3 H12 H23 a. destruct (H12 a) as [E I], (H23 a) as [E' I']. split; [|congruence].
  intros Ha. rewrite E', E; done.
Qed.

Lemma relinked_mono l l' h h' : (forall a, a ∈ l -> a ∈ l') -> relinked l h h' -> relinked l' h h'.
Proof. intros Hs Hr a. destruct (Hr a) as [E I]. split; [|done]. intros Ha. apply E. auto. Qed.

Lemma relinked_chain l h h' p k : relinked l h h' -> (forall a, a ∈ k -> a ∉ l) -> chain h p k -> chain h' p k.
Proof. intros Hr Hd Hc. eapply chain_frame; [done|]. intros a Ha. apply Hr. auto. Qed.

Lemma relinked_some l h h' a : relinked l h h' -> is_Some (h !! a) -> is_Some (h' !! a).
Proof. intros Hr [n Hn]. destruct (Hr a) as [_ E]. rewrite Hn in E. destruct (h' !! a); [eauto|done]. Qed.

Lemma set_next_spec h p q :
  is_Some (h !! p) ->
  exists h', set_next h p q = Done h' /\ relinked [p] h h' /\ nxt <$> h' !! p = Some q.
Proof.
  intros [n Hn]. unfold set_next, get. rewrite Hn. simpl. eexists. split; [done|]. split.
  - intros a. destruct (decide (a = p)) as [->|Ha].
    + rewrite lookup_insert_eq, Hn. split; [set_solver|done].
    + rewrite lookup_insert_ne by done. done.
  - by rewrite lookup_insert_eq.
Qed.

Lemma chain_cons h a q l : a <> 0 -> nxt <$> h !! a = Some q -> chain h q l -> chain h a (a :: l).
Proof. intros Ha Hn Hc. apply fmap_Some in Hn as (n & Hn & ->). simpl. eauto. Qed.

Lemma chain_inv h p a l :
  chain h p (a :: l) ->
  p = a /\ (a =? 0) = false /\ is_Some (h !! a) /\ exists n, get h a = Done n /\ h !! a = Some n /\ chain h (nxt n) l.
Proof.
  intros (-> & Ha & n & Hn & Hl). unfold get. rewrite Hn. split_and!; [done|by apply Z.eqb_neq|eauto|eauto].
Qed.

(** ** What the functions do *)

Lemma slist_length_spec h p l fuel n :
  chain h p l -> (length l < fuel)%nat -> 0 <= n -> n + Z.of_nat (length l) < 2 ^ 64 ->
  slist_length fuel h p n = Done (n + Z.of_nat (length l)).
Proof.
  revert p fuel n. induction l as [|a l IH]; intros p [|fuel] n Hc Hf Hn Hb; simpl in Hf; try lia.
  - simpl in Hc. subst. simpl. f_equal. lia.
  - apply chain_inv in Hc as (-> & Ha & _ & m & Hm & _ & Hl). cbn [length] in *. cbn [slist_length]. rewrite Ha, Hm. simpl.
    rewrite Z.mod_small by lia. rewrite IH by (done || lia). f_equal. lia.
Qed.

Lemma slist_nth_spec h p l fuel n :
  chain h p l -> (length l < fuel)%nat -> 1 <= n ->
  slist_nth fuel h p n = Done (default 0 (l !! Z.to_nat (n - 1))).
Proof.
  revert p fuel n. induction l as [|a l IH]; intros p [|fuel] n Hc Hf Hn; simpl in Hf; try lia.
  - simpl in Hc. subst. simpl. by rewrite andb_false_r.
  - apply chain_inv in Hc as (-> & Ha & _ & m & Hm & _ & Hl). cbn [slist_nth]. rewrite Ha. simpl.
    destruct (1 <? n) eqn:E; bprop; simpl.
    + rewrite Hm. simpl. rewrite IH by (done || lia). by replace (Z.to_nat (n - 1)) with (S (Z.to_nat (n - 1 - 1))) by lia.
    + by replace (Z.to_nat (n - 1)) with O by lia.
Qed.

(** The first result that is not NULL, and the list without that item. *)
Fixpoint take_first (f : Z -> Z) (l : list Z) : Z * list Z :=
  match l with
  | [] => (0, [])
  | a :: l => if f a =? 0 then let '(r, k) := take_first f l in (r, a :: k) else (f a, l)
  end.

Definition results h (find : Z -> node A -> Z) (a : Z) : Z :=
  match h !! a with Some n => find a n | None => 0 end.

Lemma slist_find_spec h p l fuel find :
  chain h p l -> (length l < fuel)%nat -> slist_find fuel h p find = Done (fst (take_first (results h find) l)).
Proof.
  revert p fuel. induction l as [|a l IH]; intros p [|fuel] Hc Hf; simpl in Hf; try lia.
  - simpl in Hc. by subst.
  - apply chain_inv in Hc as (-> & Ha & _ & m & Hm & Hm' & Hl). cbn [slist_find take_first]. rewrite Ha, Hm.
    assert (results h find a = find a m) as -> by (unfold results; by rewrite Hm'). cbn. destruct (find a m =? 0) eqn:E; [|done].
    rewrite IH by (done || lia). by destruct take_first.
Qed.

Lemma take_first_sub f l a : a ∈ snd (take_first f l) -> a ∈ l.
Proof.
  induction l as [|b l IH]; simpl; [done|]. destruct (f b =? 0); [|set_solver].
  destruct (take_first f l) as [r k]. simpl in *. set_solver.
Qed.

(** [p] is the node before the ones that are still to be looked at. *)
Lemma remove_loop_spec h p l fuel find :
  chain h p (p :: l) -> NoDup (p :: l) -> (length l < fuel)%nat ->
  exists h', remove_loop fuel h p find = Done (fst (take_first (results h find) l), h')
             /\ chain h' p (p :: snd (take_first (results h find) l)) /\ relinked (p :: l) h h'.
Proof.
  revert p fuel. induction l as [|a l IH]; intros p [|fuel] Hc Hd Hf; simpl in Hf; try lia;
    pose proof Hc as Hc0; apply chain_inv in Hc0 as (_ & Hp & Hs & n & Hg & Hn & Hl); cbn [remove_loop]; rewrite Hg; cbn.
  - simpl in Hl. rewrite Hl. simpl. exists h. split; [done|split; [done|reflexivity]].
  - pose proof Hl as Hl'. apply chain_inv in Hl as (Ea & Ha & Hsa & m & Hga & Hm & Hl). rewrite Ea, Ha, Hga.
    assert (results h find a = find a m) as -> by (unfold results; by rewrite Hm).
    apply NoDup_cons in Hd as [Hp' Hd]. cbn. destruct (find a m =? 0) eqn:E.
    + destruct (IH a fuel) as (h' & E' & Hch & Hr); [by rewrite <- Ea at 1|done|lia|]. rewrite E'.
      destruct (take_first (results h find) l) as [r k]. exists h'. split; [done|].
      assert (h' !! p = h !! p) as Hpp by (by apply Hr).
      split; [|eapply relinked_mono; [|exact Hr]; set_solver].
      apply chain_cons with a; [by apply Z.eqb_neq|by rewrite Hpp, Hn, <- Ea|done].
    + destruct (set_next_spec h p (nxt m) Hs) as (h' & -> & Hr & Hx). cbn. exists h'. split; [done|].
      split; [|eapply relinked_mono; [|exact Hr]; set_solver].
      eapply chain_cons; [by apply Z.eqb_neq|exact Hx|]. eapply relinked_chain; [exact Hr| |done].
      apply NoDup_cons in Hd as [Ha' _]. set_solver.
Qed.

Lemma slist_remove_spec h p l fuel find :
  chain h p l -> (length l < fuel)%nat ->
  exists p' h', slist_remove fuel h p find = Done (fst (take_first (results h find) l), p', h')
                /\ chain h' p' (snd (take_first (results h find) l)) /\ relinked l h h'.
Proof.
  intros Hc Hf. pose proof (chain_NoDup _ _ _ Hc) as Hd. unfold slist_remove. destruct l as [|a l].
  - simpl in Hc. subst p. exists 0, h. split; [done|split; [done|reflexivity]].
  - pose proof Hc as Hc0. apply chain_inv in Hc0 as (-> & -> & _ & n & -> & Hn & Hl). cbn [take_first].
    assert (results h find a = find a n) as -> by (unfold results; by rewrite Hn).
    cbn. destruct (find a n =? 0) eqn:E; cbn.
    + destruct (remove_loop_spec h a l fuel find) as (h' & -> & Hch & Hr); [done|done|simpl in Hf; lia|].
      destruct (take_first (results h find) l) as [r k]. by exists a, h'.
    + exists (nxt n), h. split; [done|split; [done|reflexivity]].
Qed.

Lemma last_loop_spec h p l a fuel :
  chain h p (l ++ [a]) -> (length l < fuel)%nat -> last_loop fuel h p = Done a.
Proof.
  revert p fuel. induction l as [|b l IH]; intros p [|fuel] Hc Hf; simpl in Hf; try lia; cbn [app] in Hc;
    apply chain_inv in Hc as (-> & _ & _ & n & Hg & _ & Hl); cbn [last_loop]; rewrite Hg; cbn.
  - simpl in Hl. by rewrite Hl.
  - destruct (nxt n =? 0) eqn:E; [|apply IH; [done|lia]]. bprop. rewrite E in Hl. apply chain_zero in Hl. by destruct l.
Qed.

(** The list that ends with [a], after [a->next = q]. *)
Lemma chain_set_last h h' p l a k q :
  chain h p (l ++ [a] ++ k) -> relinked [a] h h' -> nxt <$> h' !! a = Some q ->
  forall k', chain h' q k' -> chain h' p (l ++ [a] ++ k').
Proof.
  intros Hc Hr Hx k' Hk. pose proof (chain_NoDup _ _ _ Hc) as Hd. revert p Hc Hd.
  induction l as [|b l IH]; intros p Hc Hd; cbn [app] in *; pose proof Hc as (E & Hp & n & Hn & Hl); subst.
  - by eapply chain_cons.
  - apply NoDup_cons in Hd as [Hb Hd]. eapply chain_cons; [done| |by apply IH].
    assert (h' !! b = h !! b) as -> by (apply Hr; set_solver). by rewrite Hn.
Qed.

Lemma slist_concat_spec h p q l k fuel :
  chain h p l -> chain h q k -> l ## k -> (length l < fuel)%nat ->
  exists r h', slist_concat fuel h p q = Done (r, h') /\ chain h' r (l ++ k) /\ relinked l h h'.
Proof.
  intros Hl Hk Hd Hf. unfold slist_concat. destruct l as [|b l _] using rev_ind.
  - simpl in Hl. subst p. exists q, h. split; [done|split; [done|reflexivity]].
  - rewrite length_app in Hf. assert ((p =? 0) = false) as -> by (apply Z.eqb_neq; destruct l; destruct Hl as (-> & ? & _); done).
    rewrite (last_loop_spec _ _ _ _ _ Hl) by (simpl in Hf; lia). cbn.
    destruct (set_next_spec h b q) as (h' & -> & Hr & Hx).
    { eapply chain_node; [exact Hl|set_solver]. }
    cbn. exists p, h'. split; [done|]. split; [|eapply relinked_mono; [|exact Hr]; set_solver].
    rewrite <- (app_assoc l [b] k). eapply chain_set_last; [|exact Hr|exact Hx|].
    + rewrite app_nil_r. exact Hl.
    + eapply relinked_chain; [exact Hr| |done]. set_solver.
Qed.

Lemma reverse_loop_spec h p q l k fuel :
  chain h p l -> chain h q k -> l ## k -> (length l < fuel)%nat ->
  exists r h', reverse_loop fuel h p q = Done (r, h') /\ chain h' r (reverse l ++ k) /\ relinked l h h'.
Proof.
  revert p q k h fuel. induction l as [|a l IH]; intros p q k h [|fuel] Hl Hk Hd Hf; simpl in Hf; try lia; cbn [reverse_loop].
  - simpl in Hl. subst p. exists q, h. split; [done|split; [done|reflexivity]].
  - pose proof (chain_NoDup _ _ _ Hl) as Hn. apply NoDup_cons in Hn as [Ha Hn].
    apply chain_inv in Hl as (-> & Ez & Hs & n & -> & Hh & Hl). rewrite Ez. cbn.
    destruct (set_next_spec h a q Hs) as (h1 & -> & Hr & Hx). cbn. bprop.
    destruct (IH (nxt n) a (a :: k) h1 fuel) as (r & h' & E & Hch & Hr').
    + eapply relinked_chain; [exact Hr| |done]. set_solver.
    + eapply chain_cons; [done|exact Hx|]. eapply relinked_chain; [exact Hr| |done]. set_solver.
    + set_solver.
    + lia.
    + exists r, h'. split; [done|]. change (rev_append l [a]) with (reverse (a :: l)). split; [by rewrite reverse_cons, <- app_assoc|].
      transitivity h1; [eapply relinked_mono; [|exact Hr]|eapply relinked_mono; [|exact Hr']]; set_solver.
Qed.

Lemma slist_delete_spec h p l fuel :
  chain h p l -> (length l < fuel)%nat ->
  exists h', slist_delete fuel h p free_item = Done (0, h')
             /\ forall a, h' !! a = if decide (a ∈ l) then None else h !! a.
Proof.
  revert p h fuel. induction l as [|b l IH]; intros p h [|fuel] Hc Hf; simpl in Hf; try lia; cbn [slist_delete].
  - simpl in Hc. subst p. exists h. split; [done|]. intros a. by rewrite decide_False by apply not_elem_of_nil.
  - pose proof (chain_NoDup _ _ _ Hc) as Hn. apply NoDup_cons in Hn as [Hb _].
    apply chain_inv in Hc as (-> & Ez & _ & n & Hg & Hh & Hl). rewrite Ez, Hg. cbn.
    assert (free_item h b = Done (delete b h)) as -> by (unfold free_item; by rewrite Hg). cbn.
    destruct (IH (nxt n) (delete b h) fuel) as (h' & -> & Hall); [|lia|].
    { eapply chain_frame; [done|]. intros a Ha. rewrite lookup_delete_ne; [done|]. by intros ->. }
    exists h'. split; [done|]. intros a. rewrite Hall. destruct (decide (a = b)) as [->|Hab].
    + rewrite lookup_delete_eq, (decide_True (P := b ∈ b :: l)) by apply list_elem_of_here. by case_decide.
    + rewrite lookup_delete_ne by done. repeat case_decide; set_solver.
Qed.

(** [slist_cons (slist_box (data), slist)] *)
Lemma box_cons_spec h p l addr d :
  chain h p l -> addr <> 0 -> h !! addr = None ->
  exists h', slist_cons (snd (slist_box h addr d)) addr p = Done (addr, h')
             /\ chain h' addr (addr :: l) /\ h' = <[addr := Node p d]> h.
Proof.
  intros Hc Ha Hn. unfold slist_box, slist_cons, set_next, get. apply Z.eqb_neq in Ha as Ha'. rewrite Ha'. cbn.
  rewrite !lookup_insert_eq. cbn. rewrite ?lookup_insert_eq. cbn. eexists. split; [done|].
  rewrite insert_insert_eq. split; [|done]. split; [done|]. split; [done|].
  exists (Node p d). rewrite lookup_insert_eq. split; [done|]. eapply chain_frame; [done|]. intros a Hin.
  rewrite lookup_insert_ne; [done|]. intros <-. apply (chain_node _ _ _ _ Hc) in Hin as [_ [x Hx]]. congruence.
Qed.

(** *** Merging *)

Section merge.
Context (compare : A -> A -> Z) (d : Z -> A).

(** The order of the addresses by the items they hold. *)
Definition before (a b : Z) : Prop := compare (d a) (d b) <= 0.

#[export] Instance before_dec a b : Decision (before a b).
Proof. unfold before. apply _. Defined.

Definition holds (l : list Z) h : Prop := forall a, a ∈ l -> item <$> h !! a = Some (d a).

Lemma link_spec h first insert q :
  insert = 0 \/ is_Some (h !! insert) ->
  exists h', link h first insert q = Done (if insert =? 0 then q else first, h')
             /\ relinked [insert] h h' /\ (insert = 0 \/ nxt <$> h' !! insert = Some q).
Proof.
  intros Hi. unfold link. destruct (insert =? 0) eqn:E; bprop.
  - exists h. split; [done|]. split; [reflexivity|by left].
  - destruct Hi as [?|Hs]; [done|]. destruct (set_next_spec h insert q Hs) as (h' & -> & Hr & Hx). cbn. eauto.
Qed.

Lemma holds_relinked l k h h' : relinked l h h' -> holds k h -> holds k h'.
Proof. intros Hr Hh a Ha. destruct (Hr a) as [_ E]. rewrite E. auto. Qed.

(** One round of the loop: [insert = insert->next = a], then the rest [k] behind [a]. *)
Lemma take_spec h first insert a n rest :
  insert = 0 \/ is_Some (h !! insert) -> insert ∉ a :: rest -> a <> 0 -> h !! a = Some n ->
  exists h1, link h first insert a = Done (if insert =? 0 then a else first, h1) /\ get h1 a = Done n /\ relinked [insert] h h1
    /\ forall s h' k, relinked (a :: rest) h1 h' -> chain h' s k -> nxt <$> h' !! a = Some s ->
         chain h' a (a :: k) /\ relinked (insert :: a :: rest) h h' /\ (insert = 0 \/ nxt <$> h' !! insert = Some a).
Proof.
  intros Hs Hi Ha Hn. destruct (link_spec h first insert a Hs) as (h1 & E & Hr & Hx). exists h1. split; [done|].
  assert (h1 !! a = Some n) as Hn1 by (rewrite <- Hn; apply Hr; set_solver). split; [unfold get; by rewrite Hn1|].
  split; [done|]. intros s h' k Hr' Hc Hx'. split; [by eapply chain_cons|]. split.
  - transitivity h1; [eapply relinked_mono; [|exact Hr]|eapply relinked_mono; [|exact Hr']]; set_solver.
  - destruct Hx as [?|Hx]; [by left|]. right. rewrite <- Hx. f_equal. by apply Hr'.
Qed.

(** [insert] is the last node of what is merged already. *)
Lemma merge_loop_spec fuel h first insert p q l r :
  chain h p l -> chain h q r -> NoDup (l ++ r) -> holds (l ++ r) h ->
  insert ∉ l ++ r -> insert = 0 \/ is_Some (h !! insert) -> (length l + length r < fuel)%nat ->
  exists s h', merge_loop fuel compare h first insert p q = Done (if insert =? 0 then s else first, h')
               /\ chain h' s (list_merge before l r) /\ relinked (insert :: l ++ r) h h'
               /\ (insert = 0 \/ nxt <$> h' !! insert = Some s).
Proof.
  revert h first insert p q l r. induction fuel as [|fuel IH]; intros h first insert p q l r Hl Hr Hd Hh Hi Hs Hf; [lia|].
  assert (Hend : forall s k, chain h s k -> (forall a, a ∈ k -> a ∈ l ++ r) ->
    exists s' h', link h first insert s = Done (if insert =? 0 then s' else first, h')
                  /\ chain h' s' k /\ relinked (insert :: l ++ r) h h' /\ (insert = 0 \/ nxt <$> h' !! insert = Some s')).
  { intros s k Hc Hsub. destruct (link_spec h first insert s Hs) as (h' & -> & Hrl & Hx). exists s, h'. split; [done|].
    split; [eapply relinked_chain; [exact Hrl| |done]; set_solver|]. split; [eapply relinked_mono; [|exact Hrl]; set_solver|done]. }
  cbn [merge_loop]. destruct l as [|a l].
  { simpl in Hl. subst p. rewrite list_merge_nil_l. cbn [negb andb Z.eqb]. apply Hend; [done|set_solver]. }
  destruct r as [|b r].
  { pose proof Hl as (-> & Ha & _). simpl in Hr. subst q. apply Z.eqb_neq in Ha. rewrite Ha, list_merge_nil_r. cbn [negb andb].
    apply Hend; [done|set_solver]. }
  pose proof Hl as Hl0. pose proof Hr as Hr0.
  apply chain_inv in Hl as (-> & Ea & Hsa & na & Ga & Na & Hl). apply chain_inv in Hr as (-> & Eb & Hsb & nb & Gb & Nb & Hr).
  rewrite Ea, Eb, Ga, Gb, list_merge_cons. cbn [negb andb mbind run_bind]. bprop.
  assert (d a = item na /\ d b = item nb) as [Da Db].
  { pose proof (Hh a ltac:(set_solver)) as X. pose proof (Hh b ltac:(set_solver)) as Y. rewrite Na in X. rewrite Nb in Y.
    by injection X as ->; injection Y as ->. }
  rewrite <- Da, <- Db. destruct (Z.leb_spec (compare (d a) (d b)) 0) as [Hb|Hb];
    [rewrite decide_True by done|rewrite decide_False by (unfold before; lia)].
  - destruct (take_spec h first insert a na (l ++ b :: r)) as (h1 & -> & Gn & Hr1 & Hk); [done..|].
    cbn [mbind run_bind]. rewrite Gn. cbn [mbind run_bind]. apply NoDup_cons in Hd as [Hna Hd].
    destruct (IH h1 (if insert =? 0 then a else first) a (nxt na) b l (b :: r)) as (s & h' & E & Hch & Hrl & Hx);
      [eapply relinked_chain; [exact Hr1|set_solver|done]..|done| |done|right; by eapply relinked_some|simpl in Hf |- *; lia|].
    { eapply holds_relinked; [exact Hr1|]. intros x Hx. apply Hh. set_solver. }
    destruct Hx as [?|Hx]; [done|]. rewrite E, (proj2 (Z.eqb_neq a 0) Ea). exists a, h'. split; [done|]. by apply (Hk s h').
  - rewrite <- Permutation_middle in Hd. apply NoDup_cons in Hd as [Hnb Hd].
    destruct (take_spec h first insert b nb ((a :: l) ++ r)) as (h1 & -> & Gn & Hr1 & Hk); [done|set_solver|done..|].
    cbn [mbind run_bind]. rewrite Gn. cbn [mbind run_bind].
    destruct (IH h1 (if insert =? 0 then b else first) b a (nxt nb) (a :: l) r) as (s & h' & E & Hch & Hrl & Hx);
      [eapply relinked_chain; [exact Hr1|set_solver|done]..|done| |done|right; by eapply relinked_some|simpl in Hf |- *; lia|].
    { eapply holds_relinked; [exact Hr1|]. intros x Hx. apply Hh. set_solver. }
    destruct Hx as [?|Hx]; [done|]. rewrite E, (proj2 (Z.eqb_neq b 0) Eb). exists b, h'. split; [done|].
    destruct (Hk s h' _ Hrl Hch Hx) as (Hc' & Hr' & Hi'). split; [done|]. split; [|done].
    eapply relinked_mono; [|exact Hr']. set_solver.
Qed.

(** C23: [slist_sort_merge] is the merge of lists: for two finite lists without a common
    node it ends, the new list has the nodes in the order of the reference
    [list_merge], so every node of either list once, and in order if both were and
    [compare] is total; only [next] fields of these nodes change. *)
Theorem sort_merge_reference (fuel : nat) h p q l r :
  h !! 0 = None -> chain h p l -> chain h q r -> l ## r -> holds (l ++ r) h -> (length l + length r < fuel)%nat ->
  exists s h', slist_sort_merge fuel compare h p q = Done (s, h')
               /\ chain h' s (list_merge before l r) /\ list_merge before l r ≡ₚ l ++ r /\ relinked (l ++ r) h h'
               /\ (Total before -> Sorted before l -> Sorted before r -> Sorted before (list_merge before l r)).
Proof.
  intros H0 Hl Hr Hd Hh Hf. pose proof (chain_NoDup _ _ _ Hl) as Dl. pose proof (chain_NoDup _ _ _ Hr) as Dr.
  assert (Hz : 0 ∉ l ++ r).
  { intros [H|H]%elem_of_app; [apply (chain_node _ _ _ _ Hl) in H|apply (chain_node _ _ _ _ Hr) in H]; by destruct H. }
  destruct (merge_loop_spec fuel h 0 0 p q l r) as (s & h' & E & Hc & Hrl & _); auto.
  { apply NoDup_app. split; [done|]. split; [set_solver|done]. }
  exists s, h'. split; [done|]. split; [done|]. split; [apply merge_Permutation|]. split; [|intros ? ? ?; by apply Sorted_list_merge].
  intros a. destruct (Hrl a) as [E1 E2]. split; [|done]. intros Ha. destruct (decide (a = 0)) as [->|Ha0]; [|apply E1; set_solver].
  rewrite H0 in E2 |- *. by destruct (h' !! 0).
Qed.

End merge.

(** *** [slist_sort] *)

(** [right] is never further from the end than [slist]: the loop does not leave the list. *)
Lemma split_loop_spec h fuel p q a l r :
  chain h p (a :: l) -> chain h q r -> (length r <= length l)%nat ->
  split_loop fuel h p q = Fuel \/ exists m, split_loop fuel h p q = Done m /\ m ∈ a :: l.
Proof.
  revert p q a l r. induction fuel as [|fuel IH]; intros p q a l r Hp Hq Hlen; [by left|]. cbn [split_loop].
  pose proof Hp as Hp0. apply chain_inv in Hp0 as (-> & Ea & _ & n & Gn & _ & Hl).
  assert (Ha : a ∈ a :: l) by set_solver. destruct r as [|b r].
  { simpl in Hq. subst q. simpl. eauto. }
  apply chain_inv in Hq as (-> & -> & _ & nb & -> & _ & Hr). cbn. destruct r as [|c r].
  { simpl in Hr. rewrite Hr. simpl. eauto. }
  apply chain_inv in Hr as (-> & -> & _ & nc & -> & _ & Hr). cbn. destruct (nxt nc =? 0); [eauto|].
  rewrite Gn. cbn. destruct l as [|a' l]; [simpl in Hlen; lia|].
  destruct (IH (nxt n) (nxt nc) a' l r Hl Hr) as [->|(m & -> & Hm)]; [simpl in Hlen; lia|by left|].
  right. exists m. split; [done|set_solver].
Qed.

(** [slist_sort] never returns for a list that is not empty: the part of one item is
    split into itself and nothing, so the recursion has no end.  (No amount of fuel
    gives a result; the empty list is returned as it is.) *)
Theorem sort_never_returns (compare : A -> A -> Z) (fuel : nat) h p a l :
  chain h p (a :: l) -> slist_sort fuel compare h p = Fuel.
Proof.
  revert h p a l. induction fuel as [|fuel IH]; intros h p a l Hc; [done|]. cbn [slist_sort].
  pose proof Hc as Hc0. apply chain_inv in Hc0 as (-> & Ea & _ & n & Gn & _ & Hl). rewrite Ea, Gn. cbn.
  destruct (split_loop_spec h fuel a (nxt n) a l l Hc Hl) as [->|(m & -> & Hm)]; [lia|done|]. cbn.
  destruct (chain_node _ _ _ _ Hc Hm) as [_ Hs]. destruct Hs as [nm Nm]. unfold get at 1. rewrite Nm. cbn.
  destruct (set_next_spec h m 0) as (h' & -> & Hr & Hx); [eauto|]. cbn.
  apply list_elem_of_split in Hm as (l1 & l2 & E). rewrite E in Hc.
  assert (Hc' : chain h' a (l1 ++ [m] ++ [])) by (eapply chain_set_last; [exact Hc|exact Hr|exact Hx|reflexivity]).
  assert (slist_sort fuel compare h' a = Fuel) as ->; [|done].
  destruct l1 as [|b l1]; exact (IH h' _ _ _ Hc').
Qed.

End slist.

(** ** Concrete lists *)

Local Definition nil_heap : gmap Z (node Z) := ∅.
Local Definition two : gmap Z (node Z) :=
  <[8 := Node 24 1]> (<[24 := Node 0 5]> (<[16 := Node 32 3]> (<[32 := Node 0 4]> nil_heap))).
Local Definition value (a : Z) : Z := match item <$> two !! a with Some v => v | None => 0 end.
Lemma sort_merge_reference_witness :
  exists s h', slist_sort_merge 5 Z.sub two 8 16 = Done (s, h') /\ chain h' s (list_merge (before Z.sub value) [8; 24] [16; 32])
    /\ list_merge (before Z.sub value) [8; 24] [16; 32] = [8; 16; 32; 24].
Proof.
  edestruct (sort_merge_reference Z.sub value 5 two 8 16 [8; 24] [16; 32]) as (s & h' & E & Hc & _); cycle -1.
  { exists s, h'. split; [exact E|]. split; [exact Hc|vm_compute; reflexivity]. }
  - reflexivity.
  - simpl. split; [done|]. split; [done|]. eexists. split; [vm_compute; reflexivity|].
    simpl. split; [done|]. split; [done|]. eexists. split; [vm_compute; reflexivity|done].
  - simpl. split; [done|]. split; [done|]. eexists. split; [vm_compute; reflexivity|].
    simpl. split; [done|]. split; [done|]. eexists. split; [vm_compute; reflexivity|done].
  - set_solver.
  - intros a Ha. simpl in Ha. rewrite !elem_of_cons, elem_of_nil in Ha. destruct Ha as [->|[->|[->|[->|[]]]]]; vm_compute; reflexivity.
  - simpl. lia.
Defined.

Lemma sort_never_returns_witness : slist_sort 50 Z.sub two 8 = Fuel.
Proof.
  apply (sort_never_returns Z.sub 50 two 8 8 [24]).
  simpl. split; [done|]. split; [done|]. eexists. split; [vm_compute; reflexivity|].
  simpl. split; [done|]. split; [done|]. eexists. split; [vm_compute; reflexivity|done].
Defined.
