(* ===== verification/Argz.v ===== *)
(** * Vectors of strings of libltdl (src/libltdl/argz.c) and bounded copies (src/libltdl/lt__strl.c)

    A vector is a block of memory with a length; the entries are strings in the block,
    one after the other, each with its NUL.  Addresses in the block are offsets, an
    access outside of a block is undefined, as is an assertion that fails. *)

From S2P Require Import Prelude.
From S2P Require Import CString.
Local Open Scope Z_scope.

Definition ENOMEM : Z := 12.

(** [*pargz] and [*pargz_len]; an empty block is NULL. *)
Record argz := Argz { blk : list Z; alen : Z }.

Definition assert_ (b : bool) : outcome unit := if b then Ret tt else Undef.
Definition is_null {A} (b : list A) : bool := match b with [] => true | _ => false end.
Definition wf_pair (a : argz) : bool :=
  negb (is_null (blk a)) && negb (alen a =? 0) || is_null (blk a) && (alen a =? 0).

(** [memcpy (b + off, src, length src)] *)
Definition write (b : list Z) (off : Z) (src : list Z) : outcome (list Z) :=
  if (0 <=? off) && (off + zlength src <=? zlength b)
  then Ret (take (Z.to_nat off) b ++ src ++ drop (Z.to_nat off + length src) b) else Undef.

(** [n] bytes from [src] on *)
Definition read (b : list Z) (off n : Z) : outcome (list Z) :=
  if (0 <=? off) && (0 <=? n) && (off + n <=? zlength b)
  then Ret (take (Z.to_nat n) (drop (Z.to_nat off) b)) else Undef.

(** [strlen] of the string at an offset *)
Fixpoint strlen_from (s : list Z) : outcome Z :=
  match s with [] => Undef | c :: s => if c =? NUL then Ret 0 else n ← strlen_from s; Ret (1 + n) end.

Section argz.
(** Which sizes can be allocated, and the bytes of new memory. *)
Context (has_memory : Z -> bool) (junk : Z).

Definition malloc (n : Z) : option (list Z) :=
  if has_memory n then Some (replicate (Z.to_nat n) junk) else None.

Definition realloc (b : list Z) (n : Z) : option (list Z) :=
  if has_memory n then Some (take (Z.to_nat n) b ++ replicate (Z.to_nat n - length b) junk) else None.

Definition argz_append (a : argz) (buf : list Z) (buf_len : Z) : outcome (Z * argz) :=
  _ ← assert_ (wf_pair a);
  if buf_len =? 0 then Ret (0, a)
  else
    let argz_len := u64 (alen a + buf_len) in
    match realloc (blk a) argz_len with
    | None => Ret (ENOMEM, a)
    | Some b => src ← read buf 0 buf_len; b ← write b (alen a) src; Ret (0, Argz b argz_len)
    end.

(** The loop of [argz_create_sep]: [p] is the rest of the string, [q] an offset. *)
Fixpoint sep_loop (p : list Z) (delim : Z) (b : list Z) (q argz_len : Z) : outcome (list Z * Z * Z) :=
  match p with
  | [] => Ret (b, q, argz_len)
  | c :: p =>
      if c =? delim then
        prev ← (if 0 <? q then aget b (q - 1) else Ret NUL);
        if (0 <? q) && negb (prev =? NUL)
        then b ← aset b q NUL; sep_loop p delim b (q + 1) argz_len
        else sep_loop p delim b q (u64 (argz_len - 1))
      else b ← aset b q c; sep_loop p delim b (q + 1) argz_len
  end.

(** [None]: the variables of the caller are not written.  [argz_len] is not zero
    before the loop unless the length of the string wraps around. *)
Definition argz_create_sep (s : list Z) (delim : Z) : outcome (Z * option argz) :=
  let argz_len := u64 (1 + zlength s) in
  let finish b argz_len := if argz_len =? 0 then Argz [] 0 else Argz b argz_len in
  if argz_len =? 0 then Ret (0, Some (finish [] argz_len))
  else match malloc argz_len with
       | None => Ret (ENOMEM, None)
       | Some b =>
           '(b, q, argz_len) ← sep_loop s delim b 0 argz_len;
           b ← aset b q NUL;
           Ret (0, Some (finish b argz_len))
       end.

(** [while ((before > *pargz) && (before[-1] != EOS_CHAR)) --before;] *)
Fixpoint scan_back (b : list Z) (before : nat) : outcome nat :=
  match before with
  | O => Ret O
  | S m => c ← aget b (Z.of_nat m); if c =? NUL then Ret (S m) else scan_back b m
  end.

Definition argz_insert (a : argz) (before : option Z) (entry : list Z) : outcome (Z * argz) :=
  _ ← assert_ (negb (is_null entry));
  let entry_len := 1 + zlength entry in
  match before with
  | None => argz_append a (entry ++ [NUL]) entry_len
  | Some before =>
      before ← scan_back (blk a) (Z.to_nat before);
      let offset := Z.of_nat before in
      let argz_len := u64 (alen a + entry_len) in
      match realloc (blk a) argz_len with
      | None => Ret (ENOMEM, a)
      | Some b =>
          rest ← read b offset (u64 (alen a - offset));
          b ← write b (offset + entry_len) rest;
          b ← write b offset (entry ++ [NUL]);
          Ret (0, Argz b argz_len)
      end
  end.

Definition argz_next (a : argz) (entry : option Z) : outcome (option Z) :=
  _ ← assert_ (wf_pair a);
  match entry with
  | Some e =>
      _ ← assert_ (is_null (blk a) && (alen a =? 0) || (0 <=? e) && (e <? alen a));
      n ← strlen_from (drop (Z.to_nat e) (blk a));
      let e := e + n + 1 in
      Ret (if alen a <=? e then None else Some e)
  | None => Ret (if 0 <? alen a then Some 0 else None)
  end.

(** The loop of [argz_stringify]; every round but the last one accesses the block, so
    that more rounds than bytes are undefined. *)
Fixpoint stringify_loop (fuel : nat) (b : list Z) (argz_len sep : Z) : outcome (list Z) :=
  match fuel with
  | O => Undef
  | S fuel =>
      let argz_len := u64 (argz_len - 1) in
      if 0 <? argz_len then
        c ← aget b argz_len;
        b ← (if c =? NUL then aset b argz_len sep else Ret b);
        stringify_loop fuel b argz_len sep
      else Ret b
  end.

Definition argz_stringify (a : argz) (sep : Z) : outcome argz :=
  _ ← assert_ (wf_pair a);
  if sep =? 0 then Ret a
  else b ← stringify_loop (S (length (blk a))) (blk a) (u64 (alen a - 1)) sep; Ret (Argz b (alen a)).

(** The loop of the callers: [while ((entry = argz_next (argz, argz_len, entry)))]. *)
Fixpoint argz_entries (fuel : nat) (a : argz) (entry : option Z) : outcome (list (list Z)) :=
  match fuel with
  | O => Undef
  | S fuel =>
      e ← argz_next a entry;
      match e with
      | None => Ret []
      | Some e => l ← argz_entries fuel a (Some e); Ret (cstr (blk a) (Z.to_nat e) :: l)
      end
  end.

End argz.

(** ** Bounded copies *)

(** [*p = *q] while there are characters and room; the rest of [src] and [length]. *)
Fixpoint strl_loop (dst src : list Z) (length dstsize : Z) : outcome (list Z * list Z * Z) :=
  match src with
  | [] => Ret (dst, src, length)
  | c :: q =>
      if length <? dstsize - 1 then dst ← aset dst length c; strl_loop dst q (length + 1) dstsize
      else Ret (dst, src, length)
  end.

Definition lt_strlcpy (dst src : list Z) (dstsize : Z) : outcome (Z * list Z) :=
  _ ← assert_ (1 <=? dstsize);
  '(dst, q, length) ← strl_loop dst src 0 dstsize;
  dst ← aset dst length NUL;
  Ret (length + zlength q, dst).

Definition lt_strlcat (dst src : list Z) (dstsize : Z) : outcome (Z * list Z) :=
  _ ← assert_ (1 <=? dstsize);
  length ← strlen_from dst;
  '(dst, q, length) ← strl_loop dst src length dstsize;
  dst ← aset dst length NUL;
  Ret (length + zlength q, dst).

(** ** Vectors of entries *)

(** The bytes of a vector with the given entries. *)
Definition vec (es : list (list Z)) : list Z := concat ((fun e => e ++ [NUL]) <$> es).

(** A string without NUL. *)
Definition text (s : list Z) : Prop := Forall (fun c => c <> NUL) s.

(** The vector [a] has the entries [es] (and maybe memory behind them). *)
Definition represents (a : argz) (es : list (list Z)) : Prop :=
  exists junk, blk a = vec es ++ junk /\ alen a = zlength (vec es) /\ (es = [] -> junk = []) /\ zlength (blk a) < 2 ^ 64.

Lemma vec_app es es' : vec (es ++ es') = vec es ++ vec es'.
Proof. unfold vec. by rewrite fmap_app, concat_app. Qed.

Lemma vec_cons e es : vec (e :: es) = e ++ NUL :: vec es.
Proof. unfold vec. simpl. by rewrite <- app_assoc. Qed.

Lemma vec_one e : vec [e] = e ++ [NUL].
Proof. apply vec_cons. Qed.

Lemma represents_wf a es : represents a es -> wf_pair a = true.
Proof.
  intros (j & E & El & Hj & _). unfold wf_pair. rewrite E, El. destruct es as [|e es].
  - by rewrite (Hj eq_refl).
  - rewrite vec_cons, zlength_app, zlength_cons. pose proof (zlength_nonneg e). pose proof (zlength_nonneg (vec es)).
    rewrite (proj2 (Z.eqb_neq _ _)) by lia. by destruct e.
Qed.

Lemma write_Ret pre mid post src :
  length mid = length src -> write (pre ++ mid ++ post) (zlength pre) src = Ret (pre ++ src ++ post).
Proof.
  intros E. unfold write. rewrite !zlength_app. pose proof (zlength_nonneg pre). pose proof (zlength_nonneg post).
  unfold zlength in *. rewrite E. rewrite (proj2 (Z.leb_le _ _)), (proj2 (Z.leb_le _ _)) by lia. simpl.
  rewrite Nat2Z.id, take_app_length, <- E. by rewrite (app_assoc pre mid post), <- length_app, drop_app_length.
Qed.

Lemma read_Ret pre mid post : read (pre ++ mid ++ post) (zlength pre) (zlength mid) = Ret mid.
Proof.
  unfold read. rewrite !zlength_app. pose proof (zlength_nonneg pre). pose proof (zlength_nonneg mid). pose proof (zlength_nonneg post).
  rewrite !(proj2 (Z.leb_le _ _)) by lia. simpl. unfold zlength. by rewrite !Nat2Z.id, drop_app_length, take_app_length.
Qed.

Lemma strlen_text s rest : text s -> strlen_from (s ++ NUL :: rest) = Ret (zlength s).
Proof.
  induction 1 as [|c s Hc Hs IH]; [done|]. cbn. rewrite (proj2 (Z.eqb_neq _ _) Hc), IH. simpl. by rewrite zlength_cons.
Qed.

(** *** [argz_append] and [argz_insert] *)

Section argz_proofs.
Context (has_memory : Z -> bool) (junk : Z).

Lemma realloc_grow b n extra :
  has_memory n = true -> n = zlength b + extra -> 0 <= extra ->
  realloc has_memory junk b n = Some (b ++ replicate (Z.to_nat extra) junk).
Proof.
  intros Hm -> He. unfold realloc. rewrite Hm. f_equal. unfold zlength in *. rewrite take_ge by lia. do 2 f_equal. lia.
Qed.

(** When the memory behind the entries is not needed, it is cut off or filled. *)
Lemma realloc_vec b tl n extra :
  has_memory n = true -> n = zlength b + extra -> 0 <= extra ->
  exists tl', realloc has_memory junk (b ++ tl) n = Some (b ++ tl') /\ zlength tl' = extra.
Proof.
  intros Hm -> He. unfold realloc. rewrite Hm.
  exists (take (Z.to_nat extra) tl ++ replicate (Z.to_nat extra - length tl) junk). split.
  - f_equal. unfold zlength. rewrite length_app, take_app. rewrite take_ge by lia. rewrite <- app_assoc. do 3 f_equal; [f_equal; lia|lia].
  - unfold zlength. rewrite length_app, length_take, length_replicate. lia.
Qed.

Lemma argz_append_spec a es e :
  represents a es -> zlength (vec es) + zlength e + 1 < 2 ^ 64 ->
  argz_append has_memory junk a (e ++ [NUL]) (1 + zlength e) =
    (if has_memory (zlength (vec es) + (1 + zlength e)) then Ret (0, Argz (vec (es ++ [e])) (zlength (vec (es ++ [e]))))
     else Ret (ENOMEM, a)).
Proof.
  intros Hr Hb. unfold argz_append. rewrite (represents_wf _ _ Hr). cbn [assert_ mbind outcome_bind].
  destruct Hr as (j & E & El & Hj & Hsz). pose proof (zlength_nonneg e). pose proof (zlength_nonneg (vec es)).
  rewrite (proj2 (Z.eqb_neq _ _)) by lia. rewrite El, E. unfold u64. rewrite wrap_small by lia.
  destruct (has_memory _) eqn:Hm; [|unfold realloc; by rewrite Hm].
  destruct (realloc_vec (vec es) j _ (1 + zlength e) Hm eq_refl) as (tl & -> & Ht); [lia|].
  pose proof (read_Ret [] (e ++ [NUL]) []) as Hrd. rewrite app_nil_r in Hrd. rewrite zlength_app in Hrd. cbn in Hrd.
  replace (1 + zlength e) with (zlength e + 1) at 1 by lia. setoid_rewrite Hrd. cbn [mbind outcome_bind].
  pose proof (write_Ret (vec es) tl [] (e ++ [NUL])) as Hw. rewrite !app_nil_r in Hw. rewrite Hw.
  2:{ unfold zlength in Ht. rewrite length_app. simpl. lia. }
  cbn. f_equal. f_equal. rewrite vec_app, vec_one. f_equal.
  rewrite !zlength_app. change (zlength [NUL]) with 1. lia.
Qed.

Lemma scan_back_spec pre x post (j : nat) :
  pre = [] \/ last pre = Some NUL -> text x -> (j <= length x)%nat ->
  scan_back (pre ++ x ++ post) (length pre + j) = Ret (length pre).
Proof.
  intros Hpre Hx. revert x post Hx. induction j as [|j IH]; intros x post Hx Hj.
  - rewrite Nat.add_0_r. destruct Hpre as [->|Hl]; [done|]. apply last_Some in Hl as [l ->].
    rewrite length_app. simpl. rewrite Nat.add_1_r. cbn [scan_back].
    rewrite (proj2 (aget_Ret _ _ NUL)); [done|]. split; [lia|]. rewrite Nat2Z.id, <- !app_assoc.
    by rewrite lookup_app_r, Nat.sub_diag by lia.
  - rewrite Nat.add_succ_r. cbn [scan_back]. destruct (lookup_lt_is_Some_2 x j) as [c Hc]; [lia|].
    rewrite (proj2 (aget_Ret _ _ c)).
    2:{ split; [lia|]. rewrite Nat2Z.id, lookup_app_r by lia. rewrite lookup_app_l by lia. rewrite <- Hc. f_equal. lia. }
    cbn. rewrite (proj2 (Z.eqb_neq c NUL)) by (by eapply Forall_lookup_1 in Hx). apply IH; [done|lia].
Qed.

Lemma last_vec es : vec es = [] \/ last (vec es) = Some NUL.
Proof.
  destruct es as [|e es _] using rev_ind; [by left|]. right. rewrite vec_app, vec_one, app_assoc. by rewrite last_snoc.
Qed.

(** [before] is any address in the entry [x]. *)
Lemma argz_insert_spec a es x es' e (j : nat) :
  represents a (es ++ x :: es') -> text x -> (j <= length x)%nat -> e <> [] ->
  zlength (vec (es ++ x :: es')) + (1 + zlength e) < 2 ^ 64 ->
  argz_insert has_memory junk a (Some (Z.of_nat (length (vec es) + j))) e =
    (if has_memory (zlength (vec (es ++ x :: es')) + (1 + zlength e))
     then Ret (0, Argz (vec (es ++ e :: x :: es')) (zlength (vec (es ++ e :: x :: es')))) else Ret (ENOMEM, a)).
Proof.
  intros (t & E & El & _ & Hsz) Hx Hj He Hb. unfold argz_insert. rewrite Nat2Z.id, E, El.
  assert (Hn : negb (is_null e) = true) by (by destruct e). rewrite Hn. cbn [assert_ mbind outcome_bind].
  assert (scan_back (vec (es ++ x :: es') ++ t) (length (vec es) + j) = Ret (length (vec es))) as ->.
  { rewrite vec_app, vec_cons, <- !app_assoc. by apply scan_back_spec; [apply last_vec|..]. }
  assert (vec (es ++ e :: x :: es') = vec es ++ (e ++ [NUL]) ++ vec (x :: es')) as ->.
  { rewrite vec_app, (vec_cons e). by rewrite <- app_assoc. }
  rewrite vec_app in *. clear E El. generalize dependent (vec (x :: es')). generalize (vec es). clear es x es' Hx Hj.
  intros P V Hb. assert (zlength (e ++ [NUL]) = 1 + zlength e) as Ee by (rewrite zlength_app; change (zlength [NUL]) with 1; lia).
  rewrite !zlength_app, Ee in *. pose proof (zlength_nonneg e). pose proof (zlength_nonneg P). pose proof (zlength_nonneg V).
  cbn [mbind outcome_bind]. fold (zlength P). unfold u64. rewrite !wrap_small by lia.
  destruct (has_memory _) eqn:Hm; [|unfold realloc; by rewrite Hm].
  destruct (realloc_vec (P ++ V) t _ (1 + zlength e) Hm) as (tl & -> & Ht); [by rewrite zlength_app|lia|].
  rewrite <- app_assoc. replace (zlength P + zlength V - zlength P) with (zlength V) by lia. rewrite read_Ret. cbn [mbind outcome_bind].
  rewrite <- (take_drop (length (e ++ [NUL])) (V ++ tl)). set (Q := take _ (V ++ tl)). set (R := drop _ (V ++ tl)).
  assert (length Q = length (e ++ [NUL]) /\ length R = length V) as [HQ HR].
  { unfold Q, R. rewrite length_take, length_drop, !length_app. unfold zlength in Ht. simpl. lia. }
  pose proof (write_Ret (P ++ Q) R [] V HR) as Hw.
  assert (zlength (P ++ Q) = zlength P + (1 + zlength e)) as Hq by (unfold zlength; rewrite length_app, HQ, length_app; simpl length; lia).
  rewrite !app_nil_r, Hq, <- !app_assoc in Hw. rewrite Hw. cbn [mbind outcome_bind].
  rewrite write_Ret by done. cbn [mbind outcome_bind]. do 3 f_equal. lia.
Qed.

End argz_proofs.

(** *** [argz_next] *)

Lemma cstr_entry pre x post : text x -> cstr (pre ++ x ++ NUL :: post) (length pre) = x.
Proof.
  intros Hx. unfold cstr. rewrite drop_app_length. rewrite take_while_app; [|eapply Forall_impl; [exact Hx|]].
  - simpl. by rewrite app_nil_r.
  - intros c Hc. simpl. by rewrite (proj2 (Z.eqb_neq _ _) Hc).
Qed.

Lemma argz_next_spec a es x es' :
  represents a (es ++ x :: es') -> text x ->
  argz_next a (Some (zlength (vec es))) = Ret (if is_null (vec es') then None else Some (zlength (vec (es ++ [x])))).
Proof.
  intros Hr Hx. unfold argz_next. rewrite (represents_wf _ _ Hr). destruct Hr as (t & E & El & _ & _). rewrite E, El.
  rewrite !vec_app, vec_cons, vec_one, !zlength_app, zlength_cons. cbn [assert_ mbind outcome_bind].
  pose proof (zlength_nonneg (vec es)). pose proof (zlength_nonneg x). pose proof (zlength_nonneg (vec es')).
  rewrite (proj2 (Z.leb_le 0 (zlength (vec es)))) by lia. rewrite (proj2 (Z.ltb_lt (zlength (vec es)) _)) by lia.
  rewrite orb_true_r. cbn [assert_ mbind outcome_bind]. rewrite to_nat_zlength, <- !app_assoc, drop_app_length.
  cbn [app]. rewrite strlen_text by done. cbn [mbind outcome_bind]. change (zlength [NUL]) with 1. f_equal.
  destruct (vec es') as [|c l]; cbn [is_null].
  - change (zlength []) with 0. by rewrite (proj2 (Z.leb_le _ _)) by lia.
  - rewrite zlength_cons. pose proof (zlength_nonneg l). rewrite (proj2 (Z.leb_gt _ _)) by lia. f_equal. lia.
Qed.

Lemma is_null_vec es : is_null (vec es) = match es with [] => true | _ => false end.
Proof. destruct es as [|[|c e] es]; done. Qed.

Lemma argz_entries_from fuel a es x es' :
  represents a (es ++ x :: es') -> Forall text (x :: es') -> (length es' < fuel)%nat ->
  argz_entries fuel a (Some (zlength (vec es))) = Ret es'.
Proof.
  revert es x es'. induction fuel as [|fuel IH]; intros es x es' Hr Ht Hf; [lia|]. apply Forall_cons in Ht as [Hx Ht].
  cbn [argz_entries]. rewrite (argz_next_spec _ _ _ _ Hr Hx), is_null_vec. cbn [mbind outcome_bind].
  destruct es' as [|y es']; [done|]. assert (Hr' : represents a ((es ++ [x]) ++ y :: es')) by (by rewrite <- app_assoc).
  rewrite (IH _ y es' Hr' Ht) by (simpl in Hf; lia). cbn [mbind outcome_bind]. do 2 f_equal.
  destruct Hr' as (t & -> & _). rewrite to_nat_zlength, (vec_app (es ++ [x])), vec_cons, <- !app_assoc. apply Forall_cons in Ht as [Hy _].
  cbn [app]. by apply cstr_entry.
Qed.

Lemma argz_entries_spec a es :
  represents a es -> Forall text es -> argz_entries (S (length es)) a None = Ret es.
Proof.
  intros Hr Ht. cbn [argz_entries]. unfold argz_next at 1. rewrite (represents_wf _ _ Hr). cbn [assert_ mbind outcome_bind].
  destruct es as [|x es].
  - by destruct Hr as (_ & _ & -> & _).
  - assert (0 < alen a) as Hl.
    { destruct Hr as (_ & _ & -> & _). rewrite vec_cons, zlength_app, zlength_cons. pose proof (zlength_nonneg x). pose proof (zlength_nonneg (vec es)). lia. }
    rewrite (proj2 (Z.ltb_lt _ _) Hl). pose proof (argz_entries_from (length (x :: es)) a [] x es Hr Ht) as E. change (zlength (vec [])) with 0 in E. rewrite E by (simpl; lia).
    cbn [mbind outcome_bind]. destruct Hr as (t & -> & _). apply Forall_cons in Ht as [Hx _].
    rewrite vec_cons, <- app_assoc. do 2 f_equal. by apply (cstr_entry []).
Qed.

(** *** [argz_create_sep] *)

(** The bytes that are written for the rest of the string; [word]: the byte before is
    there and is not NUL. *)
Fixpoint squeezed (delim : Z) (word : bool) (p : list Z) : list Z :=
  match p with
  | [] => []
  | c :: p =>
      if c =? delim then if word then NUL :: squeezed delim false p else squeezed delim false p
      else c :: squeezed delim true p
  end.

Definition in_word (w : list Z) : bool := match last w with None => false | Some c => negb (c =? NUL) end.

Lemma in_word_snoc w c : in_word (w ++ [c]) = negb (c =? NUL).
Proof. unfold in_word. by rewrite last_snoc. Qed.

Lemma aset_snoc (w : list Z) r rest c : aset (w ++ r :: rest) (zlength w) c = Ret ((w ++ [c]) ++ rest).
Proof.
  rewrite aset_in.
  - f_equal. unfold zlength. rewrite Nat2Z.id, insert_app_r_alt, Nat.sub_diag by lia. by rewrite <- app_assoc.
  - unfold zlength. rewrite length_app. simpl length. lia.
Qed.

Lemma squeezed_length delim word p : zlength (squeezed delim word p) <= zlength p.
Proof.
  revert word. induction p as [|c p IH]; intros word; simpl; [done|]. pose proof (IH true). pose proof (IH false).
  destruct (c =? delim); [destruct word|]; rewrite ?zlength_cons; lia.
Qed.

Lemma sep_loop_spec p delim w rest len :
  text p -> (length p <= length rest)%nat -> zlength p < len < 2 ^ 64 ->
  exists rest', let x := squeezed delim (in_word w) p in
    sep_loop p delim (w ++ rest) (zlength w) len = Ret ((w ++ x) ++ rest', zlength (w ++ x), len - (zlength p - zlength x))
    /\ (length x + length rest' = length rest)%nat.
Proof.
  revert w rest len. induction p as [|c p IH]; intros w rest len Hp Hr Hl; cbn [sep_loop squeezed].
  - exists rest. rewrite app_nil_r. split; [|done]. do 2 f_equal. change (zlength []) with 0. lia.
  - apply Forall_cons in Hp as [Hc Hp]. rewrite zlength_cons in *. pose proof (zlength_nonneg p). pose proof (zlength_nonneg w).
    destruct rest as [|r rest]; [simpl in Hr; lia|]. simpl in Hr.
    assert (Hput : forall d, exists rest', let x := squeezed delim (negb (d =? NUL)) p in
      (b ← aset (w ++ r :: rest) (zlength w) d; sep_loop p delim b (zlength w + 1) len)
        = Ret ((w ++ d :: x) ++ rest', zlength (w ++ d :: x), len - (1 + zlength p - zlength (d :: x)))
      /\ (length (d :: x) + length rest' = S (length rest))%nat).
    { intros d. rewrite aset_snoc. cbn [mbind outcome_bind]. destruct (IH (w ++ [d]) rest len) as (rest' & E & El); [done|lia|lia|].
      rewrite in_word_snoc in E, El. rewrite zlength_app in E. change (zlength [d]) with 1 in E. rewrite E. exists rest'. simpl.
      split; [|lia]. rewrite <- !app_assoc, zlength_cons. simpl. do 3 f_equal; lia. }
    destruct (c =? delim) eqn:Ed.
    + assert (exists prev, (if 0 <? zlength w then aget (w ++ r :: rest) (zlength w - 1) else Ret NUL) = Ret prev
              /\ (0 <? zlength w) && negb (prev =? NUL) = in_word w) as (prev & -> & Hw).
      { unfold in_word. destruct w as [|d w _] using rev_ind; [by exists NUL|].
        rewrite last_snoc, zlength_app. change (zlength [d]) with 1. pose proof (zlength_nonneg w). exists d.
        rewrite (proj2 (Z.ltb_lt _ _)) by lia. split; [|done]. apply aget_Ret. split; [lia|].
        replace (Z.to_nat (zlength w + 1 - 1)) with (length w) by (unfold zlength; lia).
        by rewrite <- app_assoc, lookup_app_r, Nat.sub_diag by lia. }
      cbn [mbind outcome_bind]. rewrite Hw. destruct (in_word w) eqn:Ew; [exact (Hput NUL)|].
      destruct (IH w (r :: rest) (len - 1)) as (rest' & E & El); [done|simpl; lia|lia|].
      unfold u64. rewrite wrap_small by lia. rewrite Ew in E, El. rewrite E. exists rest'. split; [|done]. do 2 f_equal. lia.
    + destruct (Hput c) as (rest' & E & El). rewrite (proj2 (Z.eqb_neq _ _) Hc) in E, El. exists rest'. done.
Qed.

(** The parts of a string between delimiters. *)
Fixpoint split_on (delim : Z) (s : list Z) : list (list Z) :=
  match s with
  | [] => [[]]
  | c :: s =>
      if c =? delim then [] :: split_on delim s
      else match split_on delim s with x :: l => (c :: x) :: l | [] => [[c]] end
  end.

(** The parts that are not empty, and the last one. *)
Fixpoint keep (l : list (list Z)) : list (list Z) :=
  match l with
  | [] => []
  | x :: l' => match l', x with [], _ => [x] | _, [] => keep l' | _, _ => x :: keep l' end
  end.

Definition fields (delim : Z) (s : list Z) : list (list Z) := keep (split_on delim s).

Lemma split_on_cons delim s : exists x l, split_on delim s = x :: l.
Proof.
  induction s as [|c s (x & l & E)]; simpl; [eauto|]. destruct (c =? delim); [eauto|]. rewrite E. eauto.
Qed.

Lemma squeezed_fields delim s :
  squeezed delim false s ++ [NUL] = vec (fields delim s)
  /\ squeezed delim true s ++ [NUL] = match split_on delim s with x :: l => x ++ NUL :: vec (keep l) | [] => [] end.
Proof.
  unfold fields. induction s as [|c s [IHf IHt]]; simpl; [done|]. destruct (split_on_cons delim s) as (x & l & E).
  destruct (c =? delim).
  - rewrite E in IHf |- *. split; [exact IHf|]. simpl app. by rewrite IHf.
  - rewrite E in IHt |- *. simpl app. rewrite !IHt. split; [|done]. destruct l as [|y l]; simpl keep; by rewrite !vec_cons.
Qed.

Lemma split_on_text delim s : text s -> Forall text (split_on delim s).
Proof.
  induction 1 as [|c s Hc Hs IH]; simpl; [by repeat constructor|]. destruct (c =? delim); [constructor; [constructor|done]|].
  destruct (split_on delim s) as [|x l]; [by repeat constructor|]. apply Forall_cons in IH as [Hx Hl].
  constructor; [by constructor|done].
Qed.

Lemma keep_Forall P l : Forall P l -> Forall P (keep l).
Proof. induction 1 as [|x l Hx Hl IH]; simpl; [constructor|]. destruct l, x; auto. Qed.

Lemma keep_ne l : l <> [] -> keep l <> [].
Proof. induction l as [|x l IH]; [done|]. simpl. intros _. destruct l as [|y l], x; try done. by apply IH. Qed.

Lemma fields_ne delim s : fields delim s <> [].
Proof. unfold fields. apply keep_ne. destruct (split_on_cons delim s) as (x & l & ->). done. Qed.

Lemma create_sep_spec has_memory junk s delim :
  text s -> zlength s + 1 < 2 ^ 64 -> has_memory (1 + zlength s) = true ->
  exists a, argz_create_sep has_memory junk s delim = Ret (0, Some a) /\ represents a (fields delim s)
            /\ zlength (blk a) = 1 + zlength s.
Proof.
  intros Hs Hb Hm. pose proof (zlength_nonneg s). unfold argz_create_sep, u64. rewrite wrap_small by lia.
  rewrite (proj2 (Z.eqb_neq _ _)) by lia. unfold malloc. rewrite Hm.
  destruct (sep_loop_spec s delim [] (replicate (Z.to_nat (1 + zlength s)) junk) (1 + zlength s)) as (rest & E & El);
    [done|rewrite length_replicate; unfold zlength; lia|lia|].
  cbn [app] in E. change (in_word []) with false in *. change (zlength []) with 0 in E. rewrite E. clear E. cbn [mbind outcome_bind].
  pose proof (squeezed_length delim false s) as Hq. destruct (squeezed_fields delim s) as [Hv _]. set (x := squeezed delim false s) in *.
  pose proof (zlength_nonneg x). rewrite length_replicate in El.
  destruct rest as [|r rest]; [unfold zlength in *; simpl in El; lia|]. rewrite aset_snoc. cbn [mbind outcome_bind].
  rewrite (proj2 (Z.eqb_neq _ _)) by lia. eexists. split; [done|].
  assert (zlength ((x ++ [NUL]) ++ rest) = 1 + zlength s) as Hz.
  { rewrite !zlength_app. unfold zlength in *. simpl in *. lia. }
  split; [|exact Hz]. exists rest. cbn [blk alen]. rewrite <- Hv. split_and!; [done| |by intros ?%fields_ne|lia].
  rewrite zlength_app. change (zlength [NUL]) with 1. lia.
Qed.

(** *** [argz_stringify] *)

Fixpoint joined (sep : Z) (es : list (list Z)) : list Z :=
  match es with
  | [] => []
  | e :: es' => match es' with [] => e | _ => e ++ sep :: joined sep es' end
  end.

Definition replaced (sep : Z) (l : list Z) : list Z := (fun c => if c =? NUL then sep else c) <$> l.

Lemma stringify_loop_spec fuel c m r sep :
  (length m < fuel)%nat -> zlength (c :: m ++ r) < 2 ^ 64 ->
  stringify_loop fuel (c :: m ++ r) (1 + zlength m) sep = Ret (c :: replaced sep m ++ r).
Proof.
  revert fuel r. induction m as [|x m IH] using rev_ind; intros [|fuel] r Hf Hb; try (rewrite ?length_app in Hf; simpl in Hf; lia);
    cbn [stringify_loop]; unfold u64; rewrite Z.add_simpl_l.
  - done.
  - rewrite zlength_cons, !zlength_app in Hb. rewrite zlength_app. change (zlength [x]) with 1 in *.
    pose proof (zlength_nonneg m). pose proof (zlength_nonneg r). rewrite wrap_small by lia.
    rewrite (proj2 (Z.ltb_lt _ _)) by lia. rewrite <- app_assoc. cbn [app].
    assert (aget (c :: m ++ x :: r) (zlength m + 1) = Ret x) as ->.
    { apply aget_Ret. split; [lia|]. replace (Z.to_nat (zlength m + 1)) with (S (length m)) by (unfold zlength; lia).
      simpl. by rewrite lookup_app_r, Nat.sub_diag by lia. }
    cbn [mbind outcome_bind].
    assert ((if x =? NUL then aset (c :: m ++ x :: r) (zlength m + 1) sep else Ret (c :: m ++ x :: r))
            = Ret (c :: m ++ (if x =? NUL then sep else x) :: r)) as ->.
    { destruct (x =? NUL); [|done]. pose proof (aset_snoc (c :: m) x r sep) as E. rewrite zlength_cons, Z.add_comm in E.
      cbn [app] in E. rewrite E. by rewrite <- app_assoc. }
    cbn [mbind outcome_bind]. rewrite Z.add_comm, IH.
    + unfold replaced. by rewrite fmap_app, <- app_assoc.
    + rewrite length_app in Hf. simpl in Hf. lia.
    + rewrite zlength_cons, zlength_app, zlength_cons. lia.
Qed.

Lemma vec_joined es : es <> [] -> vec es = joined NUL es ++ [NUL].
Proof.
  induction es as [|e es IH]; [done|]. intros _. rewrite vec_cons. destruct es as [|e' es]; [done|].
  rewrite IH by done. cbn [joined]. by rewrite <- app_assoc.
Qed.

Lemma replaced_text sep s : text s -> replaced sep s = s.
Proof. induction 1 as [|c s Hc Hs IH]; [done|]. simpl. rewrite (proj2 (Z.eqb_neq _ _) Hc). f_equal. exact IH. Qed.

Lemma replaced_joined sep es : Forall text es -> replaced sep (joined NUL es) = joined sep es.
Proof.
  induction 1 as [|e es He Hes IH]; [done|]. destruct es as [|e' es]; [by apply replaced_text|].
  change (joined NUL (e :: e' :: es)) with (e ++ NUL :: joined NUL (e' :: es)). unfold replaced in *. rewrite fmap_app, fmap_cons, IH.
  cbn. f_equal. by apply replaced_text.
Qed.

Lemma stringify_spec a c e es sep :
  represents a ((c :: e) :: es) -> Forall text ((c :: e) :: es) -> sep <> 0 ->
  exists rest, argz_stringify a sep = Ret (Argz (joined sep ((c :: e) :: es) ++ NUL :: rest) (alen a)).
Proof.
  intros Hr Ht Hs. unfold argz_stringify. rewrite (represents_wf _ _ Hr). destruct Hr as (t & E & El & _ & Hb).
  rewrite (proj2 (Z.eqb_neq _ _) Hs). cbn [assert_ mbind outcome_bind]. exists t.
  rewrite vec_joined in E, El by done. rewrite <- (replaced_joined sep) by done. apply Forall_cons in Ht as [Hce Ht].
  apply Forall_cons in Hce as [Hc He]. rewrite E in Hb |- *. rewrite <- app_assoc in *. cbn [app] in *.
  assert (exists m, joined NUL ((c :: e) :: es) = c :: m) as [m Em] by (destruct es; cbn; eauto). rewrite Em in *.
  cbn [app] in *. pose proof (stringify_loop_spec (S (length (c :: m ++ NUL :: t))) c m (NUL :: t) sep) as L.
  rewrite El, zlength_cons, zlength_app. change (zlength [NUL]) with 1. pose proof (zlength_nonneg m). pose proof (zlength_nonneg t).
  rewrite zlength_cons, zlength_app, zlength_cons in Hb. unfold u64. rewrite wrap_small by lia.
  replace (1 + (zlength m + 1) - 1) with (1 + zlength m) by lia. rewrite L.
  - cbn. by rewrite (proj2 (Z.eqb_neq _ _) Hc).
  - simpl. rewrite length_app. lia.
  - rewrite zlength_cons, zlength_app, zlength_cons. lia.
Qed.

Lemma fields_head delim s :
  if forallb (Z.eqb delim) s then fields delim s = [[]] else exists c e es, fields delim s = (c :: e) :: es.
Proof.
  unfold fields. induction s as [|c s IH]; [done|]. cbn [forallb split_on]. rewrite (Z.eqb_sym delim c).
  destruct (split_on_cons delim s) as (x & l & E). destruct (c =? delim); cbn [andb].
  - rewrite E in *. exact IH.
  - rewrite E. destruct l; cbn; eauto.
Qed.

Lemma joined_split delim s : joined delim (split_on delim s) = s.
Proof.
  induction s as [|c s IH]; [done|]. cbn [split_on]. destruct (split_on_cons delim s) as (x & l & E). rewrite E in *.
  destruct (c =? delim) eqn:Ed; bprop.
  - cbn [joined app] in *. by rewrite IH, Ed.
  - destruct l; cbn [joined app] in *; by f_equal.
Qed.

Lemma keep_clean l : Forall (fun x => x <> []) l -> keep l = l.
Proof.
  induction l as [|x l IH]; [done|]. intros [Hx Hl]%Forall_cons. simpl. destruct l, x; try done. by rewrite IH.
Qed.

Lemma stringify_one_empty a sep :
  represents a [[]] -> sep <> 0 -> argz_stringify a sep = Undef.
Proof.
  intros Hr Hs. unfold argz_stringify. rewrite (represents_wf _ _ Hr). destruct Hr as (t & E & El & _ & Hb).
  rewrite (proj2 (Z.eqb_neq _ _) Hs), El. cbn [assert_ mbind outcome_bind]. change (u64 (zlength (vec [[]]) - 1)) with 0.
  cbn [stringify_loop]. change (u64 (0 - 1)) with (2 ^ 64 - 1). change (0 <? 2 ^ 64 - 1) with true. cbn iota.
  rewrite (proj2 (aget_Undef _ _)); [done|]. lia.
Qed.

(** A search path [s] is split and put together again as it should be: a loop over
    the vector of [argz_create_sep] sees the parts of [s] between delimiters without
    the empty ones (but the last one, even if it is empty), and [argz_stringify] joins
    these entries with the delimiter, which is [s] itself if no part is empty.  The
    block is not overrun, except for a string of delimiters only (or the empty string),
    for which [argz_stringify] leaves it: the length wraps around. *)
Theorem search_path_roundtrip (has_memory : Z -> bool) (junk : Z) (s : list Z) (delim : Z) :
  text s -> delim <> NUL -> zlength s + 1 < 2 ^ 64 -> has_memory (1 + zlength s) = true ->
  let es := fields delim s in
  exists a, argz_create_sep has_memory junk s delim = Ret (0, Some a)
    /\ argz_entries (S (length es)) a None = Ret es
    /\ (if forallb (Z.eqb delim) s then argz_stringify a delim = Undef
        else exists a', argz_stringify a delim = Ret a' /\ alen a' = alen a /\ cstr (blk a') 0 = joined delim es)
    /\ (Forall (fun x => x <> []) (split_on delim s) -> joined delim es = s).
Proof.
  intros Hs Hd Hb Hm es. destruct (create_sep_spec has_memory junk s delim Hs Hb Hm) as (a & E & Hr & Hz).
  assert (Ht : Forall text es) by (apply keep_Forall, split_on_text, Hs).
  exists a. split; [done|]. split; [by apply argz_entries_spec|]. split.
  - pose proof (fields_head delim s) as Hh. destruct (forallb (Z.eqb delim) s).
    + rewrite Hh in Hr. by apply stringify_one_empty.
    + destruct Hh as (c & e & l & Hh). unfold es in *. rewrite Hh in *.
      destruct (stringify_spec a c e l delim Hr Ht Hd) as [rest ->]. eexists. split; [done|]. split; [done|]. cbn [blk].
      apply (cstr_entry []). rewrite <- (replaced_joined delim) by done. apply Forall_forall. intros x Hx.
      apply list_elem_of_fmap in Hx as (y & -> & _). destruct (y =? NUL) eqn:Ey; bprop; done.
  - intros Hc. unfold es, fields. rewrite keep_clean by done. apply joined_split.
Qed.

Lemma search_path_roundtrip_witness :
  exists a, argz_create_sep (fun n => n <? 4096) 170 (str ":/lib::/usr/lib:") 58 = Ret (0, Some a)
    /\ argz_entries 4 a None = Ret [str "/lib"; str "/usr/lib"; []].
Proof.
  destruct (search_path_roundtrip (fun n => n <? 4096) 170 (str ":/lib::/usr/lib:") 58) as (a & E & Hes & _).
  - unfold text. repeat constructor; vm_compute; discriminate.
  - discriminate.
  - vm_compute. reflexivity.
  - vm_compute. reflexivity.
  - exists a. split; [exact E|exact Hes].
Defined.

(** *** Bounded copies *)

Lemma strl_loop_spec w src rest dstsize :
  let k := Z.to_nat (Z.min (zlength src) (Z.max 0 (dstsize - 1 - zlength w))) in
  (k <= length rest)%nat ->
  strl_loop (w ++ rest) src (zlength w) dstsize =
    Ret ((w ++ take k src) ++ drop k rest, drop k src, zlength (w ++ take k src)).
Proof.
  revert w rest. induction src as [|c src IH]; intros w rest; cbn zeta; cbn [strl_loop].
  - intros _. rewrite take_nil, drop_nil, app_nil_r. replace (Z.to_nat _) with O by (unfold zlength; simpl; lia). done.
  - rewrite zlength_cons. pose proof (zlength_nonneg src). destruct (zlength w <? dstsize - 1) eqn:E; bprop.
    + replace (Z.to_nat _) with (S (Z.to_nat (Z.min (zlength src) (Z.max 0 (dstsize - 1 - zlength (w ++ [c])))))).
      2:{ rewrite zlength_app. change (zlength [c]) with 1. lia. }
      destruct rest as [|r rest]; [simpl; lia|]. intros Hk. rewrite aset_snoc. cbn [mbind outcome_bind].
      replace (zlength w + 1) with (zlength (w ++ [c])) by (rewrite zlength_app; done).
      rewrite IH by (simpl in Hk; lia).
      simpl take. simpl drop. by rewrite <- (app_assoc w [c]).
    + intros _. replace (Z.to_nat _) with O by lia. by rewrite app_nil_r.
Qed.

(** [lt_strlcpy] and [lt_strlcat] never write behind the first [dstsize] bytes of the
    buffer and leave a terminated string: the one that was there followed by as much of
    the source as fits; the result is the length that would be needed, so that it is
    less than [dstsize] exactly if nothing was cut off.  ([dst] is empty for a copy.) *)
Theorem strl_bounded (dst src rest : list Z) (dstsize : Z) :
  text dst -> text src -> zlength dst < dstsize <= zlength (dst ++ NUL :: rest) ->
  let fits := take (Z.to_nat (dstsize - 1 - zlength dst)) src in
  lt_strlcat (dst ++ NUL :: rest) src dstsize
    = Ret (zlength dst + zlength src, dst ++ fits ++ NUL :: drop (length fits) rest)
  /\ (dst = [] -> forall c, lt_strlcpy (c :: rest) src dstsize = Ret (zlength src, fits ++ NUL :: drop (length fits) rest))
  /\ (zlength dst + zlength src < dstsize <-> fits = src).
Proof.
  intros Hd Hs Hb fits. rewrite zlength_app, zlength_cons in Hb. pose proof (zlength_nonneg dst). pose proof (zlength_nonneg src).
  pose proof (zlength_nonneg rest).
  assert (Hcopy : forall c, ('(d, q, n) ← strl_loop (dst ++ c :: rest) src (zlength dst) dstsize; d ← aset d n NUL; Ret (n + zlength q, d))
                    = Ret (zlength dst + zlength src, dst ++ fits ++ NUL :: drop (length fits) rest)).
  { intros c. pose proof (strl_loop_spec dst src (c :: rest) dstsize) as L. cbn zeta in L.
    set (k := Z.to_nat (Z.min _ _)) in L. assert (take k src = fits) as Ek.
    { unfold k, fits. destruct (Z.le_gt_cases (zlength src) (dstsize - 1 - zlength dst)).
      - rewrite !take_ge; [done|unfold zlength in *; lia..].
      - f_equal. lia. }
    assert (length fits = k) as Hk by (rewrite <- Ek; apply length_take_le; unfold k, zlength in *; lia).
    rewrite L by (simpl; unfold k, zlength in *; lia). cbn [mbind outcome_bind]. rewrite Ek.
    destruct (drop k (c :: rest)) as [|r l] eqn:Er.
    { apply (f_equal length) in Er. rewrite length_drop in Er. simpl in Er. unfold k, zlength in *. lia. }
    rewrite aset_snoc. cbn [mbind outcome_bind]. f_equal. f_equal.
    - rewrite zlength_app. unfold zlength. rewrite length_drop, Hk. unfold k, zlength in *. lia.
    - rewrite <- !app_assoc. do 2 f_equal. simpl. f_equal. rewrite Hk. change rest with (drop 1 (c :: rest)).
      rewrite drop_drop, Nat.add_comm, <- drop_drop, Er. done. }
  split; [|split].
  - unfold lt_strlcat. rewrite (proj2 (Z.leb_le _ _)) by lia. cbn [assert_ mbind outcome_bind]. rewrite strlen_text by done.
    cbn [mbind outcome_bind]. apply Hcopy.
  - intros -> c. unfold lt_strlcpy. rewrite (proj2 (Z.leb_le _ _)) by (change (zlength []) with 0 in Hb; lia). exact (Hcopy c).
  - unfold fits. split; intros Hx.
    + apply take_ge. unfold zlength in *. lia.
    + apply (f_equal length) in Hx. rewrite length_take in Hx. unfold zlength in *. lia.
Qed.

Lemma strl_bounded_witness :
  lt_strlcat (str "/usr" ++ [NUL; 7; 7; 7; 7]) (str "/lib") 8 = Ret (8, str "/usr/li" ++ [NUL; 7]).
Proof.
  destruct (strl_bounded (str "/usr") (str "/lib") [7; 7; 7; 7] 8) as (E & _).
  - unfold text. repeat constructor; vm_compute; discriminate.
  - unfold text. repeat constructor; vm_compute; discriminate.
  - vm_compute. split; [reflexivity|discriminate].
  - exact E.
Defined.
