(* ===== verification/Lterror.v ===== *)
(** * Error messages of libltdl (src/libltdl/lt_error.c, libltdl/lt_error.h)

    The table of messages, the messages users add, and the last error, which
    [lt_dlerror] (src/libltdl/ltdl.c) returns once.  A message is a pointer: code compares
    it with the entries of the table. *)

From S2P Require Import Prelude.
From S2P Require Import CString.
Local Open Scope Z_scope.

Inductive lt_error :=
  | UNKNOWN | DLOPEN_NOT_SUPPORTED | INVALID_LOADER | INIT_LOADER | REMOVE_LOADER | FILE_NOT_FOUND | DEPLIB_NOT_FOUND
  | NO_SYMBOLS | CANNOT_OPEN | CANNOT_CLOSE | SYMBOL_NOT_FOUND | NO_MEMORY | INVALID_HANDLE | BUFFER_OVERFLOW
  | INVALID_ERRORCODE | SHUTDOWN | CLOSE_RESIDENT_MODULE | INVALID_MUTEX_ARGS | INVALID_POSITION | CONFLICTING_FLAGS.

#[export] Instance lt_error_eq_dec : EqDecision lt_error.
Proof. solve_decision. Defined.

(** [lt_dlerror_table], in its order *)
Definition lt_dlerror_table : list (lt_error * string) := [
  (UNKNOWN, "unknown error"); (DLOPEN_NOT_SUPPORTED, "dlopen support not available"); (INVALID_LOADER, "invalid loader");
  (INIT_LOADER, "loader initialization failed"); (REMOVE_LOADER, "loader removal failed"); (FILE_NOT_FOUND, "file not found");
  (DEPLIB_NOT_FOUND, "dependency library not found"); (NO_SYMBOLS, "no symbols defined"); (CANNOT_OPEN, "can't open the module");
  (CANNOT_CLOSE, "can't close the module"); (SYMBOL_NOT_FOUND, "symbol not found"); (NO_MEMORY, "not enough memory");
  (INVALID_HANDLE, "invalid module handle"); (BUFFER_OVERFLOW, "internal buffer overflow"); (INVALID_ERRORCODE, "invalid errorcode");
  (SHUTDOWN, "library already shutdown"); (CLOSE_RESIDENT_MODULE, "can't close resident module");
  (INVALID_MUTEX_ARGS, "internal error (code withdrawn)"); (INVALID_POSITION, "invalid search path insert position");
  (CONFLICTING_FLAGS, "symbol visibility can be global or local")]%string.

Definition LT_ERROR_MAX : Z := zlength lt_dlerror_table.
Definition LT_ERROR_LEN_MAX : Z := 41.

(** The pointers that can be stored in [last_error]: an entry of the table, an added
    message, a message of the system ([dlerror]), or a local array of a function that has
    returned, which has no text any more. *)
Inductive message := Table (e : lt_error) | User (i : nat) | System (t : list Z) | Dangling.

#[export] Instance message_eq_dec : EqDecision message.
Proof. solve_decision. Defined.

Record errors := Errors { last_error : option message; user_error_strings : list (list Z); errorcount : Z }.

Definition errors0 : errors := Errors None [] LT_ERROR_MAX.

(** [LT__SETERRORSTR] and [LT__SETERROR] *)
Definition lt__set_last_error (m : option message) (s : errors) : errors :=
  Errors m (user_error_strings s) (errorcount s).
Definition set_error (e : lt_error) : errors -> errors := lt__set_last_error (Some (Table e)).

Definition lt__get_last_error (s : errors) : option message := last_error s.

Definition error_text (s : errors) (m : message) : option (list Z) :=
  match m with
  | Table e => str <$> ((list_find (fun p => fst p = e) lt_dlerror_table) ≫= fun '(_, (_, t)) => Some t)
  | User i => user_error_strings s !! i
  | System t => Some t
  | Dangling => None
  end.

(** [REALLOC] sets [NO_MEMORY] when it fails, once [lt_dlinit] was called. *)
Definition lt_dladderror (has_memory : bool) (diagnostic : list Z) (s : errors) : outcome (Z * errors) :=
  let errindex := errorcount s - LT_ERROR_MAX in
  if has_memory then
    let temp := take (Z.to_nat (1 + errindex)) (user_error_strings s ++ replicate (Z.to_nat (1 + errindex) - length (user_error_strings s)) []) in
    users ← aset temp errindex diagnostic;
    Ret (errorcount s, Errors (last_error s) users (errorcount s + 1))
  else Ret (-1, set_error NO_MEMORY s).

Definition lt_dlseterror (errindex : Z) (s : errors) : outcome (Z * errors) :=
  if (errorcount s <=? errindex) || (errindex <? 0) then Ret (1, set_error INVALID_ERRORCODE s)
  else if errindex <? LT_ERROR_MAX then
    '(e, _) ← aget lt_dlerror_table errindex; Ret (0, lt__set_last_error (Some (Table e)) s)
  else
    let i := errindex - LT_ERROR_MAX in
    _ ← aget (user_error_strings s) i; Ret (0, lt__set_last_error (Some (User (Z.to_nat i))) s).

Definition lt_dlerror (s : errors) : option message * errors := (lt__get_last_error s, lt__set_last_error None s).

(** ** Properties *)

(** The strings fit into the rows of the table, with the NUL that is written out and
    the one of the string literal. *)
Lemma error_strings_fit : Forall (fun p => zlength (str (snd p)) + 2 <= LT_ERROR_LEN_MAX + 1) lt_dlerror_table.
Proof. repeat constructor; vm_compute; discriminate. Qed.

(** The counter is the number of messages. *)
Definition errors_ok (s : errors) : Prop := errorcount s = LT_ERROR_MAX + zlength (user_error_strings s).

Lemma adderror_spec d s :
  errors_ok s ->
  lt_dladderror true d s = Ret (errorcount s, Errors (last_error s) (user_error_strings s ++ [d]) (errorcount s + 1))
  /\ errors_ok (Errors (last_error s) (user_error_strings s ++ [d]) (errorcount s + 1)).
Proof.
  intros Hs. unfold errors_ok in *. set (us := user_error_strings s) in *. unfold lt_dladderror.
  assert (errorcount s - LT_ERROR_MAX = zlength us) as -> by lia. fold us.
  replace (Z.to_nat (1 + zlength us)) with (S (length us)) by (unfold zlength; lia).
  replace (S (length us) - length us)%nat with 1%nat by lia. split; [|simpl; unfold zlength in *; rewrite length_app; simpl; lia].
  rewrite take_ge by (rewrite length_app; simpl; lia). rewrite aset_in by (unfold zlength; rewrite length_app; simpl; lia).
  simpl. unfold zlength. rewrite Nat2Z.id, insert_app_r_alt, Nat.sub_diag by lia. done.
Qed.

(** Every code up to the counter names a message; after [lt_dlseterror] with the code of
    an added message [lt_dlerror] returns that message, and then nothing. *)
Theorem error_reported d s code s1 :
  errors_ok s -> lt_dladderror true d s = Ret (code, s1) ->
  exists s2 m s3, lt_dlseterror code s1 = Ret (0, s2) /\ lt_dlerror s2 = (Some m, s3) /\ error_text s3 m = Some d
                  /\ fst (lt_dlerror s3) = None
                  /\ (forall c, (exists s', lt_dlseterror c s1 = Ret (0, s')) <-> 0 <= c <= code).
Proof.
  intros Hs E. destruct (adderror_spec d s Hs) as [E' Hok]. rewrite E' in E. injection E as <- <-.
  set (s1 := Errors _ _ _) in *. unfold errors_ok in *. simpl in Hok.
  assert (HM : 0 <= LT_ERROR_MAX) by (vm_compute; discriminate). pose proof (Zle_0_nat (length (user_error_strings s))) as Hn.
  assert (Hset : forall c, 0 <= c <= errorcount s -> exists m, lt_dlseterror c s1 = Ret (0, lt__set_last_error (Some m) s1)
                  /\ (LT_ERROR_MAX <= c -> m = User (Z.to_nat (c - LT_ERROR_MAX)))).
  { intros c Hc. unfold lt_dlseterror. simpl. rewrite (proj2 (Z.leb_gt _ _)), (proj2 (Z.ltb_ge c 0)) by lia. simpl.
    destruct (Z.ltb_spec c LT_ERROR_MAX) as [Hlt|Hge].
    - destruct (aget_is_Ret lt_dlerror_table c) as [[e t] ->]; [unfold LT_ERROR_MAX in Hlt; lia|]. simpl. eexists. split; [done|lia].
    - destruct (aget_is_Ret (user_error_strings s ++ [d]) (c - LT_ERROR_MAX)) as [x ->].
      { unfold zlength in *. rewrite length_app. simpl. lia. }
      simpl. eexists. split; done. }
  destruct (Hset (errorcount s)) as (m & Hm & Hu); [unfold zlength in *; lia|].
  exists (lt__set_last_error (Some m) s1), m, (lt__set_last_error None s1).
  split; [done|]. split; [done|]. split; [|split; [done|]].
  - rewrite Hu by (unfold zlength in *; lia). simpl. rewrite Hs. unfold zlength.
    replace (Z.to_nat _) with (length (user_error_strings s)) by lia. by rewrite lookup_app_r, Nat.sub_diag by lia.
  - intros c. split.
    + intros [s' E]. destruct (Z.leb_spec 0 c); [|exfalso; revert E; unfold lt_dlseterror; rewrite (proj2 (Z.ltb_lt c 0)) by lia; by rewrite orb_true_r].
      destruct (Z.leb_spec c (errorcount s)); [lia|]. exfalso. revert E. unfold lt_dlseterror. simpl.
      by rewrite (proj2 (Z.leb_le (errorcount s + 1) c)) by lia.
    + intros Hc. destruct (Hset c Hc) as (m' & -> & _). eauto.
Qed.
