(* ===== verification/SearchPath.v ===== *)
(** * Search paths of libltdl (src/libltdl/ltdl.c)

    The search path for modules: how it is brought into a canonical form, how
    directories are added, and the loop over its directories.  The proxy adds two
    directories and opens the query mapper from them.  Paths are strings without their
    NUL; separators are those of Unix ([:] between directories, [/] in names).  Memory
    can be out for any size. *)

From S2P Require Import Prelude.
From S2P Require Import CString.
From S2P Require Import Argz.
From S2P Require Import Lterror.
Local Open Scope Z_scope.

Definition PATHSEP : Z := 58.
Definition SLASH : Z := 47.

Section paths.
Context (has_memory : Z -> bool) (junk : Z).

(** [MALLOC]: [NO_MEMORY] is set when there is none. *)
Definition lt_malloc (n : Z) (s : errors) : option (list Z) * errors :=
  match malloc has_memory junk n with Some b => (Some b, s) | None => (None, set_error NO_MEMORY s) end.

(** ** Canonical paths *)

(** The loop; [canonical] are the bytes before [dest]. *)
Fixpoint canon_loop (path : list Z) (canonical : list Z) : list Z :=
  match path with
  | [] => canonical
  | c :: path =>
      let next := hd0 path in
      if (c =? PATHSEP) && (is_null canonical || (next =? PATHSEP) || (next =? NUL)) then canon_loop path canonical
      else if negb (c =? SLASH) then canon_loop path (canonical ++ [c])
      else if negb (next =? PATHSEP) && negb (next =? NUL) && negb (next =? SLASH) then canon_loop path (canonical ++ [SLASH])
      else canon_loop path canonical
  end.

Definition canonicalize_path (path : list Z) (s : errors) : outcome (option (list Z) * errors) :=
  _ ← assert_ (negb (is_null path));
  match lt_malloc (1 + zlength path) s with
  | (None, s) => Ret (None, s)
  | (Some _, s) => Ret (Some (canon_loop path []), s)
  end.

Definition argzize_path (path : list Z) (s : errors) : outcome (option argz * errors) :=
  '(error, a) ← argz_create_sep has_memory junk path PATHSEP;
  if error =? 0 then Ret (a, s)
  else Ret (None, set_error (if error =? ENOMEM then NO_MEMORY else UNKNOWN) s).

(** ** The directories of a path *)

Section foreach.
(** The callback: its result, the data it changes and the errors. *)
Context {D : Type} (func : list Z -> D -> errors -> outcome (Z * D * errors)).

(** The buffer [filename] (empty for NULL) with a directory and the name behind it. *)
Definition fill (filename dir base : list Z) : outcome (list Z) :=
  let lendir := zlength dir in
  f ← write filename 0 (dir ++ [NUL]);
  if is_null base then Ret f
  else
    c ← aget f (lendir - 1);
    '(f, lendir) ← (if negb (c =? SLASH) then f ← aset f lendir SLASH; Ret (f, lendir + 1) else Ret (f, lendir));
    write f lendir (base ++ [NUL]).

Fixpoint dir_loop (fuel : nat) (a : argz) (dir_name : option Z) (base filename : list Z) (filenamesize : Z) (d : D) (s : errors)
  : outcome (Z * D * errors) :=
  match fuel with
  | O => Undef
  | S fuel =>
      e ← argz_next a dir_name;
      match e with
      | None => Ret (0, d, s)
      | Some e =>
          let dir := cstr (blk a) (Z.to_nat e) in
          let lendir := zlength dir in
          let grow := filenamesize <=? 1 + lendir + zlength base in
          let filenamesize := if grow then 1 + lendir + 1 + zlength base else filenamesize in
          let '(buf, s) := if grow then lt_malloc filenamesize s else (Some filename, s) in
          match buf with
          | None => Ret (0, d, s)
          | Some filename =>
              _ ← assert_ (lendir <? filenamesize);
              filename ← fill filename dir base;
              '(result, d, s) ← func (cstr filename 0) d s;
              if negb (result =? 0) then Ret (result, d, s)
              else dir_loop fuel a (Some e) base filename filenamesize d s
          end
      end
  end.

(** [base_name]: NULL and the empty string are the same here. *)
Definition foreach_dirinpath (search_path : option (list Z)) (base_name : list Z) (d : D) (s : errors) : outcome (Z * D * errors) :=
  match search_path with
  | None | Some [] => Ret (0, d, set_error FILE_NOT_FOUND s)
  | Some search_path =>
      '(canonical, s) ← canonicalize_path search_path s;
      match canonical with
      | None => Ret (0, d, s)
      | Some canonical =>
          '(a, s) ← argzize_path canonical s;
          match a with
          | None => Ret (0, d, s)
          | Some a => dir_loop (S (S (length (blk a)))) a None base_name [] 0 d s
          end
      end
  end.

End foreach.

(** ** Changing the search path *)

Definition lt_argz_insert (a : argz) (before : option Z) (entry : list Z) (s : errors) : outcome (Z * argz * errors) :=
  '(error, a) ← match before with
                | Some _ => argz_insert has_memory junk a before entry
                | None => argz_append has_memory junk a (entry ++ [NUL]) (1 + zlength entry)
                end;
  if error =? 0 then Ret (0, a, s)
  else Ret (1, a, set_error (if error =? ENOMEM then NO_MEMORY else UNKNOWN) s).

Definition lt__strdup (t : list Z) (s : errors) : option (list Z) * errors :=
  match lt_malloc (zlength t + 1) s with (Some _, s) => (Some t, s) | (None, s) => (None, s) end.

(** [before] is an offset in the path. *)
Definition lt_dlpath_insertdir (path : option (list Z)) (before : option Z) (dir : list Z) (s : errors)
  : outcome (Z * option (list Z) * errors) :=
  '(canonical, s) ← canonicalize_path dir s;
  match canonical with
  | None => Ret (1, path, s)
  | Some canonical =>
      _ ← assert_ (negb (is_null canonical));
      match path with
      | None =>
          _ ← assert_ (match before with None => true | Some _ => false end);
          let '(p, s) := lt__strdup dir s in
          Ret (match p with Some _ => 0 | None => 1 end, p, s)
      | Some p =>
          '(a, s) ← argzize_path p s;
          match a with
          | None => Ret (1, path, s)
          | Some a =>
              _ ← assert_ (match before with Some b => (0 <=? b) && (i32 b <=? i32 (zlength p)) | None => true end);
              '(e, a, s) ← lt_argz_insert a before dir s;
              if negb (e =? 0) then Ret (1, path, s)
              else a ← argz_stringify a PATHSEP; Ret (0, Some (cstr (blk a) 0), s)
          end
      end
  end.

Definition lt_dladdsearchdir (search_dir : list Z) (user_search_path : option (list Z)) (s : errors)
  : outcome (Z * option (list Z) * errors) :=
  if negb (is_null search_dir) then
    '(e, p, s) ← lt_dlpath_insertdir user_search_path None search_dir s; Ret (if e =? 0 then 0 else 1, p, s)
  else Ret (0, user_search_path, s).

(** [before] as an offset from [user_search_path]. *)
Definition lt_dlinsertsearchdir (before : option Z) (search_dir : list Z) (user_search_path : option (list Z)) (s : errors)
  : outcome (Z * option (list Z) * errors) :=
  let bad := match before with Some b => (b <? 0) || (zlength (default [] user_search_path) <=? b) | None => false end in
  if bad then Ret (1, user_search_path, set_error INVALID_POSITION s)
  else if negb (is_null search_dir) then
    '(e, p, s) ← lt_dlpath_insertdir user_search_path before search_dir s; Ret (if e =? 0 then 0 else 1, p, s)
  else Ret (0, user_search_path, s).

Definition lt_dlsetsearchpath (search_path : option (list Z)) (s : errors) : outcome (Z * option (list Z) * errors) :=
  match search_path with
  | None | Some [] => Ret (0, None, s)
  | Some p => '(c, s) ← canonicalize_path p s; Ret (match c with Some _ => 0 | None => 1 end, c, s)
  end.

Definition lt_dlgetsearchpath (user_search_path : option (list Z)) : option (list Z) := user_search_path.

End paths.

(** ** Canonical paths, by directories *)

(** A directory with single slashes and none at its end. *)
Fixpoint strip (e : list Z) : list Z :=
  match e with
  | [] => []
  | c :: e =>
      if negb (c =? SLASH) then c :: strip e
      else match e with [] => [] | c' :: _ => if c' =? SLASH then strip e else SLASH :: strip e end
  end.

Definition nonempty (e : list Z) : Prop := e <> [].
#[export] Instance nonempty_dec e : Decision (nonempty e).
Proof. unfold nonempty. apply _. Defined.

(** The directories a path names. *)
Definition dirs (path : list Z) : list (list Z) := strip <$> filter nonempty (split_on PATHSEP path).

(** The root directory, in any way of writing it, is a problem. *)
Definition no_root (e : list Z) : Prop := e <> [] -> strip e <> [].

Definition plain (e : list Z) : Prop := text e /\ PATHSEP ∉ e.

Lemma canon_elem e r canonical :
  plain e -> hd0 r = PATHSEP \/ r = [] -> canon_loop (e ++ r) canonical = canon_loop r (canonical ++ strip e).
Proof.
  revert canonical. induction e as [|c e IH]; intros canonical [Ht Hp] Hr; [by rewrite app_nil_r|].
  apply Forall_cons in Ht as [Hc Ht]. apply not_elem_of_cons in Hp as [Hcp Hp].
  assert (IH' : forall k, canon_loop (e ++ r) k = canon_loop r (k ++ strip e)) by (intros; by apply IH).
  cbn [app canon_loop strip]. rewrite (proj2 (Z.eqb_neq c PATHSEP)) by congruence. cbn [andb].
  destruct (c =? SLASH); cbn [negb].
  2:{ rewrite IH', <- app_assoc. done. }
  destruct e as [|c' e]; cbn [app hd0] in *.
  - rewrite app_nil_r. destruct Hr as [-> | ->]; cbn; done.
  - apply Forall_cons in Ht as [Hc' _]. apply not_elem_of_cons in Hp as [Hcp' _].
    rewrite (proj2 (Z.eqb_neq c' PATHSEP)), (proj2 (Z.eqb_neq c' NUL)) by congruence. cbn [negb andb].
    destruct (c' =? SLASH); cbn [negb]; rewrite IH'; [done|by rewrite <- app_assoc].
Qed.

Lemma joined_cons sep e e' es : joined sep (e :: e' :: es) = e ++ sep :: joined sep (e' :: es).
Proof. done. Qed.

Lemma hd_joined e es : plain e -> (hd0 (joined PATHSEP (e :: es)) =? PATHSEP) || (hd0 (joined PATHSEP (e :: es)) =? NUL) = is_null e.
Proof.
  intros [Ht Hp]. destruct e as [|c e].
  - destruct es as [|e' es]; [done|]. by rewrite joined_cons.
  - apply Forall_cons in Ht as [Hc _]. apply not_elem_of_cons in Hp as [Hcp _].
    assert (hd0 (joined PATHSEP ((c :: e) :: es)) = c) as -> by (by destruct es).
    by rewrite (proj2 (Z.eqb_neq c PATHSEP)), (proj2 (Z.eqb_neq c NUL)) by congruence.
Qed.

Lemma is_null_app {A} (l k : list A) : is_null (l ++ k) = is_null l && is_null k.
Proof. by destruct l. Qed.

Lemma is_null_false {A} (l : list A) : l <> [] -> is_null l = false.
Proof. by destruct l. Qed.

Lemma filter_nonempty e l : filter nonempty (e :: l) = if is_null e then filter nonempty l else e :: filter nonempty l.
Proof. destruct e; [by rewrite filter_cons_False by (intros H; by apply H)|by rewrite filter_cons_True by done]. Qed.

(** What is appended to [canonical] for a list of elements, a separator before it if needed. *)
Definition appended (canonical : list Z) (sep : bool) (es : list (list Z)) : list Z :=
  canonical ++ (if is_null canonical || negb sep || is_null es then [] else [PATHSEP]) ++ joined PATHSEP (strip <$> es).

Lemma canon_elements l e canonical :
  Forall plain (e :: l) -> Forall no_root (e :: l) ->
  canon_loop (joined PATHSEP (e :: l)) canonical = appended canonical (is_null e) (filter nonempty (e :: l)).
Proof.
  revert e canonical. induction l as [|e' l IH]; intros e canonical Hp Hr; apply Forall_cons in Hp as [He Hp]; apply Forall_cons in Hr as [Hre Hr];
    rewrite filter_nonempty.
  - change (joined PATHSEP [e]) with e. rewrite <- (app_nil_r e) at 1. rewrite canon_elem by auto. cbn. unfold appended.
    destruct e; cbn; by rewrite ?orb_true_r, ?app_nil_r.
  - rewrite joined_cons, (canon_elem e (PATHSEP :: joined PATHSEP (e' :: l)) _ He (or_introl eq_refl)). cbn [canon_loop]. rewrite Z.eqb_refl. cbn [andb].
    rewrite <- orb_assoc, (hd_joined e' l (Forall_inv Hp)). change (PATHSEP =? SLASH) with false. cbn [negb].
    rewrite !(IH e') by done. rewrite !filter_nonempty. generalize (filter nonempty l). intros F. unfold appended.
    rewrite !is_null_app. destruct e as [|c e].
    + rewrite !app_nil_r, andb_true_r. destruct canonical as [|k canonical]; cbn [is_null orb negb andb app]; [by destruct e'|].
      destruct e' as [|c' e']; cbn [is_null orb negb]; [done|]. by rewrite <- app_assoc.
    + assert (is_null (strip (c :: e)) = false) as -> by (apply is_null_false, Hre; done). rewrite !andb_false_r.
      cbn [is_null orb negb]. rewrite orb_true_r. cbn [app]. destruct e' as [|c' e']; cbn [is_null orb negb].
      * destruct F as [|f F]; cbn [is_null]; [by rewrite !app_nil_r|]. rewrite fmap_cons, <- app_assoc. done.
      * rewrite fmap_cons, <- !app_assoc. done.
Qed.

Lemma split_on_plain s : text s -> Forall plain (split_on PATHSEP s).
Proof.
  induction 1 as [|c s Hc Hs IH]; simpl; [repeat constructor; set_solver|]. destruct (c =? PATHSEP) eqn:E; bprop.
  - constructor; [split; [constructor|set_solver]|done].
  - destruct (split_on PATHSEP s) as [|x l]; [repeat constructor; set_solver|]. apply Forall_cons in IH as [[Hx Hx'] Hl].
    constructor; [split; [by constructor|set_solver]|done].
Qed.

(** The canonical form of a path without the root directory: its directories without
    empty ones, each in its short form, with single separators. *)
Lemma canon_spec path :
  text path -> Forall no_root (split_on PATHSEP path) -> canon_loop path [] = joined PATHSEP (dirs path).
Proof.
  intros Ht Hr. pose proof (split_on_plain path Ht) as Hp. destruct (split_on_cons PATHSEP path) as (x & l & E).
  rewrite <- (joined_split PATHSEP path) at 1. unfold dirs. rewrite E in *. rewrite canon_elements by done. done.
Qed.

Lemma strip_plain e : plain e -> plain (strip e).
Proof.
  intros [Ht Hp]. induction e as [|c e IH]; [done|]. apply Forall_cons in Ht as [Hc Ht]. apply not_elem_of_cons in Hp as [Hcp Hp].
  destruct IH as [IHt IHp]; [done..|]. assert (Hcons : plain (c :: strip e)) by (split; [by constructor|by apply not_elem_of_cons]).
  cbn [strip]. destruct (c =? SLASH) eqn:E; bprop; cbn [negb]; [|done]. subst c.
  destruct e as [|c' e]; [done|]. by destruct (c' =? SLASH).
Qed.

Lemma strip_last e : last (strip e) <> Some SLASH.
Proof.
  induction e as [|c e IH]; [done|]. cbn [strip]. destruct (c =? SLASH) eqn:E; bprop; cbn [negb].
  - destruct e as [|c' e]; [done|]. destruct (c' =? SLASH) eqn:E'; [done|]. cbn [strip] in *. rewrite E' in *. cbn [negb] in *.
    by rewrite last_cons_cons.
  - destruct (strip e) eqn:Es; [simpl; congruence|]. by rewrite last_cons_cons.
Qed.

Lemma split_app_plain x s : PATHSEP ∉ x ->
  split_on PATHSEP (x ++ s) = match split_on PATHSEP s with y :: l => (x ++ y) :: l | [] => [x] end.
Proof.
  destruct (split_on_cons PATHSEP s) as (y & l & E). rewrite E. induction x as [|c x IH]; intros Hx; [done|].
  apply not_elem_of_cons in Hx as [Hc Hx]. cbn. rewrite (proj2 (Z.eqb_neq c PATHSEP)) by congruence. by rewrite IH.
Qed.

Lemma split_joined es : es <> [] -> Forall plain es -> split_on PATHSEP (joined PATHSEP es) = es.
Proof.
  induction es as [|e es IH]; [done|]. intros _ Hp. apply Forall_cons in Hp as [[_ He] Hp]. destruct es as [|e' es].
  - change (joined PATHSEP [e]) with e. rewrite <- (app_nil_r e) at 1. rewrite split_app_plain by done. cbn. by rewrite app_nil_r.
  - rewrite joined_cons, split_app_plain by done. cbn [split_on]. rewrite Z.eqb_refl, app_nil_r, IH by done. done.
Qed.

Lemma fields_joined es : es <> [] -> Forall plain es -> Forall nonempty es -> fields PATHSEP (joined PATHSEP es) = es.
Proof. intros. unfold fields. rewrite split_joined by done. by apply keep_clean. Qed.

(** ** The loop over the directories *)

Definition name_in (dir base : list Z) : list Z := if is_null base then dir else dir ++ SLASH :: base.

Fixpoint visit {D} (func : list Z -> D -> errors -> outcome (Z * D * errors)) (names : list (list Z)) (d : D) (s : errors)
  : outcome (Z * D * errors) :=
  match names with
  | [] => Ret (0, d, s)
  | n :: names => '(r, d, s) ← func n d s; if negb (r =? 0) then Ret (r, d, s) else visit func names d s
  end.

Lemma write_at b off src :
  0 <= off -> off + zlength src <= zlength b ->
  exists post, write b off src = Ret (take (Z.to_nat off) b ++ src ++ post)
               /\ zlength (take (Z.to_nat off) b ++ src ++ post) = zlength b.
Proof.
  intros H0 Hb. eexists. unfold write. rewrite !(proj2 (Z.leb_le _ _)) by lia. split; [done|].
  unfold zlength in *. rewrite !length_app, length_take, length_drop. lia.
Qed.

Lemma fill_name_spec b dir base :
  plain dir -> dir <> [] -> last dir <> Some SLASH -> text base -> zlength dir + zlength base + 2 <= zlength b ->
  exists b', fill b dir base = Ret b' /\ cstr b' 0 = name_in dir base /\ zlength b' = zlength b.
Proof.
  intros [Ht _] Hd Hl Hb Hz. pose proof (zlength_nonneg dir). pose proof (zlength_nonneg base). unfold fill, name_in.
  assert (forall x, zlength (x ++ [NUL]) = zlength x + 1) as Hone by (intros; by rewrite zlength_app).
  destruct (write_at b 0 (dir ++ [NUL])) as (post & -> & Hz1); [lia|rewrite Hone; lia|].
  change (take (Z.to_nat 0) b) with (@nil Z) in *. cbn [mbind outcome_bind app] in *.
  rewrite <- app_assoc in *. destruct (is_null base) eqn:En.
  { eexists. split; [done|]. split; [|done]. by apply (cstr_entry []). }
  destruct dir as [|c dir _] using rev_ind; [done|]. rewrite last_snoc in Hl.
  assert (zlength (dir ++ [c]) = zlength dir + 1) as Hdc by (by rewrite zlength_app). rewrite Hdc in *.
  assert (zlength b = zlength dir + 2 + zlength post) as Hzb.
  { rewrite <- Hz1, !zlength_app. change (zlength [c]) with 1. change (zlength [NUL]) with 1. lia. }
  assert (aget ((dir ++ [c]) ++ [NUL] ++ post) (zlength dir + 1 - 1) = Ret c) as ->.
  { apply aget_Ret. pose proof (zlength_nonneg dir). split; [lia|].
    replace (Z.to_nat _) with (length dir) by (unfold zlength; lia). by rewrite <- app_assoc, lookup_app_r, Nat.sub_diag by lia. }
  cbn [mbind outcome_bind]. rewrite (proj2 (Z.eqb_neq c SLASH)) by congruence. cbn [negb].
  pose proof (aset_snoc (dir ++ [c]) NUL post SLASH) as Ea. rewrite zlength_app in Ea. change (zlength [c]) with 1 in Ea.
  cbn [app] in *. rewrite Ea. cbn [mbind outcome_bind]. clear Ea.
  set (w := (dir ++ [c]) ++ [SLASH]) in *. assert (zlength dir + 1 + 1 = zlength w) as Hw by (unfold w; by rewrite !zlength_app).
  rewrite Hw. destruct (write_at (w ++ post) (zlength w) (base ++ [NUL])) as (post' & -> & Hz2); [apply zlength_nonneg| |].
  { rewrite Hone, (zlength_app w). lia. }
  rewrite to_nat_zlength, take_app_length in *. eexists. split; [done|]. split.
  - unfold w. rewrite <- !app_assoc. cbn [app]. pose proof (cstr_entry [] (dir ++ c :: SLASH :: base) post') as C.
    rewrite <- app_assoc in C. apply C. apply Forall_app in Ht as [Hd' Hc']. apply Forall_app. split; [done|].
    apply Forall_cons in Hc' as [? _]. constructor; [done|]. by constructor.
  - rewrite Hz2, (zlength_app w). lia.
Qed.

(** A directory as the loop expects it. *)
Definition dir_ok (e : list Z) : Prop := plain e /\ e <> [] /\ last e <> Some SLASH.

Section foreach_proofs.
Context (has_memory : Z -> bool) (junk : Z) (limit : Z).
Hypothesis memory : forall n, n <= limit -> has_memory n = true.
Context {D : Type} (func : list Z -> D -> errors -> outcome (Z * D * errors)).

Lemma malloc_limit n s : 0 <= n <= limit -> exists b, lt_malloc has_memory junk n s = (Some b, s) /\ zlength b = n.
Proof.
  intros Hn. unfold lt_malloc, malloc. rewrite memory by lia. eexists. split; [done|]. rewrite zlength_repl. lia.
Qed.

Lemma dir_loop_spec fuel a pre rest entry base filename d s :
  represents a (pre ++ rest) ->
  argz_next a entry = Ret (if is_null (vec rest) then None else Some (zlength (vec pre))) ->
  Forall dir_ok rest -> text base -> (forall e, e ∈ rest -> zlength e + zlength base + 2 <= limit) -> (length rest < fuel)%nat ->
  dir_loop has_memory junk func fuel a entry base filename (zlength filename) d s =
    visit func ((fun dir => name_in dir base) <$> rest) d s.
Proof.
  intros Hr Hn Hok Hb Hlim Hf. revert fuel pre entry filename d s Hr Hn Hf.
  induction rest as [|x rest IH]; intros [|fuel] pre entry filename d s Hr Hn Hf; simpl in Hf; try lia; cbn [dir_loop]; rewrite Hn, is_null_vec.
  { done. }
  cbn [mbind outcome_bind]. apply Forall_cons in Hok as [(Hx & Hne & Hls) Hok].
  assert (cstr (blk a) (Z.to_nat (zlength (vec pre))) = x) as ->.
  { destruct Hr as (t & -> & _). rewrite to_nat_zlength, vec_app, vec_cons, <- !app_assoc. cbn [app]. apply cstr_entry, Hx. }
  pose proof (Hlim x (list_elem_of_here _ _)) as Hl. pose proof (zlength_nonneg x). pose proof (zlength_nonneg base).
  cbv zeta. set (grow := zlength filename <=? 1 + zlength x + zlength base).
  set (size := if grow then 1 + zlength x + 1 + zlength base else zlength filename).
  assert (exists b, (if grow then lt_malloc has_memory junk size s else (Some filename, s)) = (Some b, s)
          /\ zlength b = size /\ zlength x + zlength base + 2 <= zlength b) as (b & Eb & Hzb & Hroom).
  { unfold size, grow. destruct (zlength filename <=? 1 + zlength x + zlength base) eqn:E; bprop.
    - destruct (malloc_limit (1 + zlength x + 1 + zlength base) s) as (b & -> & Hzb); [lia|]. exists b. split; [done|]. lia.
    - exists filename. split; [done|]. lia. }
  rewrite Eb, <- Hzb. clear Eb. rewrite (proj2 (Z.ltb_lt _ _)) by lia. cbn [assert_ mbind outcome_bind].
  destruct (fill_name_spec b x base Hx Hne Hls Hb Hroom) as (b' & -> & Hname & Hz'). cbn [mbind outcome_bind]. rewrite Hname, <- Hz'.
  cbn [fmap list_fmap visit]. destruct (func (name_in x base) d s) as [[[r d'] s']|]; [|done]. cbn [mbind outcome_bind]. destruct (negb (r =? 0)); [done|].
  apply (IH Hok (fun e He => Hlim e (list_elem_of_further _ _ _ He)) fuel (pre ++ [x])); [by rewrite <- app_assoc|apply argz_next_spec; [done|apply Hx]|lia].
Qed.

Lemma joined_text sep es : sep <> NUL -> Forall text es -> text (joined sep es).
Proof.
  intros Hs. induction 1 as [|e es He Hes IH]; [constructor|]. destruct es as [|e' es]; [done|].
  change (joined sep (e :: e' :: es)) with (e ++ sep :: joined sep (e' :: es)). apply Forall_app. split; [done|]. by constructor.
Qed.

Lemma vec_length es : (length es <= length (vec es))%nat.
Proof. induction es as [|e es IH]; [done|]. rewrite vec_cons, length_app. simpl. lia. Qed.

Lemma joined_length sep es e : e ∈ es -> zlength e <= zlength (joined sep es).
Proof.
  induction es as [|x es IH]; [by intros ?%elem_of_nil|]. intros [->|He]%elem_of_cons.
  - destruct es as [|y es]; [done|]. change (joined sep (x :: y :: es)) with (x ++ sep :: joined sep (y :: es)).
    rewrite zlength_app. pose proof (zlength_nonneg (sep :: joined sep (y :: es))). lia.
  - specialize (IH He). destruct es as [|y es]; [by apply elem_of_nil in He|].
    change (joined sep (x :: y :: es)) with (x ++ sep :: joined sep (y :: es)).
    rewrite zlength_app, zlength_cons. pose proof (zlength_nonneg x). lia.
Qed.

Lemma canon_length path canonical : zlength (canon_loop path canonical) <= zlength canonical + zlength path.
Proof.
  revert canonical. induction path as [|c path IH]; intros canonical; [simpl; change (zlength []) with 0; lia|].
  rewrite zlength_cons. cbn [canon_loop]. pose proof (IH canonical). pose proof (IH (canonical ++ [c])). pose proof (IH (canonical ++ [SLASH])).
  rewrite zlength_app in *. change (zlength [c]) with 1 in *. change (zlength [SLASH]) with 1 in *. repeat case_match; lia.
Qed.

Lemma dirs_ok path : text path -> Forall no_root (split_on PATHSEP path) -> Forall dir_ok (dirs path).
Proof.
  intros Ht Hr. pose proof (split_on_plain path Ht) as Hp. unfold dirs. apply Forall_fmap, Forall_forall. intros e He.
  apply list_elem_of_filter in He as [Hne He]. unfold compose. rewrite Forall_forall in Hp. rewrite Forall_forall in Hr.
  split; [by apply strip_plain, Hp|]. split; [by apply Hr|apply strip_last].
Qed.

Lemma foreach_spec path base d s :
  text path -> Forall no_root (split_on PATHSEP path) -> dirs path <> [] -> text base ->
  zlength path + zlength base + 2 <= limit -> limit < 2 ^ 64 ->
  foreach_dirinpath has_memory junk func (Some path) base d s =
    visit func ((fun dir => name_in dir base) <$> dirs path) d s.
Proof.
  intros Ht Hr Hne Hb Hlim Hl. pose proof (dirs_ok path Ht Hr) as Hok. pose proof (zlength_nonneg path). pose proof (zlength_nonneg base).
  unfold foreach_dirinpath. destruct path as [|c0 path0] eqn:Ep; [done|]. rewrite <- Ep in *. clear Ep c0 path0.
  unfold canonicalize_path. rewrite is_null_false by (intros ->; done). cbn [negb assert_ mbind outcome_bind].
  destruct (malloc_limit (1 + zlength path) s) as (b & -> & _); [lia|]. cbn [mbind outcome_bind].
  pose proof (canon_length path []) as Hcl. rewrite canon_spec in Hcl |- * by done. change (zlength []) with 0 in Hcl.
  set (ds := dirs path) in *. assert (Hf : fields PATHSEP (joined PATHSEP ds) = ds).
  { apply fields_joined; [done|..]; eapply Forall_impl; [exact Hok|by intros x (? & _)|exact Hok|by intros x (_ & ? & _)]. }
  unfold argzize_path. destruct (create_sep_spec has_memory junk (joined PATHSEP ds) PATHSEP) as (a & -> & Hrep & Hza).
  { apply joined_text; [done|]. eapply Forall_impl; [exact Hok|]. by intros x [[? _] _]. }
  { lia. }
  { apply memory. lia. }
  cbn [mbind outcome_bind]. change (0 =? 0) with true. cbn iota. cbn [mbind outcome_bind]. rewrite Hf in Hrep.
  apply (dir_loop_spec _ a [] ds None base [] d s Hrep).
  - unfold argz_next. rewrite (represents_wf _ _ Hrep). destruct Hrep as (t & _ & -> & _). cbn [assert_ mbind outcome_bind].
    destruct (vec ds) as [|c v]; [done|]. cbn [is_null]. rewrite zlength_cons. pose proof (zlength_nonneg v).
    by rewrite (proj2 (Z.ltb_lt _ _)) by lia.
  - done.
  - done.
  - intros e He. pose proof (joined_length PATHSEP ds e He). lia.
  - destruct Hrep as (t & -> & _). rewrite length_app. pose proof (vec_length ds). lia.
Qed.
(** ** Adding directories *)

(** Calls of [lt_dladdsearchdir], one after the other. *)
Fixpoint add_dirs (ds : list (list Z)) (path : option (list Z)) (s : errors) : outcome (option (list Z) * errors) :=
  match ds with
  | [] => Ret (path, s)
  | d :: ds => '(e, path, s) ← lt_dladdsearchdir has_memory junk d path s; add_dirs ds path s
  end.

(** A directory that can be added. *)
Definition addable (d : list Z) : Prop := plain d /\ strip d <> [].

Lemma addable_ne d : addable d -> d <> [].
Proof. intros [_ H] ->. done. Qed.

Lemma canonicalize_addable d s :
  addable d -> 1 + zlength d <= limit -> canonicalize_path has_memory junk d s = Ret (Some (strip d), s).
Proof.
  intros Hd Hl. unfold canonicalize_path. rewrite is_null_false by (by apply addable_ne). cbn [negb assert_ mbind outcome_bind].
  pose proof (zlength_nonneg d). destruct (malloc_limit (1 + zlength d) s) as (b & -> & _); [lia|].
  rewrite <- (app_nil_r d) at 1. destruct Hd as [Hp _]. by rewrite canon_elem by auto.
Qed.

Lemma joined_snoc sep es d : es <> [] -> joined sep (es ++ [d]) = joined sep es ++ sep :: d.
Proof.
  induction es as [|e es IH]; [done|]. intros _. destruct es as [|e' es]; [done|].
  change (joined sep ((e :: e' :: es) ++ [d])) with (e ++ sep :: joined sep ((e' :: es) ++ [d])). rewrite IH by done.
  change (joined sep (e :: e' :: es)) with (e ++ sep :: joined sep (e' :: es)). by rewrite <- app_assoc.
Qed.

Lemma addsearchdir_spec ds d s :
  Forall addable (ds ++ [d]) -> zlength (joined PATHSEP (ds ++ [d])) + 1 <= limit -> limit < 2 ^ 64 ->
  lt_dladdsearchdir has_memory junk d (if is_null ds then None else Some (joined PATHSEP ds)) s
    = Ret (0, Some (joined PATHSEP (ds ++ [d])), s).
Proof.
  intros Ha Hl H64. pose proof Ha as [Hds Hd]%Forall_app. apply Forall_cons in Hd as [Hd _]. pose proof (zlength_nonneg d) as Hzd.
  pose proof (joined_length PATHSEP (ds ++ [d]) d ltac:(set_solver)) as Hj.
  unfold lt_dladdsearchdir. rewrite (is_null_false d) by (by apply addable_ne). cbn [negb]. unfold lt_dlpath_insertdir.
  rewrite canonicalize_addable by (done || lia). cbn [mbind outcome_bind]. rewrite (is_null_false (strip d)) by apply Hd. cbn [negb assert_ mbind outcome_bind].
  destruct (decide (ds = [])) as [->|Hne].
  { cbn. unfold lt__strdup. by destruct (malloc_limit (zlength d + 1) s) as (b & -> & _); [lia|]. }
  rewrite (is_null_false ds Hne). rewrite joined_snoc in Hl |- * by done. rewrite zlength_app, zlength_cons in Hl.
  pose proof (zlength_nonneg (joined PATHSEP ds)) as Hzj.
  assert (Forall text ds) as Htx by (eapply Forall_impl; [exact Hds|]; by intros x [[? _] _]).
  unfold argzize_path. destruct (create_sep_spec has_memory junk (joined PATHSEP ds) PATHSEP) as (a & -> & Hrep & _).
  { by apply joined_text. }
  { lia. }
  { apply memory. lia. }
  cbn [mbind outcome_bind]. change (0 =? 0) with true. cbn iota. cbn [mbind outcome_bind assert_].
  rewrite fields_joined in Hrep; [|done|by eapply Forall_impl; [exact Hds|]; intros x [? _]|by eapply Forall_impl; [exact Hds|]; apply addable_ne].
  assert (zlength (vec ds) = zlength (joined PATHSEP ds) + 1) as Hvd.
  { rewrite vec_joined by done. rewrite zlength_app. rewrite <- (replaced_joined PATHSEP) by done. unfold replaced, zlength. by rewrite length_fmap. }
  unfold lt_argz_insert. rewrite (argz_append_spec has_memory junk a ds d Hrep) by lia. rewrite memory by lia.
  cbn [mbind outcome_bind]. change (0 =? 0) with true. cbn iota. cbn [mbind outcome_bind negb].
  destruct ds as [|d0 ds]; [done|]. apply Forall_cons in Hds as [Hd0 Hds]. destruct d0 as [|c e]; [by apply addable_ne in Hd0|].
  destruct (stringify_spec (Argz (vec (((c :: e) :: ds) ++ [d])) (zlength (vec (((c :: e) :: ds) ++ [d])))) c e (ds ++ [d]) PATHSEP) as [rest ->].
  - exists []. rewrite app_nil_r. split_and!; [done..|]. cbn [blk]. rewrite vec_app, zlength_app, Hvd, vec_one, zlength_app.
    change (zlength [NUL]) with 1. lia.
  - apply Forall_cons in Htx as [? ?]. apply Forall_cons. split; [done|]. apply Forall_app. split; [done|]. constructor; [apply Hd|constructor].
  - done.
  - cbn [mbind outcome_bind blk]. change (negb (0 =? 0)) with false. cbn iota. cbn [mbind outcome_bind]. change (0 =? 0) with true.
    cbn iota. do 3 f_equal. pose proof (joined_snoc PATHSEP ((c :: e) :: ds) d ltac:(done)) as Ej.
    change (((c :: e) :: ds) ++ [d]) with ((c :: e) :: (ds ++ [d])) in Ej. rewrite Ej. f_equal. apply (cstr_entry []).
    apply Forall_app. split; [by apply joined_text|]. constructor; [done|apply Hd].
Qed.

Lemma add_dirs_spec ds ds' s :
  Forall addable (ds ++ ds') -> zlength (joined PATHSEP (ds ++ ds')) + 1 <= limit -> limit < 2 ^ 64 -> ds ++ ds' <> [] ->
  add_dirs ds' (if is_null ds then None else Some (joined PATHSEP ds)) s = Ret (Some (joined PATHSEP (ds ++ ds')), s).
Proof.
  revert ds. induction ds' as [|d ds' IH]; intros ds Ha Hl H64 Hne; cbn [add_dirs].
  - rewrite app_nil_r in *. by rewrite is_null_false.
  - assert (ds ++ d :: ds' = (ds ++ [d]) ++ ds') as E by (by rewrite <- app_assoc). rewrite E in *.
    rewrite addsearchdir_spec; [|by apply Forall_app in Ha as [? _]| |done].
    + cbn [mbind outcome_bind]. assert (Hn : is_null (ds ++ [d]) = false) by (by destruct ds).
      specialize (IH (ds ++ [d])). rewrite Hn in IH. by apply IH.
    + enough (zlength (joined PATHSEP (ds ++ [d])) <= zlength (joined PATHSEP ((ds ++ [d]) ++ ds'))) by lia.
      clear. induction ds' as [|d' ds' IH] using rev_ind; [by rewrite app_nil_r|]. rewrite app_assoc, (joined_snoc _ ((ds ++ [d]) ++ ds') d') by (by destruct ds).
      rewrite zlength_app. pose proof (zlength_nonneg (PATHSEP :: d')). lia.
Qed.

Lemma dirs_joined ds : ds <> [] -> Forall addable ds -> dirs (joined PATHSEP ds) = strip <$> ds.
Proof.
  intros Hne Ha. unfold dirs. rewrite split_joined; [|done|by eapply Forall_impl; [exact Ha|]; intros x [? _]].
  f_equal. clear Hne. induction Ha as [|d ds Hd Hds IH]; [done|]. rewrite filter_cons_True by (by apply addable_ne). by rewrite IH.
Qed.

(** C18: The search path does what its callers rely on: after directories [ds] are added
    one by one, the path is [ds] with separators, and a search calls its function for
    the given name in every one of these directories, in the order in which they were
    added and with single slashes, until a call returns non-zero; no buffer is overrun
    and no error is set beside those of the calls. *)
Theorem search_order (ds : list (list Z)) (base : list Z) (d : D) (s : errors) :
  ds <> [] -> Forall addable ds -> text base -> zlength (joined PATHSEP ds) + zlength base + 2 <= limit -> limit < 2 ^ 64 ->
  add_dirs ds None s = Ret (Some (joined PATHSEP ds), s)
  /\ foreach_dirinpath has_memory junk func (Some (joined PATHSEP ds)) base d s
     = visit func ((fun dir => name_in (strip dir) base) <$> ds) d s.
Proof.
  intros Hne Ha Hb Hl H64. pose proof (zlength_nonneg base). split; [apply (add_dirs_spec [] ds); cbn [app]; (done || lia)|].
  assert (Forall plain ds) as Hp by (eapply Forall_impl; [exact Ha|]; by intros x [? _]).
  rewrite foreach_spec; [|..].
  - by rewrite dirs_joined, <- list_fmap_compose.
  - apply joined_text; [done|]. eapply Forall_impl; [exact Hp|]. by intros x [? _].
  - rewrite split_joined by done. eapply Forall_impl; [exact Ha|]. by intros x [_ ?] _.
  - rewrite dirs_joined by done. by destruct ds.
  - done.
  - done.
  - done.
Qed.

End foreach_proofs.

(** The two directories of the proxy, and a search that finds the mapper in the second one. *)
Lemma search_order_witness :
  add_dirs (fun n => n <=? 4096) 170 [str "map/.libs"; str "/usr/lib//proxy/"] None errors0
    = Ret (Some (str "map/.libs:/usr/lib//proxy/"), errors0)
  /\ foreach_dirinpath (fun n => n <=? 4096) 170
       (fun f (seen : list (list Z)) s => Ret (if decide (f = str "/usr/lib/proxy/libproxymap-rowa.la") then 1 else 0, seen ++ [f], s))
       (Some (str "map/.libs:/usr/lib//proxy/")) (str "libproxymap-rowa.la") [] errors0
     = Ret (1, [str "map/.libs/libproxymap-rowa.la"; str "/usr/lib/proxy/libproxymap-rowa.la"], errors0).
Proof.
  destruct (search_order (fun n => n <=? 4096) 170 4096 (fun n => proj2 (Z.leb_le n 4096))
    (fun f (seen : list (list Z)) s => Ret (if decide (f = str "/usr/lib/proxy/libproxymap-rowa.la") then 1 else 0, seen ++ [f], s))
    [str "map/.libs"; str "/usr/lib//proxy/"] (str "libproxymap-rowa.la") [] errors0) as [H1 H2].
  - discriminate.
  - repeat constructor; first [vm_compute; discriminate|apply (bool_decide_unpack _); vm_compute; exact I].
  - unfold text. repeat constructor; vm_compute; discriminate.
  - vm_compute. discriminate.
  - reflexivity.
  - split; (etransitivity; [first [exact H1|exact H2]|vm_compute; reflexivity]).
Defined.

(** ** The root directory *)

Lemma create_sep_empty junk : argz_create_sep (fun _ => true) junk [] PATHSEP = Ret (0, Some (Argz [NUL] 1)).
Proof. reflexivity. Qed.

Lemma fill_empty_dir b base : base <> [] -> fill b [] base = Undef.
Proof.
  intros Hb. unfold fill. destruct (write b 0 ([] ++ [NUL])) as [f|]; [|done]. cbn [mbind outcome_bind].
  rewrite is_null_false by done. rewrite (proj2 (aget_Undef _ _)); [done|]. change (zlength []) with 0. lia.
Qed.

(** The root directory has no canonical form (its only slash is at the end and is
    dropped).  Adding it to the search path fails an assertion; a search in a path of
    root directories or separators only reads before the buffer; and once the path is
    set to it, directories that are added are lost although success is returned. *)
Theorem root_directory (junk : Z) (s : errors) :
  let yes := fun _ : Z => true in
  (forall path, lt_dladdsearchdir yes junk (str "/") path s = Undef)
  /\ (forall (D : Type) (func : list Z -> D -> errors -> outcome (Z * D * errors)) path base d,
        path <> [] -> canon_loop path [] = [] -> base <> [] -> foreach_dirinpath yes junk func (Some path) base d s = Undef)
  /\ lt_dlsetsearchpath yes junk (Some (str "/")) s = Ret (0, Some [], s)
  /\ (forall dir, addable dir -> zlength dir + 2 < 2 ^ 64 -> lt_dladdsearchdir yes junk dir (Some []) s = Ret (0, Some [], s)).
Proof.
  intros yes. unfold yes. clear yes. split_and!.
  - done.
  - intros D func path base d Hne Hc Hb. unfold foreach_dirinpath. destruct path as [|c path]; [done|].
    unfold canonicalize_path, lt_malloc, malloc. cbn [is_null negb assert_ mbind outcome_bind]. rewrite Hc. cbn iota.
    cbn [mbind outcome_bind]. unfold argzize_path. rewrite create_sep_empty.
    cbn [mbind outcome_bind]. change (0 =? 0) with true. cbn iota. cbn [mbind outcome_bind]. change (S (S (length (blk (Argz [NUL] 1))))) with 3%nat.
    cbn [dir_loop]. change (argz_next (Argz [NUL] 1) None) with (Ret (Some 0)). cbn [mbind outcome_bind].
    change (cstr (blk (Argz [NUL] 1)) (Z.to_nat 0)) with (@nil Z). cbv zeta. change (zlength []) with 0. pose proof (zlength_nonneg base).
    rewrite (proj2 (Z.leb_le 0 (1 + 0 + zlength base))) by lia. unfold lt_malloc, malloc. cbn iota.
    rewrite (proj2 (Z.ltb_lt 0 _)) by lia. cbn [assert_ mbind outcome_bind]. by rewrite fill_empty_dir.
  - done.
  - intros dir Hd Hl. pose proof (zlength_nonneg dir). unfold lt_dladdsearchdir. rewrite is_null_false by (by apply addable_ne). cbn [negb].
    unfold lt_dlpath_insertdir. rewrite (canonicalize_addable (fun _ => true) junk (1 + zlength dir) (fun _ _ => eq_refl)) by (done || lia).
    cbn [mbind outcome_bind]. rewrite is_null_false by apply Hd. cbn [negb assert_ mbind outcome_bind].
    unfold argzize_path. rewrite create_sep_empty.
    cbn [mbind outcome_bind]. change (0 =? 0) with true. cbn iota. cbn [mbind outcome_bind assert_].
    unfold lt_argz_insert. rewrite (argz_append_spec (fun _ => true) junk (Argz [NUL] 1) [[]] dir).
    + cbn iota. cbn [mbind outcome_bind]. change (0 =? 0) with true. cbn iota. cbn [mbind outcome_bind negb].
      change (negb (0 =? 0)) with false. cbn iota.
      assert (vec ([[]] ++ [dir]) = NUL :: dir ++ [NUL]) as -> by (rewrite vec_app, !vec_one; done).
      unfold argz_stringify. assert (zlength (NUL :: dir ++ [NUL]) = 2 + zlength dir) as Hz.
      { rewrite zlength_cons, zlength_app. change (zlength [NUL]) with 1. lia. }
      rewrite Hz. unfold wf_pair. cbn [blk alen is_null negb andb]. rewrite (proj2 (Z.eqb_neq (2 + zlength dir) 0)) by lia.
      cbn [negb orb assert_ mbind outcome_bind]. change (PATHSEP =? 0) with false. cbn iota. unfold u64. rewrite wrap_small by lia.
      replace (2 + zlength dir - 1) with (1 + zlength dir) by lia.
      rewrite stringify_loop_spec; [done|simpl; rewrite length_app; lia|lia].
    + exists []. split_and!; done.
    + change (zlength (vec [[]])) with 1. lia.
Qed.
