(* ===== verification/Loaders.v ===== *)
(** * The list of module loaders of libltdl (src/libltdl/lt_dlloader.c)

    Loaders are kept as boxed items of a linked list (Slist.v).  A loader is the address
    of its table of functions; the table says whether the functions are there.  The
    functions themselves, which call the dynamic linker of the system, are parameters of
    their users. *)

From S2P Require Import Prelude.
From S2P Require Import CString.
From S2P Require Import Lterror.
From S2P Require Import Slist.
Local Open Scope Z_scope.

(** [lt_dlvtable].  [dlloader_exit] is the result of that function, if there is one. *)
Record lt_dlvtable := VTable {
  vname : list Z;
  sym_prefix : option (list Z);
  has_open : bool;
  has_close : bool;
  has_find_sym : bool;
  dlloader_init : option Z;
  dlloader_exit : option Z;
  priority : Z
}.

Definition LT_DLLOADER_PREPEND : Z := 0.
Definition LT_DLLOADER_APPEND : Z := 1.

(** The tables, the boxes, and the head of the list. *)
Record loader_state := Loaders {
  vtables : gmap Z lt_dlvtable;
  boxes : gmap Z (node Z);
  loaders : Z
}.

(** Lists in the heap are no longer than the heap. *)
Definition steps (s : loader_state) : nat := S (size (boxes s)).

(** The table of a loader that is in the list: a dangling pointer is undefined. *)
Definition vtable_of (s : loader_state) (v : Z) : run lt_dlvtable :=
  match vtables s !! v with Some t => Done t | None => Stuck end.

(** [loader_callback]: the item, if its name matches. *)
Definition loader_callback (s : loader_state) (name : list Z) (addr : Z) (item_ : node Z) : Z :=
  match vtables s !! item item_ with
  | Some t => if decide (vname t = name) then addr else 0
  | None => 0
  end.

Definition valid_vtable (t : lt_dlvtable) : bool :=
  has_open t && has_close t && has_find_sym t
  && ((priority t =? LT_DLLOADER_PREPEND) || (priority t =? LT_DLLOADER_APPEND)).

(** [box]: the address of the new item, zero if there is no memory ([lt__alloc_die] then
    sets the error). *)
Definition lt_dlloader_add (box : Z) (vtable : Z) (s : loader_state) (e : errors) : run (Z * loader_state * errors) :=
  if vtable =? 0 then Done (1, s, set_error INVALID_LOADER e)
  else
    t ← vtable_of s vtable;
    if negb (valid_vtable t) then Done (1, s, set_error INVALID_LOADER e)
    else
      let '(item, h) := slist_box (boxes s) box vtable in
      if item =? 0 then Done (1, s, set_error NO_MEMORY e)
      else
        '(head, h) ← (if priority t =? LT_DLLOADER_PREPEND then slist_cons h item (loaders s)
                      else slist_concat (S (size h)) h (loaders s) item);
        Done (0, Loaders (vtables s) h head, e).

Definition lt_dlloader_next (loader : Z) (s : loader_state) : run Z :=
  if loader =? 0 then Done (loaders s) else nd ← get (boxes s) loader; Done (nxt nd).

Definition lt_dlloader_get (loader : Z) (s : loader_state) : run Z :=
  if loader =? 0 then Done 0 else nd ← get (boxes s) loader; Done (item nd).

Definition lt_dlloader_find (name : list Z) (s : loader_state) : run Z :=
  loader ← slist_find (steps s) (boxes s) (loaders s) (loader_callback s name);
  lt_dlloader_get loader s.

(** [modules] are the open modules: the loader of each and whether it is resident.
    Without memory for the interface identifier an assertion fails. *)
Definition lt_dlloader_remove (has_memory : bool) (modules : list (Z * bool)) (name : list Z) (s : loader_state) (e : errors)
  : run (Z * loader_state * errors) :=
  vtable ← lt_dlloader_find name s;
  if vtable =? 0 then Done (0, s, set_error INVALID_LOADER e)
  else if negb has_memory then Stuck
  else
    let users := filter (fun m => fst m = vtable) modules in
    let in_use := match users with [] => false | _ => true end in
    let in_use_by_resident := existsb snd users in
    if in_use then Done (0, s, if negb in_use_by_resident then set_error REMOVE_LOADER e else e)
    else
      t ← vtable_of s vtable;
      if match dlloader_exit t with Some r => negb (r =? 0) | None => false end then Done (0, s, e)
      else
        '(item, head, h) ← slist_remove (steps s) (boxes s) (loaders s) (loader_callback s name);
        '(v, h) ← slist_unbox h item;
        Done (default 0 v, Loaders (vtables s) h head, e).

(** ** The list of loaders *)

(** The loaders in their order. *)
Definition is_list (s : loader_state) (vs : list Z) : Prop :=
  exists l, chain (boxes s) (loaders s) l /\ mapM (fun a => item <$> boxes s !! a) l = Some vs
            /\ Forall (fun v => v <> 0 /\ is_Some (vtables s !! v)) vs.

Definition named (vt : gmap Z lt_dlvtable) (name : list Z) (v : Z) : Prop := vname <$> vt !! v = Some name.
#[export] Instance named_dec vt name v : Decision (named vt name v).
Proof. unfold named. apply _. Defined.

(** The reference: the first loader with a name, and the list without it. *)
Definition first_named (vt : gmap Z lt_dlvtable) (name : list Z) (vs : list Z) : option Z := snd <$> list_find (named vt name) vs.

Fixpoint without_first (vt : gmap Z lt_dlvtable) (name : list Z) (vs : list Z) : list Z :=
  match vs with [] => [] | v :: vs => if decide (named vt name v) then vs else v :: without_first vt name vs end.

Lemma chain_size {A} (h : gmap Z (node A)) p l : chain h p l -> (length l <= size h)%nat.
Proof.
  intros Hc. pose proof (chain_NoDup _ _ _ Hc) as Hd.
  rewrite <- size_dom, <- (size_list_to_set (C := gset Z) l Hd). apply subseteq_size. intros a Ha.
  apply elem_of_list_to_set in Ha. apply elem_of_dom. by eapply chain_node.
Qed.


(** What [slist_find] and [slist_remove] return for a name. *)
Lemma take_named s name l vs :
  mapM (fun a => item <$> boxes s !! a) l = Some vs -> NoDup l -> Forall (fun a => a <> 0) l -> Forall (fun v => is_Some (vtables s !! v)) vs ->
  let '(r, k) := take_first (results (boxes s) (loader_callback s name)) l in
  mapM (fun a => item <$> boxes s !! a) k = Some (without_first (vtables s) name vs)
  /\ match first_named (vtables s) name vs with
     | Some v => r <> 0 /\ (r ∈ l) /\ (r ∉ k) /\ item <$> boxes s !! r = Some v
     | None => r = 0 /\ k = l
     end.
Proof.
  revert vs. induction l as [|a l IH]; intros vs Hm Hd Hl Hv.
  - injection Hm as <-. done.
  - apply mapM_Some in Hm. apply Forall2_cons_inv_l in Hm as (v & vs' & Ha & Hm & ->). apply Forall_cons in Hl as [Hz Hl].
    apply NoDup_cons in Hd as [Hna Hd]. apply Forall_cons in Hv as [[t Ht] Hv]. apply mapM_Some in Hm. specialize (IH vs' Hm Hd Hl Hv).
    cbn [take_first].
    assert (named (vtables s) name v <-> vname t = name) as Hnm by (unfold named; rewrite Ht; simpl; naive_solver).
    assert (results (boxes s) (loader_callback s name) a = if decide (named (vtables s) name v) then a else 0) as ->.
    { unfold results, loader_callback. destruct (boxes s !! a) as [n|]; [|done]. simpl in Ha. injection Ha as ->. rewrite Ht.
      destruct (decide (vname t = name)), (decide (named (vtables s) name v)); tauto. }
    unfold first_named in *. cbn [list_find without_first]. destruct (decide (named (vtables s) name v)) as [Hn|Hn].
    + rewrite (proj2 (Z.eqb_neq a 0) Hz). split; [done|]. simpl. split_and!; [done|set_solver|done|done].
    + change (0 =? 0) with true. cbn iota. destruct (take_first _ l) as [r k] eqn:Et. destruct IH as [IHm IHf]. split.
      { apply mapM_Some. constructor; [done|]. by apply mapM_Some. }
      destruct (list_find (named (vtables s) name) vs') as [[i w]|]; simpl in *; [|by destruct IHf as [-> ->]].
      destruct IHf as (Hr & Hin & Hnk & Hi). split_and!; [done|set_solver| |done]. apply not_elem_of_cons. split; [|done].
      intros ->. done.
Qed.

Lemma is_list_find s name vs :
  is_list s vs -> lt_dlloader_find name s = Done (default 0 (first_named (vtables s) name vs)).
Proof.
  intros (l & Hc & Hm & Hv). unfold lt_dlloader_find, steps.
  rewrite (slist_find_spec _ _ l) by (done || (pose proof (chain_size _ _ _ Hc); lia)). cbn [mbind run_bind].
  pose proof (take_named s name l vs Hm (chain_NoDup _ _ _ Hc)) as Ht.
  destruct (take_first _ l) as [r k]. destruct Ht as [_ Ht].
  - apply Forall_forall. intros a Ha. by eapply chain_node.
  - eapply Forall_impl; [exact Hv|]. by intros v [_ ?].
  - simpl fst. unfold lt_dlloader_get. destruct (first_named (vtables s) name vs) as [v|]; simpl.
    + destruct Ht as (Hr & _ & _ & Hi). rewrite (proj2 (Z.eqb_neq r 0) Hr). unfold get.
      destruct (boxes s !! r) as [n|]; [|done]. simpl in *. by injection Hi as ->.
    + by destruct Ht as [-> _].
Qed.

Lemma mapM_frame {A} (h h' : gmap Z (node A)) l :
  (forall a, a ∈ l -> item <$> h' !! a = item <$> h !! a) -> mapM (fun a => item <$> h' !! a) l = mapM (fun a => item <$> h !! a) l.
Proof. intros H. induction l as [|a l IH]; [done|]. simpl. rewrite H by set_solver. rewrite IH by set_solver. done. Qed.

(** Adding: at the front or at the back. *)
Lemma is_list_add s e vs box v t :
  is_list s vs -> v <> 0 -> vtables s !! v = Some t -> box <> 0 -> boxes s !! box = None ->
  if valid_vtable t
  then exists s', lt_dlloader_add box v s e = Done (0, s', e) /\ vtables s' = vtables s
                  /\ is_list s' (if priority t =? LT_DLLOADER_PREPEND then v :: vs else vs ++ [v])
  else lt_dlloader_add box v s e = Done (1, s, set_error INVALID_LOADER e).
Proof.
  intros (l & Hc & Hm & Hv) Hz Ht Hb Hn. unfold lt_dlloader_add, vtable_of. rewrite (proj2 (Z.eqb_neq v 0) Hz), Ht. cbn [mbind run_bind].
  destruct (valid_vtable t); [|done]. cbn [negb]. unfold slist_box. rewrite (proj2 (Z.eqb_neq box 0) Hb).
  cbn iota. rewrite (proj2 (Z.eqb_neq box 0) Hb). set (h1 := <[box := Node 0 v]> (boxes s)).
  assert (Hbl : box ∉ l) by (intros Hin; apply (chain_node _ _ _ _ Hc) in Hin as [_ [x Hx]]; congruence).
  assert (Hv' : Forall (fun v => v <> 0 /\ is_Some (vtables s !! v)) (v :: vs)) by (constructor; [eauto|done]).
  destruct (priority t =? LT_DLLOADER_PREPEND).
  - destruct (box_cons_spec (boxes s) (loaders s) l box v Hc Hb Hn) as (h' & E & Hc' & Hh). unfold slist_box in E.
    rewrite (proj2 (Z.eqb_neq box 0) Hb) in E. cbn [snd] in E. fold h1 in E. rewrite E. cbn [mbind run_bind].
    eexists. split; [done|]. split; [done|]. exists (box :: l). cbn [boxes loaders vtables]. split; [done|]. split; [|done].
    cbn [mapM]. rewrite Hh, lookup_insert_eq. cbn. rewrite mapM_frame with (h := boxes s); [by rewrite Hm|].
    intros a Ha. rewrite lookup_insert_ne by congruence. done.
  - assert (Hf : forall a, a ∈ l -> h1 !! a = boxes s !! a) by (intros a Ha; unfold h1; by rewrite lookup_insert_ne by congruence).
    destruct (slist_concat_spec h1 (loaders s) box l [box] (S (size h1))) as (r & h' & -> & Hc' & Hr).
    + by eapply chain_frame.
    + simpl. split; [done|]. split; [done|]. exists (Node 0 v). unfold h1. by rewrite lookup_insert_eq.
    + set_solver.
    + enough (length l <= size h1)%nat by lia. eapply chain_size, chain_frame; [exact Hc|exact Hf].
    + cbn [mbind run_bind]. eexists. split; [done|]. split; [done|]. exists (l ++ [box]). cbn [boxes loaders vtables]. split; [done|].
      split; [|apply Forall_app; apply Forall_cons in Hv' as [? ?]; split; [done|by constructor]].
      rewrite mapM_frame with (h := h1) by (intros a _; apply Hr). apply mapM_Some, Forall2_app.
      * apply mapM_Some. rewrite mapM_frame with (h := boxes s); [done|]. intros a Ha. by rewrite Hf.
      * constructor; [|constructor]. unfold h1. by rewrite lookup_insert_eq.
Qed.

(** Removing: the first loader of that name, if no module uses it and it can be shut down. *)
Lemma is_list_remove s e vs name modules :
  is_list s vs ->
  match first_named (vtables s) name vs with
  | None => lt_dlloader_remove true modules name s e = Done (0, s, set_error INVALID_LOADER e)
  | Some v =>
      if decide (v ∈ modules.*1) then exists e', lt_dlloader_remove true modules name s e = Done (0, s, e')
      else if decide ((vtables s !! v ≫= dlloader_exit) = None \/ (vtables s !! v ≫= dlloader_exit) = Some 0)
      then exists s', lt_dlloader_remove true modules name s e = Done (v, s', e) /\ vtables s' = vtables s
                      /\ is_list s' (without_first (vtables s) name vs)
      else lt_dlloader_remove true modules name s e = Done (0, s, e)
  end.
Proof.
  intros Hl. unfold lt_dlloader_remove. rewrite (is_list_find s name vs Hl). cbn [mbind run_bind].
  destruct Hl as (l & Hc & Hm & Hv).
  pose proof (take_named s name l vs Hm (chain_NoDup _ _ _ Hc)) as Ht.
  destruct (slist_remove_spec (boxes s) (loaders s) l (steps s) (loader_callback s name) Hc) as (p' & h' & Er & Hc' & Hr).
  { unfold steps. pose proof (chain_size _ _ _ Hc). lia. }
  destruct (take_first _ l) as [r k]. destruct Ht as [Hk Ht].
  { apply Forall_forall. intros a Ha. exact (proj1 (chain_node _ _ _ _ Hc Ha)). }
  { eapply Forall_impl; [exact Hv|]. by intros v [_ ?]. }
  destruct (first_named (vtables s) name vs) as [v|] eqn:Ef; [|done]. simpl. destruct Ht as (Hrz & Hrl & Hrk & Hri).
  assert (v <> 0 /\ is_Some (vtables s !! v)) as [Hvz [t Hvt]].
  { unfold first_named in Ef. apply fmap_Some in Ef as ([i w] & Ef & ->). apply list_find_Some in Ef as (Hi & _).
    exact (Forall_lookup_1 _ _ _ _ Hv Hi). }
  rewrite (proj2 (Z.eqb_neq v 0) Hvz). destruct (decide (v ∈ modules.*1)) as [Hin|Hin].
  { destruct (filter (fun m => fst m = v) modules) as [|m us] eqn:Eu; [|by eexists].
    exfalso. apply list_elem_of_fmap in Hin as ([w b] & -> & Hw). 
    assert ((w, b) ∈ filter (fun m => fst m = w) modules) as Hf by (by apply list_elem_of_filter). simpl in Eu. rewrite Eu in Hf. by apply elem_of_nil in Hf. }
  assert (filter (fun m => fst m = v) modules = []) as ->.
  { destruct (filter (fun m => fst m = v) modules) as [|m us] eqn:Eu; [done|]. exfalso. apply Hin.
    assert (m ∈ filter (fun m => fst m = v) modules) as Hf by (rewrite Eu; set_solver).
    apply list_elem_of_filter in Hf as [<- Hf]. by apply list_elem_of_fmap_2. }
  unfold vtable_of. rewrite Hvt. cbn [mbind run_bind option_bind].
  assert (Hgo : exists s', ('(item, head, h) ← slist_remove (steps s) (boxes s) (loaders s) (loader_callback s name);
                 '(v, h) ← slist_unbox h item; Done (default 0 v, Loaders (vtables s) h head, e)) = Done (v, s', e)
            /\ vtables s' = vtables s /\ is_list s' (without_first (vtables s) name vs)).
  { rewrite Er. cbn [mbind run_bind fst]. destruct (Hr r) as [_ Hi]. rewrite Hri in Hi. unfold slist_unbox, get.
    rewrite (proj2 (Z.eqb_neq r 0) Hrz). destruct (h' !! r) as [n|]; [|done]. simpl in Hi. injection Hi as Hi. cbn [mbind run_bind default].
    eexists. split; [by rewrite Hi|]. split; [done|]. exists k. cbn [boxes loaders vtables]. split.
    - eapply chain_frame; [exact Hc'|]. intros a Ha. rewrite lookup_delete_ne; [done|]. by intros ->.
    - split.
      + rewrite mapM_frame with (h := boxes s); [done|]. intros a Ha. rewrite lookup_delete_ne by (by intros ->). apply Hr.
      + clear -Hv. induction vs as [|w vs IH]; [done|]. apply Forall_cons in Hv as [? ?]. simpl. case_decide; [done|]. constructor; auto. }
  destruct (decide (_ \/ _)) as [Hx|Hx]; destruct (dlloader_exit t) as [x|]; cbn in Hx.
  - destruct Hx as [?|[= ->]]; [done|exact Hgo].
  - exact Hgo.
  - by rewrite (proj2 (Z.eqb_neq x 0)) by (intros ->; tauto).
  - tauto.
Qed.

(** The loop over the loaders of [tryall_dlopen] and [lt_dlexit]. *)
Fixpoint loader_loop (fuel : nat) (s : loader_state) (loader : Z) : run (list Z) :=
  match fuel with
  | O => Fuel
  | S fuel =>
      if loader =? 0 then Done []
      else v ← lt_dlloader_get loader s; next ← lt_dlloader_next loader s; vs ← loader_loop fuel s next; Done (v :: vs)
  end.

Lemma loader_loop_spec s p l vs fuel :
  chain (boxes s) p l -> mapM (fun a => item <$> boxes s !! a) l = Some vs -> (length l < fuel)%nat -> loader_loop fuel s p = Done vs.
Proof.
  revert p vs fuel. induction l as [|a l IH]; intros p vs [|fuel] Hc Hm Hf; simpl in Hf; try lia.
  - simpl in Hc. subst. by injection Hm as <-.
  - apply mapM_Some in Hm. apply Forall2_cons_inv_l in Hm as (v & vs' & Ha & Hm & ->). apply mapM_Some in Hm.
    apply chain_inv in Hc as (-> & Hz & _ & n & Hg & Hn & Hl). cbn [loader_loop]. unfold lt_dlloader_get, lt_dlloader_next. rewrite Hz, Hg.
    cbn [mbind run_bind]. rewrite (IH (nxt n) vs') by (done || lia). cbn [mbind run_bind]. rewrite Hn in Ha. by injection Ha as ->.
Qed.

Section refinement.
(** Addresses of new boxes. *)
Context (alloc : gmap Z (node Z) -> Z).
Hypothesis alloc_fresh : forall h, alloc h <> 0 /\ h !! alloc h = None.

Inductive loader_op := OpAdd (vtable : Z) | OpFind (name : list Z) | OpRemove (modules : list (Z * bool)) (name : list Z) | OpList.

(** The results of the operations; a list is reported as it is. *)
Inductive reply := RInt (r : Z) | RTable (v : Z) | RList (vs : list Z).

Definition loader_do (op : loader_op) (s : loader_state) (e : errors) : run (reply * loader_state * errors) :=
  match op with
  | OpAdd v => '(r, s, e) ← lt_dlloader_add (alloc (boxes s)) v s e; Done (RInt r, s, e)
  | OpFind name => v ← lt_dlloader_find name s; Done (RTable v, s, e)
  | OpRemove modules name => '(v, s, e) ← lt_dlloader_remove true modules name s e; Done (RTable v, s, e)
  | OpList => first ← lt_dlloader_next 0 s; vs ← loader_loop (steps s) s first; Done (RList vs, s, e)
  end.

Fixpoint loader_run (ops : list loader_op) (s : loader_state) (e : errors) : run (list reply * loader_state * errors) :=
  match ops with
  | [] => Done ([], s, e)
  | op :: ops => '(r, s, e) ← loader_do op s e; '(rs, s, e) ← loader_run ops s e; Done (r :: rs, s, e)
  end.

(** The specification: a list of loaders. *)
Definition spec_do (vt : gmap Z lt_dlvtable) (op : loader_op) (vs : list Z) : reply * list Z :=
  match op with
  | OpAdd v =>
      match vt !! v with
      | Some t => if valid_vtable t then (RInt 0, if priority t =? LT_DLLOADER_PREPEND then v :: vs else vs ++ [v]) else (RInt 1, vs)
      | None => (RInt 1, vs)
      end
  | OpFind name => (RTable (default 0 (first_named vt name vs)), vs)
  | OpRemove modules name =>
      match first_named vt name vs with
      | Some v =>
          if decide (v ∈ modules.*1) then (RTable 0, vs)
          else match vt !! v ≫= dlloader_exit with
               | None | Some 0 => (RTable v, without_first vt name vs)
               | Some _ => (RTable 0, vs)
               end
      | None => (RTable 0, vs)
      end
  | OpList => (RList vs, vs)
  end.

Fixpoint spec_run (vt : gmap Z lt_dlvtable) (ops : list loader_op) (vs : list Z) : list reply * list Z :=
  match ops with
  | [] => ([], vs)
  | op :: ops => let '(r, vs) := spec_do vt op vs in let '(rs, vs) := spec_run vt ops vs in (r :: rs, vs)
  end.

(** Tables that are given to [lt_dlloader_add] exist, or NULL is given. *)
Definition op_ok (vt : gmap Z lt_dlvtable) (op : loader_op) : Prop :=
  match op with OpAdd v => v = 0 \/ is_Some (vt !! v) | _ => True end.

Lemma loader_do_spec op s e vs :
  vtables s !! 0 = None -> op_ok (vtables s) op -> is_list s vs ->
  exists s' e', loader_do op s e = Done (fst (spec_do (vtables s) op vs), s', e') /\ vtables s' = vtables s
                /\ is_list s' (snd (spec_do (vtables s) op vs)).
Proof.
  intros H0 Hop Hl. destruct op as [v|name|modules name|]; cbn [loader_do spec_do].
  - destruct Hop as [->|[t Ht]].
    + unfold lt_dlloader_add. rewrite H0. simpl. eauto.
    + assert (v <> 0) as Hz by congruence. destruct (alloc_fresh (boxes s)) as [Hb Hn].
      pose proof (is_list_add s e vs (alloc (boxes s)) v t Hl Hz Ht Hb Hn) as Ha. rewrite Ht. destruct (valid_vtable t).
      * destruct Ha as (s' & -> & Hvt & Hl'). cbn. eauto.
      * rewrite Ha. cbn. eauto.
  - rewrite (is_list_find s name vs Hl). cbn. eauto.
  - pose proof (is_list_remove s e vs name modules Hl) as Hr. destruct (first_named (vtables s) name vs) as [v|]; [|rewrite Hr; cbn; eauto].
    destruct (decide (v ∈ modules.*1)); [destruct Hr as [e' ->]; cbn; eauto|].
    destruct (vtables s !! v ≫= dlloader_exit) as [[|x|x]|] eqn:Ex.
    + destruct (decide _) as [_|Hx]; [|tauto]. destruct Hr as (s' & -> & Hvt & Hl'). cbn. eauto.
    + destruct (decide _) as [[?|?]|_]; [done|done|]. rewrite Hr. cbn. eauto.
    + destruct (decide _) as [[?|?]|_]; [done|done|]. rewrite Hr. cbn. eauto.
    + destruct (decide _) as [_|Hx]; [|tauto]. destruct Hr as (s' & -> & Hvt & Hl'). cbn. eauto.
  - destruct Hl as (l & Hc & Hm & Hv). unfold lt_dlloader_next. change (0 =? 0) with true. cbn [mbind run_bind].
    rewrite (loader_loop_spec s (loaders s) l vs); [|done|done|unfold steps; pose proof (chain_size _ _ _ Hc); lia].
    exists s, e. split; [done|]. split; [done|]. exists l. done.
Qed.

(** The linked list of loaders refines a list: whatever loaders are added, looked up
    by name and removed, the results are those of the specification: a loader goes to
    the front or the back by its priority if its table is complete, the first one with a
    name is found and removed, unless a module uses it or its exit function fails, and
    a loop over the loaders sees them in order. *)
Theorem loaders_refine_list (ops : list loader_op) (vt : gmap Z lt_dlvtable) (e : errors) :
  vt !! 0 = None -> Forall (op_ok vt) ops ->
  exists s e', loader_run ops (Loaders vt ∅ 0) e = Done (fst (spec_run vt ops []), s, e')
               /\ vtables s = vt /\ is_list s (snd (spec_run vt ops [])).
Proof.
  intros H0 Hops. assert (Hl : is_list (Loaders vt ∅ 0) []) by (exists []; done).
  enough (forall s vs e, vtables s = vt -> is_list s vs ->
    exists s' e', loader_run ops s e = Done (fst (spec_run vt ops vs), s', e') /\ vtables s' = vt /\ is_list s' (snd (spec_run vt ops vs)))
    as H by (by apply H).
  clear Hl e. induction Hops as [|op ops Hop Hops IH]; intros s vs e Hvt Hl; cbn [loader_run spec_run]; [eauto|].
  subst vt. destruct (loader_do_spec op s e vs H0 Hop Hl) as (s1 & e1 & -> & Hv1 & Hl1). cbn [mbind run_bind].
  destruct (spec_do (vtables s) op vs) as [r vs1]. cbn [fst snd] in *. destruct (IH s1 vs1 e1) as (s2 & e2 & -> & Hv2 & Hl2); [done..|].
  cbn [mbind run_bind]. destruct (spec_run (vtables s) ops vs1) as [rs vs2]. eauto.
Qed.

End refinement.

(** Two loaders, the preloaded one in front; it cannot be removed while a module uses it. *)
Definition demo_tables : gmap Z lt_dlvtable :=
  <[8 := VTable (str "lt_preopen") None true true true None None LT_DLLOADER_PREPEND]>
  (<[16 := VTable (str "lt_dlopen") None true true true None (Some 0) LT_DLLOADER_APPEND]> ∅).

Definition demo_alloc {A} (h : gmap Z A) : Z := 1 + foldr Z.max 0 (map_to_list h).*1.

Lemma demo_alloc_fresh {A} (h : gmap Z A) : demo_alloc h <> 0 /\ h !! demo_alloc h = None.
Proof.
  unfold demo_alloc. assert (H : forall l : list Z, 0 <= foldr Z.max 0 l /\ Forall (fun a => a <= foldr Z.max 0 l) l).
  { induction l as [|a l [IH0 IH]]; simpl; [done|]. split; [lia|]. constructor; [lia|]. eapply Forall_impl; [exact IH|]. simpl. lia. }
  destruct (H (map_to_list h).*1) as [H0 Hall]. split; [lia|]. destruct (h !! _) as [n|] eqn:E; [|done].
  exfalso. apply elem_of_map_to_list in E. apply (list_elem_of_fmap_2 fst) in E. rewrite Forall_forall in Hall. apply Hall in E. simpl in E. lia.
Qed.

Lemma loaders_refine_list_witness :
  exists s e', loader_run demo_alloc
      [OpAdd 16; OpAdd 8; OpAdd 0; OpFind (str "lt_dlopen"); OpRemove [(8, false)] (str "lt_preopen"); OpRemove [] (str "lt_dlopen"); OpList]
      (Loaders demo_tables ∅ 0) errors0
    = Done ([RInt 0; RInt 0; RInt 1; RTable 16; RTable 0; RTable 16; RList [8]], s, e').
Proof.
  destruct (loaders_refine_list demo_alloc demo_alloc_fresh
      [OpAdd 16; OpAdd 8; OpAdd 0; OpFind (str "lt_dlopen"); OpRemove [(8, false)] (str "lt_preopen"); OpRemove [] (str "lt_dlopen"); OpList]
      demo_tables errors0) as (s & e' & H & _).
  - reflexivity.
  - repeat (apply Forall_cons_2; [first [exact I|left; reflexivity|right; eexists; vm_compute; reflexivity]|]). apply Forall_nil_2.
  - exists s, e'. rewrite H. reflexivity.
Defined.
