(* ===== verification/Modules.v ===== *)
(** * Open modules of libltdl (src/libltdl/ltdl.c)

    Handles of modules: how a file is opened with the loaders, shared by reference
    counting and closed again, how symbols are looked up, and the data callers attach to a
    handle.  Handles are records in a heap; the list that starts at [handles] and goes on
    through [next] is a list of their addresses.  The functions of the loaders are
    parameters. *)

From S2P Require Import Prelude.
From S2P Require Import CString.
From S2P Require Import Lterror.
From S2P Require Import Slist.
From S2P Require Import Loaders.
From S2P Require Import Argz.
From S2P Require Import SearchPath.
Local Open Scope Z_scope.

(** [struct lt__handle] with its [lt_dlinfo]; a new handle is all zero.
    [interface_data] is NULL if it is empty, and ends with a key of zero otherwise. *)
Record handle := Handle {
  hvtable : Z;
  filename : option (list Z);
  hname : option (list Z);
  ref_count : Z;
  is_resident : bool;
  is_symglobal : bool;
  is_symlocal : bool;
  deplibs : list Z;
  hmodule : Z;
  interface_data : list (Z * Z)
}.

Definition handle0 : handle := Handle 0 None None 0 false false false [] 0 [].

(** [struct lt__advise]: flags of a request. *)
Record advise := Advise {
  try_ext : bool;
  adv_resident : bool;
  adv_symglobal : bool;
  adv_symlocal : bool;
  try_preload_only : bool
}.

Record mstate := MState {
  heap : gmap Z handle;
  handles : list Z;
  errs : errors;
  closed : list (Z * Z)         (* calls of [module_close]: the loader and the module *)
}.

Definition with_heap (h : gmap Z handle) (s : mstate) : mstate := MState h (handles s) (errs s) (closed s).
Definition with_error (e : lt_error) (s : mstate) : mstate := MState (heap s) (handles s) (set_error e (errs s)) (closed s).
Definition with_errs (e : errors) (s : mstate) : mstate := MState (heap s) (handles s) e (closed s).

(** A pointer to a handle is followed. *)
Definition deref (s : mstate) (p : Z) : run handle := match heap s !! p with Some h => Done h | None => Stuck end.
Definition update (p : Z) (h : handle) (s : mstate) : mstate := with_heap (<[p := h]> (heap s)) s.

Definition set_count (n : Z) (h : handle) : handle :=
  Handle (hvtable h) (filename h) (hname h) n (is_resident h) (is_symglobal h) (is_symlocal h) (deplibs h) (hmodule h) (interface_data h).
Definition set_filename (f : option (list Z)) (h : handle) : handle :=
  Handle (hvtable h) f (hname h) (ref_count h) (is_resident h) (is_symglobal h) (is_symlocal h) (deplibs h) (hmodule h) (interface_data h).
Definition set_name (n : option (list Z)) (h : handle) : handle :=
  Handle (hvtable h) (filename h) n (ref_count h) (is_resident h) (is_symglobal h) (is_symlocal h) (deplibs h) (hmodule h) (interface_data h).
Definition set_resident (b : bool) (h : handle) : handle :=
  Handle (hvtable h) (filename h) (hname h) (ref_count h) b (is_symglobal h) (is_symlocal h) (deplibs h) (hmodule h) (interface_data h).
Definition set_data (d : list (Z * Z)) (h : handle) : handle :=
  Handle (hvtable h) (filename h) (hname h) (ref_count h) (is_resident h) (is_symglobal h) (is_symlocal h) (deplibs h) (hmodule h) d.
Definition set_module (v m : Z) (a : option advise) (h : handle) : handle :=
  let '(r, g, l) := match a with
                    | Some a => (adv_resident a, adv_symglobal a, adv_symlocal a)
                    | None => (is_resident h, is_symglobal h, is_symlocal h)
                    end in
  Handle v (filename h) (hname h) (ref_count h) r g l (deplibs h) m (interface_data h).

Section modules.
(** The functions of the loaders: the module (zero if it cannot be opened), the result
    of closing one, the address of a symbol; each may set the error. *)
Context (module_open : Z -> option (list Z) -> option advise -> errors -> Z * errors).
Context (module_close : Z -> Z -> errors -> Z * errors).
Context (find_sym : Z -> Z -> list Z -> errors -> Z * errors).

(** ** Opening *)

(** [handle->info.filename == filename || streq (...)]: the first open module with the
    file name; NULL is the program itself. *)
Fixpoint find_open (s : mstate) (l : list Z) (f : option (list Z)) : run (option Z) :=
  match l with
  | [] => Done None
  | p :: l => h ← deref s p; if decide (filename h = f) then Done (Some p) else find_open s l f
  end.

(** The loop over the loaders; at least one is tried.  The loader and the module. *)
Fixpoint try_loaders (vs : list Z) (f : option (list Z)) (a : option advise) (e : errors) : Z * Z * errors :=
  match vs with
  | [] => (0, 0, e)
  | v :: vs => let '(m, e) := module_open v f a e in if negb (m =? 0) then (v, m, e) else try_loaders vs f a e
  end.

(** [tryall_dlopen]: errors, [*phandle], the state.  [loaders] are those in the list;
    [vtable] is zero for all of them.  Without any loader a null pointer is
    followed. *)
Definition tryall_dlopen (has_memory : bool) (loaders : list Z) (phandle : Z) (f : option (list Z)) (a : option advise) (vtable : Z) (s : mstate)
  : run (Z * Z * mstate) :=
  let saved_error := lt__get_last_error (errs s) in
  found ← find_open s (handles s) f;
  match found with
  | Some p =>
      h ← deref s p;
      if ref_count h =? INT_MAX then Stuck else Done (0, p, update p (set_count (ref_count h + 1) h) s)
  | None =>
      h ← deref s phandle;
      if match f with Some _ => negb has_memory | None => false end then
        Done (1, phandle, with_error NO_MEMORY (update phandle (set_filename None h) s))
      else
        let h := set_filename f h in
        let vs := if vtable =? 0 then loaders else [vtable] in
        if is_null vs then Stuck
        else
          let '(v, m, e) := try_loaders vs f a (errs s) in
          if m =? 0 then Done (1, phandle, with_errs e (update phandle (set_filename None h) s))
          else Done (0, phandle, with_errs (lt__set_last_error saved_error e) (update phandle (set_module v m a h) s))
  end.

(** The end of [try_dlopen], [register_handle]: a handle that was open before takes the
    place of the new one, which is freed. *)
Definition register_handle (phandle newhandle : Z) (name : option (list Z)) (saved_error : option message) (s : mstate) : run (Z * mstate) :=
  let s := if phandle =? newhandle then s else with_heap (delete phandle (heap s)) s in
  h ← deref s newhandle;
  let s := if ref_count h =? 0 then
             MState (<[newhandle := set_name name (set_count 1 h)]> (heap s)) (newhandle :: handles s) (errs s) (closed s)
           else s in
  Done (newhandle, with_errs (lt__set_last_error saved_error (errs s)) s).

(** [try_dlopen] for a file in a directory that is no libtool archive: the handle, or
    NULL.  [new] is the address of the new handle. *)
Definition open_file (loaders : list Z) (new : Z) (f : list Z) (name : list Z) (a : option advise) (s : mstate) : run (Z * mstate) :=
  let saved_error := lt__get_last_error (errs s) in
  let s := with_heap (<[new := handle0]> (heap s)) s in
  '(e, p, s) ← tryall_dlopen true loaders new (Some f) a 0 s;
  if negb (e =? 0) then Done (0, with_heap (delete new (heap s)) s)
  else register_handle new p (Some name) saved_error s.

(** ** Closing *)

Fixpoint unlink (p : Z) (l : list Z) : list Z :=
  match l with [] => [] | q :: l => if q =? p then l else q :: unlink p l end.

Fixpoint lt_dlclose (fuel : nat) (p : Z) (s : mstate) : run (Z * mstate) :=
  match fuel with
  | O => Fuel
  | S fuel =>
      if negb (bool_decide (p ∈ handles s)) then Done (1, with_error INVALID_HANDLE s)
      else
        h ← deref s p;
        let n := ref_count h - 1 in
        let s := update p (set_count n h) s in
        if (n <=? 0) && negb (is_resident h) then
          let '(r, e) := module_close (hvtable h) (hmodule h) (errs s) in
          let s := MState (heap s) (unlink p (handles s)) e (closed s ++ [(hvtable h, hmodule h)]) in
          (* unload_deplibs *)
          '(d, s) ← (fix unload (l : list Z) (s : mstate) : run (Z * mstate) :=
                       match l with
                       | [] => Done (0, s)
                       | q :: l =>
                           hq ← deref s q;
                           '(x, s) ← (if negb (is_resident hq) then lt_dlclose fuel q s else Done (0, s));
                           '(y, s) ← unload l s;
                           Done (x + y, s)
                       end) (deplibs h) s;
          Done (r + d, with_heap (delete p (heap s)) s)
        else if is_resident h then Done (1, with_error CLOSE_RESIDENT_MODULE s)
        else Done (0, s)
  end.

(** Every call that goes on closing takes a handle out of the list. *)
Definition close (p : Z) (s : mstate) : run (Z * mstate) := lt_dlclose (S (length (handles s))) p s.

(** ** Symbols *)

Definition LT_SYMBOL_LENGTH : Z := 128.
Definition LT_SYMBOL_OVERHEAD : Z := 5.

(** A string that is built in a buffer of [size] bytes with [strcpy] and [strcat]. *)
Definition in_buffer (size : Z) (t : list Z) : run (list Z) := if zlength t + 1 <=? size then Done t else Stuck.

Definition len_or0 (t : option (list Z)) : Z := zlength (default [] t).

Definition lt_dlsym (vt : gmap Z lt_dlvtable) (has_memory : bool) (place : Z) (symbol : option (list Z)) (s : mstate) : run (Z * mstate) :=
  if place =? 0 then Done (0, with_error INVALID_HANDLE s)
  else match symbol with
  | None => Done (0, with_error SYMBOL_NOT_FOUND s)
  | Some symbol =>
      h ← deref s place;
      match vt !! hvtable h with
      | None => Stuck
      | Some t =>
          let lensym := zlength symbol + len_or0 (sym_prefix t) + len_or0 (hname h) in
          let small := lensym + LT_SYMBOL_OVERHEAD <? LT_SYMBOL_LENGTH in
          let size := if small then LT_SYMBOL_LENGTH else lensym + LT_SYMBOL_OVERHEAD + 1 in
          if negb small && negb has_memory then Done (0, with_error BUFFER_OVERFLOW (with_error NO_MEMORY s))
          else
            let prefix := default [] (sym_prefix t) in
            let plain s := sym ← in_buffer size (prefix ++ symbol);
                           let '(address, e) := find_sym (hvtable h) (hmodule h) sym (errs s) in Done (address, with_errs e s) in
            match hname h with
            | None => plain s
            | Some name =>
                let saved_error := lt__get_last_error (errs s) in
                sym ← in_buffer size (prefix ++ name ++ str "_LTX_" ++ symbol);
                let '(address, e) := find_sym (hvtable h) (hmodule h) sym (errs s) in
                if negb (address =? 0) then Done (address, with_errs e s)
                else plain (with_errs (lt__set_last_error saved_error e) s)
            end
      end
  end.

(** ** Information *)

Definition lt_dlmakeresident (p : Z) (s : mstate) : run (Z * mstate) :=
  if p =? 0 then Done (1, with_error INVALID_HANDLE s)
  else h ← deref s p; Done (0, update p (set_resident true h) s).

Definition lt_dlisresident (p : Z) (s : mstate) : run (Z * mstate) :=
  if p =? 0 then Done (-1, with_error INVALID_HANDLE s)
  else h ← deref s p; Done (if is_resident h then 1 else 0, s).

(** What the program is told about a module.  The result of [lt_dlgetinfo] points into the handle, so that it is
    read with the values of the time of reading, and only while the handle exists. *)
Record lt_dlinfo := Info {
  info_filename : option (list Z);
  info_name : option (list Z);
  info_ref_count : Z;
  info_is_resident : bool;
  info_is_symglobal : bool;
  info_is_symlocal : bool
}.

Definition lt_dlgetinfo (p : Z) (s : mstate) : Z * mstate :=
  if p =? 0 then (0, with_error INVALID_HANDLE s) else (p, s).

Definition read_info (i : Z) (s : mstate) : run lt_dlinfo :=
  h ← deref s i; Done (Info (filename h) (hname h) (ref_count h) (is_resident h) (is_symglobal h) (is_symlocal h)).

(** The number of keys before the end marker. *)
Fixpoint count_keys (d : list (Z * Z)) : run nat :=
  match d with [] => Stuck | (k, _) :: d => if k =? 0 then Done O else n ← count_keys d; Done (S n) end.

(** The index of the first element with the key, or [n]. *)
Fixpoint key_index (d : list (Z * Z)) (n : nat) (key : Z) : nat :=
  match d, n with
  | (k, _) :: d, S n => if k =? key then O else S (key_index d n key)
  | _, _ => O
  end.

(** [junk] is the data of the end marker, which is not written. *)
Definition lt_dlcaller_set_data (has_memory : bool) (junk : Z) (key p data : Z) (s : mstate) : run (Z * mstate) :=
  h ← deref s p;
  let d := interface_data h in
  n ← (if is_null d then Done O else count_keys d);
  let i := key_index d n key in
  if (i =? n)%nat then
    if negb has_memory then Done (0, with_error NO_MEMORY s)
    else Done (0, update p (set_data (take n d ++ [(key, data); (0, junk)]) h) s)
  else match d !! i with
       | Some (k, stale) => Done (stale, update p (set_data (<[i := (k, data)]> d) h) s)
       | None => Stuck
       end.

Fixpoint get_data_loop (d : list (Z * Z)) (key : Z) : run Z :=
  match d with
  | [] => Stuck
  | (k, x) :: d => if k =? 0 then Done 0 else if k =? key then Done x else get_data_loop d key
  end.

Definition lt_dlcaller_get_data (key p : Z) (s : mstate) : run Z :=
  h ← deref s p;
  if is_null (interface_data h) then Done 0 else get_data_loop (interface_data h) key.

(** The handles behind [place] in the list. *)
Fixpoint behind (place : Z) (l : list Z) : run (list Z) :=
  match l with [] => Stuck | p :: l => if p =? place then Done l else behind place l end.

(** [iface]: the check of an interface, zero for handles that belong to it; NULL
    accepts all. *)
Fixpoint skip (iface : option (Z -> Z)) (l : list Z) : list Z :=
  match l with
  | [] => []
  | p :: l' => match iface with Some check => if check p =? 0 then l else skip iface l' | None => l end
  end.

Definition first (l : list Z) : Z := match l with [] => 0 | p :: _ => p end.

Definition lt_dlhandle_iterate (iface : option (Z -> Z)) (place : Z) (s : mstate) : run Z :=
  l ← (if place =? 0 then Done (handles s) else behind place (handles s));
  Done (first (skip iface l)).

Fixpoint fetch_loop (fuel : nat) (iface : option (Z -> Z)) (module_name : list Z) (place : Z) (s : mstate) : run Z :=
  match fuel with
  | O => Fuel
  | S fuel =>
      p ← lt_dlhandle_iterate iface place s;
      if p =? 0 then Done 0
      else h ← deref s p; if decide (hname h = Some module_name) then Done p else fetch_loop fuel iface module_name p s
  end.

Definition lt_dlhandle_fetch (iface : option (Z -> Z)) (module_name : list Z) (s : mstate) : run Z :=
  fetch_loop (S (length (handles s))) iface module_name 0 s.

(** [cur] are the handles from the current one on; it does not move on after a call. *)
Fixpoint map_loop (fuel : nat) (iface : option (Z -> Z)) (func : Z -> Z) (cur : list Z) : run Z :=
  match fuel with
  | O => Fuel
  | S fuel =>
      if is_null cur then Done 0
      else
        let cur := skip iface cur in
        let errorcode := func (first cur) in
        if negb (errorcode =? 0) then Done errorcode else map_loop fuel iface func cur
  end.

Definition lt_dlhandle_map (fuel : nat) (iface : option (Z -> Z)) (func : Z -> Z) (s : mstate) : run Z :=
  map_loop fuel iface func (handles s).

End modules.

(** ** Iteration *)

(** The handles an interface accepts. *)
Definition accepted (iface : option (Z -> Z)) (l : list Z) : list Z :=
  match iface with Some check => filter (fun p => check p = 0) l | None => l end.

Lemma skip_accepted iface l : accepted iface (skip iface l) = accepted iface l /\
  match skip iface l with p :: l' => accepted iface (p :: l') = p :: accepted iface l' /\ l' `suffix_of` l | [] => True end.
Proof.
  destruct iface as [check|]; simpl.
  - induction l as [|p l IH]; [done|]. simpl. destruct (Z.eqb_spec (check p) 0) as [E|E].
    + split; [done|]. split; [by rewrite filter_cons_True by done|by apply suffix_cons_r].
    + rewrite filter_cons_False by done. destruct IH as [IH1 IH2]. split; [done|]. destruct (skip (Some check) l); [done|].
      destruct IH2 as [? ?]. split; [done|]. by apply suffix_cons_r.
  - destruct l; [done|]. split; [done|]. split; [done|]. by apply suffix_cons_r.
Qed.

(** The list of handles: different ones, and none of them freed. *)
Definition alive (s : mstate) : Prop := NoDup (handles s) /\ Forall (fun p => p <> 0 /\ is_Some (heap s !! p)) (handles s).

Lemma behind_app pre p post : p ∉ pre -> behind p (pre ++ p :: post) = Done post.
Proof.
  induction pre as [|q pre IH]; intros Hp; cbn; [by rewrite Z.eqb_refl|]. apply not_elem_of_cons in Hp as [Hq Hp].
  rewrite (proj2 (Z.eqb_neq q p)) by done. by apply IH.
Qed.

(** The handles behind one, or all of them. *)
Lemma iterate_behind iface s pre p post :
  alive s -> handles s = pre ++ p :: post -> lt_dlhandle_iterate iface p s = Done (first (skip iface post)).
Proof.
  intros [Hd Hl] E. rewrite E in Hd, Hl. apply Forall_app in Hl as [_ Hl]. apply Forall_cons in Hl as [[Hp _] _].
  apply NoDup_app in Hd as (_ & Hd & _). unfold lt_dlhandle_iterate. rewrite (proj2 (Z.eqb_neq p 0) Hp), E, behind_app; [done|].
  intros Hin. by apply (Hd p Hin), list_elem_of_here.
Qed.

(** [lt_dlhandle_map] does not go to the next handle: unless the function fails on the
    first accepted handle, it is called for that handle for ever. *)
Theorem handle_map_diverges (fuel : nat) (iface : option (Z -> Z)) (func : Z -> Z) (s : mstate) p l :
  accepted iface (handles s) = p :: l -> func p = 0 -> lt_dlhandle_map fuel iface func s = Fuel.
Proof.
  intros Ha Hf. unfold lt_dlhandle_map. generalize dependent (handles s). clear s.
  induction fuel as [|fuel IH]; intros k Ha; [done|]. cbn [map_loop]. destruct k as [|q k]; [by destruct iface|]. cbn [is_null].
  destruct (skip_accepted iface (q :: k)) as [E1 E2]. destruct (skip iface (q :: k)) as [|r k']; [rewrite Ha in E1; by destruct iface|].
  destruct E2 as [E2 _]. rewrite Ha, E2 in E1. injection E1 as -> <-. cbn [first]. rewrite Hf. cbn. apply IH. exact E2.
Qed.

(** ** Symbols *)

(** What [lt_dlsym] looks for: [prefix name _LTX_ symbol] for a module with a name, then
    [prefix symbol]. *)
Definition symbol_search (find_sym : Z -> Z -> list Z -> errors -> Z * errors) (t : lt_dlvtable) (h : handle) (symbol : list Z) (e : errors)
  : Z * errors :=
  let find := find_sym (hvtable h) (hmodule h) in
  let prefix := default [] (sym_prefix t) in
  match hname h with
  | None => find (prefix ++ symbol) e
  | Some name =>
      let '(address, e') := find (prefix ++ name ++ str "_LTX_" ++ symbol) e in
      if negb (address =? 0) then (address, e') else find (prefix ++ symbol) (lt__set_last_error (last_error e) e')
  end.

Lemma in_buffer_fits size t : zlength t + 1 <= size -> in_buffer size t = Done t.
Proof. intros H. unfold in_buffer. by rewrite (proj2 (Z.leb_le _ _) H). Qed.

Lemma dlsym_search find_sym (vt : gmap Z lt_dlvtable) (p : Z) (symbol : list Z) (s : mstate) (h : handle) (t : lt_dlvtable) :
  p <> 0 -> heap s !! p = Some h -> vt !! hvtable h = Some t ->
  lt_dlsym find_sym vt true p (Some symbol) s =
    (let '(address, e) := symbol_search find_sym t h symbol (errs s) in Done (address, with_errs e s)).
Proof.
  intros Hp Hh Ht. unfold lt_dlsym, symbol_search, deref. rewrite (proj2 (Z.eqb_neq p 0) Hp), Hh. cbn [mbind run_bind]. rewrite Ht.
  rewrite andb_false_r. cbn iota. unfold len_or0.
  set (prefix := default [] (sym_prefix t)). set (lensym := zlength symbol + zlength prefix + zlength (default [] (hname h))).
  set (size := if lensym + LT_SYMBOL_OVERHEAD <? LT_SYMBOL_LENGTH then LT_SYMBOL_LENGTH else lensym + LT_SYMBOL_OVERHEAD + 1).
  assert (Hsize : lensym + 6 <= size).
  { unfold size, LT_SYMBOL_OVERHEAD, LT_SYMBOL_LENGTH. destruct (lensym + 5 <? 128) eqn:E; bprop; lia. }
  assert (Hplain : in_buffer size (prefix ++ symbol) = Done (prefix ++ symbol)).
  { apply in_buffer_fits. rewrite zlength_app. pose proof (zlength_nonneg (default [] (hname h))). lia. }
  rewrite Hplain. cbn [mbind run_bind]. destruct (hname h) as [name|] eqn:En; [|by destruct (find_sym _ _ _ _)].
  rewrite in_buffer_fits. 2:{ rewrite !zlength_app. change (zlength (str "_LTX_")) with 5. unfold lensym in Hsize. simpl in Hsize. lia. }
  cbn [mbind run_bind]. destruct (find_sym _ _ (prefix ++ name ++ str "_LTX_" ++ symbol) (errs s)) as [address e].
  destruct (negb (address =? 0)); [done|]. unfold lt__get_last_error. by destruct (find_sym _ _ _ _).
Qed.

(** Looking up a symbol never writes outside the buffer for its name, which is on the
    stack or as long as needed: for a valid handle the loader is asked for the name with
    the prefix and the name of the module, and if that is not found for the plain name,
    with the error before the first attempt restored. *)
Theorem symbol_lookup find_sym (vt : gmap Z lt_dlvtable) (p : Z) (symbol : list Z) (s : mstate) (h : handle) (t : lt_dlvtable) :
  p <> 0 -> heap s !! p = Some h -> vt !! hvtable h = Some t ->
  lt_dlsym find_sym vt true p (Some symbol) s =
    (let '(address, e) := symbol_search find_sym t h symbol (errs s) in Done (address, with_errs e s)).
Proof. apply dlsym_search. Qed.

(** ** Data of callers *)

(** The array of a handle: pairs with keys that are not zero, and the end marker. *)
Definition data_of (h : handle) (kd : list (Z * Z)) : Prop :=
  Forall (fun x => fst x <> 0) kd /\ (interface_data h = [] /\ kd = [] \/ exists j, interface_data h = kd ++ [(0, j)]).

Fixpoint assoc (kd : list (Z * Z)) (key : Z) : option Z :=
  match kd with [] => None | (k, x) :: kd => if k =? key then Some x else assoc kd key end.

Lemma count_keys_spec kd j : Forall (fun x => fst x <> 0) kd -> count_keys (kd ++ [(0, j)]) = Done (length kd).
Proof. induction 1 as [|[k x] kd Hk Hkd IH]; [done|]. simpl in *. rewrite (proj2 (Z.eqb_neq k 0) Hk), IH. done. Qed.

Lemma get_data_spec kd j key : Forall (fun x => fst x <> 0) kd -> get_data_loop (kd ++ [(0, j)]) key = Done (default 0 (assoc kd key)).
Proof.
  induction 1 as [|[k x] kd Hk Hkd IH]; [done|]. simpl in *. rewrite (proj2 (Z.eqb_neq k 0) Hk). by destruct (k =? key).
Qed.

Lemma get_data_of s p h kd key : heap s !! p = Some h -> data_of h kd -> lt_dlcaller_get_data key p s = Done (default 0 (assoc kd key)).
Proof.
  intros Hh [Hk Hd]. unfold lt_dlcaller_get_data, deref. rewrite Hh. cbn [mbind run_bind]. destruct Hd as [[-> ->]|[j ->]]; [done|].
  rewrite is_null_app. cbn [is_null]. rewrite andb_false_r. by apply get_data_spec.
Qed.

Lemma key_index_spec kd tl key :
  let i := key_index (kd ++ tl) (length kd) key in
  match assoc kd key with
  | Some x => (i < length kd)%nat /\ kd !! i = Some (key, x) /\ forall y k, assoc (<[i := (key, y)]> kd) k = if k =? key then Some y else assoc kd k
  | None => i = length kd
  end.
Proof.
  induction kd as [|[k x] kd IH]; simpl; [by destruct tl as [|[? ?] ?]|]. destruct (Z.eqb_spec k key) as [->|Hk].
  - split; [lia|]. split; [done|]. intros y k'. simpl. destruct (Z.eqb_spec key k'), (Z.eqb_spec k' key); congruence.
  - destruct (assoc kd key) as [z|]; [|by rewrite IH]. destruct IH as (Hl & Hi & Ha). split; [lia|]. split; [done|].
    intros y k'. simpl. rewrite Ha. destruct (Z.eqb_spec k k') as [->|?]; [|done]. by rewrite (proj2 (Z.eqb_neq k' key) Hk).
Qed.

Lemma assoc_snoc kd key x k :
  assoc kd key = None -> assoc (kd ++ [(key, x)]) k = if k =? key then Some x else assoc kd k.
Proof.
  induction kd as [|[k0 x0] kd IH]; simpl; intros Hn; [by rewrite Z.eqb_sym|]. destruct (Z.eqb_spec k0 key) as [->|Hk]; [done|].
  rewrite IH by done. destruct (Z.eqb_spec k0 k) as [->|?]; [|done]. by rewrite (proj2 (Z.eqb_neq k key) Hk).
Qed.

(** What is stored for a key is read back under that key only, and replaces what was
    there, which is returned. *)
Theorem caller_data (junk key p data : Z) (s : mstate) (h : handle) (kd : list (Z * Z)) :
  key <> 0 -> heap s !! p = Some h -> data_of h kd ->
  exists s', lt_dlcaller_set_data true junk key p data s = Done (default 0 (assoc kd key), s')
    /\ lt_dlcaller_get_data key p s' = Done data
    /\ (forall k, k <> key -> lt_dlcaller_get_data k p s' = lt_dlcaller_get_data k p s)
    /\ (forall q, q <> p -> heap s' !! q = heap s !! q).
Proof.
  intros Hkey Hh Hd. pose proof (fun k => get_data_of s p h kd k Hh Hd) as Hget. destruct Hd as [Hk Hd].
  unfold lt_dlcaller_set_data, deref. rewrite Hh. cbn [mbind run_bind].
  assert (Hn : (if is_null (interface_data h) then Done O else count_keys (interface_data h)) = Done (length kd)).
  { destruct Hd as [[-> ->]|[j ->]]; [done|]. rewrite is_null_app. cbn [is_null]. rewrite andb_false_r. by apply count_keys_spec. }
  rewrite Hn. cbn [mbind run_bind]. assert (exists tl, interface_data h = kd ++ tl) as [tl Etl].
  { destruct Hd as [[-> ->]|[j ->]]; [by exists []|by eexists]. }
  pose proof (key_index_spec kd tl key) as Hi. rewrite <- Etl in Hi. cbn zeta in Hi. set (i := key_index _ _ key) in *.
  assert (Hfin : forall kd' h', data_of h' kd' -> (forall k, assoc kd' k = if k =? key then Some data else assoc kd k) ->
    exists s', Done (default 0 (assoc kd key), update p h' s) = Done (default 0 (assoc kd key), s')
      /\ lt_dlcaller_get_data key p s' = Done data /\ (forall k, k <> key -> lt_dlcaller_get_data k p s' = lt_dlcaller_get_data k p s)
      /\ (forall q, q <> p -> heap s' !! q = heap s !! q)).
  { intros kd' h' Hd' Ha. exists (update p h' s). split; [done|].
    assert (Hp' : heap (update p h' s) !! p = Some h') by apply lookup_insert_eq.
    split; [by rewrite (get_data_of _ _ _ _ _ Hp' Hd'), Ha, Z.eqb_refl|]. split.
    - intros k Hne. rewrite (get_data_of _ _ _ _ _ Hp' Hd'), Ha, (proj2 (Z.eqb_neq k key) Hne). by rewrite Hget.
    - intros q Hq. by apply lookup_insert_ne. }
  destruct (assoc kd key) as [x|] eqn:Ex.
  - destruct Hi as (Hl & Hlk & Ha). rewrite (proj2 (Nat.eqb_neq _ _)) by lia. rewrite Etl, lookup_app_l, Hlk by lia.
    apply (Hfin (<[i := (key, data)]> kd)); [|done]. split; [by apply Forall_insert|]. right. cbn [interface_data set_data].
    rewrite insert_app_l by lia. destruct Hd as [[_ ->]|[j Ej]]; [simpl in Hl; lia|]. rewrite Etl in Ej. apply app_inv_head in Ej. exists j. by rewrite Ej.
  - rewrite Hi, Nat.eqb_refl. cbn [negb]. apply (Hfin (kd ++ [(key, data)])); [|intros k; by apply assoc_snoc].
    split; [apply Forall_app; split; [done|by constructor]|]. right. exists junk. cbn [interface_data set_data].
    rewrite Etl, take_app_length, <- app_assoc. done.
Qed.

(** ** Sharing *)

Lemma find_open_frame s s' l f :
  (forall p, p ∈ l -> heap s' !! p = heap s !! p) -> find_open s' l f = find_open s l f.
Proof.
  intros H. induction l as [|p l IH]; [done|]. simpl. unfold deref. rewrite H by set_solver. rewrite IH by set_solver. done.
Qed.

Lemma unlink_spec p l : NoDup l -> NoDup (unlink p l) /\ forall q, q ∈ unlink p l <-> q ∈ l /\ q <> p.
Proof.
  induction l as [|a l IH]; intros Hd; simpl; [split; [done|set_solver]|]. apply NoDup_cons in Hd as [Ha Hd]. destruct (IH Hd) as [IH1 IH2].
  destruct (Z.eqb_spec a p) as [->|Hne].
  - split; [done|]. intros q. rewrite elem_of_cons. split; [|naive_solver]. intros Hq. split; [by right|]. by intros ->.
  - split; [constructor; [rewrite IH2; tauto|done]|]. intros q. rewrite !elem_of_cons, IH2. naive_solver.
Qed.

Section sharing.
Context (module_open : Z -> option (list Z) -> option advise -> errors -> Z * errors).
Context (module_close : Z -> Z -> errors -> Z * errors).
Context (loaders : list Z) (alloc : gmap Z handle -> Z) (modname : list Z -> list Z).

(** Which loader opens a file, and the module it gives. *)
Context (opener : list Z -> option (Z * Z)).

Hypothesis some_loader : loaders <> [].
Hypothesis alloc_fresh : forall h, alloc h <> 0 /\ h !! alloc h = None.
Hypothesis opens : forall f e, exists e',
  try_loaders module_open loaders (Some f) None e = (default (0, 0) (opener f), e') /\ (forall v m, opener f = Some (v, m) -> m <> 0).
Hypothesis closes : forall v m e, fst (module_close v m e) = 0.

Inductive module_op := MOpen (f : list Z) | MClose (f : list Z).

(** Opening a file, and closing the handle that was returned for it; TRUE on success. *)
Definition module_do (op : module_op) (s : mstate) : run (bool * mstate) :=
  match op with
  | MOpen f => '(p, s) ← open_file module_open loaders (alloc (heap s)) f (modname f) None s; Done (negb (p =? 0), s)
  | MClose f => p ← find_open s (handles s) (Some f); '(e, s) ← close module_close (default 0 p) s; Done (e =? 0, s)
  end.

Fixpoint module_run (ops : list module_op) (s : mstate) : run (list bool * mstate) :=
  match ops with
  | [] => Done ([], s)
  | op :: ops => '(r, s) ← module_do op s; '(rs, s) ← module_run ops s; Done (r :: rs, s)
  end.

(** The specification: how often each file is open, and the modules that were closed. *)
Record opened := Opened { counts : gmap (list Z) Z; log : list (Z * Z) }.

Definition opened_do (op : module_op) (o : opened) : bool * opened :=
  match op with
  | MOpen f =>
      match counts o !! f, opener f with
      | Some n, _ => (true, Opened (<[f := n + 1]> (counts o)) (log o))
      | None, Some _ => (true, Opened (<[f := 1]> (counts o)) (log o))
      | None, None => (false, o)
      end
  | MClose f =>
      match counts o !! f with
      | None => (false, o)
      | Some n =>
          if n <=? 1 then (true, Opened (delete f (counts o)) (log o ++ option_list (opener f)))
          else (true, Opened (<[f := n - 1]> (counts o)) (log o))
      end
  end.

Fixpoint opened_run (ops : list module_op) (o : opened) : list bool * opened :=
  match ops with
  | [] => ([], o)
  | op :: ops => let '(r, o) := opened_do op o in let '(rs, o) := opened_run ops o in (r :: rs, o)
  end.

(** A handle of an open file. *)
Record handle_ok (o : opened) (k : Z) (h : handle) : Prop := {
  hk_file : exists f, filename h = Some f /\ opener f = Some (hvtable h, hmodule h) /\ counts o !! f = Some (ref_count h);
  hk_count : 1 <= ref_count h <= k;
  hk_plain : is_resident h = false /\ deplibs h = []
}.

(** [k] operations so far. *)
Record shares (k : Z) (s : mstate) (o : opened) : Prop := {
  sh_nodup : NoDup (handles s);
  sh_dom : forall p, p ∈ handles s <-> is_Some (heap s !! p);
  sh_null : heap s !! 0 = None;
  sh_handle : forall p h, heap s !! p = Some h -> handle_ok o k h;
  sh_file : forall f n, counts o !! f = Some n -> exists p h, heap s !! p = Some h /\ filename h = Some f;
  sh_once : forall p q h h', heap s !! p = Some h -> heap s !! q = Some h' -> filename h = filename h' -> p = q;
  sh_log : closed s = log o
}.

Lemma find_open_spec k s o f :
  shares k s o ->
  match counts o !! f with
  | Some n => exists p h, find_open s (handles s) (Some f) = Done (Some p) /\ heap s !! p = Some h /\ filename h = Some f /\ ref_count h = n
  | None => find_open s (handles s) (Some f) = Done None
  end.
Proof.
  intros Hs. assert (Hl : forall p, p ∈ handles s -> is_Some (heap s !! p)) by (intros p; apply (sh_dom _ _ _ Hs)).
  destruct (counts o !! f) as [n|] eqn:Ec.
  - destruct (sh_file _ _ _ Hs f n Ec) as (p & h & Hp & Hf). exists p, h.
    assert (ref_count h = n) as Hn.
    { destruct (sh_handle _ _ _ Hs p h Hp) as [(f' & Hf' & _ & Hc) _ _]. rewrite Hf in Hf'. injection Hf' as <-. congruence. }
    split_and!; [|done..]. assert (Hin : p ∈ handles s) by (apply (sh_dom _ _ _ Hs); eauto). revert Hl Hin.
    generalize (handles s). induction l as [|q l IH]; intros Hl Hin; [by apply elem_of_nil in Hin|]. simpl.
    destruct (Hl q) as [hq Hq]; [set_solver|]. unfold deref. rewrite Hq. cbn [mbind run_bind]. case_decide as Hd.
    + do 2 f_equal. apply (sh_once _ _ _ Hs q p hq h Hq Hp). congruence.
    + apply IH; [set_solver|]. apply elem_of_cons in Hin as [->|?]; [|done]. congruence.
  - revert Hl. generalize (handles s). induction l as [|q l IH]; intros Hl; [done|]. simpl.
    destruct (Hl q) as [hq Hq]; [set_solver|]. unfold deref. rewrite Hq. cbn [mbind run_bind]. case_decide as Hd; [|apply IH; set_solver].
    destruct (sh_handle _ _ _ Hs q hq Hq) as [(f' & Hf' & _ & Hc) _ _]. congruence.
Qed.

Lemma handle_ok_mono o k k' h : k <= k' -> handle_ok o k h -> handle_ok o k' h.
Proof. intros Hk [Hf Hc Hp]. split; [done|lia|done]. Qed.

Lemma shares_mono k k' s s' o :
  k <= k' -> heap s' = heap s -> handles s' = handles s -> closed s' = closed s -> shares k s o -> shares k' s' o.
Proof.
  intros Hk Eh El Ec [? ? ? Hh ? ? ?]. split; rewrite ?Eh, ?El, ?Ec; try done.
  intros p h Hp. eapply handle_ok_mono; [done|eauto].
Qed.

(** The count of an open file changes. *)
Lemma shares_count k k' s s' o p h f n :
  shares k s o -> heap s !! p = Some h -> filename h = Some f -> 1 <= n <= k' -> k <= k' ->
  heap s' = <[p := set_count n h]> (heap s) -> handles s' = handles s -> closed s' = closed s ->
  shares k' s' (Opened (<[f := n]> (counts o)) (log o)).
Proof.
  intros Hs Hp Hf Hn Hk Eh El Ec.
  assert (Hother : forall q h', q <> p -> heap s !! q = Some h' -> filename h' <> Some f).
  { intros q h' Hq Hh' E. apply Hq. apply (sh_once _ _ _ Hs q p h' h Hh' Hp). congruence. }
  pose proof (sh_handle _ _ _ Hs p h Hp) as [(f' & Hf' & Ho & _) _ Hpl]. rewrite Hf in Hf'. injection Hf' as <-.
  split; rewrite ?Eh, ?El, ?Ec; cbn [counts log].
  - apply (sh_nodup _ _ _ Hs).
  - intros q. rewrite (sh_dom _ _ _ Hs q). destruct (decide (q = p)) as [->|Hq]; [rewrite lookup_insert_eq, Hp; naive_solver|].
    by rewrite lookup_insert_ne by done.
  - rewrite lookup_insert_ne; [apply (sh_null _ _ _ Hs)|]. intros ->. pose proof (sh_null _ _ _ Hs). congruence.
  - intros q hq Hq. destruct (decide (q = p)) as [->|Hne].
    + rewrite lookup_insert_eq in Hq. injection Hq as <-. split; [|done|done]. exists f. cbn. by rewrite lookup_insert_eq.
    + rewrite lookup_insert_ne in Hq by done. pose proof (Hother q hq Hne Hq) as Hff.
      destruct (sh_handle _ _ _ Hs q hq Hq) as [(g & Hg & Hog & Hcg) Hc Hplq]. split; [|lia|done]. exists g. split_and!; [done|done|].
      cbn. rewrite lookup_insert_ne; [done|]. intros ->. done.
  - intros g m Hg. destruct (decide (g = f)) as [->|Hne].
    + exists p, (set_count n h). by rewrite lookup_insert_eq.
    + rewrite lookup_insert_ne in Hg by done. destruct (sh_file _ _ _ Hs g m Hg) as (q & hq & Hq & Hfq). exists q, hq.
      rewrite lookup_insert_ne; [done|]. intros ->. congruence.
  - intros q r hq hr Hq Hr E. destruct (decide (q = p)) as [->|Hqp], (decide (r = p)) as [->|Hrp]; [done|..];
      rewrite ?lookup_insert_eq in Hq; rewrite ?lookup_insert_eq in Hr; rewrite ?lookup_insert_ne in Hq by done; rewrite ?lookup_insert_ne in Hr by done.
    + injection Hq as <-. cbn in E. by destruct (Hother r hr Hrp Hr); congruence.
    + injection Hr as <-. cbn in E. by destruct (Hother q hq Hqp Hq); congruence.
    + by eapply (sh_once _ _ _ Hs).
  - apply (sh_log _ _ _ Hs).
Qed.

(** A file is opened for the first time. *)
Lemma shares_add k k' s s' o p h f :
  shares k s o -> heap s !! p = None -> p <> 0 -> counts o !! f = None ->
  filename h = Some f -> opener f = Some (hvtable h, hmodule h) -> ref_count h = 1 -> is_resident h = false -> deplibs h = [] ->
  k <= k' -> 1 <= k' -> heap s' = <[p := h]> (heap s) -> handles s' = p :: handles s -> closed s' = closed s ->
  shares k' s' (Opened (<[f := 1]> (counts o)) (log o)).
Proof.
  intros Hs Hp Hp0 Hcf Hf Ho Hr1 Hres Hdep Hk Hk1 Eh El Ec.
  assert (Hother : forall q h', heap s !! q = Some h' -> q <> p /\ filename h' <> Some f).
  { intros q h' Hh'. split; [congruence|]. intros E. destruct (sh_handle _ _ _ Hs q h' Hh') as [(g & Hg & _ & Hcg) _ _]. congruence. }
  split; rewrite ?Eh, ?El, ?Ec; cbn [counts log].
  - constructor; [|apply (sh_nodup _ _ _ Hs)]. rewrite (sh_dom _ _ _ Hs), Hp. by intros [? ?].
  - intros q. rewrite elem_of_cons, (sh_dom _ _ _ Hs q). destruct (decide (q = p)) as [->|Hq]; [rewrite lookup_insert_eq; naive_solver|].
    rewrite lookup_insert_ne by done. naive_solver.
  - rewrite lookup_insert_ne by done. apply (sh_null _ _ _ Hs).
  - intros q hq Hq. destruct (decide (q = p)) as [->|Hne].
    + rewrite lookup_insert_eq in Hq. injection Hq as <-. split; [|lia|done]. exists f. cbn. rewrite lookup_insert_eq, Hr1. done.
    + rewrite lookup_insert_ne in Hq by done. destruct (Hother q hq Hq) as [_ Hff].
      destruct (sh_handle _ _ _ Hs q hq Hq) as [(g & Hg & Hog & Hcg) Hc Hplq]. split; [|lia|done]. exists g. split_and!; [done|done|].
      cbn. rewrite lookup_insert_ne; [done|]. intros ->. done.
  - intros g m Hg. destruct (decide (g = f)) as [->|Hne].
    + exists p, h. by rewrite lookup_insert_eq.
    + rewrite lookup_insert_ne in Hg by done. destruct (sh_file _ _ _ Hs g m Hg) as (q & hq & Hq & Hfq). exists q, hq.
      rewrite lookup_insert_ne; [done|]. intros ->. congruence.
  - intros q r hq hr Hq Hr E. destruct (decide (q = p)) as [->|Hqp], (decide (r = p)) as [->|Hrp]; [done|..];
      rewrite ?lookup_insert_eq in Hq; rewrite ?lookup_insert_eq in Hr; rewrite ?lookup_insert_ne in Hq by done; rewrite ?lookup_insert_ne in Hr by done.
    + injection Hq as <-. destruct (Hother r hr Hr). congruence.
    + injection Hr as <-. destruct (Hother q hq Hq). congruence.
    + by eapply (sh_once _ _ _ Hs).
  - apply (sh_log _ _ _ Hs).
Qed.

(** The last handle of a file is closed. *)
Lemma shares_remove k k' s s' o p h f x :
  shares k s o -> heap s !! p = Some h -> filename h = Some f -> k <= k' ->
  heap s' = delete p (heap s) -> handles s' = unlink p (handles s) -> closed s' = closed s ++ x ->
  shares k' s' (Opened (delete f (counts o)) (log o ++ x)).
Proof.
  intros Hs Hp Hf Hk Eh El Ec. destruct (unlink_spec p (handles s) (sh_nodup _ _ _ Hs)) as [Hnd Hin].
  assert (Hother : forall q h', q <> p -> heap s !! q = Some h' -> filename h' <> Some f).
  { intros q h' Hq Hh' E. apply Hq. apply (sh_once _ _ _ Hs q p h' h Hh' Hp). congruence. }
  split; rewrite ?Eh, ?El, ?Ec; cbn [counts log].
  - done.
  - intros q. rewrite Hin, (sh_dom _ _ _ Hs q). destruct (decide (q = p)) as [->|Hq].
    + rewrite lookup_delete_eq. split; [naive_solver|by intros [? ?]].
    + rewrite lookup_delete_ne by done. naive_solver.
  - destruct (decide (p = 0)) as [->|?]; [apply lookup_delete_eq|]. rewrite lookup_delete_ne by done. apply (sh_null _ _ _ Hs).
  - intros q hq Hq. apply lookup_delete_Some in Hq as [Hne Hq].
    destruct (sh_handle _ _ _ Hs q hq Hq) as [(g & Hg & Hog & Hcg) Hc Hplq]. split; [|lia|done]. exists g. split_and!; [done|done|].
    cbn. rewrite lookup_delete_ne; [done|]. intros ->. by eapply Hother; [|exact Hq|].
  - intros g m Hg. apply lookup_delete_Some in Hg as [Hne Hg]. destruct (sh_file _ _ _ Hs g m Hg) as (q & hq & Hq & Hfq). exists q, hq.
    rewrite lookup_delete_ne; [done|]. intros ->. congruence.
  - intros q r hq hr Hq Hr E. apply lookup_delete_Some in Hq as [_ Hq]. apply lookup_delete_Some in Hr as [_ Hr]. by eapply (sh_once _ _ _ Hs).
  - by rewrite (sh_log _ _ _ Hs).
Qed.

Lemma open_step k s o f :
  shares k s o -> 0 <= k < INT_MAX ->
  exists s', module_do (MOpen f) s = Done (fst (opened_do (MOpen f) o), s') /\ shares (k + 1) s' (snd (opened_do (MOpen f) o)).
Proof.
  intros Hs Hk. cbn [module_do opened_do]. destruct (alloc_fresh (heap s)) as [Hn0 Hnew]. set (new := alloc (heap s)) in *.
  unfold open_file, tryall_dlopen. set (s1 := with_heap (<[new := handle0]> (heap s)) s).
  assert (Hnl : forall p, p ∈ handles s -> heap s1 !! p = heap s !! p).
  { intros p Hp. unfold s1. cbn. rewrite lookup_insert_ne; [done|]. intros <-. apply (sh_dom _ _ _ Hs) in Hp as [? ?]. congruence. }
  change (handles s1) with (handles s). rewrite (find_open_frame s s1 _ _ Hnl). pose proof (find_open_spec k s o f Hs) as Hfind.
  destruct (counts o !! f) as [n|] eqn:Ec.
  - destruct Hfind as (p & h & -> & Hp & Hf & Hn). cbn [mbind run_bind]. assert (p <> new) as Hpn by congruence.
    assert (deref s1 p = Done h) as -> by (unfold deref, s1; cbn; by rewrite lookup_insert_ne, Hp). cbn [mbind run_bind].
    destruct (sh_handle _ _ _ Hs p h Hp) as [_ Hc _]. rewrite (proj2 (Z.eqb_neq (ref_count h) INT_MAX)) by lia. cbn [mbind run_bind].
    change (negb (0 =? 0)) with false. cbn iota. unfold register_handle. rewrite (proj2 (Z.eqb_neq new p)) by done.
    unfold deref. cbn [heap with_heap update s1]. rewrite lookup_delete_ne, lookup_insert_eq by done. cbn [mbind run_bind].
    cbn [ref_count set_count]. rewrite (proj2 (Z.eqb_neq (ref_count h + 1) 0)) by lia. cbn iota. cbn [mbind run_bind].
    assert (Hpz : p <> 0) by (intros ->; pose proof (sh_null _ _ _ Hs); congruence). rewrite (proj2 (Z.eqb_neq p 0) Hpz).
    eexists. split; [done|]. cbn [snd]. rewrite <- Hn.
    eapply (shares_count k (k + 1) s _ o p h f (ref_count h + 1)); try done; try lia. cbn.
    rewrite delete_insert_ne by done. f_equal. by apply delete_insert_id.
  - rewrite Hfind. cbn [mbind run_bind].
    assert (deref s1 new = Done handle0) as -> by (unfold deref, s1; cbn; by rewrite lookup_insert_eq). cbn [mbind run_bind negb].
    change (0 =? 0) with true. cbn iota. rewrite is_null_false by done.
    destruct (opens f (errs s1)) as (e' & Et & Hm). destruct (opener f) as [[v m]|] eqn:Eo; cbn in Et; change (errs s1) with (errs s); rewrite Et; cbn iota.
    + pose proof (Hm v m eq_refl) as Hmz. rewrite (proj2 (Z.eqb_neq m 0) Hmz). cbn [mbind run_bind].
      change (negb (0 =? 0)) with false. cbn iota. unfold register_handle. rewrite Z.eqb_refl. unfold deref. cbn [heap with_errs update with_heap s1].
      rewrite lookup_insert_eq. cbn. rewrite (proj2 (Z.eqb_neq new 0) Hn0). eexists. split; [done|]. cbn [snd].
      apply (shares_add k (k + 1) s _ o new (set_name (Some (modname f)) (set_count 1 (set_module v m None (set_filename (Some f) handle0)))) f
               Hs Hnew Hn0 Ec); try done; try lia.
      cbn. by rewrite !insert_insert_eq.
    + cbn [mbind run_bind]. eexists. split; [done|]. cbn [snd].
      apply (shares_mono k (k + 1) s); try done; try lia. cbn. rewrite insert_insert_eq. by apply delete_insert_id.
Qed.

Lemma close_step k s o f :
  shares k s o -> 0 <= k ->
  exists s', module_do (MClose f) s = Done (fst (opened_do (MClose f) o), s') /\ shares (k + 1) s' (snd (opened_do (MClose f) o)).
Proof.
  intros Hs Hk. cbn [module_do opened_do]. pose proof (find_open_spec k s o f Hs) as Hfind. destruct (counts o !! f) as [n|] eqn:Ec.
  - destruct Hfind as (p & h & -> & Hp & Hf & Hn). cbn [mbind run_bind]. change (default 0 (Some p)) with p. unfold close. cbn [lt_dlclose].
    rewrite bool_decide_eq_true_2 by (apply (sh_dom _ _ _ Hs); eauto). cbn [negb].
    assert (deref s p = Done h) as -> by (unfold deref; by rewrite Hp). cbn [mbind run_bind].
    destruct (sh_handle _ _ _ Hs p h Hp) as [(g & Hg & Ho & _) Hc [Hres Hdep]]. rewrite Hf in Hg. injection Hg as <-.
    rewrite Hres, Hdep, Hn. cbn [negb]. rewrite andb_true_r. destruct (Z.leb_spec (n - 1) 0) as [Hle|Hgt].
    + rewrite (proj2 (Z.leb_le n 1)) by lia.
      match goal with |- context [module_close ?v ?m ?e] => pose proof (closes v m e) as Hr; destruct (module_close v m e) as [r e'] end.
      cbn in Hr. subst r.
      cbn. eexists. split; [done|]. rewrite Ho. cbn.
      eapply (shares_remove k (k + 1) s _ o p h f); try done; try lia. cbn. apply delete_insert_eq.
    + rewrite (proj2 (Z.leb_gt n 1)) by lia. cbn. eexists. split; [done|].
      eapply (shares_count k (k + 1) s _ o p h f (n - 1)); try done; lia.
  - rewrite Hfind. cbn [mbind run_bind]. change (default 0 (@None Z)) with 0. unfold close. cbn [lt_dlclose].
    rewrite bool_decide_eq_false_2 by (rewrite (sh_dom _ _ _ Hs), (sh_null _ _ _ Hs); by intros [? ?]). cbn.
    eexists. split; [done|]. apply (shares_mono k (k + 1) s); try done; lia.
Qed.

(** The count a program reads is how often the file is open. *)
Lemma info_counts k s o p :
  shares k s o -> p ∈ handles s ->
  exists i f, lt_dlgetinfo p s = (p, s) /\ read_info p s = Done i /\ info_filename i = Some f /\ counts o !! f = Some (info_ref_count i).
Proof.
  intros Hs Hp. apply (sh_dom _ _ _ Hs) in Hp as [h Hh]. assert (p <> 0) as Hz by (intros ->; by rewrite (sh_null _ _ _ Hs) in Hh).
  destruct (hk_file _ _ _ (sh_handle _ _ _ Hs p h Hh)) as (f & Ef & _ & Ec). unfold lt_dlgetinfo, read_info, deref.
  rewrite (proj2 (Z.eqb_neq p 0) Hz), Hh. cbn [mbind run_bind]. eexists _, f. by split_and!.
Qed.

(** C24: Modules are shared: whatever files are opened and closed again, in any order, the
    results are those of counting how often each file is open.  A file is opened by a
    loader only if it is not open yet, and closed by it exactly when it is closed as
    often as it was opened; the handles that exist are those of the files that are
    open, one for each, so that nothing is leaked or freed too early. *)
Theorem modules_shared (ops : list module_op) :
  zlength ops < INT_MAX ->
  exists s, module_run ops (MState ∅ [] errors0 []) = Done (fst (opened_run ops (Opened ∅ [])), s)
            /\ shares (zlength ops) s (snd (opened_run ops (Opened ∅ []))).
Proof.
  intros Hlen. enough (forall k s o, shares k s o -> 0 <= k -> k + zlength ops < INT_MAX ->
    exists s', module_run ops s = Done (fst (opened_run ops o), s') /\ shares (k + zlength ops) s' (snd (opened_run ops o))) as H.
  { apply (H 0); [|lia|lia]. split; cbn [heap handles closed counts log]; [constructor|..]; try done.
    - intros p. rewrite lookup_empty. split; [by intros ?%elem_of_nil|by intros [? ?]]. }
  clear Hlen. induction ops as [|op ops IH]; intros k s o Hs Hk Hb; cbn [module_run opened_run].
  - exists s. change (zlength []) with 0. rewrite Z.add_0_r. done.
  - rewrite zlength_cons in *. pose proof (zlength_nonneg ops).
    assert (exists s', module_do op s = Done (fst (opened_do op o), s') /\ shares (k + 1) s' (snd (opened_do op o))) as (s1 & -> & Hs1).
    { destruct op; [apply open_step|apply close_step]; (done || lia). }
    cbn [mbind run_bind]. destruct (opened_do op o) as [r o1]. cbn [snd fst] in *.
    destruct (IH (k + 1) s1 o1 Hs1) as (s2 & -> & Hs2); [lia|lia|]. cbn [mbind run_bind]. destruct (opened_run ops o1) as [rs o2]. cbn [fst snd] in *.
    exists s2. split; [done|]. by replace (k + (1 + zlength ops)) with (k + 1 + zlength ops) by lia.
Qed.

End sharing.

(** ** A loader that opens one file *)

Definition demo_open (v : Z) (f : option (list Z)) (a : option advise) (e : errors) : Z * errors :=
  if decide (f = Some (str "libproxymap-rowa.so")) then (77, e) else (0, set_error CANNOT_OPEN e).
Definition demo_close (v m : Z) (e : errors) : Z * errors := (0, e).
Definition demo_opener (f : list Z) : option (Z * Z) := if decide (f = str "libproxymap-rowa.so") then Some (16, 77) else None.

Lemma modules_shared_witness :
  exists s, module_run demo_open demo_close [16] demo_alloc (fun _ => str "libproxymap_rowa")
      [MOpen (str "libproxymap-rowa.so"); MOpen (str "none.so"); MOpen (str "libproxymap-rowa.so"); MClose (str "libproxymap-rowa.so");
       MClose (str "libproxymap-rowa.so"); MClose (str "libproxymap-rowa.so")] (MState ∅ [] errors0 [])
    = Done ([true; false; true; true; true; false], s) /\ handles s = [] /\ closed s = [(16, 77)].
Proof.
  destruct (modules_shared demo_open demo_close [16] demo_alloc (fun _ => str "libproxymap_rowa") demo_opener) with
    (ops := [MOpen (str "libproxymap-rowa.so"); MOpen (str "none.so"); MOpen (str "libproxymap-rowa.so"); MClose (str "libproxymap-rowa.so");
       MClose (str "libproxymap-rowa.so"); MClose (str "libproxymap-rowa.so")]) as (s & Hrun & Hs).
  - discriminate.
  - apply demo_alloc_fresh.
  - intros f e. unfold demo_opener, try_loaders, demo_open. destruct (decide (f = str "libproxymap-rowa.so")) as [->|Hf].
    + eexists. split; [reflexivity|]. by intros v m [= <- <-].
    + rewrite decide_False by congruence. eexists. split; [reflexivity|done].
  - reflexivity.
  - reflexivity.
  - exists s. split; [exact Hrun|]. split; [|exact (sh_log _ _ _ _ Hs)]. destruct (handles s) as [|p l] eqn:E; [reflexivity|exfalso].
    destruct (proj1 (sh_dom _ _ _ _ Hs p)) as [h Hh]; [rewrite E; apply list_elem_of_here|].
    destruct (sh_handle _ _ _ _ Hs p h Hh) as [(f & _ & _ & Hc) _ _]. vm_compute in Hc. discriminate.
Defined.

Lemma symbol_lookup_witness :
  lt_dlsym (fun v m sym e => (if decide (sym = str "libproxymap_rowa_LTX_proxy_map_query") then 4096 else 0, e))
    (<[16 := VTable (str "lt_dlopen") None true true true None None 1]> ∅) true 5 (Some (str "proxy_map_query"))
    (MState (<[5 := Handle 16 (Some (str "libproxymap-rowa.so")) (Some (str "libproxymap_rowa")) 1 false false false [] 77 []]> ∅) [5] errors0 [])
  = Done (4096, MState (<[5 := Handle 16 (Some (str "libproxymap-rowa.so")) (Some (str "libproxymap_rowa")) 1 false false false [] 77 []]> ∅) [5] errors0 []).
Proof.
  etransitivity; [eapply symbol_lookup; [discriminate|reflexivity|reflexivity]|]. vm_compute. reflexivity.
Defined.
