(* ===== verification/Dotla.v ===== *)
(** * Libtool archives (src/libltdl/ltdl.c: trim, parse_dotla_file, has_library_ext)

    A module that was built with libtool has a text file (.la) that names the library to
    load.  The file is read line by line with a buffer that grows. *)

From S2P Require Import Prelude.
From S2P Require Import CString.
From S2P Require Import Argz.
From S2P Require Import Lterror.
Local Open Scope Z_scope.

Definition QUOTE : Z := 39.
Definition NEWLINE : Z := 10.
Definition HASH : Z := 35.
Definition SPACE : Z := 32.

(** ** Reading lines *)

(** A file: the bytes that are left, and [feof]. *)
Record file := File { rest : list Z; feof : bool }.

(** At most [n] bytes, up to a newline. *)
Fixpoint fgets_loop (n : nat) (l : list Z) : list Z * list Z * bool :=
  match n, l with
  | O, _ => ([], l, false)
  | _, [] => ([], [], true)
  | S n, c :: l => if c =? NEWLINE then ([c], l, false) else let '(t, r, e) := fgets_loop n l in (c :: t, r, e)
  end.

(** [fgets (buf, size, file)] with an [int] size: at most [size - 1] bytes; NULL at the end, and for a
    size that is not positive. *)
Definition fgets (size : Z) (f : file) : option (list Z) * file :=
  if size <=? 0 then (None, f)
  else
    let '(t, r, e) := fgets_loop (Z.to_nat (size - 1)) (rest f) in
    let f := File r (feof f || e) in
    if is_null t && e then (None, f) else (Some t, f).

(** The rest of a long line: [got] is in the buffer of [line_len] bytes.  The byte at
    [line_len - 2] was zero before the read, so that it is the last one of a full
    buffer or zero.  The size, a [size_t], is cast to [int].  [None]: no memory. *)
Fixpoint long_line (fuel : nat) (has_memory : Z -> bool) (got : list Z) (line_len : nat) (f : file) : option (list Z) * nat * file :=
  match fuel with
  | O => (None, line_len, f)
  | S fuel =>
      let c := default NUL (got !! (line_len - 2)%nat) in
      if negb (c =? NUL) && negb (c =? NEWLINE) && negb (feof f) then
        if has_memory (2 * Z.of_nat line_len) then
          match fgets (i32 (Z.of_nat line_len) + 1) f with
          | (Some t, f) => long_line fuel has_memory (got ++ t) (2 * line_len) f
          | (None, f) => (Some got, line_len, f)
          end
        else (None, line_len, f)
      else (Some got, line_len, f)
  end.

(** ** Lines *)

Record la := La { dlname : option (list Z); libdir : option (list Z); deplibs : option (list Z); old_name : option (list Z); installed : bool }.

(** [trim]: the text between the first and the last quote; errors, the text. *)
Definition trim (has_memory : Z -> bool) (s : list Z) (er : errors) : outcome (Z * option (list Z) * errors) :=
  match strrchr s QUOTE with
  | None => Ret (1, None, er)
  | Some end_ =>
      if (3 <? zlength s) && (hd0 s =? QUOTE) then
        if has_memory (Z.of_nat end_) then
          match end_ with
          | O => Undef
          | S n => Ret (0, Some (take n (drop 1 s)), er)
          end
        else Ret (1, None, set_error NO_MEMORY er)
      else Ret (0, None, er)
  end.

(** [strncmp (line, pre, strlen (pre)) == 0] and [streq] *)
Fixpoint starts (pre line : list Z) : bool :=
  match pre, line with
  | [], _ => true
  | c :: pre, d :: line => (c =? d) && starts pre line
  | _ :: _, [] => false
  end.

Fixpoint streq (s t : list Z) : bool :=
  match s, t with
  | [], [] => true
  | c :: s, d :: t => (c =? d) && streq s t
  | _, _ => false
  end.

(** One line; errors and the fields. *)
Definition parse_line (has_memory : Z -> bool) (line : list Z) (r : la) (er : errors) : outcome (Z * la * errors) :=
  if (hd0 line =? NEWLINE) || (hd0 line =? HASH) then Ret (0, r, er)
  else
    let arg pre := drop (length pre) line in
    if starts (str "dlname=") line then
      '(e, v, er) ← trim has_memory (arg (str "dlname=")) er; Ret (e, La v (libdir r) (deplibs r) (old_name r) (installed r), er)
    else if starts (str "old_library=") line then
      '(e, v, er) ← trim has_memory (arg (str "old_library=")) er; Ret (e, La (dlname r) (libdir r) (deplibs r) v (installed r), er)
    else if starts (str "libdir=") line then
      '(e, v, er) ← trim has_memory (arg (str "libdir=")) er; Ret (e, La (dlname r) v (deplibs r) (old_name r) (installed r), er)
    else if starts (str "dependency_libs=") line then
      '(e, v, er) ← trim has_memory (arg (str "dependency_libs=")) er; Ret (e, La (dlname r) (libdir r) v (old_name r) (installed r), er)
    else if streq line (str "installed=yes" ++ [NEWLINE]) then Ret (0, La (dlname r) (libdir r) (deplibs r) (old_name r) true, er)
    else if streq line (str "installed=no" ++ [NEWLINE]) then Ret (0, La (dlname r) (libdir r) (deplibs r) (old_name r) false, er)
    else if (match dlname r with None => true | Some _ => false end) && starts (str "library_names=") line then
      '(e, v, er) ← trim has_memory (arg (str "library_names=")) er;
      let r := La v (libdir r) (deplibs r) (old_name r) (installed r) in
      match v with
      | Some names =>
          match strrchr names SPACE with
          | Some i =>
              if e =? 0 then
                if has_memory (zlength names - Z.of_nat i) then
                  Ret (0, La (Some (drop (S i) names)) (libdir r) (deplibs r) (old_name r) (installed r), er)
                else Ret (1, r, set_error NO_MEMORY er)
              else Ret (e, r, er)
          | None => Ret (e, r, er)
          end
      | None => Ret (e, r, er)
      end
    else Ret (0, r, er).

Definition LT_FILENAME_MAX : nat := 1024.

(** The text of a line in C: up to a NUL. *)
Definition c_text (t : list Z) : list Z := cstr t 0.

Fixpoint la_loop (fuel : nat) (has_memory : Z -> bool) (line_len : nat) (f : file) (r : la) (er : errors) : outcome (Z * la * errors) :=
  match fuel with
  | O => Undef
  | S fuel =>
      if feof f then Ret (0, r, er)
      else match fgets (i32 (Z.of_nat line_len)) f with
           | (None, _) => Ret (0, r, er)
           | (Some t, f) =>
               match long_line (S (length (rest f))) has_memory t line_len f with
               | (None, _, _) => Ret (1, r, set_error NO_MEMORY er)
               | (Some t, line_len, f) =>
                   '(e, r, er) ← parse_line has_memory (c_text t) r er;
                   if negb (e =? 0) then Ret (e, r, er) else la_loop fuel has_memory line_len f r er
               end
           end
  end.

Definition parse_dotla_file (has_memory : Z -> bool) (content : list Z) (r : la) (er : errors) : outcome (Z * la * errors) :=
  if has_memory (Z.of_nat LT_FILENAME_MAX) then la_loop (S (length content)) has_memory LT_FILENAME_MAX (File content false) r er
  else Ret (1, r, set_error FILE_NOT_FOUND (set_error NO_MEMORY er)).

(** ** Names of files *)

Definition archive_ext : list Z := str ".la".
Definition shlib_ext : list Z := str ".so".

Definition has_library_ext (filename : list Z) : bool :=
  match strrchr filename 46 with
  | None => false
  | Some i => let ext := drop i filename in streq ext archive_ext || streq ext shlib_ext
  end.

(** ** Properties *)

(** A line without its newline. *)
Definition line_body (b : list Z) : Prop := text b /\ NEWLINE ∉ b.

Lemma fgets_line n b more :
  NEWLINE ∉ b ->
  fgets_loop n (b ++ NEWLINE :: more) =
    if (length b <? n)%nat then (b ++ [NEWLINE], more, false) else (take n b, drop n b ++ NEWLINE :: more, false).
Proof.
  revert n. induction b as [|c b IH]; intros [|n] Hb; simpl; try done.
  apply not_elem_of_cons in Hb as [Hc Hb]. rewrite (proj2 (Z.eqb_neq c NEWLINE)) by congruence. rewrite IH by done.
  change (S (length b) <? S n)%nat with (length b <? n)%nat. by destruct (length b <? n)%nat.
Qed.

(** A size in the range of [int]. *)
Lemma fgets_size n f :
  (1 <= n)%nat -> fgets (Z.of_nat n) f =
    let '(t, r, e) := fgets_loop (n - 1) (rest f) in
    let f := File r (feof f || e) in if is_null t && e then (None, f) else (Some t, f).
Proof.
  intros Hn. unfold fgets. destruct (Z.leb_spec (Z.of_nat n) 0); [lia|]. by replace (Z.to_nat (Z.of_nat n - 1)) with (n - 1)%nat by lia.
Qed.

Lemma fgets_first L f : (2 <= L)%nat -> Z.of_nat L <= 2 ^ 30 -> fgets (i32 (Z.of_nat L)) f = fgets (Z.of_nat L) f.
Proof. intros HL Hb. by rewrite i32_small by lia. Qed.

Lemma fgets_next L f : (2 <= L)%nat -> Z.of_nat L <= 2 ^ 30 -> fgets (i32 (Z.of_nat L) + 1) f = fgets (Z.of_nat (S L)) f.
Proof. intros HL Hb. rewrite i32_small by lia. f_equal. lia. Qed.

(** A line that is complete is not continued. *)
Lemma long_line_done fuel has_memory l L f :
  (0 < fuel)%nat -> (2 <= L)%nat -> (length (l ++ [NEWLINE]) <= L - 1)%nat ->
  long_line fuel has_memory (l ++ [NEWLINE]) L f = (Some (l ++ [NEWLINE]), L, f).
Proof.
  intros Hf HL Hl. rewrite length_app in Hl. simpl in Hl. destruct fuel as [|fuel]; [lia|]. cbn [long_line].
  destruct (decide (length l = L - 2)%nat) as [E|E].
  - rewrite lookup_app_r by lia. replace (L - 2 - length l)%nat with O by lia. done.
  - rewrite lookup_ge_None_2; [done|]. rewrite length_app. simpl. lia.
Qed.

(** [got] fills the buffer, and [rem] is the rest of the line; the buffer gets at most twice as long as the line. *)
Lemma long_line_spec fuel has_memory got rem L more :
  (forall n, has_memory n = true) -> line_body got -> line_body rem -> (2 <= L)%nat -> zlength got + zlength rem < 2 ^ 29 ->
  (length rem + 1 < fuel)%nat -> (length got = L - 1)%nat ->
  exists L', (L <= L')%nat /\ Z.of_nat L' <= 2 ^ 30 /\
    long_line fuel has_memory got L (File (rem ++ NEWLINE :: more) false) = (Some (got ++ rem ++ [NEWLINE]), L', File more false).
Proof.
  intros Hm. revert got rem L. induction fuel as [|fuel IH]; intros got rem L [Ht Hng] [Htr Hr] HL Hlen Hf Hg; [lia|]. cbn [long_line].
  assert (HLb : Z.of_nat L <= 2 ^ 29) by (unfold zlength in Hlen; lia).
  destruct (lookup_lt_is_Some_2 got (L - 2)) as [c Hc]; [lia|]. rewrite Hc. cbn [from_option id feof].
  assert (c <> NUL /\ c <> NEWLINE) as [Hc0 Hcn].
  { split; [by eapply Forall_lookup_1 in Ht|]. intros ->. apply Hng. by eapply list_elem_of_lookup_2. }
  rewrite (proj2 (Z.eqb_neq c NUL) Hc0), (proj2 (Z.eqb_neq c NEWLINE) Hcn). cbn [negb andb]. rewrite Hm.
  rewrite fgets_next, fgets_size by lia. cbn [rest feof]. replace (S L - 1)%nat with L by lia. rewrite fgets_line by done.
  destruct (Nat.ltb_spec (length rem) L) as [Hlt|Hge].
  - rewrite andb_false_r. cbn [orb]. exists (2 * L)%nat. split; [lia|]. split; [lia|]. rewrite app_assoc. apply long_line_done; [lia|lia|].
    rewrite !length_app. simpl. lia.
  - assert (is_null (take L rem) = false) as -> by (destruct L, rem; simpl in *; (done || lia)). cbn [andb orb].
    destruct (IH (got ++ take L rem) (drop L rem) (2 * L)%nat) as (L' & HL' & HLb' & E).
    + split; [by apply Forall_app; split; [|apply Forall_take]|]. apply not_elem_of_app. split; [done|]. intros Hin.
      apply Hr. apply elem_of_take in Hin as (i & Hi & _). by eapply list_elem_of_lookup_2.
    + split; [by apply Forall_drop|]. intros Hin. apply Hr. rewrite <- (take_drop L rem). apply elem_of_app. by right.
    + lia.
    + unfold zlength in *. rewrite length_app, length_take, length_drop. lia.
    + rewrite length_drop. lia.
    + rewrite length_app, length_take. lia.
    + exists L'. split; [lia|]. split; [done|]. rewrite E. rewrite <- app_assoc, (app_assoc (take L rem)), take_drop. done.
Qed.

(** *** The whole file *)

Fixpoint parse_lines (has_memory : Z -> bool) (bodies : list (list Z)) (r : la) (er : errors) : outcome (Z * la * errors) :=
  match bodies with
  | [] => Ret (0, r, er)
  | b :: bodies =>
      '(e, r, er) ← parse_line has_memory (b ++ [NEWLINE]) r er;
      if negb (e =? 0) then Ret (e, r, er) else parse_lines has_memory bodies r er
  end.

Definition file_of (bodies : list (list Z)) : list Z := concat ((fun b => b ++ [NEWLINE]) <$> bodies).

Lemma line_text b : line_body b -> c_text (b ++ [NEWLINE]) = b ++ [NEWLINE].
Proof.
  intros [Ht _]. unfold c_text, cstr. rewrite drop_0. apply take_while_all, Forall_app. split.
  - eapply Forall_impl; [exact Ht|]. intros c Hc. simpl. by rewrite (proj2 (Z.eqb_neq _ _) Hc).
  - by constructor.
Qed.

(** A line of less than 2^29 bytes: the sizes stay in the range of [int]. *)
Definition short (b : list Z) : Prop := zlength b < 2 ^ 29.

(** Such lines are read whole, one after the other. *)
Lemma la_loop_spec has_memory bodies fuel L r er :
  (forall n, has_memory n = true) -> Forall line_body bodies -> Forall short bodies -> (2 <= L)%nat -> Z.of_nat L <= 2 ^ 30 -> (length bodies < fuel)%nat ->
  la_loop fuel has_memory L (File (file_of bodies) false) r er = parse_lines has_memory bodies r er.
Proof.
  intros Hm Hb. revert fuel L r er. induction Hb as [|b bodies [Htb Hnb] Hb IH]; intros [|fuel] L r er Hsh HL HLb Hf; simpl in Hf; try lia; cbn [la_loop feof].
  { rewrite fgets_first, fgets_size by lia. cbn [rest]. change (file_of []) with (@nil Z). destruct (L - 1)%nat as [|n] eqn:E; [lia|]. done. }
  apply Forall_cons in Hsh as [Hsb Hsh].
  cbn [parse_lines]. unfold file_of. rewrite fmap_cons. cbn [concat]. fold (file_of bodies). rewrite <- app_assoc. cbn [app].
  rewrite fgets_first, fgets_size by lia. cbn [rest feof]. rewrite fgets_line by done.
  assert (Hgo : forall L' t f', (L <= L')%nat -> Z.of_nat L' <= 2 ^ 30 -> t = b ++ [NEWLINE] -> f' = File (file_of bodies) false ->
    ('(e, r0, er0) ← parse_line has_memory (c_text t) r er; if negb (e =? 0) then Ret (e, r0, er0) else la_loop fuel has_memory L' f' r0 er0)
    = ('(e, r0, er0) ← parse_line has_memory (b ++ [NEWLINE]) r er; if negb (e =? 0) then Ret (e, r0, er0) else parse_lines has_memory bodies r0 er0)).
  { intros L' t f' HL' HLb' -> ->. rewrite line_text by done. destruct (parse_line _ _ r er) as [[[e r'] er']|]; [|done]. cbn [mbind outcome_bind].
    destruct (negb (e =? 0)); [done|]. apply IH; (done || lia). }
  destruct (Nat.ltb_spec (length b) (L - 1)) as [Hlt|Hge].
  - rewrite andb_false_r. cbn [orb rest]. rewrite long_line_done by (rewrite ?length_app; simpl; lia). by apply Hgo.
  - assert (is_null (take (L - 1) b) = false) as -> by (destruct (L - 1)%nat eqn:E, b; simpl in *; (done || lia)). cbn [andb orb rest].
    destruct (long_line_spec (S (length (drop (L - 1) b ++ NEWLINE :: file_of bodies))) has_memory (take (L - 1) b) (drop (L - 1) b) L
                (file_of bodies) Hm) as (L' & HL' & HLb' & ->).
    + split; [by apply Forall_take|]. intros Hin. apply Hnb. rewrite <- (take_drop (L - 1) b). apply elem_of_app. by left.
    + split; [by apply Forall_drop|]. intros Hin. apply Hnb. rewrite <- (take_drop (L - 1) b). apply elem_of_app. by right.
    + done.
    + unfold short, zlength in *. rewrite length_take, length_drop. lia.
    + rewrite length_app. simpl. lia.
    + rewrite length_take. lia.
    + apply Hgo; [done|done| |done]. by rewrite app_assoc, take_drop.
Qed.

Lemma parse_file_lines has_memory bodies r er :
  (forall n, has_memory n = true) -> Forall line_body bodies -> Forall short bodies ->
  parse_dotla_file has_memory (file_of bodies) r er = parse_lines has_memory bodies r er.
Proof.
  intros Hm Hb Hs. unfold parse_dotla_file. rewrite Hm. apply la_loop_spec; [done|done|done|unfold LT_FILENAME_MAX; lia..|].
  enough (length bodies <= length (file_of bodies))%nat by lia. clear -bodies. induction bodies as [|b bodies IH]; [done|].
  unfold file_of in *. rewrite fmap_cons. cbn [concat]. rewrite !length_app. simpl. lia.
Qed.

(** *** What libtool writes *)

Definition quotable (v : list Z) : Prop := line_body v /\ QUOTE ∉ v.

Definition setting (key v : list Z) : list Z := key ++ QUOTE :: v ++ [QUOTE].

Definition or_null (v : list Z) : option (list Z) := if is_null v then None else Some v.

Fixpoint differ (p q : list Z) : bool :=
  match p, q with c :: p, d :: q => negb (c =? d) || differ p q | _, _ => false end.

Lemma differ_starts p q l : differ p q = true -> starts p (q ++ l) = false /\ streq (q ++ l) p = false.
Proof.
  revert q. induction p as [|c p IH]; intros [|d q]; simpl; try done. rewrite (Z.eqb_sym d c). destruct (c =? d); simpl; [apply IH|done].
Qed.

Lemma starts_app p l : starts p (p ++ l) = true.
Proof. induction p as [|c p IH]; [done|]. simpl. by rewrite Z.eqb_refl. Qed.

Lemma trim_setting has_memory v er :
  (forall n, has_memory n = true) -> quotable v -> trim has_memory (QUOTE :: v ++ [QUOTE; NEWLINE]) er = Ret (0, or_null v, er).
Proof.
  intros Hm [_ Hq]. unfold trim. assert (strrchr (QUOTE :: v ++ [QUOTE; NEWLINE]) QUOTE = Some (S (length v))) as ->.
  { change (QUOTE :: v ++ [QUOTE; NEWLINE]) with ((QUOTE :: v) ++ [QUOTE; NEWLINE]). rewrite strrchr_app. simpl. f_equal. lia. }
  rewrite Hm. cbn [hd0]. rewrite Z.eqb_refl, andb_true_r, zlength_cons, zlength_app. change (zlength [QUOTE; NEWLINE]) with 2.
  unfold or_null. destruct v as [|c v]; [done|]. rewrite zlength_cons. pose proof (zlength_nonneg v). rewrite (proj2 (Z.ltb_lt _ _)) by lia.
  do 4 f_equal. exact (take_app_length (c :: v) [QUOTE; NEWLINE]).
Qed.

Lemma setting_line key v : setting key v ++ [NEWLINE] = key ++ QUOTE :: v ++ [QUOTE; NEWLINE].
Proof. unfold setting. by rewrite <- app_assoc, <- app_comm_cons, <- app_assoc. Qed.

Lemma setting_body key v : line_body key -> quotable v -> line_body (setting key v).
Proof.
  intros [Hk Hk'] [[Hv Hv'] _]. split.
  - apply Forall_app. split; [done|]. constructor; [done|]. apply Forall_app. split; [done|]. by constructor.
  - unfold setting. rewrite elem_of_app, elem_of_cons, elem_of_app, list_elem_of_singleton. intros [?|[?|[?|?]]]; done.
Qed.

(** The contents of a file as libtool writes it: a comment, the names, the flag. *)
Definition la_file (comment d names old deps dir : list Z) (inst : bool) : list (list Z) :=
  [HASH :: comment; setting (str "dlname=") d; setting (str "library_names=") names; setting (str "old_library=") old;
   setting (str "dependency_libs=") deps; []; str "installed=" ++ (if inst then str "yes" else str "no"); setting (str "libdir=") dir].

(** The library to load: [dlname], or the last one of [library_names]. *)
Definition last_word (names : list Z) : list Z := match strrchr names SPACE with Some i => drop (S i) names | None => names end.
Definition library (d names : list Z) : option (list Z) := if is_null d then last_word <$> or_null names else Some d.

(** Evaluates the tests for keys. *)
Ltac other_key :=
  repeat match goal with
  | |- context [starts ?p (?q ++ ?l)] => rewrite (proj1 (differ_starts p q l eq_refl))
  | |- context [streq (?q ++ ?l) ?p] => rewrite (proj2 (differ_starts p q l eq_refl))
  end.
Ltac this_key := rewrite starts_app, drop_app_length, trim_setting by done.

Lemma set_dlname has_memory v r er :
  (forall n, has_memory n = true) -> quotable v ->
  parse_line has_memory (str "dlname=" ++ QUOTE :: v ++ [QUOTE; NEWLINE]) r er = Ret (0, La (or_null v) (libdir r) (deplibs r) (old_name r) (installed r), er).
Proof. intros Hm Hv. unfold parse_line. this_key. done. Qed.

Lemma set_old has_memory v r er :
  (forall n, has_memory n = true) -> quotable v ->
  parse_line has_memory (str "old_library=" ++ QUOTE :: v ++ [QUOTE; NEWLINE]) r er = Ret (0, La (dlname r) (libdir r) (deplibs r) (or_null v) (installed r), er).
Proof. intros Hm Hv. unfold parse_line. other_key. this_key. done. Qed.

Lemma set_libdir has_memory v r er :
  (forall n, has_memory n = true) -> quotable v ->
  parse_line has_memory (str "libdir=" ++ QUOTE :: v ++ [QUOTE; NEWLINE]) r er = Ret (0, La (dlname r) (or_null v) (deplibs r) (old_name r) (installed r), er).
Proof. intros Hm Hv. unfold parse_line. other_key. this_key. done. Qed.

Lemma set_deps has_memory v r er :
  (forall n, has_memory n = true) -> quotable v ->
  parse_line has_memory (str "dependency_libs=" ++ QUOTE :: v ++ [QUOTE; NEWLINE]) r er = Ret (0, La (dlname r) (libdir r) (or_null v) (old_name r) (installed r), er).
Proof. intros Hm Hv. unfold parse_line. other_key. this_key. done. Qed.

Lemma set_names has_memory d v r er :
  (forall n, has_memory n = true) -> quotable v -> dlname r = or_null d ->
  parse_line has_memory (str "library_names=" ++ QUOTE :: v ++ [QUOTE; NEWLINE]) r er = Ret (0, La (library d v) (libdir r) (deplibs r) (old_name r) (installed r), er).
Proof.
  intros Hm Hv Hr. unfold parse_line. other_key. rewrite Hr.
  unfold library, or_null at 1. destruct (is_null d) eqn:En.
  - cbn [andb]. this_key. cbn [mbind outcome_bind]. unfold last_word. destruct (or_null v) as [names|]; [|done]. simpl.
    destruct (strrchr names SPACE); [|done]. by rewrite Hm.
  - destruct r. cbn in *. unfold or_null in Hr. rewrite En in Hr. by rewrite Hr.
Qed.

Lemma set_installed has_memory (inst : bool) r er :
  parse_line has_memory ((str "installed=" ++ (if inst then str "yes" else str "no")) ++ [NEWLINE]) r er
    = Ret (0, La (dlname r) (libdir r) (deplibs r) (old_name r) inst, er).
Proof. by destruct inst. Qed.

Lemma set_nothing has_memory r er : parse_line has_memory ([] ++ [NEWLINE]) r er = Ret (0, r, er).
Proof. done. Qed.

Lemma set_comment has_memory comment r er : parse_line has_memory ((HASH :: comment) ++ [NEWLINE]) r er = Ret (0, r, er).
Proof. done. Qed.

Lemma lines_cons has_memory b bodies r er r' er' :
  parse_line has_memory (b ++ [NEWLINE]) r er = Ret (0, r', er') ->
  parse_lines has_memory (b :: bodies) r er = parse_lines has_memory bodies r' er'.
Proof. intros E. cbn [parse_lines]. by rewrite E. Qed.

Lemma lines_setting has_memory key v bodies r er x :
  parse_line has_memory (key ++ QUOTE :: v ++ [QUOTE; NEWLINE]) r er = Ret (0, x, er) ->
  parse_lines has_memory (setting key v :: bodies) r er = parse_lines has_memory bodies x er.
Proof. intros E. apply lines_cons. by rewrite setting_line. Qed.

Lemma line_bodyb b : forallb (fun c => negb (c =? NUL) && negb (c =? NEWLINE)) b = true -> line_body b.
Proof.
  induction b as [|c b IH]; simpl; intros H; [split; [constructor|apply not_elem_of_nil]|]. bprop. destruct IH as [? ?]; [done|].
  split; [by constructor|]. apply not_elem_of_cons. split; [congruence|done].
Qed.

Lemma la_file_read has_memory comment d names old deps dir inst er :
  (forall n, has_memory n = true) -> line_body comment -> Forall quotable [d; names; old; deps; dir] ->
  Forall short (la_file comment d names old deps dir inst) ->
  parse_dotla_file has_memory (file_of (la_file comment d names old deps dir inst)) (La None None None None true) er
    = Ret (0, La (library d names) (or_null dir) (or_null deps) (or_null old) inst, er).
Proof.
  intros Hm Hc Hq Hs. assert (quotable d /\ quotable names /\ quotable old /\ quotable deps /\ quotable dir) as (Hd & Hn & Ho & Hp & Hl).
  { rewrite !Forall_cons in Hq. tauto. }
  rewrite parse_file_lines; [|done| |done].
  - unfold la_file. rewrite (lines_cons _ _ _ _ _ _ _ (set_comment _ _ _ _)).
    rewrite (lines_setting _ _ _ _ _ _ _ (set_dlname has_memory d _ _ Hm Hd)).
    rewrite (lines_setting _ _ _ _ _ _ _ (set_names has_memory d names (La (or_null d) _ _ _ _) _ Hm Hn eq_refl)).
    rewrite (lines_setting _ _ _ _ _ _ _ (set_old has_memory old _ _ Hm Ho)).
    rewrite (lines_setting _ _ _ _ _ _ _ (set_deps has_memory deps _ _ Hm Hp)).
    rewrite (lines_cons _ _ _ _ _ _ _ (set_nothing _ _ _)), (lines_cons _ _ _ _ _ _ _ (set_installed _ _ _ _)).
    by rewrite (lines_setting _ _ _ _ _ _ _ (set_libdir has_memory dir _ _ Hm Hl)).
  - unfold la_file. repeat (apply Forall_cons_2); try apply Forall_nil_2; try (apply setting_body; [by apply line_bodyb|done]).
    + destruct Hc as [? ?]. split; [by constructor|]. by apply not_elem_of_cons.
    + split; [constructor|apply not_elem_of_nil].
    + by apply line_bodyb; destruct inst.
Qed.

(** C25: A file as libtool writes it is read as it was meant: the library to load is
    [dlname], or the last of [library_names] if that is empty, and the other fields are
    those of the file (NULL for empty ones), for lines of less than 2^29 bytes (the buffer grows with them, and its size
    is cast to [int]); nothing outside the buffers is accessed.  Memory is available. *)
Theorem dotla_roundtrip (has_memory : Z -> bool) (comment d names old deps dir : list Z) (inst : bool) (er : errors) :
  (forall n, has_memory n = true) -> line_body comment -> Forall quotable [d; names; old; deps; dir] ->
  Forall short (la_file comment d names old deps dir inst) ->
  parse_dotla_file has_memory (file_of (la_file comment d names old deps dir inst)) (La None None None None true) er
    = Ret (0, La (library d names) (or_null dir) (or_null deps) (or_null old) inst, er).
Proof. apply la_file_read. Qed.

Lemma dotla_roundtrip_witness :
  parse_dotla_file (fun _ => true)
    (file_of (la_file (str " a libtool library") [] (str "libproxymap-rowa.so.0.0.0 libproxymap-rowa.so.0 libproxymap-rowa.so")
                (str "libproxymap-rowa.a") (str " -lmysqlclient") (str "/usr/lib") true)) (La None None None None true) errors0
  = Ret (0, La (Some (str "libproxymap-rowa.so")) (Some (str "/usr/lib")) (Some (str " -lmysqlclient")) (Some (str "libproxymap-rowa.a")) true, errors0).
Proof.
  etransitivity.
  - apply dotla_roundtrip.
    + reflexivity.
    + apply line_bodyb. reflexivity.
    + repeat (apply Forall_cons_2; [split; [apply line_bodyb; reflexivity|apply (bool_decide_unpack _); vm_compute; exact I]|]). apply Forall_nil_2.
    + repeat (apply Forall_cons_2; [vm_compute; reflexivity|]). apply Forall_nil_2.
  - vm_compute. reflexivity.
Defined.

(** An unbalanced quote is an error that [trim] does not notice: the length to copy is
    minus one. *)
Lemma unbalanced_quote has_memory v er :
  (forall n, has_memory n = true) -> quotable v -> 2 < zlength v -> trim has_memory (QUOTE :: v ++ [NEWLINE]) er = Undef.
Proof.
  intros Hm [_ Hq] Hl. unfold trim. assert (strrchr (QUOTE :: v ++ [NEWLINE]) QUOTE = Some O) as ->.
  { simpl. rewrite strrchr_notin; [done|]. rewrite elem_of_app, list_elem_of_singleton. intros [?|?]; done. }
  rewrite Hm. cbn [hd0]. rewrite Z.eqb_refl, andb_true_r, zlength_cons, zlength_app. change (zlength [NEWLINE]) with 1.
  by rewrite (proj2 (Z.ltb_lt _ _)) by lia.
Qed.
