(* ===== verification/Opening.v ===== *)
(** * How modules are found and opened (src/libltdl/ltdl.c)

    [lt_dlopenext] looks for a libtool archive or a shared library of a name in the
    directories of the search paths and opens it: [try_dlopen] with the functions it
    calls.  It is built from the search paths (SearchPath.v), the archives (Dotla.v)
    and the handles (Modules.v).  The file system and the environment are parameters,
    and so are the loaders.  Memory can be out for any size. *)

From S2P Require Import Prelude.
From S2P Require Import CString.
From S2P Require Import Argz.
From S2P Require Import Lterror.
From S2P Require Import Slist.
From S2P Require Import SearchPath.
From S2P Require Import Loaders.
From S2P Require Import Modules.
From S2P Require Import Dotla.
Local Open Scope Z_scope.

Definition DOT : Z := 46.
Definition objdir : list Z := str ".libs/".
Definition libext : list Z := str "a".

(** Between the two ways in which runs are described. *)
Definition lift {A} (o : outcome A) : run A := match o with Ret a => Done a | Undef => Stuck end.
Definition of_run {A} (r : run A) : outcome A := match r with Done a => Ret a | _ => Undef end.

(** ** Advice *)

Definition advise0 : advise := Advise false false false false false.

Definition lt_dladvise_init (has_memory : bool) (s : errors) : Z * option advise * errors :=
  if has_memory then (0, Some advise0, s) else (1, None, set_error NO_MEMORY s).

Definition lt_dladvise_destroy (padvise : option advise) : Z * option advise := (0, None).

(** [assert (padvise && *padvise)], and a flag is set. *)
Definition advised (f : advise -> advise) (padvise : option advise) : outcome (Z * option advise) :=
  match padvise with Some a => Ret (0, Some (f a)) | None => Undef end.

Definition lt_dladvise_ext : option advise -> outcome (Z * option advise) :=
  advised (fun a => Advise true (adv_resident a) (adv_symglobal a) (adv_symlocal a) (try_preload_only a)).
Definition lt_dladvise_resident : option advise -> outcome (Z * option advise) :=
  advised (fun a => Advise (try_ext a) true (adv_symglobal a) (adv_symlocal a) (try_preload_only a)).
Definition lt_dladvise_local : option advise -> outcome (Z * option advise) :=
  advised (fun a => Advise (try_ext a) (adv_resident a) (adv_symglobal a) true (try_preload_only a)).
Definition lt_dladvise_global : option advise -> outcome (Z * option advise) :=
  advised (fun a => Advise (try_ext a) (adv_resident a) true (adv_symlocal a) (try_preload_only a)).
Definition lt_dladvise_preload : option advise -> outcome (Z * option advise) :=
  advised (fun a => Advise (try_ext a) (adv_resident a) (adv_symglobal a) (adv_symlocal a) true).

(** ** Names *)

Definition isalnum (c : Z) : bool := ((48 <=? c) && (c <=? 57)) || ((65 <=? c) && (c <=? 90)) || ((97 <=? c) && (c <=? 122)).

(** The name of a module in its symbols: other characters become underscores. *)
Definition symbol_name (t : list Z) : list Z := (fun c => if isalnum c then c else 95) <$> t.

(** The directory of a canonical name, with its slash (NULL if there is none), and the
    rest. *)
Definition split_dir (canonical : list Z) : option (list Z) * list Z :=
  match strrchr canonical SLASH with
  | Some i => (Some (take (S i) canonical), drop (S i) canonical)
  | None => (None, canonical)
  end.

(** The name up to its last dot, and from there on. *)
Definition split_ext (base_name : list Z) : list Z * list Z :=
  match strrchr base_name DOT with
  | Some i => (take i base_name, drop i base_name)
  | None => (base_name, [])
  end.

(** [sprintf (filename, "%.*s/%s", ...)] of [tryall_dlopen_module] *)
Definition combine (dirname dlname : list Z) : list Z :=
  (match last dirname with Some c => if c =? SLASH then take (length dirname - 1) dirname else dirname | None => dirname end)
  ++ SLASH :: dlname.

(** The words of [dependency_libs]. *)
Fixpoint words (t : list Z) : list (list Z) :=
  match t with
  | [] => []
  | c :: t =>
      if isspace c then words t
      else match t with
           | [] => [[c]]
           | c' :: _ => if isspace c' then [c] :: words t else match words t with w :: ws => (c :: w) :: ws | [] => [[c]] end
           end
  end.

Definition is_dir_option (w : list Z) : bool := starts (str "-L") w || starts (str "-R") w.
Definition dep_name (w : list Z) : list Z := if starts (str "-l") w then str "lib" ++ drop 2 w else w.

(** The modules and the search path of the user. *)
Record dl := Dl { ms : mstate; user_search_path : option (list Z) }.

Definition with_ms (m : mstate) (d : dl) : dl := Dl m (user_search_path d).
Definition set_deplibs (l : list Z) (h : handle) : handle :=
  Handle (hvtable h) (filename h) (hname h) (ref_count h) (is_resident h) (is_symglobal h) (is_symlocal h) l (hmodule h) (interface_data h).

Definition file_not_found (s : errors) : bool := bool_decide (lt__get_last_error s = Some (Table FILE_NOT_FOUND)).

Section opening.
Context (module_open : Z -> option (list Z) -> option advise -> errors -> Z * errors).
Context (module_close : Z -> Z -> errors -> Z * errors).
Context (has_memory : Z -> bool) (junk handle_size advise_size pointer_size : Z).
Context (vt : gmap Z lt_dlvtable) (loaders : list Z) (alloc : gmap Z handle -> Z).
(** The contents of a file that can be opened, and whether it can be read. *)
Context (fopen : list Z -> option (list Z)) (access : list Z -> bool).
(** LTDL_LIBRARY_PATH and LD_LIBRARY_PATH, and the search path of the system. *)
Context (searchpath_var module_path_var : option (list Z)) (sys_dlsearch_path : list Z).
(** LTDL_DLOPEN_DEPLIBS: the system does not load the libraries a library needs. *)
Context (dlopen_deplibs : bool).

(** [tryall_dlopen] with the memory for the name. *)
Definition tryall (p : Z) (f : list Z) (a : option advise) (vtable : Z) (m : mstate) : run (Z * Z * mstate) :=
  tryall_dlopen module_open (has_memory (zlength f + 1)) loaders p (Some f) a vtable m.

(** [lt_dlloader_find ("lt_preopen")] *)
Definition preopen_loader : Z := default 0 (first_named vt (str "lt_preopen") loaders).

(** ** Archives in search paths *)

(** [*pfile] and [*pdir] *)
Definition find_file_callback (filename : list Z) (d : option (list Z) * option (list Z)) (s : errors)
  : outcome (Z * (option (list Z) * option (list Z)) * errors) :=
  _ ← assert_ (negb (is_null filename));
  match fopen filename with
  | None => Ret (0, (None, snd d), s)
  | Some content =>
      let dirname := match strrchr filename SLASH with Some (S i) => take (S i) filename | _ => filename end in
      let '(pdir, s) := lt__strdup has_memory junk dirname s in
      Ret (match pdir with None => -1 | Some _ => 1 end, (Some content, pdir), s)
  end.

Definition find_file (search_path base_name : list Z) (pdir : option (list Z)) (s : errors)
  : outcome (option (list Z) * option (list Z) * errors) :=
  '(_, d, s) ← foreach_dirinpath has_memory junk find_file_callback (Some search_path) base_name (None, pdir) s;
  Ret (d, s).

(** The search paths one after the other, up to the first file. *)
Fixpoint find_file_in (paths : list (option (list Z))) (base_name : list Z) (pdir : option (list Z)) (s : errors)
  : outcome (option (list Z) * option (list Z) * errors) :=
  match paths with
  | [] => Ret (None, pdir, s)
  | None :: paths => find_file_in paths base_name pdir s
  | Some p :: paths =>
      '(file, pdir, s) ← find_file p base_name pdir s;
      match file with Some _ => Ret (file, pdir, s) | None => find_file_in paths base_name pdir s end
  end.

(** ** Libraries in search paths *)

(** [*phandle] and the modules *)
Definition find_handle_callback (a : option advise) (filename : list Z) (d : Z * mstate) (s : errors) : outcome (Z * (Z * mstate) * errors) :=
  if negb (access filename) then Ret (0, d, s)
  else
    '(e, p, m) ← of_run (tryall (fst d) filename a 0 (with_errs s (snd d)));
    Ret (1, (if negb (e =? 0) then 0 else p, m), errs m).

Definition find_handle (search_path : option (list Z)) (base_name : list Z) (phandle : Z) (a : option advise) (m : mstate) : run (bool * Z * mstate) :=
  match search_path with
  | None => Done (false, phandle, m)
  | Some _ =>
      '(r, (p, m), s) ← lift (foreach_dirinpath has_memory junk (find_handle_callback a) search_path base_name (phandle, m) (errs m));
      Done (negb (r =? 0), p, with_errs s m)
  end.

Fixpoint find_handle_in (paths : list (option (list Z))) (base_name : list Z) (p : Z) (a : option advise) (m : mstate) : run (bool * Z * mstate) :=
  match paths with
  | [] => Done (false, p, m)
  | path :: paths =>
      '(found, p, m) ← find_handle path base_name p a m;
      if (found : bool) then Done (true, p, m) else find_handle_in paths base_name p a m
  end.

(** ** The module of an archive *)

(** [tryall_dlopen_module] without a prefix *)
Definition open_in (dirname dlname : list Z) (a : option advise) (p : Z) (m : mstate) : run (Z * Z * mstate) :=
  if has_memory (zlength (combine dirname dlname) + 1) then
    '(e, p, m) ← tryall p (combine dirname dlname) a 0 m;
    Done (if e =? 0 then 0 else 1, p, m)
  else Done (1, p, with_error NO_MEMORY m).

Definition tryall_dlopen_module (prefix : option (list Z)) (dirname dlname : list Z) (a : option advise) (p : Z) (m : mstate) : run (Z * Z * mstate) :=
  match prefix with
  | None => open_in dirname dlname a p m
  | Some prefix =>
      if has_memory (zlength (combine dirname dlname) + 1) then open_in prefix (combine dirname dlname) a p m
      else Done (1, p, with_error NO_MEMORY m)
  end.

(** [if (... == 0) return 0;], and what follows *)
Definition or_else (r : run (Z * Z * mstate)) (k : Z -> mstate -> run (Z * Z * mstate)) : run (Z * Z * mstate) :=
  '(e, p, m) ← r; if e =? 0 then Done (0, p, m) else k p m.

Definition find_module (p : Z) (dir libdir dlname old_name : option (list Z)) (installed : bool) (a : option advise) (m : mstate) : run (Z * Z * mstate) :=
  or_else (match old_name with Some f => tryall p f a preopen_loader m | None => Done (1, p, m) end) (fun p m =>
  match dlname with
  | None => Done (1, p, m)
  | Some dlname =>
      or_else (match libdir with
               | Some libdir => if installed then tryall_dlopen_module None libdir dlname a p m else Done (1, p, m)
               | None => Done (1, p, m)
               end) (fun p m =>
      or_else (if negb installed then tryall_dlopen_module dir objdir dlname a p m else Done (1, p, m)) (fun p m =>
      or_else (match dir with Some dir => tryall_dlopen_module None dir dlname a p m | None => Done (1, p, m) end) (fun p m =>
      Done (1, p, m))))
  end).

(** ** Libraries a library needs *)

(** The search path of the directories among the words; FALSE on error. *)
Fixpoint add_dep_dirs (ws : list (list Z)) (d : dl) : run (bool * dl) :=
  match ws with
  | [] => Done (true, d)
  | w :: ws =>
      if is_dir_option w then
        '(e, path, s) ← lift (lt_dladdsearchdir has_memory junk (drop 2 w) (user_search_path d) (errs (ms d)));
        let d := Dl (with_errs s (ms d)) path in
        if negb (e =? 0) then Done (false, d) else add_dep_dirs ws d
      else add_dep_dirs ws d
  end.

(** The memory for the names; FALSE on error. *)
Fixpoint dep_memory (ws : list (list Z)) : bool :=
  match ws with [] => true | w :: ws => has_memory (zlength (dep_name w) + 1) && dep_memory ws end.

Definition unload_loop := fix unload_loop (l : list Z) (m : mstate) : run (Z * mstate) :=
  match l with
  | [] => Done (0, m)
  | q :: l =>
      h ← deref m q;
      '(x, m) ← (if negb (is_resident h) then close module_close q m else Done (0, m));
      '(y, m) ← unload_loop l m;
      Done (x + y, m)
  end.

Definition unload_deplibs (p : Z) (m : mstate) : run (Z * mstate) :=
  h ← deref m p;
  '(e, m) ← unload_loop (Modules.deplibs h) m;
  h ← deref m p;
  Done (e, update p (set_deplibs [] h) m).

Section deps.
(** [lt_dlopenext], for the libraries a library needs *)
Context (open_dep : list Z -> dl -> run (Z * dl)).

(** The libraries that could be opened. *)
Fixpoint open_deps (names : list (list Z)) (d : dl) : run (list Z * dl) :=
  match names with
  | [] => Done ([], d)
  | n :: names =>
      '(q, d) ← open_dep n d;
      '(qs, d) ← open_deps names d;
      Done (if q =? 0 then qs else q :: qs, d)
  end.

Definition load_deplibs (p : Z) (libs : option (list Z)) (d : dl) : run (Z * dl) :=
  h ← deref (ms d) p;
  let d := with_ms (update p (set_deplibs [] h) (ms d)) d in
  if negb dlopen_deplibs then Done (0, d)
  else match libs with
  | None => Done (0, d)
  | Some libs =>
      let out_of_memory d := with_ms (with_error NO_MEMORY (ms d)) d in
      let saved := user_search_path d in
      (* restore the old search path *)
      let restore '(e, d) := Done (e, match saved with Some _ => Dl (ms d) saved | None => d end) in
      if match saved with Some t => negb (has_memory (zlength t + 1)) | None => false end then Done (1, out_of_memory d)
      else
        '(ok, d) ← add_dep_dirs (words libs) d;
        if negb ok then restore (1, d)
        else
          let ws := filter (fun w => is_dir_option w = false) (words libs) in
          if is_null ws then restore (0, d)
          else if negb (has_memory (zlength ws * pointer_size) && dep_memory ws && has_memory (zlength ws * pointer_size)) then restore (1, out_of_memory d)
          else
            '(qs, d) ← open_deps (reverse (dep_name <$> ws)) d;
            h ← deref (ms d) p;
            restore (0, with_ms (update p (set_deplibs qs h) (ms d)) d)
  end.

(** ** [try_dlopen] *)

(** What is made of the file name: the name to open, its directory, the rest, the name
    for symbols and the extension. *)
Record parts := Parts { attempt : list Z; dir : option (list Z); base_name : list Z; mname : list Z; ext : list Z }.

Definition name_parts (filename : list Z) (e : option (list Z)) (s : errors) : outcome (option parts * errors) :=
  _ ← assert_ (negb (is_null filename));
  let attempt := filename ++ default [] e in
  if negb (has_memory (zlength attempt + 1)) then Ret (None, set_error NO_MEMORY s)
  else
    '(canonical, s) ← canonicalize_path has_memory junk attempt s;
    match canonical with
    | None => Ret (None, s)
    | Some canonical =>
        let '(dir, base_name) := split_dir canonical in
        if match dir with Some t => negb (has_memory (1 + zlength t)) | None => false end then Ret (None, set_error NO_MEMORY s)
        else
          _ ← assert_ (negb (is_null base_name));
          let '(stem, ext) := split_ext base_name in
          if negb (has_memory (zlength stem + 1)) then Ret (None, set_error NO_MEMORY s)
          else Ret (Some (Parts attempt dir base_name (symbol_name stem) ext), s)
    end.

(** [lt__zalloc] of a handle *)
Definition new_handle (m : mstate) : Z * mstate :=
  if has_memory handle_size then let p := alloc (heap m) in (p, with_heap (<[p := handle0]> (heap m)) m)
  else (0, with_error NO_MEMORY m).

(** [FREE] *)
Definition free_handle (p : Z) (m : mstate) : mstate := if p =? 0 then m else with_heap (delete p (heap m)) m.

(** Errors, [*phandle], the modules and the search path *)
Definition registered (p new : Z) (name : option (list Z)) (saved_error : option message) (d : dl) : run (Z * Z * dl) :=
  '(p, m) ← register_handle p new name saved_error (ms d); Done (0, p, with_ms m d).

Definition open_archive (ps : parts) (a : option advise) (saved_error : option message) (d : dl) : run (Z * Z * dl) :=
  let sys := if is_null sys_dlsearch_path then None else Some sys_dlsearch_path in
  '(file, dir, s) ← lift (match dir ps with
                          | None => find_file_in [user_search_path d; searchpath_var; module_path_var; sys] (base_name ps) None (errs (ms d))
                          | Some _ => Ret (fopen (attempt ps), dir ps, errs (ms d))
                          end);
  let d := with_ms (with_errs s (ms d)) d in
  match file with
  | None => Done (1, 0, with_ms (with_error FILE_NOT_FOUND (ms d)) d)
  | Some content =>
      '(e, r, s) ← lift (parse_dotla_file has_memory content (La None None None None true) (errs (ms d)));
      let '(p, m) := new_handle (with_errs s (ms d)) in
      if negb (e =? 0) || (p =? 0) then Done (e + (if p =? 0 then 1 else 0), 0, with_ms (free_handle p m) d)
      else
        '(e, d) ← load_deplibs p (Dotla.deplibs r) (with_ms m d);
        if negb (e =? 0) then Done (1, 0, with_ms (free_handle p (ms d)) d)
        else
          '(e, new, m) ← find_module p dir (libdir r) (dlname r) (old_name r) (installed r) a (ms d);
          if negb (e =? 0) then
            '(_, m) ← unload_deplibs p m; Done (1, 0, with_ms (free_handle p m) d)
          else
            '(_, m) ← (if negb (p =? new) then unload_deplibs p m else Done (0, m));
            registered p new (Some (mname ps)) saved_error (with_ms m d)
  end.

Definition open_library (ps : parts) (a : option advise) (saved_error : option message) (d : dl) : run (Z * Z * dl) :=
  let '(p, m) := new_handle (ms d) in
  if p =? 0 then Done (1, 0, with_ms m d)
  else
    '(found, new, m) ← match dir ps with
                       | None => find_handle_in [user_search_path d; searchpath_var; module_path_var; Some sys_dlsearch_path] (base_name ps) p a m
                       | Some _ => Done (false, p, m)
                       end;
    '(new, m) ← (if (found : bool) then Done (new, m)
                 else '(e, q, m) ← tryall new (attempt ps) a 0 m; Done (if negb (e =? 0) then 0 else q, m));
    if new =? 0 then Done (1, 0, with_ms (free_handle p m) d)
    else registered p new (Some (mname ps)) saved_error (with_ms m d).

Definition try_dlopen (filename : option (list Z)) (e : option (list Z)) (a : option advise) (d : dl) : run (Z * Z * dl) :=
  let saved_error := lt__get_last_error (errs (ms d)) in
  match filename with
  | None =>
      let '(p, m) := new_handle (ms d) in
      if p =? 0 then Done (1, 0, with_ms m d)
      else
        '(e, new, m) ← tryall_dlopen module_open true loaders p None a 0 (update p (set_resident true handle0) m);
        if negb (e =? 0) then Done (1, 0, with_ms (free_handle p m) d)
        else registered p new None saved_error (with_ms m d)
  | Some filename =>
      '(ps, s) ← lift (name_parts filename e (errs (ms d)));
      let d := with_ms (with_errs s (ms d)) d in
      match ps with
      | None => Done (1, 0, d)
      | Some ps =>
          (* what follows when there is no such preloaded module *)
          let search d :=
            if match a with Some a => try_preload_only a | None => false end then Done (0, 0, d)
            else if streq (ext ps) archive_ext then open_archive ps a saved_error d
            else open_library ps a saved_error d in
          match dir ps with
          | Some _ => search d
          | None =>
              if preopen_loader =? 0 then search d
              else
                let archive_name := mname ps ++ DOT :: libext in
                let no_name := negb (has_memory (zlength archive_name + 1)) in
                let m := if no_name then with_error NO_MEMORY (ms d) else ms d in
                let '(p, m) := new_handle m in
                if (p =? 0) || no_name then Done (1, p, with_ms m d)
                else
                  '(e, new, m) ← tryall p archive_name a preopen_loader m;
                  if e =? 0 then registered p new (Some (mname ps)) saved_error (with_ms m d)
                  else search (with_ms (free_handle p m) d)
          end
      end
  end.

(** ** [lt_dlopenadvise] *)

Definition lt_dlopenadvise (filename : option (list Z)) (a : option advise) (d : dl) : run (Z * dl) :=
  let saved_error := lt__get_last_error (errs (ms d)) in
  let fail d := Done (0, with_ms (with_error FILE_NOT_FOUND (ms d)) d) in
  if match a with Some a => adv_symlocal a && adv_symglobal a | None => false end then
    Done (0, with_ms (with_error CONFLICTING_FLAGS (ms d)) d)
  else match filename, a with
  | Some f, Some adv =>
      if negb (try_ext adv) || has_library_ext f then
        '(e, p, d) ← try_dlopen filename None a d; Done (if negb (e =? 0) then 0 else p, d)
      else if is_null f then fail d
      else
        '(e, p, d) ← try_dlopen filename (Some archive_ext) a d;
        if negb (p =? 0) || ((0 <? e) && negb (file_not_found (errs (ms d)))) then Done (p, d)
        else
          let d := with_ms (with_errs (lt__set_last_error saved_error (errs (ms d))) (ms d)) d in
          '(e, p, d) ← try_dlopen filename (Some shlib_ext) a d;
          if negb (p =? 0) || ((0 <? e) && negb (file_not_found (errs (ms d)))) then Done (p, d)
          else fail d
  | _, _ => '(e, p, d) ← try_dlopen filename None a d; Done (if negb (e =? 0) then 0 else p, d)
  end.

End deps.

(** [lt_dlopenext]; the fuel bounds how deep libraries need others. *)
Fixpoint lt_dlopenext (fuel : nat) (filename : option (list Z)) (d : dl) : run (Z * dl) :=
  match fuel with
  | O => Fuel
  | S fuel =>
      let '(e, a, s) := lt_dladvise_init (has_memory advise_size) (errs (ms d)) in
      let d := with_ms (with_errs s (ms d)) d in
      if negb (e =? 0) then Done (0, d)
      else
        '(e, a) ← lift (lt_dladvise_ext a);
        if negb (e =? 0) then Done (0, d)
        else lt_dlopenadvise (fun n => lt_dlopenext fuel (Some n)) filename a d
  end.

Definition lt_dlopen (fuel : nat) (filename : option (list Z)) (d : dl) : run (Z * dl) :=
  lt_dlopenadvise (fun n => lt_dlopenext fuel (Some n)) filename None d.

End opening.
