(* ===== verification/Resolve.v ===== *)
(** * Which module is opened for a name

    A description of what [lt_dlopenext] (Opening.v) does for a name in terms of the
    directories of the search paths, and the proof that the code does it.  Then the whole
    way in which the proxy loads its query mapper. *)

From S2P Require Import Prelude.
From S2P Require Import CString.
From S2P Require Import Startup.
From S2P Require Import Argz.
From S2P Require Import Lterror.
From S2P Require Import Slist.
From S2P Require Import SearchPath.
From S2P Require Import Loaders.
From S2P Require Import Modules.
From S2P Require Import Dotla.
From S2P Require Import Opening.
Local Open Scope Z_scope.

(** The advice of [lt_dlopenext]. *)
Definition ext_advise : advise := Advise true false false false false.

(** The first directory in which a name is known to [g]. *)
Fixpoint found_in {A} (g : list Z -> option A) (base : list Z) (ds : list (list Z)) : option (list Z * A) :=
  match ds with
  | [] => None
  | d :: ds => match g (name_in d base) with Some x => Some (d, x) | None => found_in g base ds end
  end.

Lemma found_in_app {A} (g : list Z -> option A) base ds ds' :
  found_in g base (ds ++ ds') = match found_in g base ds with Some x => Some x | None => found_in g base ds' end.
Proof. induction ds as [|d ds IH]; [done|]. simpl. by destruct (g _). Qed.

(** The first file of a list that a loader opens. *)
Fixpoint first_opened (opener : list Z -> option (Z * Z)) (fs : list (list Z)) : option (list Z * (Z * Z)) :=
  match fs with
  | [] => None
  | f :: fs => match opener f with Some x => Some (f, x) | None => first_opened opener fs end
  end.

Lemma first_opened_app opener fs gs :
  first_opened opener (fs ++ gs) = match first_opened opener fs with Some x => Some x | None => first_opened opener gs end.
Proof. induction fs as [|f fs IH]; [done|]. cbn. by destruct (opener f). Qed.

Lemma first_opened_Some opener fs f x : first_opened opener fs = Some (f, x) -> opener f = Some x.
Proof. induction fs as [|g fs IH]; [done|]. cbn. destruct (opener g) eqn:E; [|done]. by intros [= <- <-]. Qed.

Lemma first_opened_in opener fs f x : first_opened opener fs = Some (f, x) -> f ∈ fs.
Proof.
  induction fs as [|g fs IH]; [done|]. cbn. destruct (opener g); [intros [= <- <-]; left|]. intros H. right. by apply IH.
Qed.

(** ** Names without directories *)

Definition module_name (t : list Z) : Prop := text t /\ t <> [] /\ (SLASH ∉ t) /\ (PATHSEP ∉ t).

Lemma strip_plain_name t : SLASH ∉ t -> strip t = t.
Proof.
  induction t as [|c t IH]; [done|]. intros [Hc Ht]%not_elem_of_cons. cbn [strip].
  rewrite (proj2 (Z.eqb_neq c SLASH)) by congruence. cbn [negb]. by rewrite IH.
Qed.

Lemma module_name_app t e : module_name t -> text e -> SLASH ∉ e -> PATHSEP ∉ e -> module_name (t ++ e).
Proof.
  intros (Ht & Hne & Hs & Hp) He Hse Hpe. split; [by apply Forall_app|]. split; [by destruct t|]. split; by apply not_elem_of_app.
Qed.

Lemma archive_name_ok t : module_name t -> module_name (t ++ archive_ext).
Proof.
  intros Ht. apply module_name_app; [done|..].
  - by repeat constructor.
  - by apply (bool_decide_unpack _).
  - by apply (bool_decide_unpack _).
Qed.

Lemma shlib_name_ok t : module_name t -> module_name (t ++ shlib_ext).
Proof.
  intros Ht. apply module_name_app; [done|..].
  - by repeat constructor.
  - by apply (bool_decide_unpack _).
  - by apply (bool_decide_unpack _).
Qed.

(** ** The search paths *)

Definition path_ok (p : list Z) : Prop :=
  text p /\ Forall no_root (split_on PATHSEP p) /\ dirs p <> [].

Section resolve.
Context (module_open : Z -> option (list Z) -> option advise -> errors -> Z * errors).
Context (module_close : Z -> Z -> errors -> Z * errors).
Context (has_memory : Z -> bool) (junk handle_size advise_size pointer_size : Z).
Context (vt : gmap Z lt_dlvtable) (loaders : list Z) (alloc : gmap Z handle -> Z).
Context (fopen : list Z -> option (list Z)) (access : list Z -> bool).
Context (searchpath_var module_path_var : option (list Z)) (sys_dlsearch_path : list Z).

Local Abbreviation pre := (preopen_loader vt loaders).
Local Abbreviation try := (tryall module_open has_memory loaders).
Local Abbreviation dlopenext := (lt_dlopenext module_open module_close has_memory junk handle_size advise_size pointer_size vt loaders alloc
  fopen access searchpath_var module_path_var sys_dlsearch_path false).

Hypothesis memory : forall n, has_memory n = true.
Hypothesis alloc_fresh : forall h, alloc h <> 0 /\ h !! alloc h = None.
Hypothesis some_loader : loaders <> [].

(** Which loader opens a file, and its module; when none does, the last one leaves a
    message.  [shadowed]: that message is that there is no such file, whatever the others
    had to say. *)
Context (opener : list Z -> option (Z * Z)) (shadowed : bool).
Hypothesis opens : forall f e, exists e',
  try_loaders module_open loaders (Some f) (Some ext_advise) e = (default (0, 0) (opener f), e')
  /\ (forall v m, opener f = Some (v, m) -> m <> 0)
  /\ (opener f = None -> is_Some (last_error e') /\ file_not_found e' = shadowed).

(** The loader of preloaded modules, if it is there, opens those that are linked in only. *)
Context (linked_in : list Z -> bool).
Hypothesis not_preloaded : pre <> 0 -> forall f e, linked_in f = false -> exists e', module_open pre (Some f) (Some ext_advise) e = (0, e').

(** *** Files in directories *)

Lemma foreach_all {D} (func : list Z -> D -> errors -> outcome (Z * D * errors)) path base d s :
  path_ok path -> text base -> zlength path + zlength base + 2 < 2 ^ 64 ->
  foreach_dirinpath has_memory junk func (Some path) base d s = visit func ((fun dir => name_in dir base) <$> dirs path) d s.
Proof.
  intros (Ht & Hr & Hd) Hb Hl. apply (foreach_spec has_memory junk (2 ^ 64 - 1)); try done; lia.
Qed.

Lemma strdup_ok t s : lt__strdup has_memory junk t s = (Some t, s).
Proof. unfold lt__strdup, lt_malloc, malloc. by rewrite memory. Qed.

(** The directory of the file that was found. *)
Lemma callback_file f d s base dr :
  f = name_in dr base -> module_name base -> dr <> [] ->
  find_file_callback has_memory junk fopen f d s =
    Ret (match fopen f with Some c => (1, (Some c, Some dr), s) | None => (0, (None, snd d), s) end).
Proof.
  intros -> (_ & Hne & Hs & _) Hdr. unfold find_file_callback, name_in. rewrite (is_null_false base) by done.
  rewrite is_null_false by (by destruct dr). cbn [negb assert_ mbind outcome_bind]. destruct (fopen _) as [c|]; [|done].
  assert (strrchr (dr ++ SLASH :: base) SLASH = Some (length dr)) as ->.
  { rewrite strrchr_app. cbn [strrchr]. rewrite strrchr_notin by done. rewrite Z.eqb_refl. f_equal. lia. }
  destruct dr as [|c0 dr]; [done|]. cbn [length]. change (S (length dr)) with (length (c0 :: dr)).
  rewrite take_app_length, strdup_ok. done.
Qed.

Lemma visit_files base ds pdir s :
  module_name base -> Forall (fun dr => dr <> []) ds ->
  exists r, visit (find_file_callback has_memory junk fopen) ((fun dir => name_in dir base) <$> ds) (None, pdir) s =
    Ret (r, match found_in fopen base ds with Some (dr, c) => (Some c, Some dr) | None => (None, pdir) end, s).
Proof.
  intros Hb. induction 1 as [|dr ds Hdr Hds IH]; [by eexists|]. cbn [fmap list_fmap visit found_in].
  rewrite (callback_file _ _ _ base dr) by done. cbn [mbind outcome_bind]. destruct (fopen (name_in dr base)) as [c|]; [by eexists|].
  cbn [snd]. change (negb (0 =? 0)) with false. cbn iota. exact IH.
Qed.

(** The directories of several paths. *)
Definition all_dirs (paths : list (option (list Z))) : list (list Z) := concat ((fun p => from_option dirs [] p) <$> paths).

Lemma dirs_ne path : path_ok path -> Forall (fun dr => dr <> []) (dirs path).
Proof. intros (Ht & Hr & _). eapply Forall_impl; [by apply dirs_ok|]. by intros x (_ & ? & _). Qed.

Definition paths_ok (base : list Z) (paths : list (option (list Z))) : Prop :=
  Forall (fun o => forall p, o = Some p -> path_ok p /\ zlength p + zlength base + 2 < 2 ^ 64) paths.

Lemma find_file_in_spec paths base pdir s :
  module_name base -> paths_ok base paths ->
  find_file_in has_memory junk fopen paths base pdir s =
    Ret (match found_in fopen base (all_dirs paths) with Some (dr, c) => (Some c, Some dr) | None => (None, pdir) end, s).
Proof.
  intros Hb. induction 1 as [|[p|] paths Hp Hps IH]; [done| |exact IH].
  cbn [find_file_in]. destruct (Hp p eq_refl) as [Hpo Hl]. unfold find_file. rewrite foreach_all by (done || apply Hb).
  destruct (visit_files base (dirs p) pdir s Hb (dirs_ne p Hpo)) as [r ->]. cbn [mbind outcome_bind].
  unfold all_dirs. cbn [fmap list_fmap concat from_option]. rewrite found_in_app. by destruct (found_in fopen base (dirs p)) as [[dr c]|].
Qed.

(** *** Opening one file *)

Definition not_open (m : mstate) (f : list Z) : Prop := find_open m (handles m) (Some f) = Done None.

(** A new handle at [p], beside what was there in [m0]. *)
Definition fresh_in (m0 : mstate) (p : Z) (m : mstate) : Prop :=
  heap m0 !! p = None /\ p <> 0 /\ heap m = <[p := handle0]> (heap m0) /\ handles m = handles m0 /\ closed m = closed m0.

(** [p] was opened for [f]. *)
Definition opened_in (m0 : mstate) (p : Z) (f : list Z) (x : Z * Z) (m : mstate) : Prop :=
  heap m = <[p := set_module (fst x) (snd x) (Some ext_advise) (set_filename (Some f) handle0)]> (heap m0)
  /\ handles m = handles m0 /\ closed m = closed m0.

(** The message of the last loader. *)
Definition own_message (e : errors) : Prop := is_Some (last_error e) /\ file_not_found e = shadowed.

Lemma find_open_alive m l f : find_open m l f = Done None -> forall q, q ∈ l -> is_Some (heap m !! q).
Proof.
  induction l as [|a l IH]; cbn [find_open]; intros H q Hq; [by apply elem_of_nil in Hq|]. unfold deref in H.
  destruct (heap m !! a) as [h|] eqn:Ea; [|done]. cbn [mbind run_bind] in H. case_decide; [done|].
  apply elem_of_cons in Hq as [->|Hq]; [by eexists|by apply IH].
Qed.

Lemma not_open_fresh m0 p m f : fresh_in m0 p m -> not_open m0 f -> find_open m (handles m) (Some f) = Done None.
Proof.
  intros (Hp & _ & Hh & Hl & _) Hn. rewrite Hl, <- Hn. apply find_open_frame. intros q Hq.
  destruct (find_open_alive _ _ _ Hn q Hq) as [h Hq']. rewrite Hh, lookup_insert_ne; [done|]. intros <-. congruence.
Qed.

Lemma fresh_errs m0 p m e : fresh_in m0 p m -> fresh_in m0 p (with_errs e m).
Proof. done. Qed.

(** [tryall_dlopen] with all loaders *)
Lemma try_spec m0 p m f :
  fresh_in m0 p m -> not_open m0 f ->
  match opener f with
  | Some x => exists m', try p f (Some ext_advise) 0 m = Done (0, p, m') /\ opened_in m0 p f x m'
  | None => exists m', try p f (Some ext_advise) 0 m = Done (1, p, m') /\ fresh_in m0 p m' /\ own_message (errs m')
  end.
Proof.
  intros Hf Hn. pose proof (not_open_fresh _ _ _ _ Hf Hn) as Hno. destruct Hf as (Hp & Hp0 & Hh & Hl & Hc). unfold tryall, tryall_dlopen.
  rewrite Hno. cbn [mbind run_bind].
  assert (deref m p = Done handle0) as -> by (unfold deref; by rewrite Hh, lookup_insert_eq). cbn [mbind run_bind]. rewrite memory.
  cbn [negb]. change (0 =? 0) with true. cbn iota. rewrite is_null_false by done.
  destruct (opens f (errs m)) as (e' & -> & Hz & He). destruct (opener f) as [[v mo]|] eqn:Eo; cbn [from_option id].
  - rewrite (proj2 (Z.eqb_neq mo 0)) by (by eapply Hz). eexists. split; [done|]. split_and!; [|done|done].
    cbn [heap with_errs update with_heap]. rewrite Hh, insert_insert_eq. done.
  - change (0 =? 0) with true. cbn iota. eexists. split; [done|]. split; [|by apply He]. split_and!; try done.
    cbn [heap with_errs update with_heap]. rewrite Hh, insert_insert_eq. done.
Qed.

(** ... and with that of preloaded modules *)
Lemma try_preloaded m0 p m f :
  fresh_in m0 p m -> not_open m0 f -> linked_in f = false -> pre <> 0 ->
  exists m', try p f (Some ext_advise) pre m = Done (1, p, m') /\ fresh_in m0 p m'.
Proof.
  intros Hf Hn Hlink Hpre. pose proof (not_open_fresh _ _ _ _ Hf Hn) as Hno. destruct Hf as (Hp & Hp0 & Hh & Hl & Hc). unfold tryall, tryall_dlopen.
  rewrite Hno. cbn [mbind run_bind].
  assert (deref m p = Done handle0) as -> by (unfold deref; by rewrite Hh, lookup_insert_eq). cbn [mbind run_bind]. rewrite memory.
  cbn [negb]. rewrite (proj2 (Z.eqb_neq _ 0) Hpre). cbn [is_null try_loaders].
  destruct (not_preloaded Hpre f (errs m) Hlink) as (e' & ->). change (negb (0 =? 0)) with false. cbn iota.
  change (0 =? 0) with true. cbn iota. eexists. split; [done|]. split_and!; try done.
  cbn [heap with_errs update with_heap]. rewrite Hh, insert_insert_eq. done.
Qed.

Lemma new_handle_spec m :
  exists m', new_handle has_memory handle_size alloc m = (alloc (heap m), m') /\ fresh_in m (alloc (heap m)) m' /\ errs m' = errs m.
Proof.
  unfold new_handle. rewrite memory. eexists. split; [done|]. destruct (alloc_fresh (heap m)) as [? ?]. done.
Qed.

Lemma new_handle_like m0 m :
  heap m = heap m0 -> handles m = handles m0 -> closed m = closed m0 ->
  exists m', new_handle has_memory handle_size alloc m = (alloc (heap m0), m') /\ fresh_in m0 (alloc (heap m0)) m' /\ errs m' = errs m.
Proof.
  intros Hh Hl Hc. destruct (new_handle_spec m) as (m' & E & (F1 & F2 & F3 & F4 & F5) & He). rewrite Hh in *.
  exists m'. split; [done|]. split; [|done]. by split_and!; congruence.
Qed.

Lemma free_fresh m0 p m : fresh_in m0 p m ->
  heap (free_handle p m) = heap m0 /\ handles (free_handle p m) = handles m0 /\ closed (free_handle p m) = closed m0 /\ errs (free_handle p m) = errs m.
Proof.
  intros (Hp & Hp0 & Hh & Hl & Hc). unfold free_handle. rewrite (proj2 (Z.eqb_neq p 0) Hp0). cbn. rewrite Hh.
  split; [by apply delete_insert_id|done].
Qed.

(** *** The module of an archive *)

Definition archive_files (dr : list Z) (r : la) : list (list Z) :=
  (if pre =? 0 then option_list (old_name r) else [])
  ++ match dlname r with
     | None => []
     | Some f =>
         (if installed r then (fun l => combine l f) <$> option_list (libdir r) else [combine dr (combine objdir f)])
         ++ [combine dr f]
     end.

(** What a series of attempts does. *)
Definition attempts (m0 : mstate) (p : Z) (fs : list (list Z)) (r : run (Z * Z * mstate)) : Prop :=
  match first_opened opener fs with
  | Some (f, x) => exists m', r = Done (0, p, m') /\ opened_in m0 p f x m'
  | None => exists m', r = Done (1, p, m') /\ fresh_in m0 p m' /\ (fs <> [] -> own_message (errs m'))
  end.

Lemma attempts_nil m0 p m : fresh_in m0 p m -> attempts m0 p [] (Done (1, p, m)).
Proof. intros H. exists m. done. Qed.

Lemma attempts_cons m0 p f fs r k :
  attempts m0 p [f] r -> (forall m, fresh_in m0 p m -> own_message (errs m) -> attempts m0 p fs (k p m)) ->
  (fs = [] -> forall m, k p m = Done (1, p, m)) -> attempts m0 p (f :: fs) (or_else r k).
Proof.
  unfold attempts. cbn [first_opened]. destruct (opener f) as [x|].
  - intros (m' & -> & Ho) _ _. by exists m'.
  - intros (m' & -> & Hf & Hm) Hk Hnil. cbn. specialize (Hm ltac:(done)). specialize (Hk m' Hf Hm).
    destruct (first_opened opener fs) as [[g x]|]; [done|]. destruct Hk as (m2 & E & Hf2 & Hm2). exists m2. split_and!; [done|done|].
    intros _. destruct fs as [|g fs]; [|by apply Hm2]. rewrite (Hnil eq_refl) in E. injection E as <-. done.
Qed.

Lemma attempts_skip m0 p fs m k :
  attempts m0 p fs (k p m) -> attempts m0 p fs (or_else (Done (1, p, m)) k).
Proof. done. Qed.

Lemma attempts_open_in m0 p m dr f :
  fresh_in m0 p m -> not_open m0 (combine dr f) ->
  attempts m0 p [combine dr f] (open_in module_open has_memory loaders dr f (Some ext_advise) p m).
Proof.
  intros Hf Hn. unfold attempts, open_in. rewrite memory. pose proof (try_spec m0 p m (combine dr f) Hf Hn) as H. cbn [first_opened].
  destruct (opener _) as [x|]; [destruct H as (m' & -> & Ho)|destruct H as (m' & -> & Hf' & Hm)]; cbn; by eauto.
Qed.

Lemma dlname_attempts m0 p m dr f r :
  fresh_in m0 p m ->
  let fs := (if installed r then (fun l => combine l f) <$> option_list (libdir r) else [combine dr (combine objdir f)]) ++ [combine dr f] in
  Forall (not_open m0) fs ->
  attempts m0 p fs
    (or_else (match libdir r with
              | Some l => if installed r then tryall_dlopen_module module_open has_memory loaders None l f (Some ext_advise) p m else Done (1, p, m)
              | None => Done (1, p, m)
              end) (fun p m =>
     or_else (if negb (installed r) then tryall_dlopen_module module_open has_memory loaders (Some dr) objdir f (Some ext_advise) p m
              else Done (1, p, m)) (fun p m =>
     or_else (tryall_dlopen_module module_open has_memory loaders None dr f (Some ext_advise) p m) (fun p m => Done (1, p, m))))).
Proof.
  intros Hf fs Hn. unfold tryall_dlopen_module. rewrite memory.
  assert (Hlast : forall m, fresh_in m0 p m ->
    attempts m0 p [combine dr f] (or_else (open_in module_open has_memory loaders dr f (Some ext_advise) p m) (fun p m => Done (1, p, m)))).
  { intros m' Hf'. apply attempts_cons; [|intros; by apply attempts_nil|done]. apply attempts_open_in; [done|].
    apply Forall_app in Hn as [_ Hn]. by apply Forall_cons in Hn as [? _]. }
  subst fs. destruct (installed r); cbn [negb].
  - destruct (libdir r) as [l|]; cbn [option_list fmap list_fmap app] in *; [|apply attempts_skip, attempts_skip, Hlast, Hf].
    apply Forall_cons in Hn as [Hn _]. apply attempts_cons; [by apply attempts_open_in| |done].
    intros m' Hf' _. apply attempts_skip, Hlast, Hf'.
  - cbn [app] in *. apply Forall_cons in Hn as [Hn _].
    assert (attempts m0 p [combine dr (combine objdir f); combine dr f]
      (or_else (open_in module_open has_memory loaders dr (combine objdir f) (Some ext_advise) p m)
        (fun p m => or_else (open_in module_open has_memory loaders dr f (Some ext_advise) p m) (fun p m => Done (1, p, m))))) as H.
    { apply attempts_cons; [by apply attempts_open_in| |done]. intros m' Hf' _. by apply Hlast. }
    by destruct (libdir r); apply attempts_skip.
Qed.

Lemma find_module_spec m0 p m dr r :
  fresh_in m0 p m -> Forall (not_open m0) (option_list (old_name r) ++ archive_files dr r) ->
  Forall (fun f => linked_in f = false) (option_list (old_name r)) ->
  attempts m0 p (archive_files dr r)
    (find_module module_open has_memory vt loaders p (Some dr) (libdir r) (dlname r) (old_name r) (installed r) (Some ext_advise) m).
Proof.
  intros Hf Hn Hlinks. unfold find_module, archive_files in *. apply Forall_app in Hn as [Hold Hn]. apply Forall_app in Hn as [_ Hn].
  match goal with |- attempts _ _ (_ ++ ?fs) (or_else _ ?k) =>
    assert (forall m, fresh_in m0 p m -> attempts m0 p fs (k p m)) as Hrest;
    [|assert (fs = [] -> forall m, k p m = Done (1, p, m)) as Hnil; [|set (rest := k) in *; clearbody rest; set (files := fs) in *; clearbody files]]
  end.
  { intros m' Hf'. destruct (dlname r) as [f|]; [exact (dlname_attempts m0 p m' dr f r Hf' Hn)|exact (attempts_nil m0 p m' Hf')]. }
  { destruct (dlname r); [|done]. by destruct (installed r), (libdir r). }
  destruct (old_name r) as [f|]; cbn [option_list app] in *.
  - apply Forall_cons in Hold as [Hold _]. destruct (Z.eqb_spec pre 0) as [E|E].
    + rewrite E. cbn [app]. apply attempts_cons.
      * pose proof (try_spec m0 p m f Hf Hold) as H. unfold attempts. cbn [first_opened].
        destruct (opener f); [done|]. destruct H as (m' & -> & ? & ?). by eauto.
      * intros m' Hf' _. apply Hrest, Hf'.
      * done.
    + cbn [app]. destruct (try_preloaded m0 p m f Hf Hold (Forall_inv Hlinks) E) as (m' & -> & Hf'). apply attempts_skip, Hrest, Hf'.
  - assert ((if pre =? 0 then option_list None else []) = @nil (list Z)) as -> by (by destruct (pre =? 0)). apply attempts_skip, Hrest, Hf.
Qed.

(** *** [try_dlopen] *)

Lemma name_parts_spec name x stem e s :
  module_name name -> module_name (name ++ x) -> split_ext (name ++ x) = (stem, e) ->
  name_parts has_memory junk name (Some x) s = Ret (Some (Parts (name ++ x) None (name ++ x) (symbol_name stem) e), s).
Proof.
  intros (_ & Hn & _) (Ht & Hne & Hs & Hp) Es. unfold name_parts. rewrite (is_null_false name Hn). cbn [negb assert_ mbind outcome_bind from_option id].
  rewrite memory. unfold canonicalize_path, lt_malloc, malloc. rewrite memory, (is_null_false _ Hne). cbn [negb assert_ mbind outcome_bind].
  assert (canon_loop (name ++ x) [] = name ++ x) as ->.
  { rewrite <- (app_nil_r (name ++ x)) at 1. rewrite canon_elem by (done || by right). cbn. by apply strip_plain_name. }
  unfold split_dir. rewrite strrchr_notin by done. rewrite (is_null_false _ Hne). cbn [negb assert_ mbind outcome_bind].
  rewrite Es, memory. done.
Qed.

(** Nothing but the error has changed. *)
Definition same (d d' : dl) : Prop :=
  heap (ms d') = heap (ms d) /\ handles (ms d') = handles (ms d) /\ closed (ms d') = closed (ms d) /\ user_search_path d' = user_search_path d.

Lemma same_trans d d1 d2 : same d d1 -> same d1 d2 -> same d d2.
Proof. unfold same. intros (? & ? & ? & ?) (? & ? & ? & ?). split_and!; congruence. Qed.

Lemma same_errs d d' e : same d d' -> same d (with_ms (with_errs e (ms d')) d').
Proof. done. Qed.

Definition module_handle (f : list Z) (x : Z * Z) (n : list Z) : handle := Handle (fst x) (Some f) (Some n) 1 false false false [] (snd x) [].

(** The module is open under [n], as the first of the handles. *)
Definition loaded (d : dl) (f : list Z) (x : Z * Z) (n : list Z) (d' : dl) : Prop :=
  let p := alloc (heap (ms d)) in
  heap (ms d') = <[p := module_handle f x n]> (heap (ms d)) /\ handles (ms d') = p :: handles (ms d)
  /\ closed (ms d') = closed (ms d) /\ user_search_path d' = user_search_path d.

Definition tries (d : dl) (fs : list (list Z)) (n : list Z) (saved : option message) (r : run (Z * Z * dl)) : Prop :=
  match first_opened opener fs with
  | Some (f, x) => exists d', r = Done (0, alloc (heap (ms d)), d') /\ loaded d f x n d' /\ last_error (errs (ms d')) = saved
  | None => exists d', r = Done (1, 0, d') /\ same d d' /\ (fs <> [] -> own_message (errs (ms d')))
  end.

Lemma registered_spec d m f x n saved m0 path :
  let p := alloc (heap (ms d)) in
  m0 = ms d -> path = user_search_path d -> opened_in m0 p f x m ->
  exists d', registered p p (Some n) saved (Dl m path) = Done (0, p, d') /\ loaded d f x n d' /\ last_error (errs (ms d')) = saved.
Proof.
  intros p -> -> (Hh & Hl & Hc). unfold registered, register_handle. rewrite Z.eqb_refl. cbn [ms]. unfold deref. rewrite Hh, lookup_insert_eq.
  cbn. eexists. split; [done|]. split; [|done]. split_and!; cbn; [|by rewrite Hl|done|done]. by rewrite insert_insert_eq.
Qed.

Lemma unload_fresh m0 p m : fresh_in m0 p m -> unload_deplibs module_close p m = Done (0, m).
Proof.
  intros (Hp & _ & Hh & _). unfold unload_deplibs, deref. rewrite Hh, lookup_insert_eq. cbn [mbind run_bind Modules.deplibs handle0 unload_loop].
  rewrite Hh, lookup_insert_eq. cbn [mbind run_bind]. do 2 f_equal. destruct m as [h l e c]. unfold update, with_heap. cbn in *. subst h.
  by rewrite insert_insert_eq.
Qed.

Lemma load_deplibs_none d p m open_dep path libs :
  fresh_in d p m -> load_deplibs has_memory junk pointer_size false open_dep p libs (Dl m path) = Done (0, Dl m path).
Proof.
  intros (Hp & _ & Hh & _). unfold load_deplibs, deref. cbn [ms]. rewrite Hh, lookup_insert_eq. cbn [mbind run_bind negb].
  do 2 f_equal. unfold with_ms. cbn. f_equal. destruct m as [h l e c]. unfold update, with_heap. cbn in *. subst h. by rewrite insert_insert_eq.
Qed.

Definition archive_of (content : list Z) (r : la) : Prop :=
  forall er, parse_dotla_file has_memory content (La None None None None true) er = Ret (0, r, er).

Definition la_paths (d : dl) : list (option (list Z)) := [user_search_path d; searchpath_var; module_path_var; Some sys_dlsearch_path].

Hypothesis system_path : sys_dlsearch_path <> [].

Local Abbreviation archive := (open_archive module_open module_close has_memory junk handle_size pointer_size vt loaders alloc fopen
  searchpath_var module_path_var sys_dlsearch_path false).

(** No such archive: the error says so. *)
Lemma archive_missing open_dep d d' base n saved :
  same d d' -> module_name base -> paths_ok base (la_paths d) -> found_in fopen base (all_dirs (la_paths d)) = None ->
  exists d2, archive open_dep (Parts base None base n archive_ext) (Some ext_advise) saved d' = Done (1, 0, d2) /\ same d d2
             /\ last_error (errs (ms d2)) = Some (Table FILE_NOT_FOUND).
Proof.
  intros Hs Hb Hp Hf. unfold open_archive. cbn [dir base_name]. rewrite (is_null_false _ system_path).
  destruct Hs as (Hh & Hl & Hc & Hu). rewrite Hu. change ([user_search_path d; _; _; _]) with (la_paths d).
  rewrite find_file_in_spec, Hf by done. cbn. eexists. split; [done|]. by split_and!.
Qed.

Lemma archive_found open_dep d d' base n saved dr content r :
  same d d' -> module_name base -> paths_ok base (la_paths d) -> found_in fopen base (all_dirs (la_paths d)) = Some (dr, content) ->
  archive_of content r -> Forall (not_open (ms d)) (option_list (old_name r) ++ archive_files dr r) ->
  Forall (fun f => linked_in f = false) (option_list (old_name r)) ->
  tries d (archive_files dr r) n saved (archive open_dep (Parts base None base n archive_ext) (Some ext_advise) saved d').
Proof.
  intros Hs Hb Hp Hf Hr Hn Hlinks. unfold open_archive. cbn [dir base_name mname]. rewrite (is_null_false _ system_path).
  destruct d' as [m' path']. destruct Hs as (Hh & Hl & Hc & Hu). cbn [ms user_search_path] in *. subst path'.
  change ([user_search_path d; _; _; _]) with (la_paths d).
  rewrite find_file_in_spec, Hf by done. cbn [lift mbind run_bind]. rewrite Hr. cbn [lift mbind run_bind].
  cbn [with_ms ms user_search_path].
  match goal with |- context [new_handle _ _ _ ?mm] => destruct (new_handle_like (ms d) mm) as (m1 & -> & Hf1 & _); [done..|] end. pose proof Hf1 as (_ & Hp0 & _).
  rewrite (proj2 (Z.eqb_neq _ 0) Hp0). change (negb (0 =? 0) || false) with false. cbn iota.
  unfold with_ms. cbn [ms user_search_path]. rewrite (load_deplibs_none (ms d)) by done. cbn [mbind run_bind ms user_search_path]. change (negb (0 =? 0)) with false. cbn iota.
  pose proof (find_module_spec (ms d) _ m1 dr r Hf1 Hn Hlinks) as Ha. unfold attempts in Ha. unfold tries.
  destruct (first_opened opener (archive_files dr r)) as [[f x]|].
  - destruct Ha as (m2 & -> & Ho). cbn [mbind run_bind]. change (negb (0 =? 0)) with false. rewrite Z.eqb_refl. cbn [negb mbind run_bind].
    by apply (registered_spec d m2 f x n saved (ms d)).
  - destruct Ha as (m2 & -> & Hf2 & Hm). cbn [mbind run_bind]. change (negb (1 =? 0)) with true. cbn iota.
    rewrite (unload_fresh (ms d)) by done. cbn [mbind run_bind]. eexists. split; [done|].
    destruct (free_fresh _ _ _ Hf2) as (F1 & F2 & F3 & F4). split; [by split_and!|]. cbn [ms]. by rewrite F4.
Qed.

(** Libraries in directories *)
Definition readable (f : list Z) : option unit := if access f then Some () else None.

Lemma with_errs_id m : with_errs (errs m) m = m.
Proof. by destruct m. Qed.

Lemma visit_handles base ds p m a e q m' :
  (forall dr u, found_in readable base ds = Some (dr, u) -> try p (name_in dr base) a 0 m = Done (e, q, m')) ->
  visit (find_handle_callback module_open has_memory loaders access a) ((fun dir => name_in dir base) <$> ds) (p, m) (errs m) =
    Ret match found_in readable base ds with
        | Some _ => (1, (if negb (e =? 0) then 0 else q, m'), errs m')
        | None => (0, (p, m), errs m)
        end.
Proof.
  induction ds as [|dr ds IH]; intros H; [done|]. cbn [fmap list_fmap visit found_in] in *. unfold readable in *.
  assert (find_handle_callback module_open has_memory loaders access a (name_in dr base) (p, m) (errs m) =
    if access (name_in dr base) then Ret (1, (if negb (e =? 0) then 0 else q, m'), errs m') else Ret (0, (p, m), errs m)) as ->.
  { unfold find_handle_callback. destruct (access (name_in dr base)); [|done]. cbn [fst snd negb]. by rewrite with_errs_id, (H dr () eq_refl). }
  destruct (access (name_in dr base)); [done|]. cbn [mbind outcome_bind]. change (negb (0 =? 0)) with false. cbn iota. by apply IH.
Qed.

Lemma find_handle_in_spec paths base p m a e q m' :
  module_name base -> paths_ok base paths ->
  (forall dr u, found_in readable base (all_dirs paths) = Some (dr, u) -> try p (name_in dr base) a 0 m = Done (e, q, m')) ->
  find_handle_in module_open has_memory junk loaders access paths base p a m =
    Done match found_in readable base (all_dirs paths) with
         | Some _ => (true, if negb (e =? 0) then 0 else q, m')
         | None => (false, p, m)
         end.
Proof.
  intros Hb. induction 1 as [|[path|] paths Hp Hps IH]; intros Ht; [done| |exact (IH Ht)].
  unfold all_dirs in *. cbn [find_handle_in fmap list_fmap concat from_option] in *. rewrite found_in_app in Ht |- *.
  destruct (Hp path eq_refl) as [Hpo Hl]. unfold find_handle. rewrite foreach_all by (done || apply Hb).
  rewrite (visit_handles base (dirs path) p m a e q m').
  - cbn [lift mbind run_bind]. destruct (found_in readable base (dirs path)) as [[dr u]|]; cbn.
    + by rewrite with_errs_id.
    + rewrite with_errs_id. by apply IH.
  - intros dr u E. rewrite E in Ht. by eapply Ht.
Qed.

Definition library_files (base : list Z) (ds : list (list Z)) : list (list Z) :=
  match found_in readable base ds with Some (dr, _) => [name_in dr base] | None => [base] end.

Local Abbreviation open_lib := (open_library module_open has_memory junk handle_size loaders alloc access
  searchpath_var module_path_var sys_dlsearch_path).

Lemma library_spec d d' base n x saved :
  same d d' -> module_name base -> paths_ok base (la_paths d) ->
  Forall (not_open (ms d)) (library_files base (all_dirs (la_paths d))) ->
  tries d (library_files base (all_dirs (la_paths d))) n saved (open_lib (Parts base None base n x) (Some ext_advise) saved d').
Proof.
  intros Hs Hb Hp Hn. unfold open_library. cbn [dir base_name mname attempt].
  destruct d' as [m' path']. destruct Hs as (Hh & Hl & Hc & Hu). cbn [ms user_search_path] in *. subst path'.
  destruct (new_handle_like (ms d) m') as (m1 & -> & Hf1 & _); [done..|]. pose proof Hf1 as (_ & Hp0 & _).
  rewrite (proj2 (Z.eqb_neq _ 0) Hp0). change ([user_search_path d; _; _; _]) with (la_paths d).
  set (p := alloc (heap (ms d))) in *.
  (* the one file that is tried *)
  assert (exists f, library_files base (all_dirs (la_paths d)) = [f]
    /\ f = match found_in readable base (all_dirs (la_paths d)) with Some (dr, _) => name_in dr base | None => base end) as (f & Ef & Hff).
  { unfold library_files. destruct (found_in _ _ _) as [[dr u]|]; by eexists. }
  rewrite Ef in Hn |- *. apply Forall_cons in Hn as [Hn _]. pose proof (try_spec (ms d) p m1 f Hf1 Hn) as Ht.
  assert (exists e q m2, try p f (Some ext_advise) 0 m1 = Done (e, q, m2)) as (e & q & m2 & Et).
  { destruct (opener f); destruct Ht as (? & -> & _); by do 3 eexists. }
  rewrite (find_handle_in_spec _ _ _ _ _ e q m2) by (try done; intros dr u E; rewrite E in Hff; by subst f).
  set (x3 := match found_in readable base (all_dirs (la_paths d)) with
             | Some _ => (true, if negb (e =? 0) then 0 else q, m2) | None => (false, p, m1) end).
  assert (Hres : (let '(found, new, m) := x3 in
    if (found : bool) then Done (new, m) else '(e, q, m) ← try new base (Some ext_advise) 0 m; Done (if negb (e =? 0) then 0 else q, m))
    = Done (if negb (e =? 0) then 0 else q, m2)).
  { unfold x3. destruct (found_in readable base (all_dirs (la_paths d))) as [[dr u]|]; [done|]. subst f. by rewrite Et. }
  cbn [mbind run_bind]. destruct x3 as [[found new] m3]. cbn [mbind run_bind] in Hres |- *. rewrite Hres.
  clear Hres. unfold tries. cbn [first_opened]. destruct (opener f) as [y|].
  - destruct Ht as (m4 & E4 & Ho). rewrite E4 in Et. injection Et as <- <- <-. change (negb (0 =? 0)) with false. cbn iota.
    cbn [mbind run_bind]. rewrite (proj2 (Z.eqb_neq _ 0) Hp0). by apply (registered_spec d m4 f y n saved (ms d)).
  - destruct Ht as (m4 & E4 & Hf4 & Hm). rewrite E4 in Et. injection Et as <- <- <-. change (negb (1 =? 0)) with true. cbn iota.
    cbn [mbind run_bind]. change (0 =? 0) with true. cbn iota. eexists. split; [done|].
    destruct (free_fresh _ _ _ Hf4) as (F1 & F2 & F3 & F4). split; [by split_and!|]. cbn [ms with_ms]. rewrite F4. by intros _.
Qed.

Local Abbreviation try_open := (try_dlopen module_open module_close has_memory junk handle_size pointer_size vt loaders alloc fopen access
  searchpath_var module_path_var sys_dlsearch_path false).

(** The name under which a preloaded module would be known. *)
Definition preloaded_name (name : list Z) : list Z := symbol_name name ++ DOT :: libext.

Lemma split_ext_spec name e : (exists e', e = DOT :: e' /\ DOT ∉ e') -> split_ext (name ++ e) = (name, e).
Proof.
  intros (e' & -> & He). unfold split_ext. rewrite strrchr_app. cbn [strrchr]. rewrite strrchr_notin by done. rewrite Z.eqb_refl, Nat.add_0_r.
  by rewrite take_app_length, drop_app_length.
Qed.

Lemma archive_dot : exists e', archive_ext = DOT :: e' /\ DOT ∉ e'.
Proof. exists (str "la"). split; [done|]. by apply (bool_decide_unpack _). Qed.

Lemma shlib_dot : exists e', shlib_ext = DOT :: e' /\ DOT ∉ e'.
Proof. exists (str "so"). split; [done|]. by apply (bool_decide_unpack _). Qed.

(** No preloaded module has the name, so that files are looked for. *)
Lemma search_files open_dep d name e :
  module_name name -> module_name (name ++ e) -> (exists e', e = DOT :: e' /\ DOT ∉ e') -> not_open (ms d) (preloaded_name name) ->
  linked_in (preloaded_name name) = false ->
  exists d', same d d' /\
    try_open open_dep (Some name) (Some e) (Some ext_advise) d =
      let ps := Parts (name ++ e) None (name ++ e) (symbol_name name) e in
      let saved := last_error (errs (ms d)) in
      if streq e archive_ext then archive open_dep ps (Some ext_advise) saved d' else open_lib ps (Some ext_advise) saved d'.
Proof.
  intros Hm Hme He Hn Hlink. unfold try_dlopen. rewrite (name_parts_spec name e name e) by (done || by apply split_ext_spec).
  cbn [lift mbind run_bind dir mname ext]. change (try_preload_only ext_advise) with false. cbn iota. unfold lt__get_last_error. destruct (Z.eqb_spec pre 0) as [E|E].
  { eexists. split; [|done]. done. }
  rewrite memory. cbn [negb with_ms ms user_search_path]. rewrite with_errs_id.
  destruct (new_handle_like (ms d) (ms d)) as (m1 & -> & Hf1 & _); [done..|]. pose proof Hf1 as (_ & Hp0 & _).
  rewrite (proj2 (Z.eqb_neq _ 0) Hp0). cbn [orb].
  fold (preloaded_name name). destruct (try_preloaded (ms d) _ m1 (preloaded_name name) Hf1 Hn Hlink E) as (m2 & -> & Hf2). cbn [mbind run_bind].
  change (1 =? 0) with false. cbn iota. eexists. split; [|done].
  destruct (free_fresh _ _ _ Hf2) as (F1 & F2 & F3 & F4). by split_and!.
Qed.

(** ** The specification *)

(** What an archive says. *)
Definition read_archive (content : list Z) : la :=
  match parse_dotla_file (fun _ => true) content (La None None None None true) errors0 with
  | Ret (_, r, _) => r
  | Undef => La None None None None true
  end.

(** The files that are tried for a name, in their order: those the archive in the first
    directory that has one tells, or else the library in the first directory that has
    one, or else the library in the directories of the system.  If the last loader hides
    the message of the others, the files of an archive count as not found, and the
    library is tried after them. *)
Definition files_of (d : dl) (name : list Z) : list (list Z) :=
  let libs := library_files (name ++ shlib_ext) (all_dirs (la_paths d)) in
  match found_in fopen (name ++ archive_ext) (all_dirs (la_paths d)) with
  | Some (dr, content) => archive_files dr (read_archive content) ++ (if shadowed then libs else [])
  | None => libs
  end.

(** An archive that was found can be read and names a library that is not open. *)
Definition archives_ok (d : dl) (name : list Z) : Prop :=
  forall dr content, found_in fopen (name ++ archive_ext) (all_dirs (la_paths d)) = Some (dr, content) ->
    archive_of content (read_archive content) /\ dlname (read_archive content) <> None
    /\ Forall (fun f => not_open (ms d) f /\ linked_in f = false) (option_list (old_name (read_archive content))).

Definition names_ok (d : dl) (name : list Z) : Prop :=
  module_name name /\ has_library_ext name = false /\ paths_ok (name ++ archive_ext) (la_paths d) /\ archives_ok d name
  /\ Forall (fun f => not_open (ms d) f /\ linked_in f = false) (preloaded_name name :: files_of d name).

Lemma archive_files_ne dr r : dlname r <> None -> archive_files dr r <> [].
Proof. unfold archive_files. destruct (dlname r) as [f|]; [|done]. intros _ [_ [_ [=]]%app_eq_nil]%app_eq_nil. Qed.

Lemma tries_same d d' fs n saved r :
  same d d' -> tries d' fs n saved r -> tries d fs n saved r.
Proof.
  unfold tries, loaded, same. intros (Hh & Hl & Hc & Hu). destruct (first_opened opener fs) as [[f x]|]; rewrite Hh, Hl, Hc, Hu; done.
Qed.

Lemma not_open_same d d' f : same d d' -> not_open (ms d') f <-> not_open (ms d) f.
Proof.
  intros (Hh & Hl & _). unfold not_open. rewrite Hl. rewrite (find_open_frame (ms d) (ms d')); [done|]. intros q _. by rewrite Hh.
Qed.

(** What [lt_dlopenext] returns when the files [fs] are tried. *)
Definition opens_of (d : dl) (fs : list (list Z)) (n : list Z) (r : run (Z * dl)) : Prop :=
  match first_opened opener fs with
  | Some (f, x) => exists d', r = Done (alloc (heap (ms d)), d') /\ loaded d f x n d' /\ last_error (errs (ms d')) = last_error (errs (ms d))
  | None => exists d', r = Done (0, d') /\ same d d' /\ own_message (errs (ms d'))
  end.

Definition opens_first (d : dl) (name : list Z) : run (Z * dl) -> Prop := opens_of d (files_of d name) (symbol_name name).

Lemma shlib_paths d name : paths_ok (name ++ archive_ext) (la_paths d) -> paths_ok (name ++ shlib_ext) (la_paths d).
Proof.
  unfold paths_ok. intros Hp. eapply Forall_impl; [exact Hp|]. intros o Ho p Eo. destruct (Ho p Eo) as [? Hz]. split; [done|].
  rewrite zlength_app in *. exact Hz.
Qed.

(** The second half of [lt_dlopenadvise], after no archive was found. *)
Lemma library_phase open_dep d d2 name :
  same d d2 -> module_name name -> paths_ok (name ++ archive_ext) (la_paths d) -> not_open (ms d) (preloaded_name name) ->
  linked_in (preloaded_name name) = false ->
  let libs := library_files (name ++ shlib_ext) (all_dirs (la_paths d)) in
  Forall (not_open (ms d)) libs ->
  opens_of d libs (symbol_name name)
    ('(e, p, d) ← try_open open_dep (Some name) (Some shlib_ext) (Some ext_advise)
                    (with_ms (with_errs (lt__set_last_error (lt__get_last_error (errs (ms d))) (errs (ms d2))) (ms d2)) d2);
     if negb (p =? 0) || ((0 <? e) && negb (file_not_found (errs (ms d)))) then Done (p, d)
     else Done (0, with_ms (with_error FILE_NOT_FOUND (ms d)) d)).
Proof.
  intros Hs2 Hm Hp Hpre Hlink libs Hno. set (d3 := with_ms _ d2).
  assert (same d d3) as Hs3 by done. assert (last_error (errs (ms d3)) = last_error (errs (ms d))) as Hl3 by done.
  destruct (search_files open_dep d3 name shlib_ext) as (d4 & Hs4 & ->);
    [done|by apply shlib_name_ok|apply shlib_dot|by apply (not_open_same d d3)|done|].
  change (streq shlib_ext archive_ext) with false. cbn iota zeta.
  pose proof (library_spec d d4 (name ++ shlib_ext) (symbol_name name) shlib_ext (last_error (errs (ms d3))) (same_trans _ _ _ Hs3 Hs4)
                (shlib_name_ok _ Hm) (shlib_paths _ _ Hp) Hno) as Ht.
  unfold tries in Ht. unfold opens_of. fold libs in Ht. destruct (first_opened opener libs) as [[f x]|].
  - destruct Ht as (d5 & -> & Hl & Hse). cbn [mbind run_bind]. destruct (alloc_fresh (heap (ms d))) as [Hp0 _].
    rewrite (proj2 (Z.eqb_neq _ 0) Hp0). cbn [negb orb]. by exists d5.
  - destruct Ht as (d5 & -> & Hs5 & Hown). assert (own_message (errs (ms d5))) as Ho by (apply Hown; unfold libs, library_files; by repeat case_match).
    cbn [mbind run_bind]. rewrite Z.eqb_refl. destruct Ho as [Hsome Hfnf]. rewrite Hfnf.
    assert (shadowed = true \/ shadowed = false) as [E|E] by (destruct shadowed; tauto); rewrite E; cbn.
    + eexists. split; [done|]. split; [done|]. split; [by eexists|]. rewrite E. by apply bool_decide_eq_true_2.
    + exists d5. split; [done|]. split; [done|]. by split.
Qed.

Lemma dlopenext_first fuel d name : names_ok d name -> opens_first d name (dlopenext (S fuel) (Some name) d).
Proof.
  intros (Hm & He & Hp & Ha & [Hno Hlink]%Forall_and). apply Forall_cons in Hno as [Hpre Hno]. apply Forall_cons in Hlink as [Hlink _]. cbn [lt_dlopenext]. unfold lt_dladvise_init. rewrite memory.
  change (negb (0 =? 0)) with false. cbn iota. cbn [lt_dladvise_ext advised lift mbind run_bind]. change (negb (0 =? 0)) with false. cbn iota.
  assert (with_ms (with_errs (errs (ms d)) (ms d)) d = d) as -> by (rewrite with_errs_id; by destruct d).
  change (Advise true _ _ _ _) with ext_advise. unfold lt_dlopenadvise. cbn [adv_symlocal adv_symglobal ext_advise andb try_ext negb orb].
  rewrite He, is_null_false by apply Hm. set (open_dep := fun n => dlopenext fuel (Some n)).
  destruct (search_files open_dep d name archive_ext) as (d1 & Hs1 & ->); [done|by apply archive_name_ok|apply archive_dot|done|done|].
  change (streq archive_ext archive_ext) with true. cbn iota zeta. unfold opens_first, files_of in *.
  destruct (found_in fopen (name ++ archive_ext) (all_dirs (la_paths d))) as [[dr content]|] eqn:Ef.
  - destruct (Ha dr content Ef) as (Hr & Hdl & [Hold Hlinks]%Forall_and). apply Forall_app in Hno as [Hfiles Hlibs].
    pose proof (archive_found open_dep d d1 _ (symbol_name name) (last_error (errs (ms d))) dr content _ Hs1 (archive_name_ok _ Hm) Hp Ef Hr) as Ht.
    unfold opens_of. rewrite first_opened_app. unfold tries in Ht. destruct (first_opened opener (archive_files dr _)) as [[f x]|].
    + destruct Ht as (d2 & -> & Hl & Hse); [by apply Forall_app|done|]. cbn [mbind run_bind]. destruct (alloc_fresh (heap (ms d))) as [Hp0 _].
      rewrite (proj2 (Z.eqb_neq _ 0) Hp0). cbn [negb orb]. by exists d2.
    + destruct Ht as (d2 & -> & Hs2 & Hown); [by apply Forall_app|done|]. specialize (Hown (archive_files_ne _ _ Hdl)). cbn [mbind run_bind].
      rewrite Z.eqb_refl. pose proof Hown as [_ Hfnf]. rewrite Hfnf.
      assert (shadowed = true \/ shadowed = false) as [E|E] by (destruct shadowed; tauto); rewrite E in Hlibs |- *.
      * by apply (library_phase open_dep d d2 name Hs2 Hm Hp Hpre Hlink).
      * by exists d2.
  - destruct (archive_missing open_dep d d1 (name ++ archive_ext) (symbol_name name) (last_error (errs (ms d))) Hs1) as (d2 & -> & Hs2 & Hfnf);
      [by apply archive_name_ok|done..|].
    cbn [mbind run_bind]. rewrite Z.eqb_refl. assert (file_not_found (errs (ms d2)) = true) as -> by (by apply bool_decide_eq_true_2).
    by apply (library_phase open_dep d d2 name Hs2 Hm Hp Hpre Hlink).
Qed.

(** C19: [lt_dlopenext] opens the right module.  For a name without directory and
    extension, the first directory of the search paths (that of the user, the two of the
    environment, that of the system, in this order) with a libtool archive decides: of
    the files the archive tells, the first one a loader opens is the module.  Without an
    archive it is the library in the first directory that has one, or else the library
    the system finds; if the last loader reports every failure as a missing file, this
    library is also tried when the files of the archive failed.  The new handle is counted once and is the first in the list;
    the last error is what it was before.  If no file can be opened, NULL is returned,
    the message of the last loader is the last error, and nothing else has changed: no handle is
    left behind.  The call returns with any fuel, since no other libraries are loaded. *)
Theorem module_resolved (fuel : nat) (d : dl) (name : list Z) :
  names_ok d name -> opens_first d name (dlopenext (S fuel) (Some name) d).
Proof. apply dlopenext_first. Qed.

(** ** The query mapper *)

Context (find_sym : Z -> Z -> list Z -> errors -> Z * errors).

(** [proxy_backend_init] between [lt_dlinit] and the end: TRUE on error, the address of the
    mapper, and the state of libltdl. *)
Definition load_mapper (pkg_lib_dir mapper : list Z) (d : dl) : run (bool * Z * dl) :=
  '(_, path, s) ← lift (lt_dladdsearchdir has_memory junk (str "map/.libs/") (user_search_path d) (errs (ms d)));
  '(_, path, s) ← lift (lt_dladdsearchdir has_memory junk pkg_lib_dir path s);
  let d := Dl (with_errs s (ms d)) path in
  let buf := take (Z.to_nat (BUFSIZ - 1)) (str "libproxymap-" ++ mapper) in
  '(p, d) ← dlopenext 1 (Some buf) d;
  if p =? 0 then
    let '(_, s) := lt_dlerror (errs (ms d)) in Done (true, 0, with_ms (with_errs s (ms d)) d)
  else
    '(address, m) ← lt_dlsym find_sym vt true p (Some (str "proxy_map_query")) (ms d);
    let '(err, s) := lt_dlerror (errs m) in
    Done (match err with Some _ => true | None => false end, address, with_ms (with_errs s m) d).

(** The symbols of a module: a symbol that is not there gives an error message. *)
Context (symbols : Z -> Z -> list Z -> Z).
Hypothesis finds : forall f v m n e, opener f = Some (v, m) -> linked_in f = false -> exists e', find_sym v m n e = (symbols v m n, e')
  /\ (if symbols v m n =? 0 then is_Some (last_error e') else e' = e).
Hypothesis tables : forall f v m, opener f = Some (v, m) -> linked_in f = false -> is_Some (vt !! v).

(** The mapper in a module: under its name for preloaded modules, or plain. *)
Definition mapper_in (x : Z * Z) (n : list Z) : Z :=
  let prefix := default [] (vt !! fst x ≫= sym_prefix) in
  let a := symbols (fst x) (snd x) (prefix ++ n ++ str "_LTX_" ++ str "proxy_map_query") in
  if a =? 0 then symbols (fst x) (snd x) (prefix ++ str "proxy_map_query") else a.

Lemma mapper_symbol d p h f x n :
  p <> 0 -> heap (ms d) !! p = Some h -> h = module_handle f x n -> opener f = Some x -> linked_in f = false -> last_error (errs (ms d)) = None ->
  exists e, lt_dlsym find_sym vt true p (Some (str "proxy_map_query")) (ms d) = Done (mapper_in x n, with_errs e (ms d))
            /\ (if mapper_in x n =? 0 then is_Some (last_error e) else last_error e = None).
Proof.
  intros Hp Hh -> Ho Hlink He. destruct x as [v mo]. destruct (tables f v mo Ho Hlink) as [t Ht]. rewrite (dlsym_search _ _ _ _ _ _ t Hp Hh Ht).
  unfold symbol_search, mapper_in. cbn [hname hvtable hmodule module_handle fst snd]. rewrite Ht. cbn [mbind option_bind].
  set (prefix := default [] (sym_prefix t)). set (long := prefix ++ n ++ _). set (short := prefix ++ str "proxy_map_query").
  destruct (finds f v mo long (errs (ms d)) Ho Hlink) as (e1 & -> & H1). destruct (Z.eqb_spec (symbols v mo long) 0) as [E1|E1]; cbn [negb].
  - destruct (finds f v mo short (lt__set_last_error (last_error (errs (ms d))) e1) Ho Hlink) as (e2 & -> & H2). exists e2. split; [done|].
    destruct (symbols v mo short =? 0); [done|]. by subst e2.
  - exists e1. split; [done|]. rewrite (proj2 (Z.eqb_neq _ 0) E1). by subst e1.
Qed.

Lemma first_opened_linked d name f x : names_ok d name -> first_opened opener (files_of d name) = Some (f, x) -> linked_in f = false.
Proof.
  intros (_ & _ & _ & _ & Hno) E. apply Forall_cons in Hno as [_ Hno]. rewrite Forall_forall in Hno. apply (Hno f). by eapply first_opened_in.
Qed.

(** The search path of the proxy. *)
Definition with_path (pkg_lib_dir : list Z) (d : dl) : dl := Dl (ms d) (Some (joined PATHSEP [str "map/.libs/"; pkg_lib_dir])).

Lemma proxy_path pkg_lib_dir d :
  addable pkg_lib_dir -> zlength pkg_lib_dir < 2 ^ 32 -> user_search_path d = None ->
  exists p, lt_dladdsearchdir has_memory junk (str "map/.libs/") (user_search_path d) (errs (ms d)) = Ret (0, p, errs (ms d))
    /\ lt_dladdsearchdir has_memory junk pkg_lib_dir p (errs (ms d)) = Ret (0, user_search_path (with_path pkg_lib_dir d), errs (ms d)).
Proof.
  intros Ha Hl Hu. assert (addable (str "map/.libs/")) as Hm.
  { split; [split|]; [by repeat constructor|by apply (bool_decide_unpack _)|done]. }
  pose proof (addsearchdir_spec has_memory junk (2 ^ 64 - 1) (fun n _ => memory n) (fun _ (u : unit) s => Ret (0, u, s)) [] (str "map/.libs/") (errs (ms d))) as E1.
  pose proof (addsearchdir_spec has_memory junk (2 ^ 64 - 1) (fun n _ => memory n) (fun _ (u : unit) s => Ret (0, u, s)) [str "map/.libs/"] pkg_lib_dir (errs (ms d))) as E2.
  cbn [is_null app] in E1, E2. eexists. rewrite Hu, E1; [split; [done|]|by apply Forall_singleton|done|lia].
  rewrite E2; [done|by apply Forall_cons; split; [|apply Forall_singleton]| |lia].
  change (joined PATHSEP [str "map/.libs/"; pkg_lib_dir]) with (str "map/.libs/" ++ PATHSEP :: pkg_lib_dir).
  rewrite zlength_app, zlength_cons. change (zlength (str "map/.libs/")) with 10. lia.
Qed.

(** The start of the proxy in terms of the files that are tried (Linux.v has the whole
    statement for the loaders of Linux). *)
Lemma mapper_found (pkg_lib_dir mapper : list Z) (d : dl) :
  let name := str "libproxymap-" ++ mapper in
  let opened := first_opened opener (files_of (with_path pkg_lib_dir d) name) in
  let address := from_option (fun '(_, x) => mapper_in x (symbol_name name)) 0 opened in
  addable pkg_lib_dir -> zlength pkg_lib_dir < 2 ^ 32 -> zlength name < BUFSIZ ->
  user_search_path d = None -> last_error (errs (ms d)) = None -> names_ok (with_path pkg_lib_dir d) name ->
  exists d', load_mapper pkg_lib_dir mapper d
             = Done (fst (proxy_backend_init (Some mapper) false (match opened with Some _ => true | None => false end) (negb (address =? 0))),
                     address, d')
    /\ last_error (errs (ms d')) = None
    /\ match opened with
       | Some (f, x) => loaded (with_path pkg_lib_dir d) f x (symbol_name name) d'
       | None => same (with_path pkg_lib_dir d) d'
       end.
Proof.
  intros name opened address Ha Hl Hz Hu He Hn. unfold load_mapper.
  destruct (proxy_path pkg_lib_dir d Ha Hl Hu) as (path & -> & E2). cbn [lift mbind run_bind]. rewrite E2. cbn [lift mbind run_bind].
  fold name. rewrite take_ge by (unfold zlength in Hz; unfold BUFSIZ in *; lia). rewrite with_errs_id.
  change (Dl (ms d) (user_search_path (with_path pkg_lib_dir d))) with (with_path pkg_lib_dir d).
  pose proof (dlopenext_first 0 _ _ Hn) as Ho. unfold opens_first, opens_of in Ho. fold opened in Ho. subst address.
  destruct opened as [[f x]|] eqn:Eo; cbn [from_option proxy_backend_init negb fst].
  - destruct Ho as (d' & -> & Hld & Hse). cbn [mbind run_bind]. destruct (alloc_fresh (heap (ms (with_path pkg_lib_dir d)))) as [Hp0 _].
    rewrite (proj2 (Z.eqb_neq _ 0) Hp0). change (ms (with_path pkg_lib_dir d)) with (ms d) in *. rewrite He in Hse.
    destruct (mapper_symbol d' (alloc (heap (ms d))) (module_handle f x (symbol_name name)) f x (symbol_name name) Hp0) as (e & -> & Hm); [|done|by eapply first_opened_Some|by apply (first_opened_linked _ _ _ _ Hn Eo)|done|].
    { destruct Hld as (-> & _). apply lookup_insert_eq. }
    assert (match last_error e with Some _ => true | None => false end = negb (negb (mapper_in x (symbol_name name) =? 0))) as E.
    { destruct (mapper_in x (symbol_name name) =? 0); [by destruct Hm as [? ->]|by rewrite Hm]. }
    cbn. unfold lt__get_last_error. rewrite E. eexists. split; [done|]. split; [done|exact Hld].
  - destruct Ho as (d' & -> & Hs & Hown). cbn. eexists. split; [done|]. split; [done|exact Hs].
Qed.

End resolve.

(** ** A system with one mapper *)

Definition demo_la : list Z :=
  file_of (la_file (str " a libtool library") (str "libproxymap-rowa.so") (str "libproxymap-rowa.so.0 libproxymap-rowa.so") [] []
             (str "/usr/lib/proxy") true).
Definition demo_fopen (f : list Z) : option (list Z) := if decide (f = str "/usr/lib/proxy/libproxymap-rowa.la") then Some demo_la else None.
Definition rowa_opener (f : list Z) : option (Z * Z) := if decide (f = str "/usr/lib/proxy/libproxymap-rowa.so") then Some (16, 77) else None.
Definition rowa_open (v : Z) (f : option (list Z)) (a : option advise) (e : errors) : Z * errors :=
  match f ≫= rowa_opener with
  | Some (_, m) => (m, e)
  | None => (0, lt__set_last_error (Some (System (str "cannot open shared object file"))) e)
  end.
Definition demo_symbols (v m : Z) (n : list Z) : Z := if decide (n = str "proxy_map_query") then 4096 else 0.
Definition demo_find (v m : Z) (n : list Z) (e : errors) : Z * errors :=
  if demo_symbols v m n =? 0 then (0, set_error SYMBOL_NOT_FOUND e) else (demo_symbols v m n, e).
Definition rowa_tables : gmap Z lt_dlvtable := <[16 := VTable (str "lt_dlopen") None true true true None None 1]> ∅.

Lemma rowa_opens f e : exists e',
  try_loaders rowa_open [16] (Some f) (Some ext_advise) e = (default (0, 0) (rowa_opener f), e')
  /\ (forall v m, rowa_opener f = Some (v, m) -> m <> 0)
  /\ (rowa_opener f = None -> is_Some (last_error e') /\ file_not_found e' = false).
Proof.
  unfold try_loaders, rowa_open. cbn [mbind option_bind]. unfold rowa_opener. case_decide.
  - eexists. split; [done|]. split; [by intros v m [= <- <-]|done].
  - eexists. split; [done|]. split; [done|]. intros _. by split; [eexists|].
Qed.

Definition demo_dl : dl := Dl (MState ∅ [] errors0 []) None.

Lemma plain_path p : bool_decide (Forall (fun c => c <> NUL) p) = true ->
  bool_decide (Forall (fun e => e <> [] -> strip e <> []) (split_on PATHSEP p)) = true -> bool_decide (dirs p <> []) = true -> path_ok p.
Proof. intros H1%bool_decide_eq_true H2%bool_decide_eq_true H3%bool_decide_eq_true. done. Qed.

Lemma demo_names :
  names_ok (fun _ => true) rowa_tables [16] demo_fopen (fun _ => false) None None (str "/lib:/usr/lib") false (fun _ => false)
    (with_path (str "/usr/lib/proxy") demo_dl)
    (str "libproxymap-" ++ str "rowa").
Proof.
  split; [|split; [reflexivity|]].
  { split; [by repeat constructor|]. split; [done|]. by split; apply (bool_decide_unpack _). }
  split; [|split].
  - unfold paths_ok, la_paths. apply Forall_cons. split; [intros p [= <-]|]. { split; [apply plain_path; vm_compute; reflexivity|reflexivity]. }
    apply Forall_cons. split; [done|]. apply Forall_cons. split; [done|].
    apply Forall_cons. split; [intros p [= <-]; split; [apply plain_path; vm_compute; reflexivity|reflexivity]|]. constructor.
  - intros dr content E. assert (content = demo_la) as ->.
    { revert E. vm_compute. intros [= _ <-]. reflexivity. }
    split; [|split].
    + intros er. unfold demo_la. rewrite la_file_read; [|done|by apply line_bodyb|..].
      * vm_compute. reflexivity.
      * repeat (apply Forall_cons_2; [split; [by apply line_bodyb|by apply (bool_decide_unpack _)]|]). apply Forall_nil_2.
      * repeat (apply Forall_cons_2; [vm_compute; reflexivity|]). apply Forall_nil_2.
    + vm_compute. discriminate.
    + vm_compute. constructor.
  - apply Forall_forall. intros f _. split; reflexivity.
Qed.

(** The mapper is found through the archive in the second directory. *)
Lemma module_resolved_witness :
  exists d', lt_dlopenext rowa_open demo_close (fun _ => true) 170 80 20 8 rowa_tables [16] demo_alloc demo_fopen (fun _ => false) None None
      (str "/lib:/usr/lib") false 1 (Some (str "libproxymap-rowa")) (with_path (str "/usr/lib/proxy") demo_dl) = Done (1, d')
    /\ handles (ms d') = [1]
    /\ heap (ms d') = <[1 := Handle 16 (Some (str "/usr/lib/proxy/libproxymap-rowa.so")) (Some (str "libproxymap_rowa")) 1 false false false [] 77 []]> ∅.
Proof.
  pose proof (module_resolved rowa_open demo_close (fun _ => true) 170 80 20 8 rowa_tables [16] demo_alloc demo_fopen (fun _ => false) None None
    (str "/lib:/usr/lib") ltac:(reflexivity) demo_alloc_fresh ltac:(discriminate) rowa_opener false rowa_opens
    (fun _ => false) (fun H => False_ind _ (H eq_refl)) ltac:(discriminate) 0 (with_path (str "/usr/lib/proxy") demo_dl) (str "libproxymap-rowa") demo_names) as H.
  unfold opens_first, opens_of in H.
  match type of H with match ?x with _ => _ end =>
    assert (x = Some (str "/usr/lib/proxy/libproxymap-rowa.so", (16, 77))) as E by (vm_compute; reflexivity); rewrite E in H end.
  destruct H as (d' & E1 & (Hh & Hl & _) & _). exists d'. split; [exact E1|]. split; [exact Hl|exact Hh].
Defined.

(** ** Where the code does not do what it says *)

(** The handle of the program itself is made resident, so that it cannot be closed; but
    with advice the flag of the advice takes its place. *)
Lemma self_not_resident module_open module_close has_memory junk hs as_ ps vt v alloc fopen access var1 var2 sys deps open_dep a m e' d :
  (forall n, has_memory n = true) -> (forall h, alloc h <> 0 /\ h !! alloc h = None) -> handles (ms d) = [] ->
  module_open v None (Some a) (errs (ms d)) = (m, e') -> m <> 0 -> adv_symlocal a && adv_symglobal a = false ->
  exists d', lt_dlopenadvise module_open module_close has_memory junk hs ps vt [v] alloc fopen access var1 var2 sys deps open_dep None (Some a) d
             = Done (alloc (heap (ms d)), d')
    /\ is_resident <$> heap (ms d') !! alloc (heap (ms d)) = Some (adv_resident a)
    /\ lt_dladvise_init (has_memory as_) (errs (ms d)) = (0, Some advise0, errs (ms d)) /\ adv_resident advise0 = false.
Proof.
  intros Hmem Ha Hl Ho Hm Hc. unfold lt_dlopenadvise. rewrite Hc. unfold try_dlopen, new_handle, lt_dladvise_init. rewrite !Hmem.
  destruct (Ha (heap (ms d))) as [Hp0 _]. rewrite (proj2 (Z.eqb_neq _ 0) Hp0). unfold tryall_dlopen, deref.
  cbn [handles update with_heap heap errs]. rewrite Hl. cbn [find_open mbind run_bind]. rewrite !lookup_insert_eq. cbn [mbind run_bind].
  change (0 =? 0) with true. cbn [is_null try_loaders errs]. rewrite Ho. rewrite (proj2 (Z.eqb_neq m 0) Hm). cbn [negb mbind run_bind].
  rewrite (proj2 (Z.eqb_neq m 0) Hm). cbn [mbind run_bind].
  change (negb (0 =? 0)) with false. cbn iota. unfold registered, register_handle. rewrite Z.eqb_refl.
  unfold deref. cbn. rewrite !lookup_insert_eq. cbn. eexists. split; [done|]. cbn. by rewrite lookup_insert_eq.
Qed.

(** Directories that a library adds to the search path for the libraries it needs stay
    there if the path was empty before. *)
Lemma deplib_path_kept :
  exists d', load_deplibs (fun _ => true) 170 8 true (fun _ d => Done (0, d)) 5 (Some (str "-L/opt/lib -lm"))
               (Dl (MState (<[5 := handle0]> ∅) [] errors0 []) None) = Done (0, d')
             /\ user_search_path d' = Some (str "/opt/lib").
Proof. eexists. split; [vm_compute; reflexivity|reflexivity]. Qed.
