(* ===== verification/Preopen.v ===== *)
(** * Preloaded modules (src/libltdl/loaders/preopen.c)

    Modules that are linked into the program are described by tables of symbols, which
    libtool generates.  A table starts with its originator; an entry without an address
    starts a module, whose symbols follow; an entry without a name ends the table.  The
    tables in use form a chain.  A module that was opened is the address of its
    table. *)

From S2P Require Import Prelude.
From S2P Require Import CString.
From S2P Require Import Argz.
From S2P Require Import Lterror.
From S2P Require Import Slist.
From S2P Require Import SearchPath.
From S2P Require Import Loaders.
From S2P Require Import Modules.
Local Open Scope Z_scope.

(** [lt_dlsymlist] *)
Record symbol := Symbol { sname : option (list Z); address : Z }.

Definition PROGRAM : list Z := str "@PROGRAM@".

(** The static variables: the chain of tables, the default table, and the table of
    functions (zero: not there). *)
Record preopen := Preopen { preloaded_symlists : list Z; default_preloaded_symbols : Z; pvtable : option Z }.

Definition with_chain (l : list Z) (s : preopen) : preopen := Preopen l (default_preloaded_symbols s) (pvtable s).

Section preopen.
(** The tables in memory. *)
Context (symlists : gmap Z (list symbol)).

Definition table (p : Z) : run (list symbol) := match symlists !! p with Some t => Done t | None => Stuck end.

(** [get_vtable]; [dlloader_data] is kept in [pvtable], the result tells if there is a
    table of functions. *)
Definition get_vtable (has_memory : bool) (loader_data : Z) (s : preopen) (e : errors) : bool * preopen * errors :=
  match pvtable s with
  | None =>
      if has_memory then (true, Preopen (preloaded_symlists s) (default_preloaded_symbols s) (Some loader_data), e)
      else (false, s, set_error NO_MEMORY e)
  | Some d => if d =? loader_data then (true, s, e) else (false, s, set_error INIT_LOADER e)
  end.

Definition free_symlists (s : preopen) : preopen := with_chain [] s.

(** A table is not added twice. *)
Definition add_symlist (has_memory : bool) (symlist : Z) (s : preopen) (e : errors) : Z * preopen * errors :=
  if bool_decide (symlist ∈ preloaded_symlists s) then (0, s, e)
  else if has_memory then (0, with_chain (symlist :: preloaded_symlists s) s, e)
  else (1, s, set_error NO_MEMORY e).

Definition lt_dlpreload_default (preloaded : Z) (s : preopen) : Z * preopen := (0, Preopen (preloaded_symlists s) preloaded (pvtable s)).

Definition lt_dlpreload (has_memory : bool) (preloaded : Z) (s : preopen) (e : errors) : Z * preopen * errors :=
  if negb (preloaded =? 0) then add_symlist has_memory preloaded s e
  else
    let s := free_symlists s in
    if negb (default_preloaded_symbols s =? 0) then add_symlist has_memory (default_preloaded_symbols s) s e else (0, s, e).

Definition vl_init (has_memory : bool) (s : preopen) (e : errors) : Z * preopen * errors :=
  let s := with_chain [] s in
  if negb (default_preloaded_symbols s =? 0) then lt_dlpreload has_memory (default_preloaded_symbols s) s e else (0, s, e).

Definition vl_exit (s : preopen) : Z * preopen := (0, free_symlists (Preopen (preloaded_symlists s) (default_preloaded_symbols s) None)).

(** ** Opening and symbols *)

(** The inner loop of [vm_open]: an entry of the name without address, with a symbol
    behind it. *)
Fixpoint has_module (filename : list Z) (t : list symbol) : run bool :=
  match t with
  | [] => Stuck
  | s :: t' =>
      match sname s with
      | None => Done false
      | Some n =>
          if (address s =? 0) && bool_decide (n = filename) then
            match t' with
            | [] => Stuck
            | s' :: _ => if negb (address s' =? 0) && bool_decide (sname s' <> None) then Done true else has_module filename t'
            end
          else has_module filename t'
      end
  end.

Fixpoint open_loop (filename : list Z) (lists : list Z) (e : errors) : run (Z * errors) :=
  match lists with
  | [] => Done (0, set_error FILE_NOT_FOUND e)
  | p :: lists => t ← table p; b ← has_module filename t; if (b : bool) then Done (p, e) else open_loop filename lists e
  end.

Definition vm_open (filename : option (list Z)) (s : preopen) (e : errors) : run (Z * errors) :=
  if is_null (preloaded_symlists s) then Done (0, set_error NO_SYMBOLS e)
  else open_loop (default PROGRAM filename) (preloaded_symlists s) e.

Definition vm_close (module : Z) : Z := 0.

Fixpoint sym_loop (name : list Z) (t : list symbol) (e : errors) : run (Z * errors) :=
  match t with
  | [] => Stuck
  | s :: t =>
      match sname s with
      | None => Done (0, set_error SYMBOL_NOT_FOUND e)
      | Some n => if bool_decide (n = name) then Done (address s, e) else sym_loop name t e
      end
  end.

(** The first two entries (the originator and the first module) are skipped. *)
Definition vm_sym (module : Z) (name : list Z) (e : errors) : run (Z * errors) := t ← table module; sym_loop name (drop 2 t) e.

(** ** All modules of an originator *)

Section open_all.
(** The state of libltdl, [lt_dlopen] and the callback. *)
Context {D : Type} (dlopen : list Z -> D -> run (Z * D)) (func : Z -> D -> run (Z * D)) (fail : D -> D).

Fixpoint open_modules (t : list symbol) (d : D) : run (Z * D) :=
  match t with
  | [] => Stuck
  | s :: t =>
      match sname s with
      | None => Done (0, d)
      | Some n =>
          '(x, d) ← (if (address s =? 0) && bool_decide (n <> PROGRAM) then
                       '(h, d) ← dlopen n d; if h =? 0 then Done (1, d) else func h d
                     else Done (0, d));
          '(y, d) ← open_modules t d;
          Done (x + y, d)
      end
  end.

(** The number of errors and of tables of the originator. *)
Fixpoint preload_loop (originator : list Z) (lists : list Z) (d : D) : run (Z * Z * D) :=
  match lists with
  | [] => Done (0, 0, d)
  | p :: lists =>
      t ← table p;
      match t with
      | Symbol (Some n) _ :: t' =>
          '(x, k, d) ← (if bool_decide (n = originator) then '(x, d) ← open_modules t' d; Done (x, 1, d) else Done (0, 0, d));
          '(y, found, d) ← preload_loop originator lists d;
          Done (x + y, k + found, d)
      | _ => Stuck
      end
  end.

(** [fail] sets the error [CANNOT_OPEN]. *)
Definition lt_dlpreload_open (originator : option (list Z)) (s : preopen) (d : D) : run (Z * D) :=
  '(errors, found, d) ← preload_loop (default PROGRAM originator) (preloaded_symlists s) d;
  if found =? 0 then Done (errors + 1, fail d) else Done (errors, d).

End open_all.
End preopen.

(** ** Tables as libtool writes them *)

(** A module: its name and its symbols. *)
Abbreviation module := (list Z * list (list Z * Z))%type.

Definition entries (m : module) : list symbol := Symbol (Some (fst m)) 0 :: ((fun s => Symbol (Some (fst s)) (snd s)) <$> snd m).

Definition symtab (originator : list Z) (mods : list module) : list symbol :=
  Symbol (Some originator) 0 :: concat (entries <$> mods) ++ [Symbol None 0].

Definition module_ok (m : module) : Prop := Forall (fun s => snd s <> 0) (snd m).

(** A module of the name that has symbols. *)
Definition offers (lib : list Z) (mods : list module) : bool := existsb (fun m => bool_decide (fst m = lib) && negb (is_null (snd m))) mods.

Lemma has_module_symbols lib (syms : list (list Z * Z)) t :
  Forall (fun s => snd s <> 0) syms -> has_module lib (((fun s => Symbol (Some (fst s)) (snd s)) <$> syms) ++ t) = has_module lib t.
Proof.
  induction 1 as [|[n a] syms Ha Hs IH]; [done|]. cbn [fmap list_fmap app has_module sname address fst snd] in *.
  by rewrite (proj2 (Z.eqb_neq a 0) Ha).
Qed.

Lemma has_module_mods lib mods : Forall module_ok mods -> has_module lib (concat (entries <$> mods) ++ [Symbol None 0]) = Done (offers lib mods).
Proof.
  induction 1 as [|[l syms] mods Hm Hms IH]; [done|]. unfold module_ok in Hm. cbn [fmap list_fmap concat snd offers existsb fst] in *.
  rewrite <- app_assoc. unfold entries at 1. cbn [app has_module sname address fst snd]. change (0 =? 0) with true. cbn [andb].
  rewrite has_module_symbols by done. rewrite IH. fold (offers lib mods). case_bool_decide as El; [|done]. cbn [andb].
  destruct syms as [|[n a] syms]; cbn [fmap list_fmap app is_null negb orb].
  - destruct mods as [|[l' syms'] mods]; done.
  - apply Forall_cons in Hm as [Ha _]. cbn [fst snd address sname] in *. by rewrite (proj2 (Z.eqb_neq a 0) Ha).
Qed.

Lemma has_module_tab lib originator mods : Forall module_ok mods -> has_module lib (symtab originator mods) = Done (offers lib mods).
Proof.
  intros Hm. unfold symtab. cbn [has_module sname address]. change (0 =? 0) with true. cbn [andb]. rewrite has_module_mods by done.
  case_bool_decide; [|done]. destruct mods as [|[l syms] mods]; done.
Qed.

Lemma sym_loop_spec n t (names : list (list Z * Z)) e :
  t = ((fun s => Symbol (Some (fst s)) (snd s)) <$> names) ++ [Symbol None 0] ->
  sym_loop n t e = Done match snd <$> list_find (fun s => fst s = n) names with
                        | Some (n', a) => (a, e)
                        | None => (0, set_error SYMBOL_NOT_FOUND e)
                        end.
Proof.
  intros ->. induction names as [|[n' a'] names IH]; [done|]. cbn [fmap list_fmap app sym_loop sname fst snd list_find] in *.
  destruct (decide (n' = n)) as [->|Hn].
  - by rewrite bool_decide_eq_true_2.
  - rewrite bool_decide_eq_false_2 by done. rewrite IH. by destruct (list_find _ names) as [[i [n2 a2]]|].
Qed.

(** All entries of a table behind the first module's name. *)
Definition all_entries (mods : list module) : list (list Z * Z) := concat ((fun m => (fst m, 0) :: snd m) <$> mods).

Lemma entries_all mods : concat (entries <$> mods) = (fun s => Symbol (Some (fst s)) (snd s)) <$> all_entries mods.
Proof.
  induction mods as [|[l syms] mods IH]; [done|]. unfold all_entries in *. cbn [fmap list_fmap concat]. rewrite IH. rewrite fmap_app. done.
Qed.

Section lookup.
Context (symlists : gmap Z (list symbol)).
(** What is in the tables of the chain. *)
Context (mods_of : Z -> list module) (originator_of : Z -> list Z).

Definition chain_ok (s : preopen) : Prop :=
  Forall (fun p => symlists !! p = Some (symtab (originator_of p) (mods_of p)) /\ Forall module_ok (mods_of p) /\ p <> 0) (preloaded_symlists s).

Lemma open_loop_spec lib lists e :
  Forall (fun p => symlists !! p = Some (symtab (originator_of p) (mods_of p)) /\ Forall module_ok (mods_of p) /\ p <> 0) lists ->
  open_loop symlists lib lists e =
    Done match snd <$> list_find (fun p => offers lib (mods_of p) = true) lists with Some p => (p, e) | None => (0, set_error FILE_NOT_FOUND e) end.
Proof.
  induction 1 as [|p lists (Hp & Hm & _) Hl IH]; [done|]. cbn [open_loop list_find]. unfold table. rewrite Hp. cbn [mbind run_bind].
  rewrite has_module_tab by done. cbn [mbind run_bind]. destruct (decide (offers lib (mods_of p) = true)) as [E|E].
  - by rewrite E.
  - apply not_true_is_false in E. rewrite E, IH. by destruct (list_find _ lists) as [[i q]|].
Qed.

Lemma offers_in lib syms mods : (lib, syms) ∈ mods -> syms <> [] -> offers lib mods = true.
Proof.
  intros Hin Hne. apply existsb_exists. exists (lib, syms). split; [by apply list_elem_of_In|]. cbn. rewrite bool_decide_eq_true_2 by done.
  by destruct syms.
Qed.

Lemma find_unique (names : list (list Z * Z)) n a :
  NoDup names.*1 -> (n, a) ∈ names -> snd <$> list_find (fun s => fst s = n) names = Some (n, a).
Proof.
  intros Hd Hin. destruct (list_find_elem_of (fun s => fst s = n) names (n, a) Hin eq_refl) as [[i [n' a']] E]. rewrite E. cbn.
  apply list_find_Some in E as (Hi & Hn & _). cbn in Hn. subst n'. f_equal. f_equal.
  apply list_elem_of_lookup in Hin as [j Hj]. assert (i = j) as ->; [|congruence].
  eapply NoDup_lookup; [exact Hd|..]; rewrite list_lookup_fmap; [by rewrite Hi|by rewrite Hj].
Qed.

Lemma sym_table p n e m mods :
  symlists !! p = Some (symtab (originator_of p) (m :: mods)) ->
  vm_sym symlists p n e = Done match snd <$> list_find (fun s => fst s = n) (drop 1 (all_entries (m :: mods))) with
                               | Some (_, a) => (a, e)
                               | None => (0, set_error SYMBOL_NOT_FOUND e)
                               end.
Proof.
  intros Hp. unfold vm_sym, table. rewrite Hp. cbn [mbind run_bind]. apply sym_loop_spec. unfold symtab. rewrite entries_all. done.
Qed.

(** Preloaded modules are found by name: opening one gives the first table of the chain
    that has symbols of such a module, or the error that there is no such file.  In the
    table that was found every symbol has its address, if names are distinct; these are
    the symbols of all modules of the table, not only of the one that was opened.  Other
    names give the error that there is no such symbol.  Nothing behind the end of a table
    is read. *)
Theorem preloaded_lookup (s : preopen) (lib : list Z) (e : errors) :
  chain_ok s -> preloaded_symlists s <> [] ->
  match snd <$> list_find (fun p => offers lib (mods_of p) = true) (preloaded_symlists s) with
  | None => vm_open symlists (Some lib) s e = Done (0, set_error FILE_NOT_FOUND e)
  | Some p =>
      vm_open symlists (Some lib) s e = Done (p, e)
      /\ (NoDup (all_entries (mods_of p)).*1 ->
          forall l syms n a, (l, syms) ∈ mods_of p -> (n, a) ∈ syms -> vm_sym symlists p n e = Done (a, e))
      /\ (forall n, n ∉ (all_entries (mods_of p)).*1 -> vm_sym symlists p n e = Done (0, set_error SYMBOL_NOT_FOUND e))
  end.
Proof.
  intros Hc Hne. unfold vm_open. rewrite is_null_false by done. rewrite open_loop_spec by exact Hc. cbn [from_option id].
  destruct (list_find _ (preloaded_symlists s)) as [[i p]|] eqn:Ef; cbn [fmap option_fmap option_map snd]; [|done].
  apply list_find_Some in Ef as (Hi & Ho & _). unfold chain_ok in Hc. rewrite Forall_forall in Hc.
  destruct (Hc p (list_elem_of_lookup_2 _ _ _ Hi)) as (Hp & Hm & _). destruct (mods_of p) as [|m mods] eqn:Em; [done|].
  split; [done|]. split.
  - intros Hd l syms n a Hl Hn. rewrite (sym_table p n e m mods Hp). unfold all_entries in Hd |- *. cbn [fmap list_fmap concat app drop] in Hd |- *.
    rewrite (find_unique _ n a); [done|by apply NoDup_cons in Hd as [_ Hd]|].
    apply elem_of_cons in Hl as [<-|Hl]; apply elem_of_app; [by left|right].
    apply list_elem_of_In, in_concat. exists ((l, 0) :: syms). split; apply list_elem_of_In; [|by apply list_elem_of_further].
    apply list_elem_of_fmap. by exists (l, syms).
  - intros n Hn. rewrite (sym_table p n e m mods Hp). unfold all_entries in Hn |- *. cbn [fmap list_fmap concat app drop] in Hn |- *.
    apply not_elem_of_cons in Hn as [_ Hn]. destruct (list_find _ _) as [[j [n' a']]|] eqn:Ef; [|done]. cbn.
    apply list_find_Some in Ef as (Hj & Hn' & _). cbn in Hn'. subst n'. destruct Hn. apply list_elem_of_fmap. exists (n, a'). split; [done|].
    by eapply list_elem_of_lookup_2.
Qed.

End lookup.

(** The loaders linked into libltdl, as [lt_dlinit] finds them, and a second module in
    the same table whose symbols the first one offers too. *)
Definition demo_mods : list module :=
  [(str "dlopen.a", [(str "dlopen_LTX_get_vtable", 4096)]); (str "dld_link.a", [(str "dld_link_LTX_get_vtable", 8192)])].
Definition demo_symlists : gmap Z (list symbol) := <[64 := symtab (str "libltdlc") demo_mods]> ∅.

Lemma preloaded_lookup_witness :
  vm_open demo_symlists (Some (str "dlopen.a")) (Preopen [64] 0 (Some 0)) errors0 = Done (64, errors0)
  /\ vm_sym demo_symlists 64 (str "dlopen_LTX_get_vtable") errors0 = Done (4096, errors0)
  /\ vm_sym demo_symlists 64 (str "dld_link_LTX_get_vtable") errors0 = Done (8192, errors0).
Proof.
  destruct (preloaded_lookup demo_symlists (fun _ => demo_mods) (fun _ => str "libltdlc") (Preopen [64] 0 (Some 0)) (str "dlopen.a") errors0)
    as (H1 & H2 & _).
  - apply Forall_singleton. split; [reflexivity|]. split; [|discriminate]. repeat constructor; discriminate.
  - discriminate.
  - split; [exact H1|]. specialize (H2 ltac:(apply (bool_decide_unpack _); vm_compute; exact I)).
    split; [apply (H2 (str "dlopen.a") [(str "dlopen_LTX_get_vtable", 4096)])|apply (H2 (str "dld_link.a") [(str "dld_link_LTX_get_vtable", 8192)])];
      first [apply list_elem_of_here|apply list_elem_of_further, list_elem_of_here].
Defined.

(** ** The chain *)

(** A table is in the chain once, whatever is preloaded. *)
Lemma chain_distinct has_memory l s e : NoDup (preloaded_symlists s) -> NoDup (preloaded_symlists (snd (fst (lt_dlpreload has_memory l s e)))).
Proof.
  intros Hd. unfold lt_dlpreload, add_symlist. destruct (negb (l =? 0)).
  - case_bool_decide; [done|]. destruct has_memory; [|done]. by constructor.
  - destruct (negb _); [|constructor]. case_bool_decide; [constructor|]. destruct has_memory; repeat constructor. by apply not_elem_of_nil.
Qed.
