(* ===== verification/LoaderApi.v ===== *)
(** * What a module loader promises (src/libltdl/libltdl/lt_dlloader.h)

    The functions behind a table [lt_dlvtable], as a class, and what the rest of libltdl
    relies on, as classes of laws: each of them returns a result and leaves the last
    error alone, or returns NULL (an error count) and sets the last error.  The loaders
    (Dlopen.v, DldLink.v, LoadLibrary.v, ...) are instances; clients are proved
    against the laws.  Loaders that break them exist: ShlLoad.v and LoadAddOn.v show where
    their code does. *)

From S2P Require Import Prelude.
From S2P Require Import CString.
From S2P Require Import Lterror.
From S2P Require Import Slist.
From S2P Require Import Loaders.
From S2P Require Import Modules.
From S2P Require Import Opening.
Local Open Scope Z_scope.

Class ModuleLoader := {
  module_open : option (list Z) -> option advise -> errors -> Z * errors;
  module_close : Z -> errors -> Z * errors;
  find_sym : Z -> list Z -> errors -> Z * errors
}.

(** A result that is not NULL comes without a new error, NULL with one. *)
Definition reports (e : errors) (r : Z * errors) : Prop := if fst r =? 0 then is_Some (last_error (snd r)) else snd r = e.

Class OpenLaws (L : ModuleLoader) := {
  (** The module of a file does not depend on earlier errors. *)
  module_of : option (list Z) -> option advise -> Z;
  open_module f a e : fst (module_open f a e) = module_of f a;
  open_reports f a e : reports e (module_open f a e)
}.

Class SymLaws (L : ModuleLoader) := {
  symbol_of : Z -> list Z -> Z;
  sym_address m n e : fst (find_sym m n e) = symbol_of m n;
  sym_reports m n e : reports e (find_sym m n e)
}.

(** Closing counts errors. *)
Class CloseLaws (L : ModuleLoader) := {
  close_reports m e : if fst (module_close m e) =? 0 then snd (module_close m e) = e else is_Some (last_error (snd (module_close m e)))
}.

(** ** The table of functions of a loader *)

(** [get_vtable] is the same in all loaders: the static variable [vtable] is allocated and
    filled the first time; other data of the loader than that in the table is an error.
    [static] is that data, if there is a table.  The result tells if a table is
    returned. *)
Definition get_vtable_of (has_memory : bool) (loader_data : Z) (static : option Z) (e : errors) : bool * option Z * errors :=
  match static with
  | None => if has_memory then (true, Some loader_data, e) else (false, None, set_error NO_MEMORY e)
  | Some d => if d =? loader_data then (true, static, e) else (false, static, set_error INIT_LOADER e)
  end.

(** ** Identifiers of interfaces *)

(** [lt__interface_id], in a heap of its own. *)
Record interface_id := Interface { id_string : list Z; iface : option (Z -> Z) }.

(** [new]: the address of the identifier, zero if there is no memory; [has_string]: whether
    there is memory for the copy of the string. *)
Definition lt_dlinterface_register (new : Z) (has_string : bool) (id : list Z) (f : option (Z -> Z)) (ids : gmap Z interface_id) (e : errors)
  : Z * gmap Z interface_id * errors :=
  if new =? 0 then (0, ids, set_error NO_MEMORY e)
  else if negb has_string then (0, ids, set_error NO_MEMORY e)
  else (new, <[new := Interface id f]> ids, e).

Definition lt_dlinterface_free (key : Z) (ids : gmap Z interface_id) : outcome (gmap Z interface_id) :=
  match ids !! key with Some _ => Ret (delete key ids) | None => Undef end.

(** NULL is returned with an error and nothing allocated; an identifier can be freed once. *)
Lemma interface_register_free new has_string id f ids e :
  ids !! new = None ->
  let '(key, ids', e') := lt_dlinterface_register new has_string id f ids e in
  if key =? 0 then ids' = ids /\ last_error e' = Some (Table NO_MEMORY)
  else ids' !! key = Some (Interface id f) /\ e' = e /\ lt_dlinterface_free key ids' = Ret ids /\ lt_dlinterface_free key ids = Undef.
Proof.
  intros Hn. unfold lt_dlinterface_register, lt_dlinterface_free. destruct (Z.eqb_spec new 0) as [->|Hz]; [done|].
  destruct has_string; [|done]. cbn [negb]. rewrite (proj2 (Z.eqb_neq new 0) Hz), lookup_insert_eq, Hn. by rewrite delete_insert_id.
Qed.

(** ** Several loaders *)

Section several.
Context (L : Z -> ModuleLoader) `{LL : forall v, OpenLaws (L v)}.

(** The functions behind the tables of all loaders. *)
Definition open_with (v : Z) (f : option (list Z)) (a : option advise) (e : errors) : Z * errors := @module_open (L v) f a e.
Definition close_with (v : Z) (m : Z) (e : errors) : Z * errors := @module_close (L v) m e.
Definition sym_with (v : Z) (m : Z) (n : list Z) (e : errors) : Z * errors := @find_sym (L v) m n e.

(** The first loader that opens a file, with the module. *)
Fixpoint first_loader (vs : list Z) (f : option (list Z)) (a : option advise) : option (Z * Z) :=
  match vs with
  | [] => None
  | v :: vs => let m := @module_of _ (LL v) f a in if m =? 0 then first_loader vs f a else Some (v, m)
  end.

Lemma first_loader_spec vs f a v m : first_loader vs f a = Some (v, m) -> v ∈ vs /\ m <> 0.
Proof.
  induction vs as [|w vs IH]; [done|]. cbn. destruct (Z.eqb_spec (@module_of (L w) (LL w) f a) 0) as [E|E].
  - intros H. destruct (IH H). split; [by right|done].
  - intros [= <- <-]. split; [left|done].
Qed.

(** What [tryall_dlopen] gets from its loop over the loaders: the module of the first
    loader that has one and no error of those before it that counts, or the error of
    the last one. *)
Lemma try_loaders_spec vs f a e :
  match first_loader vs f a with
  | Some (v, m) => exists e', try_loaders open_with vs f a e = (v, m, e')
  | None => exists e', try_loaders open_with vs f a e = (0, 0, e')
      /\ match last vs with Some v => exists e0, e' = snd (@module_open (L v) f a e0) /\ is_Some (last_error e') | None => e' = e end
  end.
Proof.
  revert e. induction vs as [|v vs IH]; intros e; [by exists e|]. cbn [first_loader try_loaders].
  pose proof (@open_module (L v) (LL v) f a e) as Hm. pose proof (@open_reports (L v) (LL v) f a e) as Hr. unfold reports in Hr.
  change (@module_open (L v) f a e) with (open_with v f a e) in *. destruct (open_with v f a e) as [m e1] eqn:Eo. cbn [fst snd] in *. subst m.
  destruct (Z.eqb_spec (@module_of (L v) (LL v) f a) 0) as [E|E].
  - change (negb true) with false. cbn iota. specialize (IH e1). destruct (first_loader vs f a) as [[w m]|]; [exact IH|].
    destruct IH as (e' & -> & Hlast). exists e'. split; [done|]. destruct vs as [|w vs].
    + cbn. exists e. change (@module_open (L v) f a e) with (open_with v f a e). rewrite Eo. cbn in Hlast. by subst e'.
    + rewrite last_cons_cons. destruct (last (w :: vs)) eqn:El; [exact Hlast|]. by apply last_None in El.
  - by exists e1.
Qed.

End several.
