(* ===== verification/Dlopen.v ===== *)
(** * The loader for [dlopen] (src/libltdl/loaders/dlopen.c)

    The dynamic linker of the system is a parameter: what its calls return, and the
    message [dlerror] has after a call that failed. *)

From S2P Require Import Prelude.
From S2P Require Import CString.
From S2P Require Import Lterror.
From S2P Require Import Slist.
From S2P Require Import Loaders.
From S2P Require Import Modules.
From S2P Require Import LoaderApi.
Local Open Scope Z_scope.

Definition RTLD_LAZY : Z := 1.
Definition RTLD_GLOBAL : Z := 256.
Definition RTLD_LOCAL : Z := 0.
Definition LT_LAZY_OR_NOW : Z := RTLD_LAZY.

(** The table; symbols have no prefix on this system. *)
Definition vtable : lt_dlvtable := VTable (str "lt_dlopen") None true true true None (Some 0) LT_DLLOADER_PREPEND.

Definition get_vtable : bool -> Z -> option Z -> errors -> bool * option Z * errors := get_vtable_of.

Definition vl_exit (static : option Z) : Z * option Z := (0, None).

(** Calls of the dynamic linker. *)
Inductive call := CallOpen (f : option (list Z)) (flags : Z) | CallClose (m : Z) | CallSym (m : Z) (n : list Z).

Section dlopen.
Context (dlopen : option (list Z) -> Z -> Z) (dlclose : Z -> Z) (dlsym : Z -> list Z -> Z) (dlerror : call -> option (list Z)).

(** [DL__SETERROR] *)
Definition set_dlerror (c : call) (e : errors) : errors := lt__set_last_error (System <$> dlerror c) e.

Definition module_flags (a : option advise) : Z :=
  match a with
  | Some a =>
      let flags := if adv_symglobal a then Z.lor LT_LAZY_OR_NOW RTLD_GLOBAL else LT_LAZY_OR_NOW in
      if adv_symlocal a then Z.lor flags RTLD_LOCAL else flags
  | None => LT_LAZY_OR_NOW
  end.

Definition vm_open (f : option (list Z)) (a : option advise) (e : errors) : Z * errors :=
  let module := dlopen f (module_flags a) in
  (module, if module =? 0 then set_dlerror (CallOpen f (module_flags a)) e else e).

Definition vm_close (module : Z) (e : errors) : Z * errors :=
  if negb (dlclose module =? 0) then (1, set_dlerror (CallClose module) e) else (0, e).

Definition vm_sym (module : Z) (name : list Z) (e : errors) : Z * errors :=
  let address := dlsym module name in
  (address, if address =? 0 then set_dlerror (CallSym module name) e else e).

#[export] Instance dlopen_loader : ModuleLoader := { module_open := vm_open; module_close := vm_close; find_sym := vm_sym }.

(** A call that failed has a message. *)
Hypothesis dlerror_set : forall c, is_Some (dlerror c).

Lemma set_dlerror_some c : is_Some (System <$> dlerror c).
Proof. destruct (dlerror_set c) as [t ->]. by eexists. Qed.

#[export] Instance dlopen_opens : OpenLaws dlopen_loader.
Proof.
  refine {| module_of f a := dlopen f (module_flags a) |}; cbn; unfold reports, vm_open; cbn; [done|].
  intros f a e. destruct (dlopen f _ =? 0); [apply set_dlerror_some|done].
Defined.

#[export] Instance dlopen_finds : SymLaws dlopen_loader.
Proof.
  refine {| symbol_of m n := dlsym m n |}; cbn; unfold reports, vm_sym; cbn; [done|].
  intros m n e. destruct (dlsym m n =? 0); [apply set_dlerror_some|done].
Defined.

#[export] Instance dlopen_closes : CloseLaws dlopen_loader.
Proof. split. intros m e. cbn. unfold vm_close. destruct (dlclose m =? 0); cbn; [done|apply set_dlerror_some]. Qed.

(** A message of the system is never taken for the one that there is no such file. *)
Lemma dlopen_message f a e : dlopen f (module_flags a) = 0 -> exists t, last_error (snd (vm_open f a e)) = Some (System t).
Proof.
  intros E. unfold vm_open. rewrite E. cbn. destruct (dlerror_set (CallOpen f (module_flags a))) as [t Ht]. unfold set_dlerror. rewrite Ht. by exists t.
Qed.

End dlopen.

(** Advice that asks for global and for local symbols at once cannot come here, so that
    exactly one of the flags is set. *)
Lemma flags_spec a :
  adv_symlocal a && adv_symglobal a = false ->
  Z.testbit (module_flags (Some a)) 0 = true /\ Z.testbit (module_flags (Some a)) 8 = adv_symglobal a.
Proof. unfold module_flags. destruct (adv_symlocal a), (adv_symglobal a); done. Qed.
