(* ===== verification/DldLink.v ===== *)
(** * The loader for GNU dld (src/libltdl/loaders/dld_link.c)

    A module is a copy of the name of its file.  The copies are strings in a heap; the
    calls of the linker are parameters, and what is linked is recorded. *)

From S2P Require Import Prelude.
From S2P Require Import CString.
From S2P Require Import Lterror.
From S2P Require Import Loaders.
From S2P Require Import LoaderApi.
Local Open Scope Z_scope.

Definition vtable : lt_dlvtable := VTable (str "lt_dld_link") None true true true None (Some 0) LT_DLLOADER_APPEND.

Definition get_vtable : bool -> Z -> option Z -> errors -> bool * option Z * errors := get_vtable_of.

Definition vl_exit (static : option Z) : Z * option Z := (0, None).

(** The copies of names, the files that are linked, the errors. *)
Record state := State { copies : gmap Z (list Z); linked : list (list Z); errs : errors }.

Section dld.
(** Whether a file can be linked or unlinked (zero), and the address of a function. *)
Context (dld_link dld_unlink : list Z -> Z) (dld_get_func : list Z -> Z).

(** [new]: the address of the copy, zero if there is no memory. *)
Definition vm_open (new : Z) (filename : option (list Z)) (s : state) : outcome (Z * state) :=
  match filename with
  | None => Undef
  | Some f =>
      let '(module, s) := if new =? 0 then (0, State (copies s) (linked s) (set_error NO_MEMORY (errs s)))
                          else (new, State (<[new := f]> (copies s)) (linked s) (errs s)) in
      if negb (dld_link f =? 0) then Ret (0, State (delete module (copies s)) (linked s) (set_error CANNOT_OPEN (errs s)))
      else Ret (module, State (copies s) (f :: linked s) (errs s))
  end.

Definition unlink (f : list Z) (l : list (list Z)) : list (list Z) := filter (fun g => g <> f) l.

Lemma unlink_head f l : f ∉ l -> unlink f (f :: l) = l.
Proof.
  intros Hf. unfold unlink. rewrite filter_cons_False by tauto. induction l as [|g l IH]; [done|].
  apply not_elem_of_cons in Hf as [Hg Hf]. rewrite filter_cons_True by congruence. by rewrite IH.
Qed.

Definition vm_close (module : Z) (s : state) : outcome (Z * state) :=
  match copies s !! module with
  | None => Undef
  | Some f =>
      if negb (dld_unlink f =? 0) then Ret (1, State (copies s) (linked s) (set_error CANNOT_CLOSE (errs s)))
      else Ret (0, State (delete module (copies s)) (unlink f (linked s)) (errs s))
  end.

Definition vm_sym (module : Z) (name : list Z) (e : errors) : Z * errors :=
  let address := dld_get_func name in (address, if address =? 0 then set_error SYMBOL_NOT_FOUND e else e).

(** What is opened can be closed: then nothing is linked or allocated that was not before. *)
Lemma open_close f new s s1 :
  new <> 0 -> copies s !! new = None -> f ∉ linked s -> dld_unlink f = 0 -> vm_open new (Some f) s = Ret (new, s1) -> vm_close new s1 = Ret (0, s).
Proof.
  intros Hn Hc Hf Hu. unfold vm_open. rewrite (proj2 (Z.eqb_neq new 0) Hn). destruct (negb (dld_link f =? 0)); intros [= E]; [done|].
  subst s1. unfold vm_close. cbn [copies linked errs]. rewrite lookup_insert_eq, Hu. change (negb (0 =? 0)) with false. cbn iota.
  do 2 f_equal. destruct s as [c l e]. cbn [copies linked errs] in *. f_equal.
  - by apply delete_insert_id.
  - by apply unlink_head.
Qed.

(** Without memory for the name the file stays linked although NULL is returned. *)
Lemma linked_without_module f s : dld_link f = 0 -> exists s', vm_open 0 (Some f) s = Ret (0, s') /\ f ∈ linked s'.
Proof. intros Hl. unfold vm_open. rewrite Z.eqb_refl, Hl. cbn. eexists. split; [done|]. left. Qed.

(** The program itself cannot be opened: the copy of no name is undefined. *)
Lemma self_undefined new s : vm_open new None s = Undef.
Proof. done. Qed.

End dld.
