(* ===== verification/ShlLoad.v ===== *)
(** * The loader of HP-UX (src/libltdl/loaders/shl_load.c)

    The calls of the linker are recorded, since one of them is made twice. *)

From S2P Require Import Prelude.
From S2P Require Import CString.
From S2P Require Import Lterror.
From S2P Require Import Loaders.
From S2P Require Import LoaderApi.
Local Open Scope Z_scope.

Definition vtable : lt_dlvtable := VTable (str "lt_shl_load") None true true true None (Some 0) LT_DLLOADER_APPEND.

Definition get_vtable : bool -> Z -> option Z -> errors -> bool * option Z * errors := get_vtable_of.

Definition vl_exit (static : option Z) : Z * option Z := (0, None).

Definition BIND_IMMEDIATE : Z := 1.
Definition BIND_NONFATAL : Z := 4.
Definition DYNAMIC_PATH : Z := 8.
Definition LT_BIND_FLAGS : Z := Z.lor (Z.lor BIND_IMMEDIATE BIND_NONFATAL) DYNAMIC_PATH.

Inductive call := Load (f : option (list Z)) | Unload (m : Z).

(** The static handle of the program, the calls, the errors. *)
Record state := State { self : Z; calls : list call; errs : errors }.

Section shl.
(** A library (zero if it cannot be loaded), the result of unloading, the address of a
    symbol: [None] if the call fails. *)
Context (shl_load : option (list Z) -> Z -> Z) (shl_unload : Z -> Z) (shl_findsym : Z -> list Z -> option Z).
(** The handle in which the symbol [main] is found. *)
Context (main_handle : Z).

Definition load (f : option (list Z)) (s : state) : Z * state := (shl_load f LT_BIND_FLAGS, State (self s) (calls s ++ [Load f]) (errs s)).

Definition vm_open (filename : option (list Z)) (s : state) : Z * state :=
  let '(_, s) := load filename s in
  let s := if self s =? 0 then State main_handle (calls s) (errs s) else s in
  match filename with
  | None => (self s, s)
  | Some _ =>
      let '(module, s) := load filename s in
      (module, if module =? 0 then State (self s) (calls s) (set_error CANNOT_OPEN (errs s)) else s)
  end.

Definition vm_close (module : Z) (s : state) : Z * state :=
  if module =? 0 then (0, s)
  else
    let s' := State (self s) (calls s ++ [Unload module]) (errs s) in
    if negb (shl_unload module =? 0) then (1, State (self s) (calls s') (set_error CANNOT_CLOSE (errs s))) else (0, s').

Definition vm_sym (module : Z) (name : list Z) (e : errors) : Z * errors :=
  if module =? 0 then (0, set_error INVALID_HANDLE e)
  else match shl_findsym module name with
       | Some address => (address, if address =? 0 then set_error SYMBOL_NOT_FOUND e else e)
       | None => (0, e)
       end.

(** Every library is loaded twice and unloaded once. *)
Theorem loaded_twice f s m s1 s2 n :
  vm_open (Some f) s = (m, s1) -> m <> 0 -> vm_close m s1 = (n, s2) -> calls s2 = calls s ++ [Load (Some f); Load (Some f); Unload m].
Proof.
  unfold vm_open, load, vm_close. cbn [calls self errs].
  destruct (self s =? 0); cbn [calls self errs]; intros [= <- <-] Hm; rewrite (proj2 (Z.eqb_neq _ 0) Hm); cbn [calls self errs];
    destruct (negb _); intros [= <- <-]; cbn; by rewrite <- !app_assoc.
Qed.

(** A symbol that is not there gives NULL without any error, against the law of loaders. *)
Theorem missing_symbol_silent m n e : m <> 0 -> shl_findsym m n = None -> last_error e = None -> ~ reports e (vm_sym m n e).
Proof.
  intros Hm Hf He. unfold reports, vm_sym. rewrite (proj2 (Z.eqb_neq m 0) Hm), Hf. cbn. rewrite He. by intros [? ?].
Qed.

End shl.
