(* ===== verification/LoadAddOn.v ===== *)
(** * The loader of BeOS (src/libltdl/loaders/load_add_on.c) *)

From S2P Require Import Prelude.
From S2P Require Import CString.
From S2P Require Import Lterror.
From S2P Require Import Modules.
From S2P Require Import Loaders.
From S2P Require Import LoaderApi.
Local Open Scope Z_scope.

Definition vtable : lt_dlvtable := VTable (str "lt_load_add_on") None true true true None (Some 0) LT_DLLOADER_APPEND.

Definition get_vtable : bool -> Z -> option Z -> errors -> bool * option Z * errors := get_vtable_of.

Definition vl_exit (static : option Z) : Z * option Z := (0, None).

Section addon.
(** An image (negative for errors), the name of the first image of the program, whether an
    image can be unloaded and has a symbol. *)
Context (load_add_on : list Z -> Z) (first_image : option (list Z)) (unload_add_on : Z -> bool) (has_symbol : Z -> list Z -> bool).

Definition vm_open (filename : option (list Z)) (a : option advise) (e : errors) : Z * errors :=
  let image := match filename with
               | Some f => load_add_on f
               | None => match first_image with Some n => load_add_on n | None => 0 end
               end in
  if image <=? 0 then (0, set_error CANNOT_OPEN e) else (image, e).

Definition vm_close (module : Z) (e : errors) : Z * errors :=
  if negb (unload_add_on module) then (1, set_error CANNOT_CLOSE e) else (0, e).

(** [get_image_symbol (..., address)] gets the value of [address], which is NULL, and
    not a pointer to it: the variable does not change. *)
Definition vm_sym (module : Z) (name : list Z) (e : errors) : Z * errors :=
  let address := 0 in
  if negb (has_symbol module name) then (0, set_error SYMBOL_NOT_FOUND e) else (address, e).

#[export] Instance addon_loader : ModuleLoader := { module_open := vm_open; module_close := vm_close; find_sym := vm_sym }.

#[export] Instance addon_opens : OpenLaws addon_loader.
Proof.
  refine {| module_of f a := fst (vm_open f a errors0) |}; cbn; intros f a e; unfold reports, vm_open;
    destruct (Z.leb_spec (match f with Some f => load_add_on f | None => match first_image with Some n => load_add_on n | None => 0 end end) 0) as [E|E];
    cbn [fst snd]; try done.
  - change (0 =? 0) with true. by eexists.
  - by rewrite (proj2 (Z.eqb_neq _ 0)) by lia.
Defined.

#[export] Instance addon_closes : CloseLaws addon_loader.
Proof. split. intros m e. cbn. unfold vm_close. destruct (unload_add_on m); cbn; [done|by eexists]. Qed.

(** No symbol is ever found; for one that is there, no error is set either, against
    the law of loaders. *)
Theorem no_symbols m n e : fst (vm_sym m n e) = 0 /\ (has_symbol m n = true -> last_error e = None -> ~ reports e (vm_sym m n e)).
Proof.
  unfold vm_sym, reports. destruct (has_symbol m n); cbn; [|done]. split; [done|]. intros _ ->. by intros [? ?].
Qed.

End addon.
