(* ===== verification/LoadLibrary.v ===== *)
(** * The loader of Windows (src/libltdl/loaders/loadlibrary.c)

    The build without Cygwin.  The path goes through a buffer of [MAX_PATH] bytes, the
    error mode of the process is changed around the call of the linker, and a module that
    is open already counts as a failure.  The linker is a parameter; what is modelled of
    it is the error mode and the number of references of each library. *)

From S2P Require Import Prelude.
From S2P Require Import CString.
From S2P Require Import Lterror.
From S2P Require Import Slist.
From S2P Require Import Loaders.
From S2P Require Import Modules.
From S2P Require Import LoaderApi.
Local Open Scope Z_scope.

Definition MAX_PATH : Z := 260.
Definition SEM_FAILCRITICALERRORS : Z := 1.

Definition vtable : lt_dlvtable := VTable (str "lt_loadlibrary") None true true true None (Some 0) LT_DLLOADER_APPEND.

(** The static [iface_id] is registered with the table. *)
Definition get_vtable (has_memory : bool) (new : Z) (has_string : bool) (loader_data : Z) (static : option Z) (iface_id : Z)
    (ids : gmap Z interface_id) (e : errors) : bool * option Z * Z * gmap Z interface_id * errors :=
  match static with
  | None =>
      let e := if has_memory then e else set_error NO_MEMORY e in
      let '(id, ids, e) := lt_dlinterface_register new has_string (str "ltdl loadlibrary") None ids e in
      if has_memory then (true, Some loader_data, id, ids, e) else (false, None, id, ids, e)
  | Some d => if d =? loader_data then (true, static, iface_id, ids, e) else (false, static, iface_id, ids, set_error INIT_LOADER e)
  end.

Definition vl_exit (static : option Z) : Z * option Z := (0, None).

(** The process: its error mode, the references of libraries. *)
Record process := Process { error_mode : Z; refs : gmap Z Z }.

Definition SetErrorMode (m : Z) (w : process) : Z * process := (error_mode w, Process m (refs w)).

Definition references (w : process) (m : Z) : Z := default 0 (refs w !! m).

Section loadlibrary.
(** The module of a path with the error mode (zero if there is none), the path of the
    program as it is written to a buffer, whether a module is freed, the address of a
    symbol. *)
Context (load : list Z -> Z -> Z) (GetModuleFileName : list Z -> list Z) (free_library : Z -> bool) (GetProcAddress : Z -> list Z -> Z).

Definition LoadLibrary (path : list Z) (w : process) : Z * process :=
  let m := load path (error_mode w) in
  (m, if m =? 0 then w else Process (error_mode w) (<[m := references w m + 1]> (refs w))).

(** [strcpy] to the start of a buffer, and a store; outside of it they are undefined. *)
Definition strcpy (buf t : list Z) : run (list Z) :=
  if (length t <? length buf)%nat then Done (t ++ [NUL] ++ drop (S (length t)) buf) else Stuck.
Definition store (buf : list Z) (i : nat) (c : Z) : run (list Z) :=
  if (i <? length buf)%nat then Done (<[i := c]> buf) else Stuck.

(** The string in the buffer: without a NUL the linker reads behind it. *)
Definition read_string (buf : list Z) : run (list Z) := if bool_decide (NUL ∈ buf) then Done (cstr buf 0) else Stuck.

(** The path in [wpath], or [None] if it is too long. *)
Definition wpath (stack : list Z) (filename : option (list Z)) : run (option (list Z)) :=
  match filename with
  | None => buf ← store stack 0 NUL; Done (Some (GetModuleFileName buf))
  | Some f =>
      let len := length f in
      if MAX_PATH <=? Z.of_nat len then Done None
      else
        buf ← strcpy stack f;
        match strrchr (cstr buf 0) 46 with
        | Some _ => Done (Some buf)
        | None =>
            let len := if (len =? 0)%nat then length (cstr buf 0) else len in
            if MAX_PATH <=? Z.of_nat len + 1 then Done None
            else buf ← store buf len 46; buf ← store buf (len + 1) NUL; Done (Some buf)
        end
  end.

(** The loop over the open modules: the handle with the module, or NULL.  It ends at a
    handle without a module. *)
Fixpoint loaded (fuel : nat) (module : Z) (cur : Z) (s : mstate) : run Z :=
  match fuel with
  | O => Fuel
  | S fuel =>
      cur ← lt_dlhandle_iterate None cur s;
      if cur =? 0 then Done 0
      else h ← deref s cur;
           if hmodule h =? 0 then Done 0 else if hmodule h =? module then Done cur else loaded fuel module cur s
  end.

Definition vm_open (stack : list Z) (filename : option (list Z)) (s : mstate) (w : process) : run (Z * mstate * process) :=
  path ← wpath stack filename;
  match path with
  | None => Done (0, with_error CANNOT_OPEN s, w)
  | Some buf =>
      let '(errormode, w) := SetErrorMode SEM_FAILCRITICALERRORS w in
      let '(_, w) := SetErrorMode (Z.lor errormode SEM_FAILCRITICALERRORS) w in
      path ← read_string buf;
      let '(module, w) := LoadLibrary path w in
      let '(_, w) := SetErrorMode errormode w in
      cur ← loaded (S (length (handles s))) module 0 s;
      if negb (cur =? 0) || (module =? 0) then Done (0, with_error CANNOT_OPEN s, w) else Done (module, s, w)
  end.

Definition FreeLibrary (m : Z) (w : process) : bool * process :=
  if free_library m then (true, Process (error_mode w) (<[m := references w m - 1]> (refs w))) else (false, w).

Definition vm_close (module : Z) (e : errors) (w : process) : Z * errors * process :=
  let '(ok, w) := FreeLibrary module w in if negb ok then (1, set_error CANNOT_CLOSE e, w) else (0, e, w).

Definition vm_sym (module : Z) (name : list Z) (e : errors) : Z * errors :=
  let address := GetProcAddress module name in (address, if address =? 0 then set_error SYMBOL_NOT_FOUND e else e).

(** ** The path *)

(** What Windows is asked for: a name without an extension gets a dot. *)
Definition windows_path (f : list Z) : list Z := if bool_decide (46 ∈ f) then f else f ++ [46].

Lemma cstr_text t rest : NUL ∉ t -> cstr (t ++ NUL :: rest) 0 = t.
Proof.
  intros Ht. unfold cstr. rewrite drop_0. induction t as [|c t IH]; [done|]. apply not_elem_of_cons in Ht as [Hc Ht]. cbn.
  rewrite (proj2 (Z.eqb_neq c NUL)) by done. cbn. by rewrite IH.
Qed.

Lemma strrchr_in t c : c ∈ t -> is_Some (strrchr t c).
Proof.
  induction t as [|x t IH]; [by intros ?%elem_of_nil|]. intros Hin. cbn. destruct (strrchr t c) as [i|] eqn:E; [by eexists|].
  apply elem_of_cons in Hin as [->|Hin]; [rewrite Z.eqb_refl; by eexists|]. by destruct (IH Hin).
Qed.

Lemma read_string_text t rest : NUL ∉ t -> read_string (t ++ NUL :: rest) = Done t.
Proof. intros Ht. unfold read_string. rewrite bool_decide_eq_true_2 by set_solver. by rewrite cstr_text. Qed.

(** The buffer is never left; the path is refused exactly if it does not fit. *)
Lemma wpath_file stack f :
  zlength stack = MAX_PATH -> NUL ∉ f ->
  if zlength (windows_path f) <? MAX_PATH then exists rest, wpath stack (Some f) = Done (Some (windows_path f ++ NUL :: rest))
  else wpath stack (Some f) = Done None.
Proof.
  intros Hs Hf. unfold zlength, MAX_PATH, windows_path in *. unfold wpath, MAX_PATH.
  destruct (Z.leb_spec 260 (Z.of_nat (length f))) as [Hlong|Hshort].
  { destruct (bool_decide _); rewrite (proj2 (Z.ltb_ge _ _)); [done|lia|done|rewrite length_app; lia]. }
  unfold strcpy. rewrite (proj2 (Nat.ltb_lt _ _)) by lia. cbn [mbind run_bind app]. rewrite cstr_text by done.
  set (rest := drop (S (length f)) stack). assert (Hr : length rest = (length stack - S (length f))%nat) by (unfold rest; apply length_drop).
  case_bool_decide as Hdot.
  - destruct (strrchr_in f 46 Hdot) as [i ->]. rewrite (proj2 (Z.ltb_lt _ _)) by lia. by eexists.
  - rewrite strrchr_notin by done. replace (if (length f =? 0)%nat then length f else length f) with (length f) by (by destruct (length f =? 0)%nat).
    rewrite length_app. cbn [length]. destruct (Z.leb_spec 260 (Z.of_nat (length f) + 1)); [by rewrite (proj2 (Z.ltb_ge _ _)) by lia|].
    rewrite (proj2 (Z.ltb_lt _ _)) by lia. unfold store. rewrite (proj2 (Nat.ltb_lt (length f) _)) by (rewrite length_app; cbn; lia). cbn [mbind run_bind].
    rewrite (proj2 (Nat.ltb_lt (length f + 1) _)) by (rewrite length_insert, length_app; cbn; lia). cbn [mbind run_bind].
    destruct rest as [|x rest]; [cbn in Hr; lia|]. exists rest.
    rewrite insert_app_r_alt, Nat.sub_diag by lia. cbn. rewrite insert_app_r_alt by lia. replace (length f + 1 - length f)%nat with 1%nat by lia.
    cbn. by rewrite <- app_assoc.
Qed.

(** ** Modules that are open *)

Definition is_open (s : mstate) (m : Z) : bool := existsb (fun p => bool_decide (hmodule <$> heap s !! p = Some m)) (handles s).

Definition have_modules (s : mstate) : Prop := alive s /\ Forall (fun p => hmodule <$> heap s !! p <> Some 0) (handles s).

Lemma loaded_from s m pre post cur :
  have_modules s -> handles s = pre ++ post -> (pre = [] /\ cur = 0 \/ exists pre', pre = pre' ++ [cur]) ->
  exists p, loaded (S (length post)) m cur s = Done p
            /\ negb (p =? 0) = existsb (fun p => bool_decide (hmodule <$> heap s !! p = Some m)) post.
Proof.
  intros [Ha Hm]. revert pre cur. induction post as [|q post IH]; intros pre cur E Hcur; cbn [loaded].
  all: assert (lt_dlhandle_iterate None cur s = Done (first (skip None (drop (length pre) (handles s))))) as ->.
  1,3: rewrite E, drop_app_length; destruct Hcur as [[-> ->]|[pre' ->]];
    [unfold lt_dlhandle_iterate; cbn; by rewrite E|rewrite <- app_assoc in E; by apply (iterate_behind _ _ pre')].
  - rewrite E, app_nil_r, drop_all. cbn. by eexists.
  - rewrite E, drop_app_length. cbn [skip first mbind run_bind]. destruct Ha as [Hd Hl]. rewrite E in Hl, Hm.
    apply Forall_app in Hl as [_ Hl]. apply Forall_cons in Hl as [[Hq [h Hh]] _]. apply Forall_app in Hm as [_ Hm]. apply Forall_cons in Hm as [Hmq _].
    rewrite (proj2 (Z.eqb_neq q 0) Hq). unfold deref. rewrite Hh in *. cbn in Hmq |- *. rewrite (proj2 (Z.eqb_neq (hmodule h) 0)) by congruence.
    destruct (Z.eqb_spec (hmodule h) m) as [<-|Hne].
    + exists q. rewrite bool_decide_eq_true_2 by (by rewrite Hh). split; [done|]. by rewrite (proj2 (Z.eqb_neq q 0) Hq).
    + rewrite bool_decide_eq_false_2 by (rewrite Hh; cbn; congruence). cbn [orb]. apply (IH (pre ++ [q])); [by rewrite <- app_assoc|right; by eexists].
Qed.

Lemma loaded_spec s m :
  have_modules s -> exists p, loaded (S (length (handles s))) m 0 s = Done p /\ negb (p =? 0) = is_open s m.
Proof. intros Hs. apply (loaded_from s m [] (handles s)); [done|done|by left]. Qed.

(** ** Opening *)

Lemma open_file_windows stack f s w :
  zlength stack = MAX_PATH -> NUL ∉ f -> have_modules s ->
  let mode := Z.lor (error_mode w) SEM_FAILCRITICALERRORS in
  let m := if zlength (windows_path f) <? MAX_PATH then load (windows_path f) mode else 0 in
  let ok := negb (m =? 0) && negb (is_open s m) in
  vm_open stack (Some f) s w =
    Done (if ok then m else 0, if ok then s else with_error CANNOT_OPEN s,
          if m =? 0 then w else Process (error_mode w) (<[m := references w m + 1]> (refs w))).
Proof.
  intros Hs Hf Hm. cbn zeta. unfold vm_open. pose proof (wpath_file stack f Hs Hf) as Hp. destruct (zlength (windows_path f) <? MAX_PATH).
  - destruct Hp as [rest ->]. cbn [mbind run_bind]. cbn [SetErrorMode error_mode refs]. rewrite read_string_text.
    2:{ unfold windows_path. case_bool_decide; [done|]. intros [?|Hin]%elem_of_app; [done|]. by apply list_elem_of_singleton in Hin. }
    cbn [mbind run_bind]. unfold LoadLibrary. cbn [error_mode refs]. set (m := load _ _).
    destruct (loaded_spec s m Hm) as (p & Hl & Ho). unfold references. cbn [error_mode refs]. destruct w as [mode r]. cbn [error_mode refs] in *.
    destruct (Z.eqb_spec m 0) as [E|E]; cbn [SetErrorMode error_mode refs]; rewrite Hl; cbn [mbind run_bind]; rewrite Ho.
    + by rewrite orb_true_r.
    + rewrite orb_false_r. by destruct (is_open s m).
  - rewrite Hp. by destruct w.
Qed.

(** A module of Windows is opened safely: for a name of any length the buffer on the stack
    is never left, Windows is asked for the name itself (with a dot behind a name without
    extension, so that none is added), and the error mode of the process is what it was
    before.  NULL with an error is returned exactly if the name is too long, Windows has no
    such module, or the module is open already. *)
Theorem windows_open stack f s w :
  zlength stack = MAX_PATH -> NUL ∉ f -> have_modules s ->
  let m := if zlength (windows_path f) <? MAX_PATH then load (windows_path f) (Z.lor (error_mode w) SEM_FAILCRITICALERRORS) else 0 in
  exists m' s' w', vm_open stack (Some f) s w = Done (m', s', w') /\ error_mode w' = error_mode w
    /\ (if (m =? 0) || is_open s m then m' = 0 /\ s' = with_error CANNOT_OPEN s else m' = m /\ s' = s).
Proof.
  intros Hs Hf Hm. cbn zeta. rewrite (open_file_windows stack f s w Hs Hf Hm). do 3 eexists. split; [reflexivity|].
  destruct (Z.eqb_spec (if zlength (windows_path f) <? MAX_PATH then load (windows_path f) (Z.lor (error_mode w) SEM_FAILCRITICALERRORS) else 0) 0)
    as [E|E]; cbn [negb andb orb]; [done|]. split; [done|]. by destruct (is_open s _).
Qed.

(** The failure that stands for a module that is open already keeps the reference which
    Windows counted: the library stays loaded when the module is closed. *)
Theorem reference_leaked stack f s w m :
  zlength stack = MAX_PATH -> NUL ∉ f -> have_modules s -> zlength (windows_path f) < MAX_PATH ->
  load (windows_path f) (Z.lor (error_mode w) SEM_FAILCRITICALERRORS) = m -> m <> 0 -> is_open s m = true ->
  exists s' w', vm_open stack (Some f) s w = Done (0, s', w') /\ references w' m = references w m + 1.
Proof.
  intros Hs Hf Hm Hl Hld Hz Ho. rewrite (open_file_windows stack f s w Hs Hf Hm). rewrite (proj2 (Z.ltb_lt _ _) Hl), Hld, Ho, andb_false_r.
  rewrite (proj2 (Z.eqb_neq m 0) Hz). do 2 eexists. split; [done|]. unfold references. cbn. by rewrite lookup_insert_eq.
Qed.

End loadlibrary.

Definition demo_load (f : list Z) (mode : Z) : Z := if decide (f = str "map.dll") then 4096 else 0.

Lemma windows_open_witness :
  exists m' s' w', vm_open demo_load (fun b => b) (replicate 260 90) (Some (str "map.dll")) (MState ∅ [] errors0 []) (Process 4 ∅) = Done (m', s', w')
    /\ error_mode w' = 4 /\ m' = 4096.
Proof.
  destruct (windows_open demo_load (fun b => b) (replicate 260 90) (str "map.dll") (MState ∅ [] errors0 []) (Process 4 ∅)) as (m' & s' & w' & E & Hw & H).
  - reflexivity.
  - apply no_NUL. reflexivity.
  - split; [split; constructor|constructor].
  - exists m', s', w'. split; [exact E|]. split; [exact Hw|]. vm_compute in H. destruct H as [H _]. exact H.
Defined.
