(* ===== verification/Dyld.v ===== *)
(** * The loader of Mac OS X (src/libltdl/loaders/dyld.c)

    A module is a bundle (an [NSModule], which is opaque) or the Mach-O header of a
    library.  Headers are structures in memory whose load commands are found by their
    sizes.  The calls of the dynamic linker are parameters; the four that old systems do not
    have are looked up by [vl_init], and calling one that is not there is undefined. *)

From S2P Require Import Prelude.
From S2P Require Import CString.
From S2P Require Import Lterror.
From S2P Require Import Loaders.
From S2P Require Import LoaderApi.
Local Open Scope Z_scope.

Definition vtable : lt_dlvtable := VTable (str "lt_dyld") (Some (str "_")) true true true (Some 0) (Some 0) LT_DLLOADER_APPEND.

Definition get_vtable : bool -> Z -> option Z -> errors -> bool * option Z * errors := get_vtable_of.

Definition vl_exit (static : option Z) : Z * option Z := (0, None).

(** The four functions that are looked up (whether they are there), and the code of the
    error that is added. *)
Record statics := Statics {
  lt__addimage : bool;
  lt__image_symbol : bool;
  lt__image_symbol_p : bool;
  lt__module_export : bool;
  dyld_cannot_close : Z
}.

Definition statics0 : statics := Statics false false false false 0.

Definition LC_ID_DYLIB : Z := 13.
Definition LC_LOAD_DYLIB : Z := 12.
Definition LC_REQ_DYLD : Z := 2147483648.
Definition LC_LOAD_WEAK_DYLIB : Z := Z.lor 24 LC_REQ_DYLD.
Definition MH_CIGAM : Z := 3472551422.
Definition LT__MAGIC : Z := MH_CIGAM.
Definition HEADER_SIZE : Z := 28.
Definition NSUNLINKMODULE_OPTION_KEEP_MEMORY_MAPPED : Z := 1.

(** A load command, and the string at its name offset. *)
Record load_command := LoadCommand { cmd : Z; cmdsize : Z; lc_name : list Z }.
(** The number of commands, and the commands by their offset from the header. *)
Record mach_header := Header { ncmds : nat; commands : gmap Z load_command }.

Inductive image_result := ImageSuccess | ImageInappropriateFile | ImageFailure | ImageArch | ImageFormat | ImageAccess.

Section dyld.
(** Whether the linker is there, and its functions that are looked up. *)
Context (_dyld_present : bool) (_dyld_func_lookup : list Z -> bool).
(** Bundles: what kind of file, the module linked from it, what is unlinked with the
    flags, whether it has static destructors, its name, its symbols. *)
Context (NSCreateObjectFileImageFromFile : list Z -> image_result) (NSLinkModule : list Z -> Z) (NSUnLinkModule : Z -> Z -> bool)
        (has_term_func : Z -> bool) (NSNameOfModule : Z -> option (list Z)) (NSLookupSymbolInModule : Z -> list Z -> Z).
(** Libraries: those loaded (file name and header), those that can be added or are loaded
    under a name, their symbols. *)
Context (images : list (list Z * Z)) (NSAddImage : list Z -> bool -> Z) (NSLookupSymbolInImage : Z -> list Z -> Z)
        (NSIsSymbolNameDefinedInImage : Z -> list Z -> bool) (NSIsSymbolNameDefined : list Z -> bool).
(** Symbols: their addresses, those of the program itself (otherwise it ends). *)
Context (NSAddressOfSymbol : Z -> Z) (_dyld_lookup_and_bind : list Z -> option Z).
(** The last error of the linker, the first word at an address, and the headers. *)
Context (NSLinkEditError : option (list Z)) (magic : Z -> Z) (headers : gmap Z mach_header).

Definition vl_init (has_memory : bool) (st : statics) (e : errors) : outcome (Z * statics * errors) :=
  if negb (dyld_cannot_close st =? 0) then Ret (0, st, e)
  else if negb _dyld_present then Ret (1, st, e)
  else
    '(code, e) ← lt_dladderror has_memory (str "can't close a dylib") e;
    Ret (0, Statics (_dyld_func_lookup (str "__dyld_NSAddImage")) (_dyld_func_lookup (str "__dyld_NSLookupSymbolInImage"))
                    (_dyld_func_lookup (str "__dyld_NSIsSymbolNameDefinedInImage")) (_dyld_func_lookup (str "__dyld_NSMakePrivateModulePublic")) code, e).

(** The message of the linker, or the given one. *)
Definition dylderror (e : lt_error) : message :=
  match NSLinkEditError with Some (c :: t) => System (c :: t) | _ => Table e end.

Definition set_dylderror (c : lt_error) : errors -> errors := lt__set_last_error (Some (dylderror c)).

(** A function that was looked up is called. *)
Definition called (there : bool) {A} (a : A) : outcome A := if there then Ret a else Undef.

Definition vm_open (st : statics) (filename : option (list Z)) (e : errors) : outcome (Z * errors) :=
  match filename with
  | None => Ret (-1, e)
  | Some f =>
      module ← match NSCreateObjectFileImageFromFile f with
               | ImageSuccess =>
                   let module := NSLinkModule f in
                   if negb (module =? 0) then called (lt__module_export st) module else Ret module
               | ImageInappropriateFile =>
                   if lt__image_symbol_p st && lt__image_symbol st then called (lt__addimage st) (NSAddImage f false) else Ret 0
               | ImageFailure | ImageArch | ImageFormat | ImageAccess => Ret 0
               end;
      Ret (module, if module =? 0 then set_dylderror CANNOT_OPEN e else e)
  end.

(** The images from the last one down: the first one whose name differs ([strneq]). *)
Definition lt__nsmodule_get_header (module : Z) : Z :=
  match NSNameOfModule module with
  | None => 0
  | Some modname => default 0 ((fun x => snd (snd x)) <$> list_find (fun i => fst i <> modname) (rev images))
  end.

Definition vm_close (st : statics) (module : Z) (e : errors) : outcome (Z * errors) :=
  if module =? -1 then Ret (0, e)
  else if magic module =? LT__MAGIC then '(_, e) ← lt_dlseterror (dyld_cannot_close st) e; Ret (1, e)
  else
    let flags := if has_term_func (lt__nsmodule_get_header module) then NSUNLINKMODULE_OPTION_KEEP_MEMORY_MAPPED else 0 in
    if negb (NSUnLinkModule module flags) then Ret (1, set_dylderror CANNOT_CLOSE e) else Ret (0, e).

Definition header (mh : Z) : outcome mach_header := match headers !! mh with Some h => Ret h | None => Undef end.
Definition command (h : mach_header) (offset : Z) : outcome load_command := match commands h !! offset with Some c => Ret c | None => Undef end.

Fixpoint instnam_loop (n : nat) (h : mach_header) (offset : Z) (result : option (list Z)) : outcome (option (list Z)) :=
  match n with
  | O => Ret result
  | S n => lc ← command h offset; instnam_loop n h (offset + cmdsize lc) (if cmd lc =? LC_ID_DYLIB then Some (lc_name lc) else result)
  end.

Definition lt__header_get_instnam (mh : Z) : outcome (option (list Z)) := h ← header mh; instnam_loop (ncmds h) h HEADER_SIZE None.

(** [l]: the headers still to be looked at.  Again [strneq]. *)
Fixpoint match_loop (name : list Z) (l : list Z) : outcome Z :=
  match l with
  | [] => Ret 0
  | mh :: l =>
      id ← lt__header_get_instnam mh;
      if match id with Some id => negb (bool_decide (id = name)) | None => false end then Ret mh else match_loop name l
  end.

Definition lt__match_loadedlib (name : list Z) : outcome Z := match_loop name (rev (snd <$> images)).

Fixpoint linkedlib_loop (st : statics) (n : nat) (h : mach_header) (symname : list Z) (offset : Z) : outcome Z :=
  match n with
  | O => Ret 0
  | S n =>
      lc ← command h offset;
      if (LC_LOAD_DYLIB =? cmd lc) || (LC_LOAD_WEAK_DYLIB =? cmd lc) then
        mh1 ← lt__match_loadedlib (lc_name lc);
        mh1 ← (if mh1 =? 0 then called (lt__addimage st) (NSAddImage (lc_name lc) true) else Ret mh1);
        let symbol := if negb (mh1 =? 0) then NSLookupSymbolInImage mh1 symname else 0 in
        if negb (symbol =? 0) then Ret symbol else linkedlib_loop st n h symname (offset + cmdsize lc)
      else linkedlib_loop st n h symname (offset + cmdsize lc)
  end.

Definition lt__linkedlib_symbol (st : statics) (symname : list Z) (mh : Z) : outcome Z :=
  if lt__image_symbol st && NSIsSymbolNameDefined symname then h ← header mh; linkedlib_loop st (ncmds h) h symname HEADER_SIZE
  else Ret 0.

(** The message is copied to the local array [saveError], and that is what is stored. *)
Definition vm_sym (st : statics) (module : Z) (name : list Z) (e : errors) : outcome (Z * errors) :=
  if module =? -1 then match _dyld_lookup_and_bind name with Some address => Ret (address, e) | None => Undef end
  else
    let mh := module in
    let nssym := if magic mh =? LT__MAGIC then
                   if lt__image_symbol_p st && lt__image_symbol st then
                     if NSIsSymbolNameDefinedInImage mh name then NSLookupSymbolInImage mh name else 0
                   else 0
                 else NSLookupSymbolInModule module name in
    nssym ← (if nssym =? 0 then
               let mh := if mh =? 0 then lt__nsmodule_get_header module else mh in
               lt__linkedlib_symbol st name mh
             else Ret nssym);
    Ret (if negb (nssym =? 0) then NSAddressOfSymbol nssym else 0,
         if nssym =? 0 then lt__set_last_error (Some Dangling) e else e).

(** ** Names of libraries *)

(** The commands of a header, one behind the other. *)
Fixpoint laid_out (h : mach_header) (offset : Z) (cs : list load_command) : Prop :=
  match cs with [] => True | c :: cs => commands h !! offset = Some c /\ laid_out h (offset + cmdsize c) cs end.

Definition install_names (cs : list load_command) : list (list Z) := lc_name <$> filter (fun c => cmd c = LC_ID_DYLIB) cs.

Lemma instnam_laid_out h offset cs r :
  laid_out h offset cs -> instnam_loop (length cs) h offset r = Ret (match last (install_names cs) with Some n => Some n | None => r end).
Proof.
  revert offset r. induction cs as [|c cs IH]; intros offset r Hl; [done|]. destruct Hl as [Hc Hl]. cbn [length instnam_loop]. unfold command.
  rewrite Hc. cbn [mbind outcome_bind]. rewrite IH by done. unfold install_names. destruct (Z.eqb_spec (cmd c) LC_ID_DYLIB) as [E|E].
  - rewrite filter_cons_True by done. cbn [fmap list_fmap]. rewrite last_cons. by destruct (last _).
  - by rewrite filter_cons_False by done.
Qed.

(** The name a library was installed under is that of its last command with one. *)
Lemma instnam_spec mh h cs :
  headers !! mh = Some h -> ncmds h = length cs -> laid_out h HEADER_SIZE cs -> lt__header_get_instnam mh = Ret (last (install_names cs)).
Proof.
  intros Hh Hn Hl. unfold lt__header_get_instnam, header. rewrite Hh. cbn. rewrite Hn, (instnam_laid_out h HEADER_SIZE cs None Hl). by destruct (last _).
Qed.

Lemma match_loop_spec ident name l :
  (forall mh, mh ∈ l -> lt__header_get_instnam mh = Ret (ident mh)) ->
  match_loop name l = Ret (default 0 (snd <$> list_find (fun mh => is_Some (ident mh) /\ ident mh <> Some name) l)).
Proof.
  induction l as [|mh l IH]; intros Hl; [done|]. cbn [match_loop list_find]. rewrite Hl by left. cbn [mbind outcome_bind]. rewrite IH by (intros; apply Hl; by right).
  case_decide as Hd.
  - destruct Hd as [[id Hi] Hn]. rewrite Hi in *. by rewrite bool_decide_eq_false_2 by congruence.
  - replace (match ident mh with Some id => negb (bool_decide (id = name)) | None => false end) with false.
    + cbn. by destruct (list_find _ l) as [[? ?]|].
    + destruct (ident mh) as [id|]; [|done]. symmetry. apply negb_false_iff, bool_decide_eq_true. destruct (decide (id = name)); [done|].
      exfalso. apply Hd. split; [by eexists|congruence].
Qed.

(** The library with a name is never the one that is found: [strneq] tells if two strings
    differ.  A library that is the only one with a name is not found at all. *)
Theorem wrong_library ident name :
  (forall mh, mh ∈ (snd <$> images) -> mh <> 0 /\ lt__header_get_instnam mh = Ret (ident mh)) ->
  exists mh, lt__match_loadedlib name = Ret mh /\ ident mh <> Some name \/
             lt__match_loadedlib name = Ret 0 /\ Forall (fun mh => default name (ident mh) = name) (snd <$> images).
Proof.
  intros Hi. unfold lt__match_loadedlib. rewrite (match_loop_spec ident).
  2:{ intros mh Hm. apply Hi. by apply list_elem_of_In, in_rev, list_elem_of_In. }
  destruct (list_find _ (rev (snd <$> images))) as [[i mh]|] eqn:E; cbn.
  - exists mh. left. split; [done|]. by apply list_find_Some in E as (_ & [_ ?] & _).
  - exists 0. right. split; [done|]. apply list_find_None in E. apply Forall_forall. intros mh Hm.
    rewrite Forall_forall in E. specialize (E mh ltac:(by apply list_elem_of_In, in_rev; rewrite rev_involutive; apply list_elem_of_In)).
    destruct (ident mh) as [id|]; [|done]. cbn. destruct (decide (id = name)); [done|]. exfalso. apply E. split; [by eexists|congruence].
Qed.

(** ** Opening and symbols *)

Definition all_there (st : statics) : Prop :=
  lt__addimage st = true /\ lt__image_symbol st = true /\ lt__image_symbol_p st = true /\ lt__module_export st = true.

(** After the loader is initialised, on a system that has the functions, modules are opened
    by the law of loaders. *)
Theorem dyld_opens st st' e e' f e0 :
  dyld_cannot_close st = 0 -> vl_init true st e = Ret (0, st', e') -> (forall n, _dyld_func_lookup n = true) ->
  exists r, vm_open st' f e0 = Ret r /\ reports e0 r.
Proof.
  intros Hst Hi Hl. assert (all_there st') as (Ha & Hs & Hp & Hm).
  { revert Hi. unfold vl_init. rewrite Hst. change (negb (0 =? 0)) with false. cbn iota. destruct (negb _dyld_present); [done|].
    destruct (lt_dladderror true _ e) as [[code e1]|]; [|done]. cbn. intros [= <- <-]. rewrite !Hl. done. }
  unfold vm_open. destruct f as [f|]; [|by eexists]. rewrite Ha, Hs, Hp, Hm.
  assert (Hrep : forall m, reports e0 (m, if m =? 0 then set_dylderror CANNOT_OPEN e0 else e0)).
  { intros m. unfold reports. cbn. destruct (m =? 0); [by eexists|done]. }
  destruct (NSCreateObjectFileImageFromFile f); cbn; try (eexists; split; [done|apply Hrep]).
  destruct (negb (NSLinkModule f =? 0)); cbn; eexists; (split; [done|apply Hrep]).
Qed.

(** A symbol that neither a library nor those it is linked with have: the error that is
    stored points to an array that is gone. *)
Theorem symbol_error_dangles st module name e r :
  module <> -1 -> vm_sym st module name e = Ret (0, r) -> (forall s, s <> 0 -> NSAddressOfSymbol s <> 0) ->
  last_error r = Some Dangling /\ error_text r Dangling = None.
Proof.
  intros Hm Hv Ha. split; [|done]. revert Hv. unfold vm_sym. rewrite (proj2 (Z.eqb_neq module (-1)) Hm). cbn zeta.
  destruct (if _ =? 0 then _ else _) as [s|]; [|done]. cbn. destruct (Z.eqb_spec s 0) as [->|Hs]; cbn.
  - by intros [= <-].
  - intros [= E _]. by destruct (Ha s Hs).
Qed.

(** A symbol that is not in a bundle but somewhere in the program: the bundle itself is read
    as the header of a library. *)
Theorem bundle_read_as_header st module name e :
  module <> -1 -> module <> 0 -> magic module <> LT__MAGIC -> headers !! module = None ->
  NSLookupSymbolInModule module name = 0 -> lt__image_symbol st = true -> NSIsSymbolNameDefined name = true ->
  vm_sym st module name e = Undef.
Proof.
  intros Hm Hz Hg Hh Hs Hi Hd. unfold vm_sym, lt__linkedlib_symbol, header.
  rewrite (proj2 (Z.eqb_neq module (-1)) Hm), (proj2 (Z.eqb_neq (magic module) _) Hg), Hs, (proj2 (Z.eqb_neq module 0) Hz), Hi, Hd, Hh. done.
Qed.

End dyld.
