(* ===== verification/Linux.v ===== *)
(** * Loading modules on Linux

    The parts of libltdl together, as they are on Linux: the loader for [dlopen] comes
    before that of preloaded modules, which is the last one that is tried (Init.v shows that
    [lt_dlinit] leaves them so).  The laws of the two loaders (LoaderApi.v) are what the search for
    modules (Resolve.v) relies on. *)

From S2P Require Import Prelude.
From S2P Require Import CString.
From S2P Require Import Startup.
From S2P Require Import Argz.
From S2P Require Import Lterror.
From S2P Require Import Slist.
From S2P Require Import SearchPath.
From S2P Require Import Loaders.
From S2P Require Import Modules.
From S2P Require Import Dotla.
From S2P Require Import Opening.
From S2P Require Import Resolve.
From S2P Require Import LoaderApi.
From S2P Require Import Dlopen.
From S2P Require Import Preopen.
Local Open Scope Z_scope.

(** The table of functions in [get_vtable] of preopen.c. *)
Definition preopen_vtable : lt_dlvtable := VTable (str "lt_preopen") None true true true (Some 0) (Some 0) LT_DLLOADER_PREPEND.

(** A table of preloaded symbols that is read to its end always gives a result. *)
Definition result_or (e : errors) (r : run (Z * errors)) : Z * errors := match r with Done x => x | _ => (0, e) end.

Section preloaded.
Context (symlists : gmap Z (list symbol)) (mods_of : Z -> list module) (originator_of : Z -> list Z) (ps : preopen).

#[export] Instance preopen_module_loader : ModuleLoader := {
  module_open f a e := result_or e (Preopen.vm_open symlists f ps e);
  module_close m e := (Preopen.vm_close m, e);
  find_sym m n e := result_or e (Preopen.vm_sym symlists m n e)
}.

Hypothesis chain : chain_ok symlists mods_of originator_of ps.
Hypothesis some_table : preloaded_symlists ps <> [].

(** The first table with a module of the name, or zero. *)
Definition preloaded (f : option (list Z)) : Z :=
  default 0 (snd <$> list_find (fun p => offers (default PROGRAM f) (mods_of p) = true) (preloaded_symlists ps)).

Lemma preopen_open f e :
  Preopen.vm_open symlists f ps e = Done (if preloaded f =? 0 then (0, set_error FILE_NOT_FOUND e) else (preloaded f, e)).
Proof.
  unfold Preopen.vm_open, preloaded. rewrite is_null_false by done. rewrite (open_loop_spec symlists mods_of originator_of) by exact chain.
  destruct (list_find _ _) as [[i p]|] eqn:E; cbn; [|done]. apply list_find_Some in E as (Hi & _).
  unfold chain_ok in chain. rewrite Forall_forall in chain. destruct (chain p (list_elem_of_lookup_2 _ _ _ Hi)) as (_ & _ & Hp).
  by rewrite (proj2 (Z.eqb_neq p 0) Hp).
Qed.

#[export] Instance preopen_opens : OpenLaws preopen_module_loader.
Proof.
  refine {| module_of f a := preloaded f |}; intros f a e; cbn [module_open preopen_module_loader]; rewrite preopen_open; unfold reports;
    destruct (Z.eqb_spec (preloaded f) 0) as [E|E]; cbn [result_or fst snd].
  - by rewrite E.
  - done.
  - change (0 =? 0) with true. by eexists.
  - by rewrite (proj2 (Z.eqb_neq _ 0) E).
Defined.

#[export] Instance preopen_closes : CloseLaws preopen_module_loader.
Proof. done. Qed.

End preloaded.

Section linux.
Context (dlopen : option (list Z) -> Z -> Z) (dlclose : Z -> Z) (dlsym : Z -> list Z -> Z) (dlerror : Dlopen.call -> option (list Z)).
Context (symlists : gmap Z (list symbol)) (mods_of : Z -> list module) (originator_of : Z -> list Z) (ps : preopen).
(** The addresses of the two tables of functions. *)
Context (dl_table pre_table : Z) (vt : gmap Z lt_dlvtable).

Hypothesis dlerror_set : forall c, is_Some (dlerror c).
Hypothesis chain : chain_ok symlists mods_of originator_of ps.
Hypothesis some_table : preloaded_symlists ps <> [].
Hypothesis dl_table_is : vt !! dl_table = Some Dlopen.vtable.
Hypothesis pre_table_is : pre_table <> 0 /\ vt !! pre_table = Some preopen_vtable.

(** The functions of the loader at an address. *)
Definition loader_at (v : Z) : ModuleLoader :=
  if v =? pre_table then preopen_module_loader symlists ps else Dlopen.dlopen_loader dlopen dlclose dlsym dlerror.

#[local] Instance loader_opens v : OpenLaws (loader_at v).
Proof.
  unfold loader_at. destruct (v =? pre_table); [exact (preopen_opens symlists mods_of originator_of ps chain some_table)|].
  exact (Dlopen.dlopen_opens dlopen dlclose dlsym dlerror dlerror_set).
Defined.

Definition linux_loaders : list Z := [dl_table; pre_table].

Lemma tables_differ : dl_table <> pre_table.
Proof. intros E. destruct pre_table_is as [_ H]. rewrite <- E, dl_table_is in H. discriminate. Qed.

(** The module of a file: what [dlopen] gives for it, or the preloaded one. *)
Definition linux_opener (f : list Z) : option (Z * Z) :=
  let m := dlopen (Some f) (Dlopen.module_flags (Some ext_advise)) in
  if negb (m =? 0) then Some (dl_table, m)
  else if negb (preloaded mods_of ps (Some f) =? 0) then Some (pre_table, preloaded mods_of ps (Some f)) else None.

Definition linked_in (f : list Z) : bool := negb (preloaded mods_of ps (Some f) =? 0).

Lemma linux_first f : first_loader loader_at linux_loaders (Some f) (Some ext_advise) = linux_opener f.
Proof.
  assert (@module_of (loader_at dl_table) (loader_opens dl_table) (Some f) (Some ext_advise)
            = dlopen (Some f) (Dlopen.module_flags (Some ext_advise))) as E1.
  { unfold loader_opens, loader_at. by rewrite (proj2 (Z.eqb_neq _ _) tables_differ). }
  assert (@module_of (loader_at pre_table) (loader_opens pre_table) (Some f) (Some ext_advise) = preloaded mods_of ps (Some f)) as E2.
  { unfold loader_opens, loader_at. by rewrite Z.eqb_refl. }
  unfold linux_opener. cbn [first_loader linux_loaders]. rewrite E1, E2. destruct (_ =? 0); [|done]. by destruct (_ =? 0).
Qed.

(** What the search for modules relies on: whatever [dlopen] reports, the last message is that
    there is no such file. *)
Lemma linux_opens f e : exists e',
  try_loaders (open_with loader_at) linux_loaders (Some f) (Some ext_advise) e = (default (0, 0) (linux_opener f), e')
  /\ (forall v m, linux_opener f = Some (v, m) -> m <> 0)
  /\ (linux_opener f = None -> is_Some (last_error e') /\ file_not_found e' = true).
Proof.
  pose proof (try_loaders_spec loader_at linux_loaders (Some f) (Some ext_advise) e) as H. rewrite linux_first in H.
  assert (forall v m, linux_opener f = Some (v, m) -> m <> 0) as Hm.
  { intros v m E. rewrite <- linux_first in E. by apply first_loader_spec in E as [_ ?]. }
  destruct (linux_opener f) as [[v m]|] eqn:Eo.
  - destruct H as (e' & ->). by exists e'.
  - destruct H as (e' & -> & e0 & -> & Hs). eexists. split; [done|]. split; [done|]. intros _. split; [done|].
    unfold file_not_found. apply bool_decide_eq_true_2. unfold loader_at. rewrite Z.eqb_refl. cbn [module_open preopen_module_loader].
    rewrite (preopen_open symlists mods_of originator_of) by done. cbn [result_or].
    unfold linux_opener in Eo. destruct (negb (dlopen _ _ =? 0)); [done|]. by destruct (preloaded mods_of ps (Some f) =? 0).
Qed.

Lemma linux_preopen : preopen_loader vt linux_loaders = pre_table.
Proof.
  unfold preopen_loader, first_named, linux_loaders. cbn [list_find].
  rewrite decide_False by (unfold named; rewrite dl_table_is; discriminate). rewrite decide_True by (unfold named; by rewrite (proj2 pre_table_is)). done.
Qed.

Lemma linux_not_preloaded : preopen_loader vt linux_loaders <> 0 ->
  forall f e, linked_in f = false -> exists e', open_with loader_at (preopen_loader vt linux_loaders) (Some f) (Some ext_advise) e = (0, e').
Proof.
  intros _ f e Hl. rewrite linux_preopen. unfold open_with, loader_at. rewrite Z.eqb_refl. cbn [module_open preopen_module_loader].
  rewrite (preopen_open symlists mods_of originator_of) by done. unfold linked_in in Hl. apply negb_false_iff in Hl. rewrite Hl. by eexists.
Qed.

(** A file that is not preloaded is opened by [dlopen], and its symbols are those of [dlsym]. *)
Lemma linux_opener_dl f v m : linux_opener f = Some (v, m) -> linked_in f = false -> v = dl_table.
Proof. unfold linux_opener, linked_in. intros E Hl. rewrite Hl in E. by destruct (negb (dlopen _ _ =? 0)); [injection E as <- _|]. Qed.

Definition linux_symbols (v m : Z) (n : list Z) : Z := dlsym m n.

Lemma linux_finds f v m n e : linux_opener f = Some (v, m) -> linked_in f = false ->
  exists e', sym_with loader_at v m n e = (linux_symbols v m n, e') /\ (if linux_symbols v m n =? 0 then is_Some (last_error e') else e' = e).
Proof.
  intros E Hl. rewrite (linux_opener_dl f v m E Hl). unfold sym_with, loader_at. rewrite (proj2 (Z.eqb_neq _ _) tables_differ).
  pose proof (@sym_reports _ (Dlopen.dlopen_finds dlopen dlclose dlsym dlerror dlerror_set) m n e) as H. by eexists.
Qed.

Lemma linux_tables f v m : linux_opener f = Some (v, m) -> linked_in f = false -> is_Some (vt !! v).
Proof. intros E Hl. rewrite (linux_opener_dl f v m E Hl), dl_table_is. by eexists. Qed.

(** ** The theorems of Resolve.v on Linux *)

Context (has_memory : Z -> bool) (junk handle_size advise_size pointer_size : Z) (alloc : gmap Z handle -> Z).
Context (fopen : list Z -> option (list Z)) (access : list Z -> bool).
Context (searchpath_var module_path_var : option (list Z)) (sys_dlsearch_path : list Z).
Hypothesis memory : forall n, has_memory n = true.
Hypothesis alloc_fresh : forall h, alloc h <> 0 /\ h !! alloc h = None.
Hypothesis system_path : sys_dlsearch_path <> [].

Local Abbreviation names := (names_ok has_memory vt linux_loaders fopen access searchpath_var module_path_var sys_dlsearch_path true linked_in).
Local Abbreviation files := (files_of vt linux_loaders fopen access searchpath_var module_path_var sys_dlsearch_path true).

(** On Linux the message of [dlopen] is lost: when no file of a name can be opened, the error
    of [lt_dlopenext] is that there is no such file, although the files may all be there and
    [dlopen] told what is wrong with them (a missing library or symbol, the wrong
    format).  The loader of preloaded modules is asked last, and its message stays. *)
Theorem dlopen_message_lost (fuel : nat) (d : dl) (name : list Z) :
  names d name -> Forall (fun f => dlopen (Some f) (Dlopen.module_flags (Some ext_advise)) = 0) (files d name) ->
  exists d', lt_dlopenext (open_with loader_at) (close_with loader_at) has_memory junk handle_size advise_size pointer_size vt linux_loaders alloc
               fopen access searchpath_var module_path_var sys_dlsearch_path false (S fuel) (Some name) d = Done (0, d') /\ last_error (errs (ms d')) = Some (Table FILE_NOT_FOUND)
             /\ heap (ms d') = heap (ms d) /\ handles (ms d') = handles (ms d).
Proof.
  intros Hn Hf. pose proof Hn as (_ & _ & _ & _ & Hfiles). apply Forall_cons in Hfiles as [_ Hfiles].
  assert (first_opened linux_opener (files d name) = None) as E.
  { revert Hf Hfiles. generalize (files d name). intros fs. induction fs as [|f fs IH]; [done|]. intros [Hf Hfs]%Forall_cons [[_ Hl] Hl']%Forall_cons.
    cbn [first_opened]. unfold linux_opener at 1. rewrite Hf. unfold linked_in in Hl. rewrite Hl. by apply IH. }
  pose proof (dlopenext_first (open_with loader_at) (close_with loader_at) has_memory junk handle_size advise_size pointer_size vt linux_loaders alloc
    fopen access searchpath_var module_path_var sys_dlsearch_path memory alloc_fresh ltac:(discriminate) linux_opener true linux_opens
    linked_in linux_not_preloaded system_path fuel d name Hn) as H.
  unfold opens_first, opens_of in H. rewrite E in H. destruct H as (d' & E' & (Hh & Hl & _) & [_ Hown]). exists d'.
  split_and!; [exact E'| |exact Hh|exact Hl]. by apply bool_decide_eq_true in Hown.
Qed.

(** The mapper in a module: under the long name or the plain one. *)
Definition mapper_address (m : Z) (n : list Z) : Z :=
  let a := dlsym m (n ++ str "_LTX_" ++ str "proxy_map_query") in if a =? 0 then dlsym m (str "proxy_map_query") else a.

(** C20: The proxy gets its query mapper: in a fresh libltdl with no error pending, the start
    adds its two directories to the search path, opens with [dlopen] the first file that
    works of those which [libproxymap-...] resolves to there, and finds the function in it with
    [dlsym]; it fails exactly if [dlopen] refuses all the files or the module has no such
    function, as [proxy_backend_init] of the start assumes.  In particular the attempts that
    failed on the way (no archive in the first directory, no symbol with the long name)
    leave no error that would be taken for a failure, and no error is left for later. *)
Theorem mapper_loaded (pkg_lib_dir mapper : list Z) (d : dl) :
  let name := str "libproxymap-" ++ mapper in
  let opened := first_opened linux_opener (files (with_path pkg_lib_dir d) name) in
  let address := from_option (fun '(_, (_, m)) => mapper_address m (symbol_name name)) 0 opened in
  addable pkg_lib_dir -> zlength pkg_lib_dir < 2 ^ 32 -> zlength name < BUFSIZ ->
  user_search_path d = None -> last_error (errs (ms d)) = None -> names (with_path pkg_lib_dir d) name ->
  exists d', load_mapper (open_with loader_at) (close_with loader_at) has_memory junk handle_size advise_size pointer_size vt linux_loaders alloc
               fopen access searchpath_var module_path_var sys_dlsearch_path (sym_with loader_at) pkg_lib_dir mapper d
             = Done (fst (proxy_backend_init (Some mapper) false (match opened with Some _ => true | None => false end) (negb (address =? 0))),
                     address, d')
    /\ last_error (errs (ms d')) = None
    /\ match opened with
       | Some (f, (v, m)) => v = dl_table /\ dlopen (Some f) (Dlopen.module_flags (Some ext_advise)) = m /\ m <> 0
           /\ Resolve.loaded alloc (with_path pkg_lib_dir d) f (v, m) (symbol_name name) d'
       | None => same (with_path pkg_lib_dir d) d'
       end.
Proof.
  intros name opened address Ha Hl Hz Hu He Hn.
  pose proof (mapper_found (open_with loader_at) (close_with loader_at) has_memory junk handle_size advise_size pointer_size vt linux_loaders alloc
    fopen access searchpath_var module_path_var sys_dlsearch_path memory alloc_fresh ltac:(discriminate) linux_opener true linux_opens
    linked_in linux_not_preloaded system_path (sym_with loader_at) linux_symbols linux_finds linux_tables pkg_lib_dir mapper d) as H.
  cbn zeta in H. destruct H as (d' & E & Hlast & Hd'); [done..|]. fold name in E, Hd'. fold opened in E, Hd'. exists d'.
  destruct opened as [[f [v m]]|] eqn:Eo.
  - assert (linked_in f = false) as Hlink by (by eapply first_opened_linked). pose proof (first_opened_Some _ _ _ _ Eo) as Ef.
    pose proof (linux_opener_dl _ _ _ Ef Hlink) as ->. assert (address = mapper_in vt linux_symbols (dl_table, m) (symbol_name name)) as ->.
    { unfold address, mapper_in. cbn [from_option fst snd]. rewrite dl_table_is. done. }
    split; [exact E|]. split; [exact Hlast|]. split; [done|]. revert Ef. unfold linux_opener. unfold linked_in in Hlink. rewrite Hlink.
    destruct (Z.eqb_spec (dlopen (Some f) (Dlopen.module_flags (Some ext_advise))) 0) as [Ez|Ez]; cbn [negb]; [done|]. intros [= Em]. by subst m.
  - by split.
Qed.

End linux.

(** ** A system with one mapper *)

Definition linux_tables_demo : gmap Z lt_dlvtable := <[16 := Dlopen.vtable]> (<[17 := preopen_vtable]> ∅).
Definition linux_preopen_demo : preopen := Preopen [64] 0 (Some 0).
Definition demo_dlopen (f : option (list Z)) (flags : Z) : Z := if decide (f = Some (str "/usr/lib/proxy/libproxymap-rowa.so")) then 77 else 0.
Definition demo_dlsym (m : Z) (n : list Z) : Z := if decide (n = str "proxy_map_query") then 4096 else 0.
Definition demo_dlerror (c : Dlopen.call) : option (list Z) := Some (str "undefined symbol").

Lemma linux_demo_chain : chain_ok demo_symlists (fun _ => demo_mods) (fun _ => str "libltdlc") linux_preopen_demo.
Proof. apply Forall_singleton. split; [reflexivity|]. split; [|discriminate]. repeat constructor; discriminate. Qed.

Lemma linux_demo_names :
  names_ok (fun _ => true) linux_tables_demo (linux_loaders 16 17) demo_fopen (fun _ => false) None None (str "/lib:/usr/lib") true
    (linked_in (fun _ => demo_mods) linux_preopen_demo) (with_path (str "/usr/lib/proxy") demo_dl) (str "libproxymap-" ++ str "rowa").
Proof.
  destruct demo_names as (H1 & H2 & H3 & H4 & _). split; [exact H1|]. split; [exact H2|]. split; [exact H3|]. split.
  - intros dr content E. destruct (H4 dr content E) as (Ha & Hd & _). split; [exact Ha|]. split; [exact Hd|].
    assert (content = demo_la) as -> by (revert E; vm_compute; intros [= _ <-]; reflexivity). vm_compute. constructor.
  - match goal with |- Forall _ ?l => let l' := eval vm_compute in l in change l with l' end. repeat (constructor; [split; reflexivity|]). constructor.
Qed.

Lemma mapper_loaded_witness :
  exists d', load_mapper (open_with (loader_at demo_dlopen (fun _ => 0) demo_dlsym demo_dlerror demo_symlists linux_preopen_demo 17))
      (close_with (loader_at demo_dlopen (fun _ => 0) demo_dlsym demo_dlerror demo_symlists linux_preopen_demo 17)) (fun _ => true) 170 80 20 8
      linux_tables_demo (linux_loaders 16 17) demo_alloc demo_fopen (fun _ => false) None None (str "/lib:/usr/lib")
      (sym_with (loader_at demo_dlopen (fun _ => 0) demo_dlsym demo_dlerror demo_symlists linux_preopen_demo 17)) (str "/usr/lib/proxy") (str "rowa") demo_dl
    = Done (false, 4096, d') /\ last_error (errs (ms d')) = None.
Proof.
  destruct (mapper_loaded demo_dlopen (fun _ => 0) demo_dlsym demo_dlerror demo_symlists (fun _ => demo_mods) (fun _ => str "libltdlc")
    linux_preopen_demo 16 17 linux_tables_demo (fun _ => ltac:(eexists; reflexivity)) linux_demo_chain ltac:(discriminate) ltac:(reflexivity)
    ltac:(split; [discriminate|reflexivity]) (fun _ => true) 170 80 20 8 demo_alloc demo_fopen (fun _ => false) None None (str "/lib:/usr/lib")
    ltac:(reflexivity) demo_alloc_fresh ltac:(discriminate) (str "/usr/lib/proxy") (str "rowa") demo_dl) as (d' & E1 & E2 & _).
  - split; [split|]; [by repeat constructor|by apply (bool_decide_unpack _)|vm_compute; discriminate].
  - reflexivity.
  - reflexivity.
  - reflexivity.
  - reflexivity.
  - exact linux_demo_names.
  - exists d'. split; [|exact E2]. etransitivity; [exact E1|]. match goal with |- Done (?a, ?b, _) = _ => assert (a = false) as -> by (vm_compute; reflexivity);
      assert (b = 4096) as -> by (vm_compute; reflexivity) end. reflexivity.
Defined.

(** The mapper is there, but it needs a symbol that no library has. *)
Lemma dlopen_message_lost_witness :
  exists d', lt_dlopenext (open_with (loader_at (fun _ _ => 0) (fun _ => 0) demo_dlsym demo_dlerror demo_symlists linux_preopen_demo 17))
      (close_with (loader_at (fun _ _ => 0) (fun _ => 0) demo_dlsym demo_dlerror demo_symlists linux_preopen_demo 17)) (fun _ => true) 170 80 20 8
      linux_tables_demo (linux_loaders 16 17) demo_alloc demo_fopen (fun _ => false) None None (str "/lib:/usr/lib") false 1
      (Some (str "libproxymap-" ++ str "rowa")) (with_path (str "/usr/lib/proxy") demo_dl)
    = Done (0, d') /\ last_error (errs (ms d')) = Some (Table FILE_NOT_FOUND).
Proof.
  destruct (dlopen_message_lost (fun _ _ => 0) (fun _ => 0) demo_dlsym demo_dlerror demo_symlists (fun _ => demo_mods) (fun _ => str "libltdlc")
    linux_preopen_demo 16 17 linux_tables_demo (fun _ => ltac:(eexists; reflexivity)) linux_demo_chain ltac:(discriminate) ltac:(reflexivity)
    ltac:(split; [discriminate|reflexivity]) (fun _ => true) 170 80 20 8 demo_alloc demo_fopen (fun _ => false) None None (str "/lib:/usr/lib")
    ltac:(reflexivity) demo_alloc_fresh ltac:(discriminate) 0 (with_path (str "/usr/lib/proxy") demo_dl) (str "libproxymap-" ++ str "rowa")
    linux_demo_names) as (d' & E1 & E2 & _).
  - apply Forall_forall. reflexivity.
  - exists d'. split; [exact E1|exact E2].
Defined.
