(* ===== verification/Exit.v ===== *)
(** * The end of libltdl ([lt_dlexit] of src/libltdl/ltdl.c)

    All modules are closed, in rounds: round [level] closes once every module that is open
    [level] times at most.  Then the loaders are removed.  Modules have other
    libraries they depend on only in builds where the system does not load these; the
    theorems are about the others, and show what happens with them. *)

From S2P Require Import Prelude.
From S2P Require Import CString.
From S2P Require Import Lterror.
From S2P Require Import Slist.
From S2P Require Import Loaders.
From S2P Require Import Modules.
From S2P Require Import Opening.
Local Open Scope Z_scope.

(** The static variables: how often libltdl is initialised, the modules and the search path,
    the loaders. *)
Record ltdl := Ltdl { initialized : Z; lib : dl; lds : loader_state }.

(** Filters that agree on the elements of a list. *)
Lemma list_filter_iff_in {A} (P Q : A -> Prop) `{!forall x, Decision (P x), !forall x, Decision (Q x)} (l : list A) :
  (forall x, x ∈ l -> P x <-> Q x) -> filter P l = filter Q l.
Proof.
  induction l as [|x l IH]; intros Hx; [done|]. rewrite !filter_cons, IH by (intros y Hy; apply Hx; by right). specialize (Hx x ltac:(left)).
  destruct (decide (P x)), (decide (Q x)); tauto.
Qed.

Lemma list_filter_all {A} (P : A -> Prop) `{!forall x, Decision (P x)} (l : list A) : Forall P l -> filter P l = l.
Proof. induction 1 as [|x l Hx _ IH]; [done|]. by rewrite filter_cons, decide_True, IH. Qed.

Lemma list_filter_none {A} (P : A -> Prop) `{!forall x, Decision (P x)} (l : list A) : Forall (fun x => ~ P x) l -> filter P l = [].
Proof. induction 1 as [|x l Hx _ IH]; [done|]. by rewrite filter_cons, decide_False. Qed.

Section exit.
Context (module_close : Z -> Z -> errors -> Z * errors).

(** [while (handles && LT_DLIS_RESIDENT (handles)) handles = handles->next;] *)
Fixpoint drop_resident (m : mstate) (l : list Z) : run (list Z) :=
  match l with
  | [] => Done []
  | p :: l' => h ← deref m p; if is_resident h then drop_resident m l' else Done l
  end.

Definition next_of (p : Z) (m : mstate) : run Z := l ← behind p (handles m); Done (first l).

(** The loop over the handles of one round. *)
Fixpoint close_round (fuel : nat) (level : Z) (cur : Z) (errors : Z) (saw_nonresident : bool) (m : mstate) : run (Z * bool * mstate) :=
  match fuel with
  | O => Fuel
  | S fuel =>
      if cur =? 0 then Done (errors, saw_nonresident, m)
      else
        let tmp := cur in
        cur ← next_of cur m;
        h ← deref m tmp;
        if is_resident h then close_round fuel level cur errors saw_nonresident m
        else if ref_count h <=? level then
          '(r, m) ← close module_close tmp m;
          let errors := if r =? 0 then errors else errors + 1 in
          (* the handle at [cur] may have been closed with [tmp] *)
          let cur := if (cur =? 0) || bool_decide (cur ∈ handles m) then cur else first (handles m) in
          close_round fuel level cur errors true m
        else close_round fuel level cur errors true m
  end.

(** The loop starts again from the front only when it has become shorter. *)
Definition round_fuel (m : mstate) : nat := (S (length (handles m)) * S (length (handles m)))%nat.

Fixpoint close_rounds (fuel : nat) (level : Z) (errors : Z) (m : mstate) : run (Z * mstate) :=
  match fuel with
  | O => Fuel
  | S fuel =>
      '(errors, saw_nonresident, m) ← close_round (round_fuel m) level (first (handles m)) errors false m;
      if negb saw_nonresident then Done (errors, m)
      else if level =? INT_MAX then Stuck
      else close_rounds fuel (level + 1) errors m
  end.

Definition close_modules (fuel : nat) (m : mstate) : run (Z * mstate) :=
  let handle := first (handles m) in
  l ← drop_resident m (handles m);
  let m := MState (heap m) l (errs m) (closed m) in
  if handle =? 0 then Done (0, m) else close_rounds fuel 1 0 m.

(** The loaders of the open modules, and whether these are resident. *)
Fixpoint users (m : mstate) (l : list Z) : run (list (Z * bool)) :=
  match l with [] => Done [] | p :: l => h ← deref m p; us ← users m l; Done ((hvtable h, is_resident h) :: us) end.

(** The loop over the loaders; a table that is removed is freed. *)
Fixpoint remove_loaders (fuel : nat) (loader : Z) (modules : list (Z * bool)) (n : Z) (s : loader_state) (e : errors)
  : run (Z * loader_state * errors) :=
  match fuel with
  | O => Fuel
  | S fuel =>
      if loader =? 0 then Done (n, s, e)
      else
        next ← lt_dlloader_next loader s;
        v ← lt_dlloader_get loader s;
        t ← vtable_of s v;
        '(w, s, e) ← lt_dlloader_remove true modules (vname t) s e;
        if negb (w =? 0) then remove_loaders fuel next modules n (Loaders (delete w (vtables s)) (boxes s) (loaders s)) e
        else remove_loaders fuel next modules (match lt__get_last_error e with Some _ => n + 1 | None => n end) s e
  end.

Definition lt_dlexit (fuel : nat) (s : ltdl) : run (Z * ltdl) :=
  let m := ms (lib s) in
  if initialized s =? 0 then Done (1, Ltdl 0 (with_ms (with_error SHUTDOWN m) (lib s)) (lds s))
  else if negb (initialized s - 1 =? 0) then Done (0, Ltdl (initialized s - 1) (lib s) (lds s))
  else
    '(errors, m) ← close_modules fuel m;
    let e := if errors =? 0 then lt__set_last_error None (errs m) else errs m in
    us ← users m (handles m);
    '(errors, l, e) ← remove_loaders (steps (lds s)) (loaders (lds s)) us errors (lds s) e;
    Done (errors, Ltdl 0 (Dl (with_errs e m) None) l).

(** ** One module *)

Context (close_result : Z -> Z -> Z).
(** Whether a module can be closed does not depend on earlier errors. *)
Hypothesis closes : forall v m e, fst (module_close v m e) = close_result v m.

(** A handle after a round, unless it was closed. *)
Definition after_round (level : Z) (h : handle) : option handle :=
  if is_resident h || (level <? ref_count h) then Some h
  else if ref_count h <=? 1 then None else Some (set_count (ref_count h - 1) h).

Lemma close_plain p m h :
  p ∈ handles m -> heap m !! p = Some h -> is_resident h = false -> deplibs h = [] ->
  exists r e, close module_close p m
    = Done (r, MState (partial_alter (fun _ => if ref_count h <=? 1 then None else Some (set_count (ref_count h - 1) h)) p (heap m))
                 (if ref_count h <=? 1 then unlink p (handles m) else handles m) e
                 (closed m ++ if ref_count h <=? 1 then [(hvtable h, hmodule h)] else []))
    /\ r = (if ref_count h <=? 1 then close_result (hvtable h) (hmodule h) else 0).
Proof.
  intros Hp Hh Hr Hd. unfold close. cbn [lt_dlclose]. rewrite bool_decide_eq_true_2 by done. unfold deref. rewrite Hh. cbn [negb mbind run_bind].
  rewrite Hr, Hd, andb_true_r. replace (ref_count h - 1 <=? 0) with (ref_count h <=? 1) by (apply eq_true_iff_eq; rewrite !Z.leb_le; lia).
  destruct (ref_count h <=? 1).
  - pose proof (closes (hvtable h) (hmodule h) (errs (update p (set_count (ref_count h - 1) h) m))) as Hc.
    destruct (module_close _ _ _) as [r e]. cbn in Hc |- *. exists (r + 0), e. split; [|lia]. do 3 f_equal. by rewrite delete_insert_eq.
  - exists 0, (errs m). cbn. rewrite app_nil_r. done.
Qed.

Lemma unlink_at pre p l : p ∉ pre -> unlink p (pre ++ p :: l) = pre ++ l.
Proof.
  induction pre as [|q pre IH]; intros Hp; cbn; [by rewrite Z.eqb_refl|]. apply not_elem_of_cons in Hp as [Hq Hp].
  rewrite (proj2 (Z.eqb_neq q p)) by done. by rewrite IH.
Qed.

(** ** One round *)

(** What a round makes of the handles [l]. *)
Definition survives (level : Z) (m : mstate) (p : Z) : bool :=
  match heap m !! p ≫= after_round level with Some _ => true | None => false end.
Definition nonresident (m : mstate) (p : Z) : bool := match heap m !! p with Some h => negb (is_resident h) | None => false end.
Definition module_at (m : mstate) (p : Z) : Z * Z := match heap m !! p with Some h => (hvtable h, hmodule h) | None => (0, 0) end.

Definition failed (cs : list (Z * Z)) : Z := zlength (filter (fun x => close_result (fst x) (snd x) <> 0) cs).

Record round (level : Z) (l : list Z) (m m' : mstate) : Prop := {
  rd_heap : forall q, heap m' !! q = if bool_decide (q ∈ l) then heap m !! q ≫= after_round level else heap m !! q;
  rd_closed : closed m' = closed m ++ (module_at m <$> filter (fun p => survives level m p = false) l)
}.

(** Handles without libraries they depend on, open at least once. *)
Definition plain (m : mstate) : Prop :=
  alive m /\ forall p h, p ∈ handles m -> heap m !! p = Some h -> deplibs h = [] /\ 1 <= ref_count h.

Lemma survives_frame level m m1 (l : list Z) b :
  (forall q, q ∈ l -> heap m1 !! q = heap m !! q) -> filter (fun q => survives level m1 q = b) l = filter (fun q => survives level m q = b) l.
Proof.
  induction l as [|p l IH]; intros H; [done|]. rewrite !filter_cons, IH by (intros q Hq; apply H; by right). 
  assert (survives level m1 p = survives level m p) as -> by (unfold survives; by rewrite (H p) by left). done.
Qed.

Lemma modules_frame m m1 (l : list Z) : (forall q, q ∈ l -> heap m1 !! q = heap m !! q) -> module_at m1 <$> l = module_at m <$> l.
Proof. intros H. apply list_fmap_ext. intros i q Hq. unfold module_at. rewrite H; [done|]. by eapply list_elem_of_lookup_2. Qed.

Lemma nonresident_frame m m1 (l : list Z) : (forall q, q ∈ l -> heap m1 !! q = heap m !! q) -> existsb (nonresident m1) l = existsb (nonresident m) l.
Proof. induction l as [|p l IH]; intros H; [done|]. cbn. unfold nonresident at 1 3. rewrite (H p) by left. rewrite IH; [done|]. intros q Hq. apply H. by right. Qed.

Lemma failed_app cs cs' : failed (cs ++ cs') = failed cs + failed cs'.
Proof. unfold failed. by rewrite filter_app, zlength_app. Qed.

Lemma failed_one v m : failed [(v, m)] = if close_result v m =? 0 then 0 else 1.
Proof.
  unfold failed. rewrite filter_cons. cbn [fst snd]. destruct (Z.eqb_spec (close_result v m) 0) as [E|E].
  - by rewrite decide_False by tauto.
  - by rewrite decide_True by done.
Qed.

Lemma plain_at m pre p l :
  plain m -> handles m = pre ++ p :: l ->
  p <> 0 /\ (p ∉ pre) /\ (p ∉ l) /\ next_of p m = Done (first l) /\ exists h, heap m !! p = Some h /\ deplibs h = [] /\ 1 <= ref_count h.
Proof using Type.
  intros [[Hd Hl] Hp] E. assert (p ∈ handles m) as Hin by (rewrite E; apply elem_of_app; right; left). rewrite Forall_forall in Hl. destruct (Hl p Hin) as [Hz [h Hh]].
  rewrite E in Hd. apply NoDup_app in Hd as (_ & Hd & Hd'). apply NoDup_cons in Hd' as [Hpl _].
  assert (p ∉ pre) as Hpp by (intros Hx; by apply (Hd p Hx), list_elem_of_here).
  split_and!; [done..| |]. { unfold next_of. rewrite E, behind_app by done. done. } exists h. destruct (Hp p h Hin Hh). done.
Qed.

(** Only the handle that is closed changes. *)
Lemma plain_closed m m1 pre p l h :
  plain m -> handles m = pre ++ p :: l -> heap m !! p = Some h -> deplibs h = [] ->
  heap m1 = partial_alter (fun _ => if ref_count h <=? 1 then None else Some (set_count (ref_count h - 1) h)) p (heap m) ->
  handles m1 = (if ref_count h <=? 1 then pre ++ l else pre ++ p :: l) -> plain m1.
Proof using Type.
  intros [[Hd Hl] Hp] E Hh Hdep Eh El. rewrite E in Hd, Hl. assert (Hd' := Hd). apply NoDup_app in Hd' as (Hd1 & Hd2 & Hd3).
  apply NoDup_cons in Hd3 as [Hpl Hd3]. rewrite Forall_forall in Hl.
  assert (forall q, q ∈ handles m1 -> q ∈ pre ++ p :: l /\ (ref_count h <= 1 -> q <> p)) as Hq.
  { intros q. rewrite El. destruct (Z.leb_spec (ref_count h) 1) as [Hc|Hc]; [|intros; split; [done|lia]]. intros Hq. split; [rewrite elem_of_app in Hq |- *; rewrite elem_of_cons; tauto|].
    intros _ ->. apply elem_of_app in Hq as [Hq|Hq]; [|done]. by apply (Hd2 p Hq), list_elem_of_here. }
  split; [split|].
  - rewrite El. destruct (ref_count h <=? 1); [|done]. apply NoDup_app. split_and!; [done| |done]. intros x Hx Hx'. apply (Hd2 x Hx). by right.
  - apply Forall_forall. intros q Hin. destruct (Hq q Hin) as [Hq1 Hq2]. destruct (Hl q Hq1) as [Hz Hs]. split; [done|]. rewrite Eh.
    destruct (decide (q = p)) as [->|Hne]; [|by rewrite lookup_partial_alter_ne]. rewrite lookup_partial_alter_eq.
    destruct (Z.leb_spec (ref_count h) 1); [by destruct (Hq2 ltac:(lia))|by eexists].
  - intros q hq Hin Hhq. destruct (Hq q Hin) as [Hq1 Hq2]. rewrite Eh in Hhq. destruct (decide (q = p)) as [->|Hne].
    + rewrite lookup_partial_alter_eq in Hhq. destruct (Z.leb_spec (ref_count h) 1); [done|]. injection Hhq as <-. cbn. split; [done|lia].
    + rewrite lookup_partial_alter_ne in Hhq by done. apply (Hp q); [by rewrite E|done].
Qed.

(** The first handle of a list, and the rest, which is not touched by it. *)
Lemma round_cons level p l pre m m1 m' h :
  p ∉ l -> heap m !! p = Some h -> (forall q, q <> p -> heap m1 !! q = heap m !! q) -> heap m1 !! p = after_round level h ->
  closed m1 = closed m ++ (if survives level m p then [] else [module_at m p]) ->
  round level l m1 m' -> handles m' = (pre ++ if survives level m p then [p] else []) ++ filter (fun p => survives level m1 p = true) l ->
  round level (p :: l) m m' /\ handles m' = pre ++ filter (fun p => survives level m p = true) (p :: l)
  /\ failed (if survives level m p then [] else [module_at m p]) + failed (module_at m1 <$> filter (fun p => survives level m1 p = false) l)
     = failed (module_at m <$> filter (fun p => survives level m p = false) (p :: l))
  /\ nonresident m p || existsb (nonresident m1) l = existsb (nonresident m) (p :: l).
Proof.
  intros Hpl Hh Hq1 Hp1 Hc1 [Rh Rc] El. assert (Hl1 : forall q, q ∈ l -> heap m1 !! q = heap m !! q) by (intros q Hq; apply Hq1; by intros ->).
  rewrite !(survives_frame level m m1 l) in * by done. rewrite (modules_frame m m1) in * by (intros q [_ Hq]%list_elem_of_filter; by apply Hl1).
  rewrite (nonresident_frame m m1 l) by done. split; [split|split; [|split]].
  - intros q. rewrite Rh. destruct (decide (q = p)) as [->|Hne].
    + rewrite (bool_decide_eq_false_2 (p ∈ l)) by done. rewrite (bool_decide_eq_true_2 (p ∈ p :: l)) by set_solver. by rewrite Hp1, Hh.
    + rewrite Hq1 by done. replace (bool_decide (q ∈ p :: l)) with (bool_decide (q ∈ l)); [done|]. apply bool_decide_ext. set_solver.
  - rewrite Rc, Hc1, <- app_assoc. f_equal. rewrite filter_cons. by destruct (survives level m p).
  - rewrite El, <- app_assoc. f_equal. rewrite filter_cons. by destruct (survives level m p).
  - rewrite <- failed_app, filter_cons. by destruct (survives level m p).
  - done.
Qed.

Lemma round_spec level l : forall pre m n saw fuel,
  plain m -> handles m = pre ++ l -> (length l < fuel)%nat ->
  exists m', close_round fuel level (first l) n saw m
               = Done (n + failed (module_at m <$> filter (fun p => survives level m p = false) l), saw || existsb (nonresident m) l, m')
    /\ round level l m m' /\ handles m' = pre ++ filter (fun p => survives level m p = true) l.
Proof.
  induction l as [|p l IH]; intros pre m n saw [|fuel] Hm E Hf; cbn [length] in Hf; try lia; cbn [close_round].
  { exists m. cbn. rewrite Z.add_0_r, orb_false_r. split; [done|]. split; [split|done]; cbn; [done|by rewrite app_nil_r]. }
  destruct (plain_at m pre p l Hm E) as (Hz & Hpp & Hpl & Hnext & h & Hh & Hd & Hc). change (first (p :: l)) with p.
  rewrite (proj2 (Z.eqb_neq p 0) Hz), Hnext. cbn [mbind run_bind]. unfold deref. rewrite Hh. cbn [mbind run_bind].
  assert (survives level m p = match after_round level h with Some _ => true | None => false end) as Hsv by (unfold survives; by rewrite Hh).
  assert (nonresident m p = negb (is_resident h)) as Hnr by (unfold nonresident; by rewrite Hh).
  assert (module_at m p = (hvtable h, hmodule h)) as Hmod by (unfold module_at; by rewrite Hh).
  assert (Hstep : forall m1 n1 saw1,
    plain m1 -> handles m1 = (pre ++ if survives level m p then [p] else []) ++ l -> (forall q, q <> p -> heap m1 !! q = heap m !! q) ->
    heap m1 !! p = after_round level h -> closed m1 = closed m ++ (if survives level m p then [] else [module_at m p]) ->
    n1 = n + failed (if survives level m p then [] else [module_at m p]) -> saw1 = saw || nonresident m p ->
    exists m', close_round fuel level (first l) n1 saw1 m1
                 = Done (n + failed (module_at m <$> filter (fun p => survives level m p = false) (p :: l)), saw || existsb (nonresident m) (p :: l), m')
      /\ round level (p :: l) m m' /\ handles m' = pre ++ filter (fun p => survives level m p = true) (p :: l)).
  { intros m1 n1 saw1 Hm1 E1 Hq1 Hp1 Hc1 -> ->. destruct (IH _ m1 (n + failed (if survives level m p then [] else [module_at m p]))
      (saw || nonresident m p) fuel Hm1 E1 ltac:(lia)) as (m' & -> & Hr & El).
    destruct (round_cons level p l pre m m1 m' h Hpl Hh Hq1 Hp1 Hc1 Hr El) as (H1 & H2 & <- & <-). exists m'. by rewrite Z.add_assoc, orb_assoc. }
  rewrite Hsv, Hnr, Hmod in Hstep. unfold after_round in Hstep. clear IH.
  destruct (is_resident h) eqn:Hres; cbn [orb] in Hstep.
  { apply Hstep; try done; [by rewrite <- app_assoc|by rewrite app_nil_r|change (failed []) with 0; lia|by rewrite orb_false_r]. }
  destruct (Z.leb_spec (ref_count h) level) as [Hle|Hgt].
  - rewrite (proj2 (Z.ltb_ge _ _)) in Hstep by done.
    destruct (close_plain p m h) as (r & e & -> & Hr); [rewrite E; set_solver|done..|]. cbn [mbind run_bind handles]. rewrite E, unlink_at by done.
    match goal with |- context [close_round _ _ ?c _ _ _] => assert (c = first l) as -> end.
    { destruct l as [|q l]; [done|]. cbn [first]. rewrite bool_decide_eq_true_2, orb_true_r; [done|]. destruct (ref_count h <=? 1); set_solver. }
    eapply Hstep; cbn [heap handles closed].
    + by eapply (plain_closed m).
    + destruct (ref_count h <=? 1); by rewrite <- app_assoc.
    + intros q Hq. by apply lookup_partial_alter_ne.
    + by rewrite lookup_partial_alter_eq.
    + by destruct (ref_count h <=? 1).
    + subst r. destruct (ref_count h <=? 1); [rewrite failed_one; destruct (_ =? 0); lia|].
      change (failed []) with 0. change (0 =? 0) with true. cbn iota. lia.
    + by rewrite orb_true_r.
  - rewrite (proj2 (Z.ltb_lt _ _)) in Hstep by done.
    apply Hstep; try done; [by rewrite <- app_assoc|by rewrite app_nil_r|change (failed []) with 0; lia|by rewrite orb_true_r].
Qed.

(** ** All rounds *)

Lemma after_round_same level h h' : after_round level h = Some h' ->
  is_resident h' = is_resident h /\ deplibs h' = deplibs h /\ hvtable h' = hvtable h /\ hmodule h' = hmodule h
  /\ (if is_resident h || (level <? ref_count h) then ref_count h' = ref_count h else ref_count h' = ref_count h - 1 /\ 1 < ref_count h).
Proof.
  unfold after_round. destruct (is_resident h || (level <? ref_count h)); [by intros [= <-]|].
  destruct (Z.leb_spec (ref_count h) 1); intros [= <-]. cbn. by split_and!.
Qed.

(** What is left of a handle in the list after a round. *)
Lemma round_left level m m' p h' :
  round level (handles m) m m' -> handles m' = filter (fun p => survives level m p = true) (handles m) -> p ∈ handles m' -> heap m' !! p = Some h' ->
  exists h, p ∈ handles m /\ heap m !! p = Some h /\ after_round level h = Some h'.
Proof.
  intros [Rh _] El Hin Hh. rewrite El in Hin. apply list_elem_of_filter in Hin as [_ Hin].
  rewrite Rh, bool_decide_eq_true_2 in Hh by done. destruct (heap m !! p) as [h|]; [|done]. by exists h.
Qed.

Lemma round_plain level m m' :
  plain m -> round level (handles m) m m' -> handles m' = filter (fun p => survives level m p = true) (handles m) -> plain m'.
Proof.
  intros [[Hd Hl] Hp] Hr El. split; [split|].
  - rewrite El. by apply NoDup_filter.
  - apply Forall_forall. intros p Hin. rewrite El in Hin. apply list_elem_of_filter in Hin as [Hs Hin]. rewrite Forall_forall in Hl.
    destruct (Hl p Hin) as [Hz _]. split; [done|]. destruct Hr as [Rh _]. rewrite Rh, bool_decide_eq_true_2 by done.
    unfold survives in Hs. destruct (heap m !! p ≫= after_round level); [by eexists|done].
  - intros p h' Hin Hh. destruct (round_left _ _ _ _ _ Hr El Hin Hh) as (h & Hin' & Hh' & Ha). destruct (Hp p h Hin' Hh') as [Hd' Hc].
    apply after_round_same in Ha as (_ & -> & _ & _ & Hc'). split; [done|]. destruct (is_resident h || _); lia.
Qed.

(** All modules but the resident ones are closed, each of them once. *)
Record ended (m m' : mstate) (cs : list (Z * Z)) : Prop := {
  en_heap : forall q, heap m' !! q = if bool_decide (q ∈ handles m) && nonresident m q then None else heap m !! q;
  en_handles : handles m' = filter (fun p => nonresident m p = false) (handles m);
  en_closed : closed m' = closed m ++ cs;
  en_once : cs ≡ₚ (module_at m <$> filter (fun p => nonresident m p = true) (handles m))
}.

Lemma resident_survives level m p : is_Some (heap m !! p) -> nonresident m p = false -> survives level m p = true.
Proof. intros [h Hh]. unfold nonresident, survives, after_round. rewrite Hh. cbn. intros ->%negb_false_iff. done. Qed.

(** Handles that are left have the same module as before. *)
Lemma round_kept level m m' p :
  round level (handles m) m m' -> p ∈ handles m -> survives level m p = true ->
  nonresident m' p = nonresident m p /\ module_at m' p = module_at m p.
Proof.
  intros [Rh _] Hin. unfold survives, nonresident, module_at. rewrite Rh, bool_decide_eq_true_2 by done. destruct (heap m !! p) as [h|]; [|done]. cbn.
  destruct (after_round level h) as [h'|] eqn:Ea; [|done]. intros _. apply after_round_same in Ea as (-> & _ & -> & -> & _). done.
Qed.

Lemma round_last level m m' :
  plain m -> round level (handles m) m m' -> existsb (nonresident m) (handles m) = false ->
  filter (fun p => survives level m p = false) (handles m) = [] /\ (handles m' = filter (fun p => survives level m p = true) (handles m) -> ended m m' []).
Proof.
  intros [[Hd Hl] _] [Rh Rc] Hno. assert (Hr : Forall (fun p => nonresident m p = false /\ survives level m p = true) (handles m)).
  { apply Forall_forall. intros p Hp. assert (nonresident m p = false) as Hn.
    { destruct (nonresident m p) eqn:E; [|done]. rewrite <- Hno. symmetry. apply existsb_exists. exists p. split; [by apply list_elem_of_In|done]. }
    split; [done|]. apply resident_survives; [|done]. rewrite Forall_forall in Hl. by apply Hl. }
  assert (filter (fun p => survives level m p = false) (handles m) = []) as Hnil.
  { apply list_filter_none. eapply Forall_impl; [exact Hr|]. cbn. intros p [_ ->]. done. }
  split; [done|]. intros El. split.
  - intros q. rewrite Rh. case_bool_decide as Hq; [|done]. rewrite Forall_forall in Hr. destruct (Hr q Hq) as [Hn Hs]. rewrite Hn. cbn.
    unfold nonresident in Hn. destruct (heap m !! q) as [h|]; [|done]. cbn. unfold after_round. by apply negb_false_iff in Hn as ->.
  - rewrite El. clear -Hr. induction Hr as [|p l [Hn Hp] _ IH]; [done|]. rewrite !filter_cons, Hn, Hp. cbn. by rewrite IH.
  - by rewrite Rc, Hnil.
  - assert (filter (fun p => nonresident m p = true) (handles m) = []) as ->; [|done].
    apply list_filter_none. eapply Forall_impl; [exact Hr|]. cbn. intros p [-> _]. done.
Qed.

Lemma round_ended level m m1 m' cs :
  plain m -> round level (handles m) m m1 -> handles m1 = filter (fun p => survives level m p = true) (handles m) -> ended m1 m' cs ->
  ended m m' ((module_at m <$> filter (fun p => survives level m p = false) (handles m)) ++ cs).
Proof.
  intros Hm Hr El [Eh Ehs Ec Eo]. pose proof (round_kept level m m1) as Hk. destruct Hm as [[Hd Hl] _]. rewrite Forall_forall in Hl. pose proof Hr as [Rh Rc].
  assert (Hf : forall b, filter (fun p => nonresident m1 p = b) (handles m1) = filter (fun p => survives level m p = true /\ nonresident m p = b) (handles m)).
  { intros b. rewrite El, list_filter_filter. apply list_filter_iff_in. intros p Hp. split; intros [H1 H2]; destruct (Hk p Hr Hp) as [Hn _]; try done; by rewrite ?Hn in *. }
  split.
  - intros q. rewrite Eh, El. destruct (bool_decide_reflect (q ∈ handles m)) as [Hq|Hq]; cbn [andb].
    + destruct (survives level m q) eqn:Es.
      * rewrite bool_decide_eq_true_2 by (by apply list_elem_of_filter). destruct (Hk q Hr Hq Es) as [-> _]. cbn. destruct (nonresident m q) eqn:En; [done|].
        rewrite Rh, bool_decide_eq_true_2 by done. unfold nonresident in En. destruct (heap m !! q) as [h|]; [|done]. cbn. unfold after_round. by apply negb_false_iff in En as ->.
      * rewrite bool_decide_eq_false_2 by (intros [? _]%list_elem_of_filter; congruence). cbn.
        destruct (nonresident m q) eqn:En; [|rewrite resident_survives in Es by (done || apply Hl, Hq); done].
        rewrite Rh, bool_decide_eq_true_2 by done. unfold survives in Es. by destruct (heap m !! q ≫= after_round level).
    + rewrite bool_decide_eq_false_2 by (intros [_ ?]%list_elem_of_filter; done). cbn. by rewrite Rh, bool_decide_eq_false_2.
  - rewrite Ehs, Hf. apply list_filter_iff_in. intros p Hp. split; [tauto|]. intros Hn. split; [|done]. apply resident_survives; [apply Hl, Hp|done].
  - by rewrite Ec, Rc, app_assoc.
  - rewrite Eo, Hf. rewrite (list_fmap_ext (module_at m1) (module_at m)).
    2:{ intros i p Hp. apply list_elem_of_lookup_2, list_elem_of_filter in Hp as [[Hs _] Hp]. by destruct (Hk p Hr Hp Hs). }
    rewrite <- fmap_app. apply fmap_Permutation.
    rewrite <- (filter_app_complement (fun p => survives level m p = false) (filter (fun p => nonresident m p = true) (handles m))), !list_filter_filter.
    apply reflexive_eq. f_equal; apply list_filter_iff_in; intros p Hp.
    + split; [|tauto]. intros Hs. split; [done|]. destruct (nonresident m p) eqn:En; [done|]. by rewrite resident_survives in Hs by (done || apply Hl, Hp).
    + rewrite not_false_iff_true. tauto.
Qed.

(** Round [level] leaves counts of [2 * K - level - 1] at most: those it does not close are greater
    than [level]. *)
Definition counts_below (K level : Z) (m : mstate) : Prop :=
  forall p h, p ∈ handles m -> heap m !! p = Some h -> is_resident h = false -> ref_count h <= K /\ ref_count h <= 2 * K - level.

Lemma counts_next K level m m1 :
  counts_below K level m -> round level (handles m) m m1 -> handles m1 = filter (fun p => survives level m p = true) (handles m) ->
  counts_below K (level + 1) m1.
Proof.
  intros Hc Hr El p h' Hin Hh Hres. destruct (round_left _ _ _ _ _ Hr El Hin Hh) as (h & Hin' & Hh' & Ha).
  apply after_round_same in Ha as (Er & _ & _ & _ & Hc'). rewrite Hres in Er. destruct (Hc p h Hin' Hh' (eq_sym Er)) as [H1 H2].
  rewrite <- Er in Hc'. cbn [orb] in Hc'. destruct (Z.ltb_spec level (ref_count h)); lia.
Qed.

Lemma rounds_spec K : 2 * K <= INT_MAX -> forall fuel level n m,
  plain m -> counts_below K level m -> 1 <= level <= 2 * K -> (Z.to_nat (2 * K - level) < fuel)%nat ->
  exists cs m', close_rounds fuel level n m = Done (n + failed cs, m') /\ ended m m' cs.
Proof.
  intros HK. induction fuel as [|fuel IH]; intros level n m Hm Hc Hlv Hf; [lia|]. cbn [close_rounds].
  destruct (round_spec level (handles m) [] m n false (round_fuel m) Hm eq_refl) as (m1 & -> & Hr & El); [unfold round_fuel; lia|].
  cbn [app] in El. cbn [mbind run_bind orb]. destruct (existsb (nonresident m) (handles m)) eqn:Ex; cbn [negb].
  - assert (level < 2 * K) as Hlt.
    { apply existsb_exists in Ex as (p & Hin%list_elem_of_In & Hp). unfold nonresident in Hp. destruct (heap m !! p) as [h|] eqn:Hh; [|done].
      apply negb_true_iff in Hp. destruct (Hc p h Hin Hh Hp) as [_ Hb]. destruct (proj2 Hm p h Hin Hh). lia. }
    rewrite (proj2 (Z.eqb_neq level INT_MAX)) by lia.
    destruct (IH (level + 1) (n + failed (module_at m <$> filter (fun p => survives level m p = false) (handles m))) m1) as (cs & m' & -> & He);
      [by eapply round_plain|by eapply counts_next|lia|lia|].
    eexists _, m'. split; [|by eapply round_ended]. by rewrite failed_app, Z.add_assoc.
  - destruct (round_last level m m1 Hm Hr Ex) as [-> Hend]. exists [], m1. split; [done|by apply Hend].
Qed.

(** Without resident modules. *)
Lemma close_modules_spec K m fuel :
  plain m -> 2 * K <= INT_MAX -> (Z.to_nat (2 * K) < fuel)%nat ->
  (forall p h, p ∈ handles m -> heap m !! p = Some h -> is_resident h = false /\ ref_count h <= K) ->
  exists cs m', close_modules fuel m = Done (failed cs, m') /\ handles m' = [] /\ (forall q, heap m' !! q = if bool_decide (q ∈ handles m) then None else heap m !! q)
    /\ closed m' = closed m ++ cs /\ cs ≡ₚ (module_at m <$> handles m).
Proof.
  intros Hm HK Hf Hc. unfold close_modules. destruct Hm as [[Hd Hl] Hp]. assert (Hl' := Hl). rewrite Forall_forall in Hl'.
  assert (drop_resident m (handles m) = Done (handles m)) as ->.
  { destruct (handles m) as [|p l] eqn:E; [done|]. cbn. destruct (Hl' p) as [_ [h Hh]]; [left|]. unfold deref. rewrite Hh. cbn.
    destruct (Hc p h ltac:(left) Hh) as [-> _]. done. }
  cbn [mbind run_bind]. destruct (handles m) as [|p l] eqn:E.
  { cbn. eexists [], _. split; [done|]. cbn. split_and!; [done| |by rewrite app_nil_r|done]. intros q. by case_bool_decide; [set_solver|]. }
  cbn [first]. destruct (Hl' p) as [Hz [h Hh]]; [left|]. rewrite (proj2 (Z.eqb_neq p 0) Hz). set (m0 := MState (heap m) (p :: l) (errs m) (closed m)).
  assert (Hnr : forall q, q ∈ p :: l -> nonresident m0 q = true).
  { intros q Hq. unfold nonresident. cbn. destruct (Hl' q Hq) as [_ [hq Hhq]]. rewrite Hhq. by destruct (Hc q hq Hq Hhq) as [-> _]. }
  destruct (Hp p h ltac:(left) Hh) as [_ Hc1]. destruct (Hc p h ltac:(left) Hh) as [_ HcK].
  destruct (rounds_spec K HK fuel 1 0 m0) as (cs & m' & -> & [Eh Ehs Ec Eo]).
  - split; [split; [done|exact Hl]|done].
  - intros q hq Hq Hhq _. destruct (Hc q hq Hq Hhq) as [_ Hq1]. lia.
  - lia.
  - lia.
  - exists cs, m'. cbn [handles] in *. split; [done|]. split_and!.
    + rewrite Ehs. apply list_filter_none, Forall_forall. intros q Hq. by rewrite Hnr.
    + intros q. rewrite Eh. change (handles m0) with (p :: l). change (heap m0) with (heap m). case_bool_decide as Hq; [|done]. by rewrite Hnr.
    + done.
    + rewrite Eo, list_filter_all; [done|]. by apply Forall_forall.
Qed.

End exit.

(** ** The loaders *)

(** The first loader is removed: the list goes on at the next one. *)
Lemma remove_head s v vs t e :
  is_list s (v :: vs) -> vtables s !! v = Some t -> dlloader_exit t = None \/ dlloader_exit t = Some 0 ->
  exists nd s', get (boxes s) (loaders s) = Done nd /\ item nd = v /\ loaders s <> 0
    /\ lt_dlloader_remove true [] (vname t) s e = Done (v, s', e)
    /\ vtables s' = vtables s /\ loaders s' = nxt nd /\ is_list s' vs.
Proof.
  intros Hl Hv Hx. assert (first_named (vtables s) (vname t) (v :: vs) = Some v) as Hfn.
  { unfold first_named. cbn. rewrite decide_True by (unfold named; by rewrite Hv). done. }
  pose proof (is_list_find s (vname t) _ Hl) as Hfind. rewrite Hfn in Hfind.
  destruct Hl as (l & Hc & Hm & Hvs). destruct l as [|a l]; [done|]. pose proof (chain_NoDup _ _ _ Hc) as Hnd. pose proof Hc as Hc'.
  apply chain_inv in Hc' as (Ea & Haz & _ & nd & Hg & Hn & Hch). apply mapM_Some in Hm. apply Forall2_cons_inv_l in Hm as (v' & vs' & Ha & Hm & [= <- <-]).
  rewrite Hn in Ha. injection Ha as Hi. apply Forall_cons in Hvs as [[Hvz _] Hvs]. apply NoDup_cons in Hnd as [Hal _].
  rewrite Ea. exists nd, (Loaders (vtables s) (delete a (boxes s)) (nxt nd)). split; [done|]. split; [done|]. split; [by apply Z.eqb_neq|].
  split; [|split; [done|split; [done|]]].
  - unfold lt_dlloader_remove. rewrite Hfind. cbn [mbind run_bind default from_option id]. rewrite (proj2 (Z.eqb_neq v 0) Hvz). cbn. unfold vtable_of. rewrite Hv. cbn [mbind run_bind].
    replace (match dlloader_exit t with Some r => negb (r =? 0) | None => false end) with false by (by destruct Hx as [-> | ->]).
    unfold slist_remove. rewrite Ea, Haz, Hg. cbn [mbind run_bind].
    assert (loader_callback s (vname t) a nd = a) as -> by (unfold loader_callback; rewrite Hi, Hv; by rewrite decide_True).
    rewrite Haz. cbn [negb mbind run_bind]. unfold slist_unbox. rewrite Haz, Hg. cbn. by rewrite Hi.
  - exists l. cbn. split; [|split; [|done]].
    + eapply chain_frame; [exact Hch|]. intros b Hb. rewrite lookup_delete_ne; [done|]. by intros ->.
    + rewrite mapM_frame with (h := boxes s); [by apply mapM_Some|]. intros b Hb. rewrite lookup_delete_ne; [done|]. by intros ->.
Qed.

Definition removable (s : loader_state) (v : Z) : Prop := exists t, vtables s !! v = Some t /\ (dlloader_exit t = None \/ dlloader_exit t = Some 0).

(** When no module is open, all loaders are removed. *)
Lemma remove_all vs : forall fuel n s e,
  is_list s vs -> NoDup vs -> Forall (removable s) vs -> (length vs < fuel)%nat ->
  exists s', remove_loaders fuel (loaders s) [] n s e = Done (n, s', e) /\ is_list s' []
    /\ forall v, vtables s' !! v = if bool_decide (v ∈ vs) then None else vtables s !! v.
Proof.
  induction vs as [|v vs IH]; intros [|fuel] n s e Hl Hd Hr Hf; cbn [length] in Hf; try lia.
  - exists s. pose proof Hl as (l & Hc & Hm & _). destruct l; [|cbn in Hm; by destruct (item <$> _), (mapM _ _)]. cbn in Hc. cbn [remove_loaders].
    rewrite Hc. split; [done|]. by split.
  - apply Forall_cons in Hr as [(t & Ht & Hx) Hr]. apply NoDup_cons in Hd as [Hv Hd].
    assert (v <> 0) as Hvz by (destruct Hl as (? & _ & _ & Hz); by apply Forall_cons in Hz as [[? _] _]).
    destruct (remove_head s v vs t e Hl Ht Hx) as (nd & s1 & Hg & Hi & Hz & Hrem & Hvt & Hnx & Hl1).
    cbn [remove_loaders]. unfold lt_dlloader_next, lt_dlloader_get. rewrite (proj2 (Z.eqb_neq _ 0) Hz), Hg. cbn [mbind run_bind]. rewrite Hi.
    unfold vtable_of. rewrite Ht. cbn [mbind run_bind]. rewrite Hrem. cbn [mbind run_bind]. rewrite (proj2 (Z.eqb_neq v 0) Hvz). cbn [negb].
    rewrite <- Hnx. set (s2 := Loaders (delete v (vtables s1)) (boxes s1) (loaders s1)). change (loaders s1) with (loaders s2).
    assert (Hsame : forall w, w ∈ vs -> vtables s2 !! w = vtables s !! w).
    { intros w Hw. cbn. rewrite Hvt, lookup_delete_ne; [done|]. by intros ->. }
    destruct (IH fuel n s2 e) as (s' & -> & Hl' & Hvt'); [|done| |lia|].
    + destruct Hl1 as (l & Hc & Hm & Hvs). exists l. split; [done|]. split; [done|]. rewrite Forall_forall in Hvs |- *. intros w Hw.
      rewrite Hsame by done. rewrite <- Hvt. by apply Hvs.
    + rewrite Forall_forall in Hr |- *. intros w Hw. unfold removable. rewrite Hsame by done. by apply Hr.
    + exists s'. split; [done|]. split; [done|]. intros w. rewrite Hvt'. cbn [vtables s2]. rewrite Hvt.
      destruct (decide (w = v)) as [->|Hne].
      * rewrite bool_decide_eq_false_2 by done. rewrite (bool_decide_eq_true_2 (v ∈ v :: vs)) by left. by rewrite lookup_delete_eq.
      * rewrite lookup_delete_ne by done. replace (bool_decide (w ∈ v :: vs)) with (bool_decide (w ∈ vs)); [done|]. apply bool_decide_ext. set_solver.
Qed.

(** ** All together *)

Lemma exit_closes_all (module_close : Z -> Z -> errors -> Z * errors) (close_result : Z -> Z -> Z) (K : Z) (s : ltdl) (vs : list Z) (fuel : nat) :
  (forall v m e, fst (module_close v m e) = close_result v m) ->
  let m := ms (lib s) in
  plain m -> 2 * K <= INT_MAX -> (Z.to_nat (2 * K) < fuel)%nat ->
  (forall p h, p ∈ handles m -> heap m !! p = Some h -> is_resident h = false /\ ref_count h <= K) ->
  is_list (lds s) vs -> NoDup vs -> Forall (removable (lds s)) vs -> 1 <= initialized s ->
  if 1 <? initialized s then lt_dlexit module_close fuel s = Done (0, Ltdl (initialized s - 1) (lib s) (lds s))
  else exists cs m' l, lt_dlexit module_close fuel s = Done (failed close_result cs, Ltdl 0 (Dl m' None) l)
    /\ cs ≡ₚ (module_at m <$> handles m) /\ closed m' = closed m ++ cs /\ handles m' = []
    /\ (forall q, heap m' !! q = if bool_decide (q ∈ handles m) then None else heap m !! q)
    /\ is_list l [] /\ (forall v, v ∈ vs -> vtables l !! v = None).
Proof.
  intros Hcl m Hm HK Hf Hc Hl Hd Hr Hi. unfold lt_dlexit. rewrite (proj2 (Z.eqb_neq _ 0)) by lia.
  destruct (Z.ltb_spec 1 (initialized s)) as [Hlt|Hge]; [by rewrite (proj2 (Z.eqb_neq _ 0)) by lia|].
  rewrite (proj2 (Z.eqb_eq _ 0)) by lia. cbn [negb]. fold m.
  destruct (close_modules_spec module_close close_result Hcl K m fuel Hm HK Hf Hc) as (cs & m' & -> & Eh & Ehp & Ec & Eo). cbn [mbind run_bind].
  rewrite Eh. cbn [users mbind run_bind]. destruct Hl as (l & Hch & Hmap & Hvs) eqn:El. assert (length vs <= size (boxes (lds s)))%nat as Hlen.
  { rewrite <- (length_mapM _ _ _ Hmap). exact (chain_size _ _ _ Hch). }
  match goal with |- context [remove_loaders _ _ _ ?n _ ?e] => destruct (remove_all vs (steps (lds s)) n (lds s) e) as (l' & -> & Hl' & Hv') end;
    [by exists l|done|done|unfold steps; lia|]. cbn [mbind run_bind].
  exists cs, (with_errs (if failed close_result cs =? 0 then lt__set_last_error None (errs m') else errs m') m'), l'. split_and!; try done.
  intros v Hv. by rewrite Hv', bool_decide_eq_true_2.
Qed.

(** C22: The end of libltdl closes everything, when no module is resident and no handle has
    recorded dependencies (the dynamic linker loads the libraries a module depends on).  The last of several calls
    of [lt_dlexit] closes every open module, each of them exactly once, however often it was opened ([K] times at
    most), frees all handles, removes all loaders and frees the search path; its result is the number of
    modules that could not be closed.  It returns: there are [2 * K] rounds at most.
    Calls before the last one only count.  (With dependencies it may follow a freed handle:
    [exit_uses_freed_handle] of Deps.v.) *)
Theorem everything_closed (module_close : Z -> Z -> errors -> Z * errors) (close_result : Z -> Z -> Z) (K : Z) (s : ltdl) (vs : list Z) (fuel : nat) :
  (forall v m e, fst (module_close v m e) = close_result v m) ->
  let m := ms (lib s) in
  plain m -> 2 * K <= INT_MAX -> (Z.to_nat (2 * K) < fuel)%nat ->
  (forall p h, p ∈ handles m -> heap m !! p = Some h -> is_resident h = false /\ ref_count h <= K) ->
  is_list (lds s) vs -> NoDup vs -> Forall (removable (lds s)) vs -> 1 <= initialized s ->
  if 1 <? initialized s then lt_dlexit module_close fuel s = Done (0, Ltdl (initialized s - 1) (lib s) (lds s))
  else exists cs m' l, lt_dlexit module_close fuel s = Done (failed close_result cs, Ltdl 0 (Dl m' None) l)
    /\ cs ≡ₚ (module_at m <$> handles m) /\ closed m' = closed m ++ cs /\ handles m' = []
    /\ (forall q, heap m' !! q = if bool_decide (q ∈ handles m) then None else heap m !! q)
    /\ is_list l [] /\ (forall v, v ∈ vs -> vtables l !! v = None).
Proof. apply exit_closes_all. Qed.

(** ** The mapper of the proxy *)

(** The part of [proxy_backend_close] (src/src/proxy_backend.c) that frees the query mapper:
    [handle] and [mapper] are [backend_mapper_handle] and [backend_mapper]. *)
Definition close_mapper (module_close : Z -> Z -> errors -> Z * errors) (fuel : nat) (handle mapper : Z) (s : ltdl) : run ltdl :=
  s ← (if negb (handle =? 0) then '(_, m) ← close module_close handle (ms (lib s)); Done (Ltdl (initialized s) (with_ms m (lib s)) (lds s)) else Done s);
  if negb (mapper =? 0) then '(_, s) ← lt_dlexit module_close fuel s; Done s else Done s.

(** The mapper is closed by its handle and everything else by [lt_dlexit].  The function is called a
    second time when the start failed while the arrays were allocated, with pointers that
    are not reset: this does nothing, since the freed handle is only compared with those
    in the list. *)
Theorem mapper_unloaded (module_close : Z -> Z -> errors -> Z * errors) (close_result : Z -> Z -> Z) (K : Z) (s : ltdl) (vs : list Z) (fuel : nat) (p mapper : Z) (h : handle) :
  (forall v m e, fst (module_close v m e) = close_result v m) ->
  let m := ms (lib s) in
  plain m -> 2 * K <= INT_MAX -> (Z.to_nat (2 * K) < fuel)%nat ->
  (forall p h, p ∈ handles m -> heap m !! p = Some h -> is_resident h = false /\ ref_count h <= K) ->
  is_list (lds s) vs -> NoDup vs -> Forall (removable (lds s)) vs -> initialized s = 1 ->
  p ∈ handles m -> heap m !! p = Some h -> ref_count h = 1 -> mapper <> 0 ->
  exists cs s', close_mapper module_close fuel p mapper s = Done s' /\ cs ≡ₚ (module_at m <$> handles m)
    /\ closed (ms (lib s')) = closed m ++ cs /\ handles (ms (lib s')) = [] /\ is_list (lds s') [] /\ user_search_path (lib s') = None
    /\ exists s2, close_mapper module_close fuel p mapper s' = Done s2 /\ closed (ms (lib s2)) = closed (ms (lib s')).
Proof.
  intros Hcl m Hm HK Hf Hc Hl Hd Hr Hi Hp Hh H1 Hmap. assert (p <> 0) as Hz by (destruct Hm as [[_ Ha] _]; rewrite Forall_forall in Ha; by apply Ha).
  destruct (Hc p h Hp Hh) as [Hres _]. destruct (proj2 Hm p h Hp Hh) as [Hdep _].
  destruct (list_elem_of_split _ _ Hp) as (l1 & l2 & E). unfold close_mapper at 1. rewrite (proj2 (Z.eqb_neq p 0) Hz). cbn [negb]. fold m.
  destruct (close_plain module_close close_result Hcl p m h Hp Hh Hres Hdep) as (r & e & -> & _). cbn [mbind run_bind]. rewrite H1. cbn [Z.leb Z.compare Pos.compare Pos.compare_cont].
  destruct (plain_at m l1 p l2 Hm E) as (_ & Hp1 & Hp2 & _). rewrite E, unlink_at by done. rewrite (proj2 (Z.eqb_neq mapper 0) Hmap). cbn [negb].
  set (m1 := MState (partial_alter (fun _ => None) p (heap m)) (l1 ++ l2) e (closed m ++ [(hvtable h, hmodule h)])).
  assert (Hsame : forall q, q ∈ l1 ++ l2 -> heap m1 !! q = heap m !! q).
  { intros q Hq. cbn. rewrite lookup_partial_alter_ne; [done|]. intros <-. apply elem_of_app in Hq as [?|?]; done. }
  assert (plain m1) as Hm1 by (eapply (plain_closed m m1 l1 p l2 h); [done|done|done|done|by rewrite H1|by rewrite H1]).
  assert (Hc1 : forall q hq, q ∈ handles m1 -> heap m1 !! q = Some hq -> is_resident hq = false /\ ref_count hq <= K).
  { intros q hq Hq Hhq. rewrite Hsame in Hhq by done. apply (Hc q); [|done]. cbn in Hq. rewrite E. set_solver. }
  pose proof (exit_closes_all module_close close_result K (Ltdl 1 (with_ms m1 (lib s)) (lds s)) vs fuel Hcl Hm1 HK Hf Hc1 Hl Hd Hr ltac:(done)) as Hx.
  cbn [initialized] in Hx. change (1 <? 1) with false in Hx. cbn iota in Hx. destruct Hx as (cs & m' & l & Ex & Hperm & Hcs & Hhs & _ & Hl' & _).
  rewrite Hi, Ex. cbn [mbind run_bind].
  exists ((hvtable h, hmodule h) :: cs). eexists. split; [done|]. cbn [lib ms lds user_search_path] in *. split_and!; try done.
  - rewrite fmap_app. cbn [fmap list_fmap]. rewrite <- Permutation_middle. unfold module_at at 1. rewrite Hh. apply Permutation_skip. rewrite <- fmap_app, Hperm.
    cbn [handles m1]. apply reflexive_eq. by apply modules_frame.
  - transitivity ((closed m ++ [(hvtable h, hmodule h)]) ++ cs); [exact Hcs|by rewrite <- app_assoc].
  - unfold close_mapper. rewrite (proj2 (Z.eqb_neq p 0) Hz), (proj2 (Z.eqb_neq mapper 0) Hmap). cbn [negb lib ms initialized]. unfold close. cbn [lt_dlclose].
    rewrite Hhs. rewrite bool_decide_eq_false_2 by apply not_elem_of_nil. cbn. eexists. split; done.
Qed.

(** One module that was opened twice, in two rounds, and the loader it was opened with. *)
Definition exit_handle : handle := Handle 16 (Some (str "libproxymap-rowa.so")) (Some (str "libproxymap_rowa")) 2 false false false [] 77 [].
Definition exit_demo : ltdl :=
  Ltdl 1 (Dl (MState (<[5 := exit_handle]> ∅) [5] errors0 []) (Some (str "map/.libs/")))
         (Loaders demo_tables (<[1 := Node 0 16]> ∅) 1).

Lemma everything_closed_witness :
  exists m' l, lt_dlexit demo_close 5 exit_demo = Done (0, Ltdl 0 (Dl m' None) l) /\ closed m' = [(16, 77)] /\ handles m' = [] /\ vtables l !! 16 = None.
Proof.
  destruct (everything_closed demo_close (fun _ _ => 0) 2 exit_demo [16] 5) as (cs & m' & l & E & Hp & Hc & Hh & _ & _ & Hv).
  - reflexivity.
  - split; [split; [repeat constructor; by apply not_elem_of_nil|repeat constructor; [discriminate|by eexists]]|].
    intros p h Hp Hh. apply list_elem_of_singleton in Hp as ->. injection Hh as <-. split; [reflexivity|discriminate].
  - vm_compute. discriminate.
  - vm_compute. repeat constructor.
  - intros p h Hp Hh. apply list_elem_of_singleton in Hp as ->. injection Hh as <-. split; [reflexivity|discriminate].
  - exists [1]. split; [split; [reflexivity|split; [discriminate|exists (Node 0 16); split; reflexivity]]|]. split; [reflexivity|].
    repeat constructor; [discriminate|by eexists].
  - repeat constructor. by apply not_elem_of_nil.
  - apply Forall_singleton. eexists. split; [reflexivity|]. right. reflexivity.
  - reflexivity.
  - exists m', l. apply Permutation_singleton_r in Hp as ->. split; [exact E|]. split; [exact Hc|]. split; [exact Hh|]. apply Hv. left.
Defined.
