(* ===== verification/Init.v ===== *)
(** * The start of libltdl ([lt_dlinit] of src/libltdl/ltdl.c)

    The loader of preloaded modules is the first one; it opens the modules of the other
    loaders, which are linked into libltdl, and these are asked for their tables of
    functions.  The system is Linux, where [dlopen.a] is linked in. *)

From S2P Require Import Prelude.
From S2P Require Import CString.
From S2P Require Import Lterror.
From S2P Require Import Slist.
From S2P Require Import Loaders.
From S2P Require Import Modules.
From S2P Require Import Opening.
From S2P Require Import Resolve.
From S2P Require Import LoaderApi.
From S2P Require Import Dlopen.
From S2P Require Import Preopen.
From S2P Require Import Linux.
From S2P Require Import Exit.
Local Open Scope Z_scope.

(** [lt__alloc_die] once libltdl is initialised *)
Definition lt__alloc_die_callback : errors -> errors := set_error NO_MEMORY.

(** The static variables of ltdl.c and of the two loaders. *)
Record st := St { core : ltdl; pre : preopen; dl_static : option Z }.

Definition with_core (c : ltdl) (s : st) : st := St c (pre s) (dl_static s).
Definition st_errs (s : st) : errors := errs (ms (lib (core s))).
Definition with_lib (d : dl) (s : st) : st := with_core (Ltdl (initialized (core s)) d (lds (core s))) s.
Definition set_errs (e : errors) (s : st) : st := with_lib (with_ms (with_errs e (ms (lib (core s)))) (lib (core s))) s.
Definition set_lds (l : loader_state) (s : st) : st := with_core (Ltdl (initialized (core s)) (lib (core s)) l) s.

Section init.
Context (dlopen : option (list Z) -> Z -> Z) (dlclose : Z -> Z) (dlsym : Z -> list Z -> Z) (dlerror : Dlopen.call -> option (list Z)).
Context (symlists : gmap Z (list symbol)) (LTDLOPEN : list Z) (preloaded_symbols : Z).
(** The addresses of the two functions [get_vtable] and of the tables they allocate. *)
Context (pre_get dl_get pre_table dl_table : Z).
Context (memory : bool) (new_box : gmap Z (node Z) -> Z).
Context (junk handle_size advise_size pointer_size : Z) (alloc : gmap Z handle -> Z).
Context (fopen : list Z -> option (list Z)) (access : list Z -> bool).
Context (searchpath_var module_path_var : option (list Z)) (sys_dlsearch_path : list Z).

(** The function at an address is called: the table, or NULL. *)
Definition call_get_vtable (f data : Z) (s : st) : run (Z * st) :=
  if f =? pre_get then
    let '(ok, p, e) := Preopen.get_vtable memory data (pre s) (st_errs s) in
    Done (if ok then pre_table else 0, set_errs e (St (core s) p (dl_static s)))
  else if f =? dl_get then
    let '(ok, d, e) := Dlopen.get_vtable memory data (dl_static s) (st_errs s) in
    Done (if ok then dl_table else 0, set_errs e (St (core s) (pre s) d))
  else Stuck.

(** [vtable->dlloader_init]: only the loader of preloaded modules has one. *)
Definition call_init (vtable : Z) (s : st) : Z * st :=
  let '(r, p, e) := Preopen.vl_init memory (pre s) (st_errs s) in (r, set_errs e (St (core s) p (dl_static s))).

Definition loader_init (vtable_func data : Z) (s : st) : run (Z * st) :=
  '(vtable, s) ← (if negb (vtable_func =? 0) then call_get_vtable vtable_func data s else Done (0, s));
  '(n, l, e) ← lt_dlloader_add (if memory then new_box (boxes (lds (core s))) else 0) vtable (lds (core s)) (st_errs s);
  let s := set_errs e (set_lds l s) in
  if (n =? 0) && (vtable =? 0) then Stuck
  else if n =? 0 then
    t ← vtable_of (lds (core s)) vtable;
    match dlloader_init t with
    | Some _ => let '(r, s) := call_init vtable s in if negb (r =? 0) then Done (n + 1, set_errs (set_error INIT_LOADER (st_errs s)) s) else Done (n, s)
    | None => Done (n, s)
    end
  else Done (n, s).

Definition loader_functions (s : st) : Z -> ModuleLoader := loader_at dlopen dlclose dlsym dlerror symlists (pre s) pre_table.

Definition loader_init_callback (handle : Z) (s : st) : run (Z * st) :=
  '(f, m) ← lt_dlsym (sym_with (loader_functions s)) (vtables (lds (core s))) memory handle (Some (str "get_vtable")) (ms (lib (core s)));
  loader_init f 0 (with_lib (with_ms m (lib (core s))) s).

(** [lt_dlopen] with the loaders there are now *)
Definition dlopen_now (name : list Z) (s : st) : run (Z * st) :=
  vs ← loader_loop (steps (lds (core s))) (lds (core s)) (loaders (lds (core s)));
  '(p, d) ← lt_dlopen (open_with (loader_functions s)) (close_with (loader_functions s)) (fun _ => memory) junk handle_size advise_size pointer_size
              (vtables (lds (core s))) vs alloc fopen access searchpath_var module_path_var sys_dlsearch_path false 0 (Some name) (lib (core s));
  Done (p, with_lib d s).

Definition cannot_open (s : st) : st := set_errs (set_error CANNOT_OPEN (st_errs s)) s.

Definition lt_dlinit (s : st) : run (Z * st) :=
  let n := initialized (core s) + 1 in
  let s := with_core (Ltdl n (lib (core s)) (lds (core s))) s in
  if n =? 1 then
    let m := ms (lib (core s)) in
    let s := with_lib (Dl (MState (heap m) [] (errs m) (closed m)) None) s in
    '(errors, s) ← loader_init pre_get 0 s;
    '(errors, s) ← (if errors =? 0 then
                      let '(n, p, e) := lt_dlpreload memory preloaded_symbols (pre s) (st_errs s) in
                      Done (errors + n, set_errs e (St (core s) p (dl_static s)))
                    else Done (errors, s));
    if errors =? 0 then
      '(n, s) ← lt_dlpreload_open symlists dlopen_now loader_init_callback cannot_open (Some LTDLOPEN) (pre s) s;
      Done (errors + n, s)
    else Done (errors, s)
  else Done (0, s).

(** Calls after the first one only count. *)
Lemma init_again s : 1 <= initialized (core s) ->
  lt_dlinit s = Done (0, with_core (Ltdl (initialized (core s) + 1) (lib (core s)) (lds (core s))) s).
Proof. intros H. unfold lt_dlinit. by rewrite (proj2 (Z.eqb_neq _ 1)) by lia. Qed.

End init.

(** ** Linux *)

(** The program with the loader for [dlopen] linked in, before its start. *)
Definition linux_symlists : gmap Z (list symbol) :=
  <[64 := symtab (str "libltdlc") [(str "dlopen.a", [(str "dlopen_LTX_get_vtable", 4096)])]]> ∅.
Definition linux_st : st := St (Ltdl 0 (Dl (MState ∅ [] errors0 []) None) (Loaders linux_tables_demo ∅ 0)) (Preopen [] 0 None) None.
Definition linux_init (memory : bool) : st -> run (Z * st) :=
  lt_dlinit demo_dlopen (fun _ => 0) demo_dlsym demo_dlerror linux_symlists (str "libltdlc") 64 8192 4096 17 16 memory demo_alloc 170 80 20 8
    demo_alloc (fun _ => None) (fun _ => false) None None (str "/lib:/usr/lib").

(** [lt_dlinit] leaves no error, the two loaders with that for [dlopen] in front, and the module
    of that loader open.  Without memory it fails and leaves no loader. *)
Lemma linux_initialised :
  match linux_init true linux_st with
  | Done (n, s) =>
      n = 0 /\ last_error (st_errs s) = None /\ initialized (core s) = 1 /\ preloaded_symlists (pre s) = [64]
      /\ loader_loop 3 (lds (core s)) (loaders (lds (core s))) = Done (linux_loaders 16 17)
      /\ handles (ms (lib (core s))) = [1] /\ (hmodule <$> heap (ms (lib (core s))) !! 1) = Some 64
  | _ => False
  end
  /\ match linux_init false linux_st with
     | Done (n, s) => n = 1 /\ last_error (st_errs s) = Some (Table INVALID_LOADER) /\ loaders (lds (core s)) = 0
     | _ => False
     end.
Proof. vm_compute. repeat split. Qed.

(** The whole life: the start, the query mapper, and the end, which closes the mapper with
    [dlclose] and the module of the loader, and removes both loaders. *)
Definition linux_life : run (bool * Z * ltdl) :=
  '(_, s) ← linux_init true linux_st;
  vs ← loader_loop (steps (lds (core s))) (lds (core s)) (loaders (lds (core s)));
  let L := loader_at demo_dlopen (fun _ => 0) demo_dlsym demo_dlerror linux_symlists (pre s) 17 in
  '(failed, address, d) ← load_mapper (open_with L) (close_with L) (fun _ => true) 170 80 20 8 (vtables (lds (core s))) vs demo_alloc demo_fopen
                            (fun _ => false) None None (str "/lib:/usr/lib") (sym_with L) (str "/usr/lib/proxy") (str "rowa") (lib (core s));
  c ← close_mapper (close_with L) 5 (first (handles (ms d))) address (Ltdl (initialized (core s)) d (lds (core s)));
  Done (failed, address, c).

Lemma linux_life_ends :
  match linux_life with
  | Done (failed, address, c) =>
      failed = false /\ address = 4096 /\ initialized c = 0 /\ closed (ms (lib c)) = [(16, 77); (17, 64)]
      /\ handles (ms (lib c)) = [] /\ heap (ms (lib c)) = ∅ /\ loaders (lds c) = 0 /\ vtables (lds c) = ∅ /\ user_search_path (lib c) = None
  | _ => False
  end.
Proof. vm_compute. repeat split. Qed.
