(* ===== verification/Deps.v ===== *)
(** * Modules that need other modules

    Where the system does not load the libraries a library needs, libltdl does: the handle
    of a module keeps references to those of its dependencies, which are closed with it.
    The invariant of this graph of handles, and that opening and closing keep it: no freed
    handle is ever used, however the modules depend on each other.  (Except by
    [lt_dlexit], as the last example shows.) *)

From S2P Require Import Prelude.
From S2P Require Import CString.
From S2P Require Import SearchPath.
From S2P Require Import Lterror.
From S2P Require Import Slist.
From S2P Require Import Loaders.
From S2P Require Import Modules.
From S2P Require Import Dotla.
From S2P Require Import Opening.
From S2P Require Import Resolve.
From S2P Require Import Exit.
Local Open Scope Z_scope.

(** ** References *)

(** How often an address is in a list. *)
Definition occ (x : Z) (l : list Z) : Z := zlength (filter (fun y => y = x) l).

Lemma occ_app x l l' : occ x (l ++ l') = occ x l + occ x l'.
Proof. unfold occ. by rewrite filter_app, zlength_app. Qed.

Lemma occ_cons x y l : occ x (y :: l) = (if bool_decide (y = x) then 1 else 0) + occ x l.
Proof. unfold occ. rewrite filter_cons. case_bool_decide; [rewrite decide_True by done|rewrite decide_False by done; lia]. by rewrite zlength_cons. Qed.

Lemma occ_nonneg x l : 0 <= occ x l.
Proof. apply zlength_nonneg. Qed.

Lemma occ_perm x l l' : l ≡ₚ l' -> occ x l = occ x l'.
Proof. intros H. unfold occ, zlength. by rewrite H. Qed.

Lemma occ_zero x l : occ x l = 0 -> x ∉ l.
Proof.
  induction l as [|y l IH]; intros H; [by apply not_elem_of_nil|]. rewrite occ_cons in H. pose proof (occ_nonneg x l). case_bool_decide; [lia|].
  apply not_elem_of_cons. split; [congruence|]. apply IH. lia.
Qed.

Lemma occ_notin x l : x ∉ l -> occ x l = 0.
Proof. intros H. unfold occ. rewrite list_filter_none; [done|]. apply Forall_forall. intros y Hy ->. done. Qed.

Create Rewrite HintDb occ.
#[export] Hint Rewrite occ_app occ_cons : occ.

(** The references of the handles in the list. *)
Definition deps_of (m : mstate) (p : Z) : list Z := default [] (Modules.deplibs <$> heap m !! p).
Definition all_refs (m : mstate) : list Z := handles m ≫= deps_of m.

Lemma refs_frame (l : list Z) m m' : (forall q, q ∈ l -> heap m' !! q = heap m !! q) -> l ≫= deps_of m' = l ≫= deps_of m.
Proof.
  induction l as [|q l IH]; intros H; [done|]. cbn. f_equal.
  - unfold deps_of. by rewrite H by left.
  - apply IH. intros x Hx. apply H. by right.
Qed.

(** The graph of handles.  [pend] are references that are held elsewhere: by the program, or by a
    handle that is being freed.  Handles outside of the list are [zs].  The count of a handle that may
    be closed is the number of references to it, and there is one. *)
Record graph_ok (m : mstate) (pend zs : list Z) : Prop := {
  gr_alive : alive m;
  gr_heap : forall p, is_Some (heap m !! p) <-> p ∈ handles m \/ p ∈ zs;
  gr_apart : forall p, p ∈ handles m -> p ∉ zs;
  gr_targets : Forall (fun q => q ∈ handles m) (all_refs m ++ pend);
  gr_counts : forall q h, q ∈ handles m -> heap m !! q = Some h -> is_resident h = false ->
    1 <= ref_count h /\ occ q (all_refs m ++ pend) = ref_count h
}.

(** Changes of a handle that leave its dependencies. *)
Lemma all_refs_update p h h' m :
  heap m !! p = Some h -> Modules.deplibs h' = Modules.deplibs h -> all_refs (update p h' m) = all_refs m.
Proof.
  intros Hh Hd. unfold all_refs. cbn [handles update with_heap]. induction (handles m) as [|q l IH]; [done|]. cbn. rewrite IH. f_equal.
  unfold deps_of. cbn. destruct (decide (q = p)) as [->|Hne]; [by rewrite lookup_insert_eq, Hh; cbn; rewrite Hd|by rewrite lookup_insert_ne].
Qed.

Lemma unlink_perm p l : p ∈ l -> l ≡ₚ p :: unlink p l.
Proof.
  induction l as [|q l IH]; [by intros ?%elem_of_nil|]. cbn. destruct (Z.eqb_spec q p) as [->|Hne]; [done|].
  intros [->|Hin]%elem_of_cons; [done|]. transitivity (q :: p :: unlink p l); [by apply Permutation_skip, IH|apply Permutation_swap].
Qed.

Lemma all_refs_perm l m : handles m ≡ₚ l -> all_refs m ≡ₚ l ≫= deps_of m.
Proof. intros H. unfold all_refs. by rewrite H. Qed.

(** The count of a handle changes by one reference. *)
Lemma graph_count m p h pend zs :
  graph_ok m (p :: pend) zs -> heap m !! p = Some h -> is_resident h = true \/ 1 < ref_count h ->
  graph_ok (update p (set_count (ref_count h - 1) h) m) pend zs.
Proof.
  set (n := ref_count h - 1). intros [Ha Hh Hap Ht Hc] Hp Hn. assert (p ∈ handles m) as Hin by (rewrite Forall_forall in Ht; apply Ht; set_solver).
  assert (all_refs (update p (set_count n h) m) = all_refs m) as Er by (by eapply all_refs_update). split; rewrite ?Er; cbn [handles update with_heap heap].
  - destruct Ha as [Hd Hl]. split; [done|]. eapply Forall_impl; [exact Hl|]. cbn. intros q [Hz Hs]. split; [done|].
    destruct (decide (q = p)) as [->|?]; [rewrite lookup_insert_eq; by eexists|by rewrite lookup_insert_ne].
  - intros q. rewrite <- Hh. destruct (decide (q = p)) as [->|?]; [rewrite lookup_insert_eq, Hp; naive_solver|by rewrite lookup_insert_ne].
  - done.
  - rewrite Forall_app in Ht |- *. destruct Ht as [Ht1 Ht2]. by apply Forall_cons in Ht2 as [_ Ht2].
  - intros q hq Hq Hhq Hr. destruct (decide (q = p)) as [->|Hne].
    + rewrite lookup_insert_eq in Hhq. injection Hhq as <-. cbn in *. specialize (Hc p h Hq Hp Hr). autorewrite with occ in *.
      rewrite bool_decide_eq_true_2 in Hc by done. destruct Hn; [congruence|lia].
    + rewrite lookup_insert_ne in Hhq by done. specialize (Hc q hq Hq Hhq Hr). autorewrite with occ in *. rewrite bool_decide_eq_false_2 in Hc by done. lia.
Qed.

(** A reference to a resident module is given up without being counted. *)
Lemma graph_drop m p h pend zs : graph_ok m (p :: pend) zs -> heap m !! p = Some h -> is_resident h = true -> graph_ok m pend zs.
Proof.
  intros [Ha Hh Hap Ht Hc] Hp Hres. split; try done.
  - rewrite Forall_app in Ht |- *. destruct Ht as [Ht1 Ht2]. by apply Forall_cons in Ht2 as [_ Ht2].
  - intros q hq Hq Hhq Hr. specialize (Hc q hq Hq Hhq Hr). autorewrite with occ in *. rewrite bool_decide_eq_false_2 in Hc; [lia|]. intros <-. congruence.
Qed.

(** The last reference of a handle goes: it leaves the list, and its references become pending. *)
Lemma graph_unlink m p h e cs pend zs :
  graph_ok m (p :: pend) zs -> heap m !! p = Some h -> is_resident h = false -> ref_count h <= 1 ->
  let m' := MState (<[p := set_count (ref_count h - 1) h]> (heap m)) (unlink p (handles m)) e cs in
  graph_ok m' (Modules.deplibs h ++ pend) (p :: zs) /\ S (length (handles m')) = length (handles m).
Proof.
  intros [Ha Hh Hap Ht Hc] Hp Hr Hn m'. assert (p ∈ handles m) as Hin by (rewrite Forall_forall in Ht; apply Ht; set_solver).
  pose proof (Hc p h Hin Hp Hr) as Hcp. autorewrite with occ in Hcp. rewrite bool_decide_eq_true_2 in Hcp by done.
  pose proof (occ_nonneg p (all_refs m)). pose proof (occ_nonneg p pend).
  assert (p ∉ all_refs m) as Hpa by (apply occ_zero; lia). assert (p ∉ pend) as Hpp by (apply occ_zero; lia).
  pose proof (unlink_perm p (handles m) Hin) as Hperm. destruct (unlink_spec p (handles m) (proj1 Ha)) as [Hnd Hu].
  assert (all_refs m ≡ₚ Modules.deplibs h ++ all_refs m') as Hrefs.
  { rewrite (all_refs_perm _ m Hperm). cbn. unfold deps_of at 1. rewrite Hp. cbn. apply Permutation_app_head, reflexive_eq. unfold all_refs. cbn [handles].
    apply list_bind_ext; [|done]. intros q. unfold deps_of. cbn. destruct (decide (q = p)) as [->|?]; [by rewrite lookup_insert_eq, Hp|by rewrite lookup_insert_ne]. }
  split; [|apply Permutation_length in Hperm; exact (eq_sym Hperm)]. split.
  - destruct Ha as [_ Hl]. split; [done|]. rewrite Forall_forall in Hl |- *. intros q [Hq Hne]%Hu. cbn. rewrite lookup_insert_ne by done. by apply Hl.
  - intros q. cbn [heap handles m']. rewrite Hu, elem_of_cons. destruct (decide (q = p)) as [->|Hne].
    + rewrite lookup_insert_eq. split; [by right; left|by eexists].
    + rewrite lookup_insert_ne by done. rewrite Hh. naive_solver.
  - intros q [Hq Hne]%Hu. apply not_elem_of_cons. split; [done|]. by apply Hap.
  - assert (Forall (fun q => q ∈ handles m /\ q <> p) (all_refs m ++ pend)) as Hall.
    { rewrite Forall_forall in Ht |- *. intros q Hq. split; [apply Ht; set_solver|]. intros ->. set_solver. }
    rewrite Hrefs in Hall. rewrite !Forall_app in Hall |- *. destruct Hall as [[H1 H2] H3].
    split_and!; (eapply Forall_impl; [eassumption|]); intros q Hq; by apply Hu.
  - intros q hq [Hq Hne]%Hu Hhq Hrq. cbn in Hhq. rewrite lookup_insert_ne in Hhq by done. specialize (Hc q hq Hq Hhq Hrq).
    autorewrite with occ in Hc |- *. rewrite (occ_perm q _ _ Hrefs), occ_app in Hc. rewrite bool_decide_eq_false_2 in Hc by done. lia.
Qed.

(** It is freed. *)
Lemma graph_free m p pend zs : graph_ok m pend (p :: zs) -> p ∉ zs -> graph_ok (with_heap (delete p (heap m)) m) pend zs.
Proof.
  intros [Ha Hh Hap Ht Hc] Hpz. assert (p ∉ handles m) as Hp by (intros Hin; apply (Hap p Hin); left).
  assert (Hsame : forall q, q ∈ handles m -> delete p (heap m) !! q = heap m !! q) by (intros q Hq; rewrite lookup_delete_ne; [done|]; by intros ->).
  assert (all_refs (with_heap (delete p (heap m)) m) = all_refs m) as Er.
  { by apply refs_frame. }
  split; rewrite ?Er; cbn [handles heap with_heap]; try done.
  - destruct Ha as [Hd Hl]. split; [done|]. cbn [handles heap with_heap]. rewrite Forall_forall in Hl |- *. intros q Hq. rewrite Hsame by done. by apply Hl.
  - intros q. destruct (decide (q = p)) as [->|Hne]; [rewrite lookup_delete_eq; split; [by intros [? ?]|tauto]|].
    rewrite lookup_delete_ne, Hh by done. rewrite elem_of_cons. tauto.
  - intros q Hq Hz. apply (Hap q Hq). by right.
  - intros q h Hq Hhq. rewrite Hsame in Hhq by done. by apply Hc.
Qed.

(** The loop over the dependencies inside [lt_dlclose]. *)
Definition unload (close : Z -> mstate -> run (Z * mstate)) := fix unload (l : list Z) (s : mstate) : run (Z * mstate) :=
  match l with
  | [] => Done (0, s)
  | q :: l =>
      hq ← deref s q;
      '(x, s) ← (if negb (is_resident hq) then close q s else Done (0, s));
      '(y, s) ← unload l s;
      Done (x + y, s)
  end.

(** What closing one reference does. *)
Definition closes_one (close : Z -> mstate -> run (Z * mstate)) (bound : nat) : Prop :=
  forall p m pend zs, graph_ok m (p :: pend) zs -> (length (handles m) <= bound)%nat ->
  exists r m', close p m = Done (r, m') /\ graph_ok m' pend zs /\ handles m' ⊆ handles m /\ (length (handles m') <= length (handles m))%nat.

Lemma unload_graph close bound : closes_one close bound -> forall l m pend zs,
  graph_ok m (l ++ pend) zs -> (length (handles m) <= bound)%nat ->
  exists r m', unload close l m = Done (r, m') /\ graph_ok m' pend zs /\ handles m' ⊆ handles m.
Proof.
  intros Hcl. induction l as [|q l IH]; intros m pend zs Hg Hb; cbn [unload]; [by exists 0, m|].
  assert (q ∈ handles m) as Hq by (pose proof (gr_targets _ _ _ Hg) as Ht; rewrite Forall_forall in Ht; apply Ht; set_solver).
  destruct (proj2 (gr_heap _ _ _ Hg q) (or_introl Hq)) as [hq Hhq]. unfold deref. rewrite Hhq. cbn [mbind run_bind]. destruct (is_resident hq) eqn:Hres; cbn [negb mbind run_bind].
  - destruct (IH m pend zs (graph_drop _ _ _ _ _ Hg Hhq Hres) Hb) as (r & m' & -> & Hg' & Hs). by eexists _, m'.
  - destruct (Hcl q m (l ++ pend) zs Hg Hb) as (x & m1 & -> & Hg1 & Hs1 & Hl1). cbn [mbind run_bind].
    destruct (IH m1 pend zs Hg1 ltac:(lia)) as (y & m' & -> & Hg' & Hs). eexists _, m'. split; [done|]. split; [done|]. set_solver.
Qed.

Lemma graph_errs m e pend zs : graph_ok m pend zs -> graph_ok (with_errs e m) pend zs.
Proof. intros [? ? ? ? ?]. by split. Qed.

Section close.
Context (module_close : Z -> Z -> errors -> Z * errors).

Lemma close_graph : forall fuel, closes_one (lt_dlclose module_close (S fuel)) fuel.
Proof.
  induction fuel as [|fuel IH]; intros p m pend zs Hg Hb.
  all: assert (p ∈ handles m) as Hp by (pose proof (gr_targets _ _ _ Hg) as Ht; rewrite Forall_forall in Ht; apply Ht; set_solver).
  { destruct (handles m); [by apply elem_of_nil in Hp|cbn in Hb; lia]. }
  destruct (proj2 (gr_heap _ _ _ Hg p) (or_introl Hp)) as [h Hh]. remember (S fuel) as k eqn:Ek. cbn [lt_dlclose].
  rewrite bool_decide_eq_true_2 by done. cbn [negb].
  assert (deref m p = Done h) as -> by (unfold deref; by rewrite Hh). cbn [mbind run_bind].
  destruct ((ref_count h - 1 <=? 0) && negb (is_resident h)) eqn:Ec.
  - apply andb_true_iff in Ec as [Hc%Z.leb_le Hr%negb_true_iff]. destruct (module_close _ _ _) as [r e].
    destruct (graph_unlink m p h e (closed m ++ [(hvtable h, hmodule h)]) pend zs Hg Hh Hr ltac:(lia)) as [Hg1 Hlen]. cbn [handles] in Hlen.
    set (m1 := MState _ _ _ _) in Hg1. destruct (unload_graph _ fuel IH (Modules.deplibs h) m1 pend (p :: zs) Hg1) as (d & m2 & E2 & Hg2 & Hs2); [cbn; lia|].
    subst k. unfold unload in E2. change (MState (heap (update p (set_count (ref_count h - 1) h) m)) _ e _) with m1. rewrite E2. cbn [mbind run_bind].
    eexists _, _. split; [done|]. assert (p ∉ zs) as Hpz by (by apply (gr_apart _ _ _ Hg)). split; [by apply graph_free|]. cbn [handles with_heap].
    destruct (unlink_spec p (handles m) (proj1 (gr_alive _ _ _ Hg))) as [_ Hu].
    split; [intros q Hq; apply Hs2 in Hq; by apply Hu in Hq as [? _]|].
    apply submseteq_length. apply NoDup_submseteq; [exact (proj1 (gr_alive _ _ _ Hg2))|]. intros q Hq. apply Hs2 in Hq. by apply Hu in Hq as [? _].
  - assert (graph_ok (update p (set_count (ref_count h - 1) h) m) pend zs) as Hg1.
    { apply graph_count; [done|done|]. destruct (is_resident h); [by left|]. right. cbn in Ec. rewrite andb_true_r in Ec. apply Z.leb_gt in Ec. lia. }
    destruct (is_resident h); eexists _, _; (split; [done|]); split_and!; try done. by apply graph_errs.
Qed.

(** C21: Handles are never used after they are freed, however modules depend on each other.  In a
    graph of handles in which every reference (of a module to one it depends on, or of the
    program) is to an open handle, and the count of each handle is the number of references to
    it, closing a handle the program holds returns, with as much
    fuel as there are handles, and leaves such a graph without the reference: the modules that
    nothing refers to any more are gone (unless they are resident), and exactly the handles in the list
    exist. *)
Theorem graph_preserved (p : Z) (m : mstate) (users : list Z) :
  graph_ok m (p :: users) [] ->
  exists r m', close module_close p m = Done (r, m') /\ graph_ok m' users [] /\ handles m' ⊆ handles m.
Proof.
  intros Hg. destruct (close_graph (length (handles m)) p m users [] Hg ltac:(lia)) as (r & m' & E & Hg' & Hs & _). by exists r, m'.
Qed.

End close.

(** ** Opening *)

(** A new handle, which is not in the list yet. *)
Lemma graph_alloc m p h pend zs : graph_ok m pend zs -> heap m !! p = None -> p <> 0 -> graph_ok (with_heap (<[p := h]> (heap m)) m) pend (p :: zs).
Proof.
  intros [Ha Hh Hap Ht Hc] Hp Hz. assert (Hn : p ∉ handles m) by (intros Hin; destruct (proj2 (Hh p) (or_introl Hin)); congruence).
  assert (Hsame : forall q, q ∈ handles m -> <[p := h]> (heap m) !! q = heap m !! q) by (intros q Hq; rewrite lookup_insert_ne; [done|]; by intros ->).
  assert (all_refs (with_heap (<[p := h]> (heap m)) m) = all_refs m) as Er.
  { by apply refs_frame. }
  split; rewrite ?Er; cbn [handles heap with_heap]; try done.
  - destruct Ha as [Hd Hl]. split; [done|]. cbn [handles heap with_heap]. rewrite Forall_forall in Hl |- *. intros q Hq. rewrite Hsame by done. by apply Hl.
  - intros q. rewrite elem_of_cons. destruct (decide (q = p)) as [->|Hne]; [rewrite lookup_insert_eq; split; [tauto|by eexists]|].
    rewrite lookup_insert_ne, Hh by done. tauto.
  - intros q Hq. apply not_elem_of_cons. split; [by intros ->|by apply Hap].
  - intros q hq Hq Hhq. rewrite Hsame in Hhq by done. by apply Hc.
Qed.

(** A new handle with its dependencies is registered: the references to these become those of
    the handle, and the program holds one to it. *)
Lemma graph_register m p h name saved users :
  graph_ok m (Modules.deplibs h ++ users) [p] -> heap m !! p = Some h -> ref_count h = 0 -> p <> 0 ->
  exists m', register_handle p p name saved m = Done (p, m') /\ graph_ok m' (p :: users) [].
Proof.
  intros [Ha Hh Hap Ht Hc] Hp Hr Hz. unfold register_handle. rewrite Z.eqb_refl. unfold deref. rewrite Hp. cbn [mbind run_bind]. rewrite Hr. cbn.
  eexists. split; [done|]. apply graph_errs. set (h' := set_name name (set_count 1 h)). set (m' := MState _ _ _ _).
  assert (Hn : p ∉ handles m) by (intros Hin; apply (Hap p Hin); left).
  assert (Hsame : forall q, q ∈ handles m -> heap m' !! q = heap m !! q) by (intros q Hq; cbn; rewrite lookup_insert_ne; [done|]; by intros ->).
  assert (all_refs m' = Modules.deplibs h ++ all_refs m) as Er.
  { unfold all_refs. change (handles m') with (p :: handles m). cbn [mbind list_bind]. f_equal; [unfold deps_of; cbn; by rewrite lookup_insert_eq|].
    by apply refs_frame. }
  split.
  - destruct Ha as [Hd Hl]. split; [by constructor|]. cbn [handles m']. apply Forall_cons. split.
    + split; [done|]. cbn. rewrite lookup_insert_eq. by eexists.
    + rewrite Forall_forall in Hl |- *. intros q Hq. rewrite Hsame by done. by apply Hl.
  - intros q. cbn [heap handles m']. rewrite elem_of_cons. destruct (decide (q = p)) as [->|Hne].
    + rewrite lookup_insert_eq. split; [tauto|by eexists].
    + rewrite lookup_insert_ne, Hh by done. rewrite list_elem_of_singleton. split; [tauto|]. intros [[->|?]|?%elem_of_nil]; tauto.
  - intros q _. apply not_elem_of_nil.
  - rewrite Er. cbn [handles m']. rewrite !Forall_app in Ht |- *. destruct Ht as (H1 & H2 & H3). rewrite Forall_cons.
    split_and!; [eapply Forall_impl; [exact H2|]|eapply Forall_impl; [exact H1|]|left|eapply Forall_impl; [exact H3|]]; intros q Hq; by right.
  - rewrite Er. intros q hq Hq Hhq Hrq. autorewrite with occ. cbn [handles m'] in Hq. apply elem_of_cons in Hq as [->|Hq].
    + cbn in Hhq. rewrite lookup_insert_eq in Hhq. injection Hhq as <-. cbn. rewrite bool_decide_eq_true_2 by done.
      rewrite Forall_forall in Ht. assert (forall l, (forall x, x ∈ l -> x ∈ all_refs m ++ Modules.deplibs h ++ users) -> occ p l = 0) as H0.
      { intros l Hl. apply occ_notin. intros Hin. apply Hn, Ht, Hl, Hin. }
      rewrite !H0; [lia|set_solver..].
    + rewrite Hsame in Hhq by done. specialize (Hc q hq Hq Hhq Hrq). autorewrite with occ in Hc. rewrite bool_decide_eq_false_2; [lia|]. by intros ->.
Qed.

(** A handle that is open already is shared. *)
Lemma graph_share m p h pend zs :
  graph_ok m pend zs -> p ∈ handles m -> heap m !! p = Some h -> graph_ok (update p (set_count (ref_count h + 1) h) m) (p :: pend) zs.
Proof.
  intros Hg Hin Hp. pose proof Hg as [Ha Hh Hap Ht Hc].
  assert (all_refs (update p (set_count (ref_count h + 1) h) m) = all_refs m) as Er by (by eapply all_refs_update).
  split; rewrite ?Er; cbn [handles update with_heap heap].
  - destruct Ha as [Hd Hl]. split; [done|]. eapply Forall_impl; [exact Hl|]. cbn. intros q [Hz Hs]. split; [done|].
    destruct (decide (q = p)) as [->|?]; [rewrite lookup_insert_eq; by eexists|by rewrite lookup_insert_ne].
  - intros q. rewrite <- Hh. destruct (decide (q = p)) as [->|?]; [rewrite lookup_insert_eq, Hp; naive_solver|by rewrite lookup_insert_ne].
  - done.
  - rewrite Forall_app in Ht |- *. destruct Ht as [? ?]. split; [done|]. by apply Forall_cons.
  - intros q hq Hq Hhq Hr. autorewrite with occ. destruct (decide (q = p)) as [->|Hne].
    + rewrite lookup_insert_eq in Hhq. injection Hhq as <-. cbn in *. specialize (Hc p h Hq Hp Hr). autorewrite with occ in Hc. rewrite bool_decide_eq_true_2 by done. lia.
    + rewrite lookup_insert_ne in Hhq by done. specialize (Hc q hq Hq Hhq Hr). autorewrite with occ in Hc. rewrite bool_decide_eq_false_2 by done. lia.
Qed.

Lemma find_open_handle m f : alive m -> exists o, find_open m (handles m) f = Done o /\ (forall p, o = Some p -> p ∈ handles m).
Proof.
  intros [_ Hl]. induction (handles m) as [|p l IH]; [by exists None|]. apply Forall_cons in Hl as [[_ [h Hh]] Hl]. cbn. unfold deref. rewrite Hh. cbn.
  case_decide; [exists (Some p); split; [done|]; intros q [= <-]; left|]. destruct (IH Hl) as (o & -> & Ho). exists o. split; [done|]. intros q Hq. right. by apply Ho.
Qed.

Lemma update_new m new h h' : update new h (with_heap (<[new := h']> (heap m)) m) = with_heap (<[new := h]> (heap m)) m.
Proof. unfold update, with_heap. cbn. by rewrite insert_insert_eq. Qed.

(** Opening a file, whatever the loaders do: the graph is kept, and a handle that is returned is held by
    the program. *)
Lemma graph_open module_open loaders new f name a m users :
  graph_ok m users [] -> loaders <> [] -> new <> 0 -> heap m !! new = None ->
  (forall p h, p ∈ handles m -> heap m !! p = Some h -> 0 <= ref_count h < INT_MAX) ->
  exists p m', open_file module_open loaders new f name a m = Done (p, m') /\ graph_ok m' (if p =? 0 then users else p :: users) [].
Proof.
  intros Hg Hld Hz Hnew Hc. unfold open_file, tryall_dlopen.
  pose proof (fun h => graph_alloc m new h users [] Hg Hnew Hz) as Hg1. cbn [handles with_heap].
  assert (Hnl : forall p, p ∈ handles m -> p <> new /\ (with_heap (<[new := handle0]> (heap m)) m).(heap) !! p = heap m !! p).
  { intros p Hp. assert (p <> new) as Hne by (intros ->; destruct (proj2 (gr_heap _ _ _ Hg new) (or_introl Hp)); congruence). split; [done|]. cbn. by rewrite lookup_insert_ne. }
  rewrite (find_open_frame m) by (intros p Hp; by apply Hnl). destruct (find_open_handle m (Some f) (gr_alive _ _ _ Hg)) as (o & -> & Ho). cbn [mbind run_bind].
  destruct o as [p|].
  - specialize (Ho p eq_refl). destruct (proj2 (gr_heap _ _ _ Hg p) (or_introl Ho)) as [h Hh]. destruct (Hnl p Ho) as [Hne Hp].
    unfold deref. rewrite Hp, Hh. cbn [mbind run_bind]. destruct (Hc p h Ho Hh) as [Hc0 Hc1]. rewrite (proj2 (Z.eqb_neq _ INT_MAX)) by lia.
    cbn [mbind run_bind]. change (negb (0 =? 0)) with false. cbn iota. unfold register_handle. rewrite (proj2 (Z.eqb_neq new p)) by congruence.
    unfold deref. cbn [heap with_heap update]. rewrite lookup_delete_ne, lookup_insert_eq by done. cbn [mbind run_bind ref_count set_count].
    rewrite (proj2 (Z.eqb_neq (ref_count h + 1) 0)) by lia. eexists p, _. split; [done|].
    assert (p <> 0) as Hpz by (pose proof (proj2 (gr_alive _ _ _ Hg)) as Hl; rewrite Forall_forall in Hl; by apply Hl). rewrite (proj2 (Z.eqb_neq p 0) Hpz).
    apply graph_errs. refine (graph_free _ new (p :: users) [] (graph_share (with_heap (<[new := handle0]> (heap m)) m) p h users [new] (Hg1 _) Ho _) _).
    + cbn. by rewrite lookup_insert_ne, Hh.
    + apply not_elem_of_nil.
  - unfold deref. cbn [heap with_heap]. rewrite lookup_insert_eq. cbn [mbind run_bind negb]. change (0 =? 0) with true. cbn iota. rewrite is_null_false by done.
    destruct (try_loaders _ _ _ _ _) as [[v mo] e]. destruct (mo =? 0); cbn [mbind run_bind].
    + change (negb (1 =? 0)) with true. cbn iota. eexists 0, _. split; [done|]. rewrite update_new. change (0 =? 0) with true. cbn iota.
      apply (graph_free (with_errs e (with_heap (<[new := set_filename None (set_filename (Some f) handle0)]> (heap m)) m)) new users []); [|by apply not_elem_of_nil].
      by apply graph_errs.
    + change (negb (0 =? 0)) with false. cbn iota. rewrite update_new. set (h := set_module v mo a (set_filename (Some f) handle0)).
      assert (Modules.deplibs h = [] /\ ref_count h = 0) as [Hd Hr] by (unfold h, set_module; by destruct a).
      destruct (graph_register (with_errs (lt__set_last_error (lt__get_last_error (errs (with_heap (<[new := handle0]> (heap m)) m))) e)
        (with_heap (<[new := h]> (heap m)) m)) new h (Some name) (lt__get_last_error (errs m)) users) as (m' & E & Hg').
      * rewrite Hd. cbn [app]. apply graph_errs, Hg1.
      * cbn. by rewrite lookup_insert_eq.
      * done.
      * done.
      * exists new, m'. rewrite (proj2 (Z.eqb_neq new 0) Hz). by split.
Qed.

(** ** Where it goes wrong *)

(** Two libraries, of which one needs the other, on a system that does not load it. *)
Definition two_la (name deps : list Z) : list Z :=
  file_of (la_file (str " a libtool library") (name ++ str ".so") (name ++ str ".so") [] deps (str "/usr/lib/proxy") true).
Definition two_fopen (f : list Z) : option (list Z) :=
  if decide (f = str "/usr/lib/proxy/liba.la") then Some (two_la (str "liba") (str " -lb"))
  else if decide (f = str "/usr/lib/proxy/libb.la") then Some (two_la (str "libb") []) else None.
Definition two_open (v : Z) (f : option (list Z)) (a : option advise) (e : errors) : Z * errors :=
  if decide (f = Some (str "/usr/lib/proxy/liba.so")) then (77, e)
  else if decide (f = Some (str "/usr/lib/proxy/libb.so")) then (78, e) else (0, lt__set_last_error (Some (System (str "no such file"))) e).
Definition two_dlopen (name : list Z) (d : dl) : run (Z * dl) :=
  lt_dlopenext two_open demo_close (fun _ => true) 170 80 20 8 rowa_tables [16] demo_alloc two_fopen (fun _ => false) None None
    (str "/usr/lib/proxy") true 3 (Some name) d.

(** [lt_dlexit] counts the references to a handle, but not who holds them: the library that is needed,
    opened once, is closed in the first round; when the other one, opened twice, is closed later, the freed
    handle is used. *)
Theorem exit_uses_freed_handle :
  exists d, ('(_, d) ← two_dlopen (str "liba") demo_dl; two_dlopen (str "liba") d) = Done (1, d)
    /\ (forall fuel, (3 < fuel)%nat -> lt_dlexit demo_close fuel (Ltdl 1 d (Loaders rowa_tables ∅ 0)) = Stuck).
Proof.
  eexists. split; [vm_compute; reflexivity|]. intros [|[|[|[|fuel]]]] Hf; try lia. vm_compute. reflexivity.
Qed.

(** A resident module that is closed twice all the same (each attempt is an error, but counted) and
    then opened again: its count is zero, and it enters the list a second time. *)
Theorem resident_listed_twice :
  let open := open_file demo_open [16] 5 (str "libproxymap-rowa.so") (str "rowa") None in
  match ('(p, m) ← open (MState ∅ [] errors0 []);
         '(_, m) ← lt_dlmakeresident p m; '(_, m) ← close demo_close p m; '(_, m) ← close demo_close p m;
         open_file demo_open [16] 6 (str "libproxymap-rowa.so") (str "rowa") None m) with
  | Done (p, m) => p = 5 /\ handles m = [5; 5]
  | _ => False
  end.
Proof. vm_compute. split; reflexivity. Qed.

Definition graph_demo : mstate :=
  MState (<[1 := Handle 16 (Some (str "liba.so")) (Some (str "liba")) 1 false false false [2; 3] 77 []]>
         (<[2 := Handle 16 (Some (str "libb.so")) (Some (str "libb")) 2 false false false [3] 78 []]>
         (<[3 := Handle 16 (Some (str "libc.so")) (Some (str "libc")) 2 false false false [] 79 []]> ∅))) [1; 2; 3] errors0 [].

Lemma graph_preserved_witness :
  exists r m', close demo_close 1 graph_demo = Done (r, m') /\ graph_ok m' [2] [] /\ handles m' ⊆ handles graph_demo.
Proof.
  apply (graph_preserved demo_close 1 graph_demo [2]). split.
  - split; [apply (bool_decide_unpack _); vm_compute; exact I|]. repeat constructor; try discriminate; by eexists.
  - intros p. cbn [heap handles graph_demo]. rewrite !elem_of_cons, !elem_of_nil. split.
    + intros [h Hh]. repeat (apply lookup_insert_Some in Hh as [[? _]|[_ Hh]]; [subst; tauto|]). by rewrite lookup_empty in Hh.
    + intros [[->|[->|[->|[]]]]|[]]; vm_compute; by eexists.
  - intros p _. apply not_elem_of_nil.
  - vm_compute. repeat constructor.
  - intros q h Hq Hh Hr. cbn [handles heap graph_demo] in *. rewrite !elem_of_cons, elem_of_nil in Hq.
    destruct Hq as [->|[->|[->|[]]]]; injection Hh as <-; vm_compute; split; (discriminate || reflexivity).
Defined.
