(* ===== verification/ForeachFile.v ===== *)
(** * Lists of module files (src/libltdl/ltdl.c)

    [lt_dlforeachfile] calls a function for every module in the directories of a search
    path.  The files of a directory are listed in a sorted vector, without their
    extensions and version numbers, so that the files of a module count once.  The
    contents of directories are a parameter. *)

From Stdlib Require Import Sorted.
From S2P Require Import Prelude.
From S2P Require Import CString.
From S2P Require Import Argz.
From S2P Require Import Lterror.
From S2P Require Import SearchPath.
Local Open Scope Z_scope.

Definition DOT : Z := 46.

(** [strcmp]: the end of a string comes before all characters. *)
Fixpoint strcmp (s1 s2 : list Z) : comparison :=
  match s1, s2 with
  | [], [] => Eq
  | [], _ => Lt
  | _, [] => Gt
  | c1 :: s1, c2 :: s2 => match c1 ?= c2 with Eq => strcmp s1 s2 | r => r end
  end.

(** ** Names of files *)

(** [strchr (".0123456789", c)] for a character of a name *)
Definition version_char (c : Z) : bool := (c =? DOT) || isdigit c.

(** [for (p = end; p -1 > dp->d_name; --p)], by the offset of [p] *)
Fixpoint version_loop (name : list Z) (p : nat) : nat :=
  match p with
  | O => p
  | S q => if (q =? 0)%nat then p else match name !! q with Some c => if version_char c then version_loop name q else p | None => p end
  end.

Definition is_dot (name : list Z) (p : nat) : bool := match name !! p with Some c => c =? DOT | None => false end.

(** [for (p = end -1; p > dp->d_name; --p)]; [p] is the number of steps left. *)
Fixpoint ext_loop (name : list Z) (p : nat) : option nat :=
  match p with O => None | S k => if is_dot name p then Some p else ext_loop name k end.

(** The length of the name without extension. *)
Definition end_offset (name : list Z) : nat :=
  let p := version_loop name (length name) in
  let e := if is_dot name p then p else length name in
  default e (ext_loop name (e - 1)).

Section files.
Context (has_memory : Z -> bool) (junk : Z).

(** ** Sorted vectors *)

(** [None]: the entry is there already. *)
Fixpoint in_order_loop (fuel : nat) (a : argz) (before : option Z) (entry : list Z) : outcome (option (option Z)) :=
  match fuel with
  | O => Undef
  | S fuel =>
      before ← argz_next a before;
      match before with
      | None => Ret (Some None)
      | Some b =>
          match strcmp entry (cstr (blk a) (Z.to_nat b)) with
          | Lt => Ret (Some (Some b))
          | Eq => Ret None
          | Gt => in_order_loop fuel a (Some b) entry
          end
      end
  end.

Definition lt_argz_insertinorder (a : argz) (entry : list Z) (s : errors) : outcome (Z * argz * errors) :=
  _ ← assert_ (negb (is_null entry));
  before ← (if is_null (blk a) then Ret (Some None) else in_order_loop (S (S (length (blk a)))) a None entry);
  match before with
  | None => Ret (0, a, s)
  | Some before => lt_argz_insert has_memory junk a before entry s
  end.

(** The buffer is written by [strcpy], [strcat] and [strncat]. *)
Definition lt_argz_insertdir (a : argz) (dirnam d_name : list Z) (s : errors) : outcome (Z * argz * errors) :=
  let dir_len := zlength dirnam in
  let e := end_offset d_name in
  let buf_len := dir_len + 1 + Z.of_nat e in
  match lt_malloc has_memory junk (1 + buf_len) s with
  | (None, s) => Ret (1, a, s)
  | (Some buf, s) =>
      buf ← write buf 0 (dirnam ++ [NUL]);
      buf ← write buf dir_len [SLASH; NUL];
      buf ← write buf (dir_len + 1) (take e d_name ++ [NUL]);
      buf ← aset buf buf_len NUL;
      '(r, a, s) ← lt_argz_insertinorder a (cstr buf 0) s;
      Ret (if negb (r =? 0) then 1 else 0, a, s)
  end.

(** The names [readdir] gives, if the directory can be opened. *)
Context (opendir : list Z -> option (list (list Z))).

Fixpoint readdir_loop (dirnam : list Z) (names : list (list Z)) (a : argz) (s : errors) : outcome (Z * argz * errors) :=
  match names with
  | [] => Ret (0, a, s)
  | n :: names =>
      if negb (hd0 n =? DOT) then
        '(r, a, s) ← lt_argz_insertdir a dirnam n s;
        if negb (r =? 0) then Ret (1, a, s) else readdir_loop dirnam names a s
      else readdir_loop dirnam names a s
  end.

Definition list_files_by_dir (dirnam : list Z) (a : argz) (s : errors) : outcome (Z * argz * errors) :=
  _ ← assert_ (negb (is_null dirnam));
  _ ← assert_ (negb (default NUL (last dirnam) =? SLASH));
  match opendir dirnam with
  | Some names => readdir_loop dirnam names a s
  | None => Ret (1, a, s)
  end.

(** ** Calls for files *)

Context {D : Type} (func : list Z -> D -> Z * D).

Fixpoint file_loop (fuel : nat) (a : argz) (filename : option Z) (d : D) : outcome (Z * D) :=
  match fuel with
  | O => Undef
  | S fuel =>
      filename ← argz_next a filename;
      match filename with
      | None => Ret (0, d)
      | Some f =>
          let '(is_done, d) := func (cstr (blk a) (Z.to_nat f)) d in
          if negb (is_done =? 0) then Ret (is_done, d) else file_loop fuel a (Some f) d
      end
  end.

Definition foreachfile_callback (dirname : list Z) (d : D) (s : errors) : outcome (Z * D * errors) :=
  '(r, a, s) ← list_files_by_dir dirname (Argz [] 0) s;
  if negb (r =? 0) then Ret (0, d, s)
  else if is_null (blk a) then Ret (0, d, s)
  else '(r, d) ← file_loop (S (S (length (blk a)))) a None d; Ret (r, d, s).

(** One path after the other, up to a call that is done. *)
Fixpoint foreach_paths (paths : list (option (list Z))) (d : D) (s : errors) : outcome (Z * D * errors) :=
  match paths with
  | [] => Ret (0, d, s)
  | p :: paths =>
      '(r, d, s) ← foreach_dirinpath has_memory junk foreachfile_callback p [] d s;
      if negb (r =? 0) then Ret (r, d, s) else foreach_paths paths d s
  end.

Definition lt_dlforeachfile (user_search_path searchpath_var module_path_var : option (list Z)) (sys_dlsearch_path : list Z)
    (search_path : option (list Z)) (d : D) (s : errors) : outcome (Z * D * errors) :=
  match search_path with
  | Some _ => foreach_dirinpath has_memory junk foreachfile_callback search_path [] d s
  | None =>
      foreach_paths ([user_search_path; searchpath_var; module_path_var]
                     ++ if is_null sys_dlsearch_path then [] else [Some sys_dlsearch_path]) d s
  end.

End files.

(** ** Sorted names *)

Lemma strcmp_refl a : strcmp a a = Eq.
Proof. induction a as [|c a IH]; [done|]. cbn. by rewrite Z.compare_refl. Qed.

Lemma strcmp_eq a b : strcmp a b = Eq -> a = b.
Proof.
  revert b. induction a as [|c a IH]; intros [|d b]; try done. cbn. destruct (Z.compare_spec c d); try done. subst. intros H. f_equal. by apply IH.
Qed.

Lemma strcmp_opp a b : strcmp b a = CompOpp (strcmp a b).
Proof.
  revert b. induction a as [|c a IH]; intros [|d b]; try done. cbn. rewrite Z.compare_antisym. destruct (c ?= d); cbn; [apply IH|done|done].
Qed.

Definition before_name (a b : list Z) : Prop := strcmp a b = Lt.

#[export] Instance before_name_trans : Transitive before_name.
Proof.
  unfold before_name. intros a. induction a as [|c a IH]; intros [|d b] [|e k]; try done. cbn.
  destruct (Z.compare_spec c d); try done; destruct (Z.compare_spec d e); try done; subst.
  - rewrite Z.compare_refl. apply IH.
  - intros _ _. by rewrite (proj2 (Z.compare_lt_iff _ _)).
  - intros _ _. by rewrite (proj2 (Z.compare_lt_iff _ _)).
  - intros _ _. by rewrite (proj2 (Z.compare_lt_iff _ _)) by lia.
Qed.

(** The reference: an ordered list. *)
Fixpoint insert_name (e : list Z) (es : list (list Z)) : list (list Z) :=
  match es with
  | [] => [e]
  | x :: es' => match strcmp e x with Lt => e :: es | Eq => es | Gt => x :: insert_name e es' end
  end.

Lemma insert_name_in e es x : x ∈ insert_name e es <-> x = e \/ x ∈ es.
Proof.
  induction es as [|y es IH]; cbn; [set_solver|]. destruct (strcmp e y) eqn:E; [|set_solver|rewrite elem_of_cons, IH; set_solver].
  apply strcmp_eq in E as ->. set_solver.
Qed.

Lemma insert_name_sorted e es : StronglySorted before_name es -> StronglySorted before_name (insert_name e es).
Proof.
  induction 1 as [|x es Hs IH Hx]; cbn; [by repeat constructor|]. destruct (strcmp e x) eqn:E.
  - by constructor.
  - constructor; [by constructor|]. constructor; [done|]. eapply Forall_impl; [exact Hx|]. intros y. by transitivity x.
  - constructor; [done|]. apply Forall_forall. intros y [->|Hy]%insert_name_in.
    + unfold before_name. by rewrite strcmp_opp, E.
    + rewrite Forall_forall in Hx. by apply Hx.
Qed.

(** The names of a directory. *)
Definition module_path (dir n : list Z) : list Z := dir ++ SLASH :: take (end_offset n) n.

Fixpoint dir_names (dir : list Z) (names : list (list Z)) (es : list (list Z)) : list (list Z) :=
  match names with
  | [] => es
  | n :: names => dir_names dir names (if hd0 n =? DOT then es else insert_name (module_path dir n) es)
  end.

Lemma dir_names_sorted dir names es : StronglySorted before_name es -> StronglySorted before_name (dir_names dir names es).
Proof. revert es. induction names as [|n names IH]; intros es Hs; [done|]. cbn. apply IH. destruct (_ =? _); [done|by apply insert_name_sorted]. Qed.

Lemma dir_names_in dir names es x :
  x ∈ dir_names dir names es <-> x ∈ es \/ exists n, n ∈ names /\ hd0 n <> DOT /\ x = module_path dir n.
Proof.
  revert es. induction names as [|n names IH]; intros es; cbn.
  - split; [by left|]. intros [?|(n & ?%elem_of_nil & _)]; done.
  - rewrite IH. destruct (Z.eqb_spec (hd0 n) DOT) as [E|E].
    + split; intros [?|(k & Hk & Hd & ->)]; [by left| |by left|]; right; exists k; [set_solver|]. apply elem_of_cons in Hk as [->|Hk]; [done|]. done.
    + rewrite insert_name_in. split.
      * intros [[->|?]|(k & Hk & Hd & ->)]; [right; exists n; set_solver|by left|right; exists k; set_solver].
      * intros [?|(k & Hk & Hd & ->)]; [by left; right|]. apply elem_of_cons in Hk as [->|Hk]; [by left; left|]. right. by exists k.
Qed.

(** ** The code *)

Lemma version_loop_le name p : (version_loop name p <= p)%nat.
Proof.
  induction p as [|q IH]; cbn; [done|]. destruct (q =? 0)%nat; [done|]. destruct (name !! q) as [c|]; [|done]. destruct (version_char c); lia.
Qed.

Lemma ext_loop_le name p q : ext_loop name p = Some q -> (q <= p)%nat.
Proof. induction p as [|k IH]; cbn; [done|]. destruct (is_dot name (S k)); [by intros [= <-]|]. intros H. specialize (IH H). lia. Qed.

Lemma end_offset_le name : (end_offset name <= length name)%nat.
Proof.
  unfold end_offset. pose proof (version_loop_le name (length name)). set (e := if is_dot _ _ then _ else _).
  assert (e <= length name)%nat by (unfold e; destruct (is_dot _ _); lia). destruct (ext_loop name (e - 1)) as [q|] eqn:E; cbn; [|done].
  apply ext_loop_le in E. lia.
Qed.

Lemma module_path_text dir n : text dir -> text n -> text (module_path dir n).
Proof. intros Hd Hn. unfold module_path. apply Forall_app. split; [done|]. constructor; [done|]. by apply Forall_take. Qed.

Lemma insert_name_size e es : zlength (vec (insert_name e es)) <= zlength (vec es) + (1 + zlength e).
Proof.
  pose proof (zlength_nonneg e). induction es as [|x es IH]; cbn [insert_name].
  - rewrite vec_one, zlength_app. change (zlength [NUL]) with 1. change (zlength (vec [])) with 0. lia.
  - pose proof (zlength_nonneg x). destruct (strcmp e x); rewrite ?(vec_cons e); rewrite ?(vec_cons x); rewrite ?zlength_app, ?zlength_cons; try lia. rewrite ?zlength_app, ?zlength_cons; lia.
Qed.

(** The calls for a list of files, up to one that is done. *)
Fixpoint visit_files {D} (func : list Z -> D -> Z * D) (fs : list (list Z)) (d : D) : Z * D :=
  match fs with
  | [] => (0, d)
  | f :: fs => let '(r, d) := func f d in if negb (r =? 0) then (r, d) else visit_files func fs d
  end.

Lemma first_entry a es : represents a es -> argz_next a None = Ret (if is_null (vec es) then None else Some 0).
Proof.
  intros Hr. unfold argz_next. rewrite (represents_wf _ _ Hr). cbn [assert_ mbind outcome_bind]. destruct Hr as (t & _ & -> & _).
  destruct (vec es) as [|c l]; [done|]. rewrite zlength_cons. pose proof (zlength_nonneg l). by rewrite (proj2 (Z.ltb_lt _ _)) by lia.
Qed.

Lemma entry_at a pre x post : represents a (pre ++ x :: post) -> text x -> cstr (blk a) (Z.to_nat (zlength (vec pre))) = x.
Proof. intros (t & -> & _) Hx. rewrite to_nat_zlength, vec_app, vec_cons, <- !app_assoc. cbn [app]. by apply cstr_entry. Qed.

Lemma in_order_spec entry rest : forall fuel a before pre,
  represents a (pre ++ rest) -> Forall text rest ->
  argz_next a before = Ret (if is_null (vec rest) then None else Some (zlength (vec pre))) -> (length rest < fuel)%nat ->
  exists r, in_order_loop fuel a before entry = Ret r /\
    match r with
    | None => insert_name entry rest = rest
    | Some None => insert_name entry rest = rest ++ [entry]
    | Some (Some o) => exists es x es', rest = es ++ x :: es' /\ o = zlength (vec (pre ++ es)) /\ insert_name entry rest = es ++ entry :: x :: es'
    end.
Proof.
  induction rest as [|x rest IH]; intros [|fuel] a before pre Hr Ht Hn Hf; cbn [length] in Hf; try lia; cbn [in_order_loop]; rewrite Hn, is_null_vec; cbn [mbind outcome_bind].
  { by eexists. }
  apply Forall_cons in Ht as [Hx Ht]. rewrite (entry_at _ _ _ _ Hr Hx). cbn [insert_name]. destruct (strcmp entry x) eqn:E.
  - by eexists.
  - eexists. split; [done|]. exists [], x, rest. by rewrite app_nil_r.
  - destruct (IH fuel a (Some (zlength (vec pre))) (pre ++ [x])) as (r & -> & Hres); [by rewrite <- app_assoc|done|by apply argz_next_spec|lia|].
    exists r. split; [done|]. destruct r as [[o|]|].
    + destruct Hres as (es & y & es' & -> & -> & ->). exists (x :: es), y, es'. by rewrite <- app_assoc.
    + by rewrite Hres.
    + by rewrite Hres.
Qed.

Section proofs.
Context (has_memory : Z -> bool) (junk : Z).
Hypothesis memory : forall n, has_memory n = true.

Lemma represents_vec es : zlength (vec es) < 2 ^ 64 -> represents (Argz (vec es) (zlength (vec es))) es.
Proof. intros H. exists []. cbn. rewrite app_nil_r. by split_and!. Qed.

Lemma insertinorder_spec a es e s :
  represents a es -> Forall text es -> text e -> e <> [] -> zlength (vec es) + (1 + zlength e) < 2 ^ 64 ->
  exists a', lt_argz_insertinorder has_memory junk a e s = Ret (0, a', s) /\ represents a' (insert_name e es).
Proof.
  intros Hr Ht He Hne Hb. unfold lt_argz_insertinorder. rewrite (is_null_false e) by done. cbn [negb assert_ mbind outcome_bind].
  pose proof (insert_name_size e es) as Hsz.
  assert (exists r, (if is_null (blk a) then Ret (Some None) else in_order_loop (S (S (length (blk a)))) a None e) = Ret r /\
    match r with
    | None => insert_name e es = es
    | Some None => insert_name e es = es ++ [e]
    | Some (Some o) => exists es1 x es2, es = es1 ++ x :: es2 /\ o = zlength (vec es1) /\ insert_name e es = es1 ++ e :: x :: es2
    end) as (r & -> & Hres).
  { destruct (is_null (blk a)) eqn:En.
    - destruct es as [|x es]; [by eexists|]. destruct Hr as (t & E & _). rewrite E, vec_cons in En. by destruct x.
    - apply (in_order_spec e es _ a None []); [done|done|by apply first_entry|]. destruct Hr as (t & -> & _). rewrite length_app. pose proof (vec_length es). lia. }
  cbn [mbind outcome_bind]. destruct r as [[o|]|].
  - destruct Hres as (es1 & x & es2 & -> & -> & Hins). rewrite Hins in *. unfold lt_argz_insert.
    assert (text x) as Hx by (apply Forall_app in Ht as [_ Ht]; by apply Forall_cons in Ht as [? _]).
    pose proof (argz_insert_spec has_memory junk a es1 x es2 e 0 Hr Hx ltac:(lia) Hne Hb) as Hi. rewrite Nat.add_0_r in Hi.
    unfold zlength at 1. rewrite Hi, memory. cbn. eexists. split; [done|]. apply represents_vec. lia.
  - unfold lt_argz_insert. rewrite (argz_append_spec has_memory junk a es e Hr) by lia. rewrite memory. cbn. rewrite Hres in *.
    eexists. split; [done|]. apply represents_vec. lia.
  - rewrite Hres in *. by eexists.
Qed.

(** The name is built in a buffer of the right size. *)
Lemma insertdir_spec a es dir n s :
  represents a es -> Forall text es -> text dir -> text n -> zlength (vec es) + (zlength dir + zlength n + 2) < 2 ^ 64 ->
  exists a', lt_argz_insertdir has_memory junk a dir n s = Ret (0, a', s) /\ represents a' (insert_name (module_path dir n) es).
Proof.
  intros Hr Ht Hd Hn Hb. unfold lt_argz_insertdir. pose proof (end_offset_le n) as Hle. pose proof (zlength_nonneg dir).
  unfold lt_malloc, malloc. rewrite memory. set (e := end_offset n) in *. set (size := 1 + (zlength dir + 1 + Z.of_nat e)).
  assert (Hz0 : zlength (replicate (Z.to_nat size) junk) = size) by (unfold zlength; rewrite length_replicate; lia).
  destruct (write_at (replicate (Z.to_nat size) junk) 0 (dir ++ [NUL])) as (p1 & -> & Hz1); [lia|rewrite zlength_app; change (zlength [NUL]) with 1; lia|].
  cbn [mbind outcome_bind]. rewrite Hz0 in Hz1. change (take (Z.to_nat 0) ?l) with (@nil Z) in *. cbn [app] in *. set (b1 := (dir ++ [NUL]) ++ p1) in *.
  destruct (write_at b1 (zlength dir) [SLASH; NUL]) as (p2 & -> & Hz2); [lia|change (zlength [SLASH; NUL]) with 2; lia|]. cbn [mbind outcome_bind].
  assert (take (Z.to_nat (zlength dir)) b1 = dir) as E1 by (unfold b1; rewrite <- app_assoc, to_nat_zlength; by rewrite take_app_length).
  rewrite E1, Hz1 in *. set (b2 := dir ++ [SLASH; NUL] ++ p2) in *.
  assert (zlength (take e n ++ [NUL]) = Z.of_nat e + 1) as Hte by (unfold zlength; rewrite length_app, length_take_le by lia; cbn; lia).
  destruct (write_at b2 (zlength dir + 1) (take e n ++ [NUL])) as (p3 & -> & Hz3); [lia|lia|]. cbn [mbind outcome_bind].
  assert (take (Z.to_nat (zlength dir + 1)) b2 = dir ++ [SLASH]) as E2.
  { unfold b2. change ([SLASH; NUL] ++ p2) with ([SLASH] ++ NUL :: p2). rewrite app_assoc.
    replace (Z.to_nat (zlength dir + 1)) with (length (dir ++ [SLASH])) by (rewrite length_app; unfold zlength; cbn; lia). by rewrite take_app_length. }
  rewrite E2, Hz2 in *. rewrite !zlength_app in Hz3. change (zlength [SLASH]) with 1 in Hz3. change (zlength [NUL]) with 1 in *.
  rewrite zlength_app in Hte. change (zlength [NUL]) with 1 in Hte.
  assert (p3 = []) as -> by (destruct p3 as [|c p3]; [done|rewrite zlength_cons in Hz3; pose proof (zlength_nonneg p3); lia]).
  assert ((dir ++ [SLASH]) ++ (take e n ++ [NUL]) ++ [] = module_path dir n ++ [NUL]) as -> by (unfold module_path; fold e; by rewrite app_nil_r, <- !app_assoc).
  assert (zlength (module_path dir n) = zlength dir + 1 + Z.of_nat e) as Hmp by (unfold module_path; fold e; rewrite zlength_app, zlength_cons; lia).
  rewrite <- Hmp. rewrite (aset_snoc (module_path dir n) NUL [] NUL), app_nil_r. cbn [mbind outcome_bind].
  pose proof (cstr_entry [] (module_path dir n) [] (module_path_text _ _ Hd Hn)) as Hc. cbn [app length] in Hc. rewrite Hc.
  assert (zlength (take e n) <= zlength n) as Htn by (unfold zlength in *; rewrite length_take; lia).
  destruct (insertinorder_spec a es (module_path dir n) s Hr Ht (module_path_text _ _ Hd Hn)) as (a' & -> & Ha').
  - unfold module_path. by destruct dir.
  - lia.
  - cbn. by exists a'.
Qed.

(** *** Directories *)

(** The room the names of a directory take at most. *)
Definition dir_room (dir : list Z) (names : list (list Z)) : Z := foldr (fun n k => zlength dir + zlength n + 2 + k) 0 names.

Lemma dir_room_nonneg dir names : 0 <= dir_room dir names.
Proof. induction names as [|n names IH]; cbn; [done|]. pose proof (zlength_nonneg dir). pose proof (zlength_nonneg n). unfold dir_room in IH. lia. Qed.

Lemma module_path_size dir n : 1 + zlength (module_path dir n) <= zlength dir + zlength n + 2.
Proof. unfold module_path. rewrite zlength_app, zlength_cons. unfold zlength. rewrite length_take. lia. Qed.

Lemma readdir_spec dir names : forall a es s,
  represents a es -> Forall text es -> text dir -> Forall text names -> zlength (vec es) + dir_room dir names < 2 ^ 64 ->
  exists a', readdir_loop has_memory junk dir names a s = Ret (0, a', s) /\ represents a' (dir_names dir names es) /\ Forall text (dir_names dir names es).
Proof.
  induction names as [|n names IH]; intros a es s Hr Ht Hd Hn Hb; cbn [readdir_loop dir_names]; [by exists a|].
  apply Forall_cons in Hn as [Hn Hns]. cbn [dir_room foldr] in Hb. fold (dir_room dir names) in Hb. pose proof (dir_room_nonneg dir names).
  destruct (hd0 n =? DOT); cbn [negb].
  - apply IH; [done..|]. pose proof (zlength_nonneg dir). pose proof (zlength_nonneg n). lia.
  - destruct (insertdir_spec a es dir n s Hr Ht Hd Hn) as (a1 & -> & Hr1); [lia|]. cbn [mbind outcome_bind]. change (negb (0 =? 0)) with false. cbn iota.
    apply IH; [done| |done|done|].
    + apply Forall_forall. intros x [->|Hx]%insert_name_in; [by apply module_path_text|]. rewrite Forall_forall in Ht. by apply Ht.
    + pose proof (insert_name_size (module_path dir n) es). pose proof (module_path_size dir n). lia.
Qed.

Section calls.
Context (opendir : list Z -> option (list (list Z))) {D : Type} (func : list Z -> D -> Z * D).

Lemma file_loop_spec rest : forall fuel a filename pre d,
  represents a (pre ++ rest) -> Forall text rest ->
  argz_next a filename = Ret (if is_null (vec rest) then None else Some (zlength (vec pre))) -> (length rest < fuel)%nat ->
  file_loop func fuel a filename d = Ret (visit_files func rest d).
Proof.
  induction rest as [|x rest IH]; intros [|fuel] a filename pre d Hr Ht Hn Hf; cbn [length] in Hf; try lia; cbn [file_loop visit_files]; rewrite Hn, is_null_vec; cbn [mbind outcome_bind]; [done|].
  apply Forall_cons in Ht as [Hx Ht]. rewrite (entry_at _ _ _ _ Hr Hx). destruct (func x d) as [r d']. destruct (negb (r =? 0)); [done|].
  apply (IH fuel a _ (pre ++ [x])); [by rewrite <- app_assoc|done|by apply argz_next_spec|lia].
Qed.

(** The files of a directory that can be opened, sorted; none of one that cannot. *)
Definition files_in (dir : list Z) : list (list Z) := default [] ((fun names => dir_names dir names []) <$> opendir dir).

Definition dir_fits (dir : list Z) : Prop :=
  text dir /\ dir <> [] /\ last dir <> Some SLASH
  /\ forall names, opendir dir = Some names -> Forall text names /\ dir_room dir names < 2 ^ 64.

Lemma callback_spec dir d s :
  dir_fits dir ->
  foreachfile_callback has_memory junk opendir func dir d s = Ret (fst (visit_files func (files_in dir) d), snd (visit_files func (files_in dir) d), s).
Proof.
  intros (Ht & Hne & Hl & Hn). unfold foreachfile_callback, list_files_by_dir, files_in. rewrite is_null_false by done. cbn [negb assert_ mbind outcome_bind].
  assert (negb (default NUL (last dir) =? SLASH) = true) as ->.
  { apply negb_true_iff, Z.eqb_neq. destruct (last dir); cbn; [congruence|done]. }
  cbn [assert_ mbind outcome_bind]. destruct (opendir dir) as [names|] eqn:E; cbn [mbind outcome_bind]; [|done]. destruct (Hn names eq_refl) as [Htn Hr].
  destruct (readdir_spec dir names (Argz [] 0) [] s) as (a & -> & Ha & Hta); [|constructor|done|done|change (zlength (vec [])) with 0; lia|].
  { exists []. by split_and!. }
  cbn [mbind outcome_bind]. change (negb (0 =? 0)) with false. cbn iota. cbn [fmap option_fmap option_map default from_option id].
  set (es := dir_names dir names []) in *. destruct (is_null (blk a)) eqn:En.
  - destruct es as [|x es]; [done|]. destruct Ha as (t & Eb & _). rewrite Eb, vec_cons in En. by destruct x.
  - rewrite (file_loop_spec es _ a None []); [by destruct (visit_files func es d)|done|done|by apply first_entry|].
    destruct Ha as (t & -> & _). rewrite length_app. pose proof (vec_length es). lia.
Qed.

Lemma visit_dirs ds d s :
  Forall dir_fits ds ->
  visit (foreachfile_callback has_memory junk opendir func) ((fun dir => name_in dir []) <$> ds) d s
  = Ret (fst (visit_files func (concat (files_in <$> ds)) d), snd (visit_files func (concat (files_in <$> ds)) d), s).
Proof.
  assert (Happ : forall fs gs d, visit_files func (fs ++ gs) d =
    if negb (fst (visit_files func fs d) =? 0) then visit_files func fs d else visit_files func gs (snd (visit_files func fs d))).
  { intros fs gs. induction fs as [|f fs IH]; intros d0; [done|]. cbn [app visit_files]. destruct (func f d0) as [r d1]. destruct (negb (r =? 0)) eqn:E; [cbn [fst]; by rewrite E|]. apply IH. }
  intros Hd. revert d. induction Hd as [|dir ds Hdir Hds IH]; intros d; [done|]. cbn [fmap list_fmap visit concat]. change (name_in dir []) with dir.
  rewrite callback_spec by done. cbn [mbind outcome_bind]. rewrite Happ. destruct (negb (fst (visit_files func (files_in dir) d) =? 0)); [done|]. apply IH.
Qed.

(** C26: Every module of a search path is visited once.  [lt_dlforeachfile] calls its function for
    the files of the directories of the path, in the order of the path, up to the first call with a result that
    is not zero, which it returns.  In each directory these are the names of the files that are not hidden,
    without version number and extension, each name once and in the order of
    [strcmp]; a directory that cannot be opened has none.  No error is left, and no buffer is
    left for names of any length. *)
Theorem modules_visited (path : list Z) (user var1 var2 : option (list Z)) (sys : list Z) (d : D) (s : errors) :
  text path -> Forall no_root (split_on PATHSEP path) -> dirs path <> [] -> zlength path + 2 < 2 ^ 64 ->
  (forall dir names, dir ∈ dirs path -> opendir dir = Some names -> Forall text names /\ dir_room dir names < 2 ^ 64) ->
  let fs := concat (files_in <$> dirs path) in
  lt_dlforeachfile has_memory junk opendir func user var1 var2 sys (Some path) d s = Ret (fst (visit_files func fs d), snd (visit_files func fs d), s)
  /\ forall dir, dir ∈ dirs path -> StronglySorted before_name (files_in dir)
       /\ forall x, x ∈ files_in dir <-> exists names n, opendir dir = Some names /\ n ∈ names /\ hd0 n <> DOT /\ x = module_path dir n.
Proof.
  intros Ht Hr Hd Hl Hok fs. split.
  - cbn [lt_dlforeachfile]. rewrite (foreach_spec has_memory junk (2 ^ 64 - 1) (fun n _ => memory n));
      [|done|done|done|constructor|change (zlength []) with 0; lia|lia].
    apply visit_dirs. pose proof (dirs_ok path Ht Hr) as Hdirs. rewrite Forall_forall in Hdirs |- *. intros dir Hin.
    destruct (Hdirs dir Hin) as ([Htd _] & Hne & Hls). split; [done|]. split; [done|]. split; [done|]. intros names. by apply Hok.
  - intros dir Hin. unfold files_in. destruct (opendir dir) as [names|]; cbn.
    + split; [apply dir_names_sorted; constructor|]. intros x. rewrite dir_names_in. split.
      * intros [?%elem_of_nil|(n & ? & ? & ?)]; [done|]. by exists names, n.
      * intros (ns & n & [= <-] & ? & ? & ?). right. by exists n.
    + split; [constructor|]. intros x. split; [by intros ?%elem_of_nil|]. by intros (? & ? & [=] & _).
Qed.

End calls.
End proofs.

Example end_offsets :
  (fun n => take (end_offset n) n) <$> [str "libfoo.la"; str "libfoo.so"; str "libfoo.so.1.0.0"; str "libfoo2.so"; str "foo"; str "1.2"; str "v1"]
  = [str "libfoo"; str "libfoo"; str "libfoo"; str "libfoo2"; str "foo"; str "1"; str "v1"].
Proof. reflexivity. Qed.

(** A directory with the files of two modules; the names are collected. *)
Definition demo_opendir (dir : list Z) : option (list (list Z)) :=
  if decide (dir = str "/usr/lib/proxy")
  then Some [str "."; str ".."; str "libproxymap-rowa.so.0.0.0"; str "libproxymap-rowa.la"; str "libproxymap-rowa.so"; str "libproxymap-first.la"]
  else None.

Lemma modules_visited_witness :
  lt_dlforeachfile (fun _ => true) 170 demo_opendir (fun f d => (0, d ++ [f])) None None None [] (Some (str "/none:/usr/lib/proxy/")) [] errors0
  = Ret (0, [str "/usr/lib/proxy/libproxymap-first"; str "/usr/lib/proxy/libproxymap-rowa"], errors0).
Proof.
  destruct (modules_visited (fun _ => true) 170 (fun _ => eq_refl) demo_opendir (fun f d => (0, d ++ [f])) (str "/none:/usr/lib/proxy/") None None None [] [] errors0)
    as [E _].
  - apply (bool_decide_unpack _). vm_compute. exact I.
  - apply (bool_decide_unpack (Forall (fun e => e <> [] -> strip e <> []) _)). vm_compute. exact I.
  - vm_compute. discriminate.
  - reflexivity.
  - intros dir names _. unfold demo_opendir. case_decide as Hd; [|discriminate]. intros [= <-]. subst dir. split.
    + repeat constructor; discriminate.
    + vm_compute. reflexivity.
  - etransitivity; [exact E|]. vm_compute. reflexivity.
Defined.
