(* ===== verification/Dirent.v ===== *)
(** * Directories of Windows (src/libltdl/lt__dirent.c)

    [opendir], [readdir] and [closedir] for systems without them, on top of the search
    functions of Windows, which are parameters.  Patterns and names go through buffers of
    [LT_FILENAME_MAX] bytes, with the bounded copies of Argz.v. *)

From S2P Require Import Prelude.
From S2P Require Import CString.
From S2P Require Import Argz.
From S2P Require Import SearchPath.
Local Open Scope Z_scope.

Definition LT_FILENAME_MAX : Z := 2048.
Definition BACKSLASH : list Z := [92].

(** [DIR]: the files a search has not given yet ([hSearch]), the one it gave last
    ([Win32FindData]), and the buffer [d_name]. *)
Record DIR := Dir { hSearch : list (list Z); cFileName : list Z; firsttime : bool; d_name : list Z }.

Section dirent.
(** The files of a pattern; [None] stands for INVALID_HANDLE_VALUE. *)
Context (FindFirstFile : list Z -> option (list Z * list (list Z))) (has_memory : bool).

Definition closedir (entry : option DIR) : outcome unit := match entry with Some _ => Ret tt | None => Undef end.

(** [stack] and [heap_junk]: what is in new buffers. *)
Definition opendir (stack heap_junk : list Z) (path : list Z) : outcome (option DIR) :=
  '(n, file_spec) ← lt_strlcpy stack path LT_FILENAME_MAX;
  if LT_FILENAME_MAX <=? n then Ret None
  else
    '(n, file_spec) ← lt_strlcat file_spec BACKSLASH LT_FILENAME_MAX;
    if LT_FILENAME_MAX <=? n then Ret None
    else if negb has_memory then Ret None
    else
      match FindFirstFile (cstr file_spec 0) with
      | Some (f, fs) => Ret (Some (Dir fs f true heap_junk))
      | None =>
          '(n, file_spec) ← lt_strlcat file_spec (BACKSLASH ++ str "*.*") LT_FILENAME_MAX;
          if n <? LT_FILENAME_MAX then
            match FindFirstFile (cstr file_spec 0) with
            | Some (f, fs) => Ret (Some (Dir fs f true heap_junk))
            | None => Ret None
            end
          else Ret None
      end.

(** The name, and the directory. *)
Definition readdir (entry : DIR) : outcome (option (list Z) * DIR) :=
  match (if firsttime entry then Some (cFileName entry, hSearch entry) else match hSearch entry with f :: fs => Some (f, fs) | [] => None end) with
  | None => Ret (None, entry)
  | Some (f, fs) =>
      '(n, b) ← lt_strlcpy (d_name entry) f LT_FILENAME_MAX;
      let entry := Dir fs f false b in
      if LT_FILENAME_MAX <=? n then Ret (None, entry) else Ret (Some (cstr b 0), entry)
  end.

(** The loop of the callers *)
Fixpoint read_all (fuel : nat) (entry : DIR) : outcome (list (list Z)) :=
  match fuel with
  | O => Undef
  | S fuel => '(f, entry) ← readdir entry; match f with Some f => fs ← read_all fuel entry; Ret (f :: fs) | None => Ret [] end
  end.

(** ** Properties *)

Definition short (f : list Z) : Prop := text f /\ zlength f < LT_FILENAME_MAX.

Lemma strlcpy_short b f : zlength b = LT_FILENAME_MAX -> text f ->
  exists b', lt_strlcpy b f LT_FILENAME_MAX = Ret (zlength f, b') /\ zlength b' = LT_FILENAME_MAX
             /\ (zlength f < LT_FILENAME_MAX -> exists rest, b' = f ++ NUL :: rest).
Proof.
  intros Hb Hf. destruct b as [|c rest]; [done|]. destruct (strl_bounded [] f rest LT_FILENAME_MAX) as (_ & E & Hfit); [constructor|done| |].
  { rewrite zlength_cons in Hb. cbn [app]. rewrite zlength_cons. change (zlength []) with 0. unfold LT_FILENAME_MAX in *. lia. }
  rewrite (E eq_refl c). set (fits := take _ f) in *. eexists. split; [done|]. change (zlength []) with 0 in Hfit. split.
  - rewrite zlength_cons in Hb. assert (zlength fits <= zlength rest) as Hl.
    { unfold fits. change (zlength []) with 0. unfold zlength in *. rewrite length_take. unfold LT_FILENAME_MAX in *. lia. }
    rewrite zlength_app, zlength_cons. unfold zlength in *. rewrite length_drop. lia.
  - intros Hs. rewrite (proj1 Hfit) by lia. by eexists.
Qed.

Lemma strlcat_short t x rest :
  text t -> text x -> zlength (t ++ NUL :: rest) = LT_FILENAME_MAX ->
  exists rest', lt_strlcat (t ++ NUL :: rest) x LT_FILENAME_MAX = Ret (zlength (t ++ x), take (Z.to_nat (LT_FILENAME_MAX - 1)) (t ++ x) ++ NUL :: rest')
    /\ zlength (take (Z.to_nat (LT_FILENAME_MAX - 1)) (t ++ x) ++ NUL :: rest') = LT_FILENAME_MAX.
Proof.
  intros Ht Hx Hz. assert (zlength t < LT_FILENAME_MAX) as Hl by (rewrite zlength_app, zlength_cons in Hz; pose proof (zlength_nonneg rest); lia).
  destruct (strl_bounded t x rest LT_FILENAME_MAX Ht Hx ltac:(lia)) as (-> & _ & _). eexists. rewrite zlength_app. 
  assert (take (Z.to_nat (LT_FILENAME_MAX - 1)) (t ++ x) = t ++ take (Z.to_nat (LT_FILENAME_MAX - 1 - zlength t)) x) as E.
  { rewrite take_app, take_ge by (unfold zlength in *; lia). f_equal. f_equal. unfold zlength in *. lia. }
  rewrite E, <- app_assoc. split; [done|]. rewrite !zlength_app, !zlength_cons in *. unfold zlength in *. rewrite length_drop, length_take. lia.
Qed.

(** The files of a directory: of the pattern with a backslash, or else of that with stars;
    none if these do not fit. *)
Definition found (path : list Z) : option (list Z * list (list Z)) :=
  let p1 := path ++ BACKSLASH in
  let p2 := p1 ++ BACKSLASH ++ str "*.*" in
  if LT_FILENAME_MAX <=? zlength p1 then None
  else match FindFirstFile p1 with Some r => Some r | None => if zlength p2 <? LT_FILENAME_MAX then FindFirstFile p2 else None end.

Lemma opendir_spec stack heap_junk path :
  zlength stack = LT_FILENAME_MAX -> text path -> has_memory = true ->
  opendir stack heap_junk path = Ret ((fun r => Dir (snd r) (fst r) true heap_junk) <$> found path).
Proof.
  intros Hs Ht Hm. unfold opendir, found. destruct (strlcpy_short stack path Hs Ht) as (b & -> & Hzb & Hb). cbn [mbind outcome_bind].
  assert (Hz1 : zlength (path ++ BACKSLASH) = zlength path + 1) by (by rewrite zlength_app).
  destruct (Z.leb_spec LT_FILENAME_MAX (zlength path)) as [Hl|Hl]; [by rewrite (proj2 (Z.leb_le _ _)) by lia|]. destruct (Hb Hl) as [rest ->].
  destruct (strlcat_short path BACKSLASH rest Ht ltac:(by repeat constructor) Hzb) as (r1 & -> & Hz2). cbn [mbind outcome_bind].
  destruct (Z.leb_spec LT_FILENAME_MAX (zlength (path ++ BACKSLASH))) as [Hl1|Hl1]; [done|]. rewrite Hm. cbn [negb].
  assert (forall t r, text t -> cstr (t ++ NUL :: r) 0 = t) as Hc by (intros t r Htt; by apply (cstr_entry [])).
  assert (text (path ++ BACKSLASH)) as Ht1 by (apply Forall_app; split; [done|by repeat constructor]).
  assert (take (Z.to_nat (LT_FILENAME_MAX - 1)) (path ++ BACKSLASH) = path ++ BACKSLASH) as E1 by (apply take_ge; unfold zlength in *; lia).
  rewrite E1 in *. rewrite Hc by done. destruct (FindFirstFile (path ++ BACKSLASH)) as [[f fs]|]; [done|].
  assert (text (BACKSLASH ++ str "*.*")) as Htx by (by repeat constructor).
  destruct (strlcat_short (path ++ BACKSLASH) (BACKSLASH ++ str "*.*") r1 Ht1 Htx Hz2) as (r2 & -> & _). cbn [mbind outcome_bind].
  destruct (Z.ltb_spec (zlength ((path ++ BACKSLASH) ++ BACKSLASH ++ str "*.*")) LT_FILENAME_MAX) as [Hl2|Hl2]; [|done].
  rewrite take_ge by (unfold zlength in *; lia). rewrite Hc by (by apply Forall_app). by destruct (FindFirstFile _) as [[f fs]|].
Qed.

Lemma read_all_spec fs : forall fuel f b,
  zlength b = LT_FILENAME_MAX -> Forall short fs -> (length fs < fuel)%nat -> read_all fuel (Dir fs f false b) = Ret fs.
Proof.
  induction fs as [|g fs IH]; intros [|fuel] f b Hb Hs Hf; cbn [length] in Hf; try lia; cbn [read_all]; unfold readdir; cbn [firsttime hSearch d_name mbind outcome_bind]; [done|].
  apply Forall_cons in Hs as [[Ht Hl] Hs]. destruct (strlcpy_short b g Hb Ht) as (b' & -> & Hb' & Hr). cbn [mbind outcome_bind].
  rewrite (proj2 (Z.leb_gt _ _)) by lia. cbn [mbind outcome_bind]. rewrite IH by (done || lia). cbn [mbind outcome_bind]. destruct (Hr Hl) as [rest ->].
  do 2 f_equal. by apply (cstr_entry []).
Qed.

(** A directory is read as it is: [readdir] gives every file of the search once, the first one
    included, and then NULL; patterns that do not fit give no directory. *)
Theorem directory_read stack heap_junk path :
  zlength stack = LT_FILENAME_MAX -> zlength heap_junk = LT_FILENAME_MAX -> text path -> has_memory = true ->
  match found path with
  | None => opendir stack heap_junk path = Ret None
  | Some (f, fs) => Forall short (f :: fs) ->
      exists entry, opendir stack heap_junk path = Ret (Some entry) /\ read_all (S (S (length fs))) entry = Ret (f :: fs)
  end.
Proof.
  intros Hs Hh Ht Hm. rewrite (opendir_spec stack heap_junk path Hs Ht Hm). destruct (found path) as [[f fs]|]; [|done].
  intros [[Htf Hl] Hfs]%Forall_cons. eexists. split; [done|]. cbn [fst snd]. remember (S (length fs)) as k eqn:Ek. cbn [read_all]. unfold readdir. cbn [firsttime cFileName hSearch d_name].
  destruct (strlcpy_short heap_junk f Hh Htf) as (b' & -> & Hb' & Hr). cbn [mbind outcome_bind]. rewrite (proj2 (Z.leb_gt _ _)) by lia. cbn [mbind outcome_bind].
  rewrite read_all_spec by (done || lia). cbn [mbind outcome_bind]. destruct (Hr Hl) as [rest ->]. do 2 f_equal. by apply (cstr_entry []).
Qed.

End dirent.
